(* ===== verification/_CoqProject ===== *)
-Q . S2P
Prelude.v
Layout.v
Locks.v
Prog.v
FileSystem.v
FsLocking.v
FsModel.v
FsStore.v
FsPaths.v
FsRun.v
FsSpec.v
FsHandlers.v
FsDirs.v
FsInvariant.v
FsTree.v
FsBoot.v
FsFree.v
FsCorrect.v
FsConcurrent.v
FsChanges.v
FsRely.v
FsSteps.v
FsEffects.v
FsDirEffects.v
FsPool.v
FsLinear.v
FsLive.v
Request.v
Network.v
Server.v
Connections.v
ConnCorrect.v
ConnLive.v
ConnAlone.v
Threads.v
ThreadsInv.v
ThreadsOps.v
ThreadsFrame.v
ThreadsCorrect.v
Pager.v
PagerInv.v
PagerCow.v
PagerFault.v
PagerMap.v
PagerString.v
PagerFork.v
PagerExit.v
PagerStore.v
PagerCorrect.v
Pizza.v
PizzaMatch.v
PizzaInv.v
PizzaCorrect.v
