(* ===== verification/Prelude.v ===== *)
(** * Verification of the operating-system projects

    The repository holds four programs of an operating-systems course: a network
    file server ([src/filesys/]), a library of user threads ([src/threadlib/]),
    a virtual-memory pager ([src/vmpager/]) and an application of the thread
    library, a dispatcher of pizzas ([src/testapp/]).  This library models their
    C++ code as Rocq definitions, which are executable, and proves what makes
    each of them correct.  Every part has a model (data, one definition for each
    function of the code), an invariant, an abstract specification, and a file
    [...Correct] (or the end of [Network] and of the files of the connections) with
    the theorems, each with a concrete run as its witness.

    ** The file server (from [Layout] to [ConnAlone])

    - [Layout]: [fs_param.h], [fs_server.h]: inodes, directory blocks, their bytes
      on the disk, [strcmp] and [strcpy] on them; the disk is a class with the
      contract of [disk_readblock] and [disk_writeblock], and has an instance.
    - [Locks]: the reference-counted table of [boost::shared_mutex] of
      [file_system.cpp]; Module [LockTable] is the code, [InodeLocks] the
      interface the handlers use; the table is proved to refine the holdings.
    - [Prog], [FileSystem]: the handlers, path helpers and the constructor of
      class [FileSystem] as programs over disk, free list and locks, with C++
      exceptions.  [FsLocking] reads them against arbitrary other threads: which
      locks are held at every access.
    - [FsModel] (stores and their well-formedness), [FsStore], [FsPaths],
      [FsRun], [FsSpec] (requests on stores), [FsHandlers], [FsDirs] (the
      handlers implement them), [FsInvariant], [FsTree] (stores as trees of
      names), [FsBoot] (the breadth-first search of the constructor), [FsFree]
      (a delete puts every block on the free list that leaves the tree),
      [FsCorrect]: write, create, delete and read are the operations on trees,
      or fail with the error the tree calls for; locks are released, but for
      one exit of [handle_create], on an empty free list.
    - [FsConcurrent]: requests that run at the same time, as threads that take
      turns at the accesses to disk, free list and lock table; taking a lock is
      two turns, as in the code.  Every interleaving obeys the lock protocol; no
      lock outlives its request, but for that one exit.
    - [FsChanges] (what an operation may change of a well-formed store, seen from
      paths and locks), [FsRely] (what a thread may rely on while it holds its
      locks; threads that are still to take effect, [pending], and threads that
      have, [settled]), [FsSteps], [FsEffects] and [FsDirEffects] (every handler
      takes effect at one access), [FsPool] (the invariant of a pool of threads
      beside an atomic file system) and [FsLinear]: requests that run at the same
      time are linearizable, and none of them crashes.  [FsLive]: they never wait
      for each other in a circle, and all are answered, unless a create found no
      free block and kept its lock.
    - [Request]: parsing a request ([network_server.cpp]), with [std::stoul];
      printing and parsing are inverse; everything accepted is in bounds.
    - [Network]: receiving, dispatching and answering a request over a socket
      ([network_server.cpp], [socket_raii.cpp]); whatever a client does, the
      server survives, and a well-formed request is answered.

    - [Server]: [main.cpp], the constructor and [run] of [NetworkServer]: from the
      command line to a server that serves every connection, over the system
      calls of a listening socket; here one connection at a time.
    - [Connections]: all connections at the same time.  The thread of a connection
      is the place in [handle_request] where it stands, and a turn takes it over
      one [recv], one [send] or one access of [FsConcurrent].  [ConnCorrect]:
      what all of them do is an interleaving of requests, so that [FsLinear]
      speaks for the whole server from [main] on: every client that is done got
      the answer its request has in the linear order, or was at fault.
      [ConnLive]: no deadlock, and every connection comes to its end, as long as
      no create finds the disk full, and but for the connections whose clients
      fall silent: their threads wait in [recv] or [send] for ever, without
      holding up the others.  [ConnAlone]: a connection that nobody
      interrupts does what the computation [handle_request] of [Network] does.

    The handlers of [Network] call those of [FileSystem] with the command that
    [Request] returns; [request_end_to_end] composes all layers, from the bytes
    of a connection to the tree.

    ** The thread library (from [Threads] to [ThreadsCorrect])

    [Threads] has one definition for each operation of [thread.cpp], [mutex.cpp],
    [cv.cpp], [cpu.cpp], [utils.cpp] and [os_guard.cpp].  An operation runs under
    the guard with interrupts disabled, so it is a function on the state; a step
    ([event]) is one operation of one CPU, called by whatever the user's thread
    does, by a timer interrupt, or when an inter-processor interrupt wakes the
    CPU.  A saved context is the place behind the call that saved it ([point]).
    [ThreadsInv], [ThreadsOps] and [ThreadsFrame] carry the invariant;
    [ThreadsCorrect] shows that no operation fails, that every thread is in one
    place, mutual exclusion and FIFO hand-over of mutexes, [wait], [join],
    that no CPU sleeps next to work, that ready threads get a CPU, and that
    [broadcast] is a sequence of [signal]s.

    ** The pager (from [Pager] to [PagerCorrect])

    [Pager] models [vm_pager.cpp] and [utils.cpp]: a heap of blocks shared by
    page table entries, with the clock queue, free physical pages, swap blocks,
    the table of file blocks, and the six entry points.  Its invariant is in
    [PagerInv]; [view] is the abstract arena of a process: for every page,
    private data or a file block.  [PagerCow], [PagerFault], [PagerMap],
    [PagerString], [PagerFork] and [PagerExit] say what each entry point does
    to the arenas; [PagerStore] adds the loads and stores of applications with
    the MMU of [vm_pager.h].  [PagerCorrect]: every sequence of calls that obeys
    the protocol runs without a failed assertion; faults, maps, forks and exits
    do what [vm_pager.h] promises; stores are isolated (copy-on-write);
    eviction changes nothing that a process can see.

    ** The pizza dispatcher (from [Pizza] to [PizzaCorrect])

    [Pizza] models [main.cpp], [utils.cpp], [customer.cpp] and [driver.cpp]: the
    objects, and the three kinds of threads as steps between the places where
    they lock, unlock and wait.  [PizzaMatch]: [match_delivery] finds the first
    of the closest pairs; files of requests.  [PizzaInv]: the calls of the
    library are those of an abstract office.  [PizzaCorrect]: no step is
    undefined, every run ends, and then everyone has been served and has paid.

    ** Machine integers, fuel and bounds

    Unsigned 32-bit integers are [Z], with [wrap32] where the code wraps.  Fuel:
    the breadth-first search gets one round for each of the [FS_DISKSIZE]
    blocks, since it meets every inode once; the loops of the network handlers
    get as many rounds as the longest message and the block, which the theorems
    require as a lower bound; a scan of the clock has ended after one turn;
    reading a file name takes at most 2^25 rounds, since the arena has 2^24
    bytes; [read_requests] consumes a character in every round; a customer's
    loop waits or returns in its second round.  In each case the result with
    that fuel is proved, not assumed.  The pager's theorems assume
    between 2 and 2^16 physical pages (beyond, [location * VM_PAGESIZE]
    overflows), the dispatcher's coordinates below 2^30 (beyond, [calc_dist]
    does).

    ** What is not modelled

    - Failing allocations ([std::bad_alloc]), the memory of stacks, exceptions of
      user functions; the contents of contexts ([makecontext], [swapcontext]).
    - In the file server, the scheduler: that a waiting thread is not overtaken
      for ever by requests that come in later depends on it and on
      [boost::shared_mutex].  A thread switches at the accesses to sockets, disk,
      free list and locks only; the code between them touches nothing shared.
      Connections do not share a socket, since [accept] gives each its own.
    - Parts of the course's infrastructure, which the repository does not hold:
      the disk, sockets, files and physical memory, the MMU, the functions of
      [pizza.h], CPUs and interrupts.  They are parameters with their
      documented behaviour, or recorded calls.
    - Calls of [recv] and [send] that never return, but for [ConnLive]: elsewhere
      such a call is a turn that is not taken, or a request that is not at its end.
    - What the pager does once [num_swap_blocks] has wrapped.  In a process that
      was just created it is garbage in the code, so the garbage is part of the
      event that creates a process.  The theorems about sequences of calls hold as
      long as garbage and mapped swap blocks together stay below 2^32 ([slack] bounds
      the garbage); beyond, [uninitialised_counter_wraps] in [PagerCorrect] is a
      run in which a fork takes the front of an empty queue.
    - Files that have several names: two different names are different files
      ([FilesSpec]).  A pointer to a name may be any 64-bit address.
    - Tests, [race.cpp], build files, and the client's and the applications'
      headers ([fs_client.h], [vm_app.h]), which declare code from elsewhere.

    ** This file

    Notations, automation and generic lemmas that all parts share. *)
From Stdlib Require Export ZArith Lia.
From Stdlib Require Export Ascii String.
From stdpp Require Export base list gmap strings.

(** ** Scope and automation *)

Declare Scope proj_scope.
Delimit Scope proj_scope with proj.

(** The lemmas that close the common side conditions of the components:
    lengths of encoded structures, ranges of machine integers. *)
Create HintDb proj.
Create Rewrite HintDb proj.

(** Split every [match] on a variable-free scrutinee of a hypothesis that
    equates a computation with a value, and discard the impossible branches. *)
Ltac case_hyp H :=
  repeat (case_match; simplify_eq/=; try done).

(** ** Characters, byte strings and fixed-width integers

    A C++ [std::string], a [char] array and a disk block are all lists of
    8-bit characters; unsigned 32-bit integers are [Z] kept in range. *)

Abbreviation bytes := (list ascii).

Definition NUL : ascii := Ascii.zero.

(** A string literal as a byte string. *)
Definition chars (s : string) : bytes := String.list_ascii_of_string s.

(** The length of a list as an integer (C++ [size_t] values are compared with
    signed and unsigned constants all over the code). *)
Definition len {A} (l : list A) : Z := Z.of_nat (length l).

Definition wrap32 (z : Z) : Z := (z `mod` 2 ^ 32)%Z.

Definition is_u32 (z : Z) : Prop := (0 ≤ z < 2 ^ 32)%Z.

Definition Z_of_ascii (c : ascii) : Z := Z.of_N (N_of_ascii c).
Definition ascii_of_Z (z : Z) : ascii := ascii_of_N (Z.to_N (z `mod` 256)%Z).

Definition is_nul (c : ascii) : bool := Ascii.eqb c NUL.

Lemma is_nul_true c : is_nul c = true ↔ c = NUL.
Proof. apply Ascii.eqb_eq. Qed.

Lemma is_nul_false c : is_nul c = false ↔ c ≠ NUL.
Proof. apply Ascii.eqb_neq. Qed.

Lemma wrap32_small z : is_u32 z → wrap32 z = z.
Proof. intros. by apply Z.mod_small. Qed.

Lemma wrap32_u32 z : is_u32 (wrap32 z).
Proof. apply Z.mod_pos_bound. lia. Qed.

Lemma Z_of_ascii_bound c : (0 ≤ Z_of_ascii c < 256)%Z.
Proof. unfold Z_of_ascii. pose proof (N_ascii_bounded c). lia. Qed.

Lemma ascii_of_Z_of_ascii c : ascii_of_Z (Z_of_ascii c) = c.
Proof.
  unfold ascii_of_Z. pose proof (Z_of_ascii_bound c). rewrite Z.mod_small by lia.
  unfold Z_of_ascii. rewrite N2Z.id. apply ascii_N_embedding.
Qed.

Lemma Z_of_ascii_of_Z z : Z_of_ascii (ascii_of_Z z) = (z `mod` 256)%Z.
Proof.
  unfold ascii_of_Z, Z_of_ascii. pose proof (Z.mod_pos_bound z 256 ltac:(lia)).
  rewrite N_ascii_embedding; [rewrite Z2N.id; lia|]. lia.
Qed.

(** ** Generic lemmas on lists *)

Lemma len_nonneg {A} (l : list A) : (0 ≤ len l)%Z.
Proof. unfold len. lia. Qed.

Lemma take_app_exact {A} (l k : list A) n : length l = n → take n (l ++ k) = l.
Proof. intros <-. apply take_app_length. Qed.

Lemma drop_app_exact {A} (l k : list A) n : length l = n → drop n (l ++ k) = k.
Proof. intros <-. apply drop_app_length. Qed.

(** Cutting a list into [n] pieces of [w] elements, and gluing them back. *)
Fixpoint chunks {A} (w n : nat) (l : list A) : list (list A) :=
  match n with
  | 0 => []
  | S n' => take w l :: chunks w n' (drop w l)
  end.

Lemma length_chunks {A} w n (l : list A) : length (chunks w n l) = n.
Proof. revert l; induction n; intros l; simpl; auto. Qed.

Lemma chunks_join {A} w n (l : list A) :
  length l = n * w → mjoin (chunks w n l) = l.
Proof.
  revert l; induction n as [|n IH]; intros l Hl; simpl.
  - by apply nil_length_inv in Hl.
  - rewrite IH; [apply take_drop|]. rewrite length_drop. lia.
Qed.

Lemma chunks_width {A} w n (l : list A) :
  length l = n * w → Forall (λ c, length c = w) (chunks w n l).
Proof.
  revert l; induction n as [|n IH]; intros l Hl; simpl; constructor.
  - rewrite length_take. lia.
  - apply IH. rewrite length_drop. lia.
Qed.

Lemma join_chunks {A} w n (ls : list (list A)) :
  length ls = n → Forall (λ c, length c = w) ls → chunks w n (mjoin ls) = ls.
Proof.
  revert ls; induction n as [|n IH]; intros ls Hn Hw.
  - by apply nil_length_inv in Hn as ->.
  - destruct ls as [|c ls]; [done|]. inv Hw. simpl.
    rewrite take_app_exact, drop_app_exact by done. by rewrite IH by auto.
Qed.

Lemma length_join_chunks {A} w (ls : list (list A)) :
  Forall (λ c, length c = w) ls → length (mjoin ls) = length ls * w.
Proof. induction 1; simpl; rewrite ?length_app; lia. Qed.

(** Dropping the first occurrence of an element: multisets as lists. *)
Fixpoint remove_one {A} `{EqDecision A} (x : A) (l : list A) : option (list A) :=
  match l with
  | [] => None
  | y :: l' => if decide (x = y) then Some l' else cons y <$> remove_one x l'
  end.

Lemma remove_one_is_Some {A} `{EqDecision A} (x : A) l :
  is_Some (remove_one x l) ↔ x ∈ l.
Proof.
  induction l as [|y l IH]; simpl.
  - split; [intros [? [=]]|]. by intros ?%elem_of_nil.
  - rewrite elem_of_cons. case_decide; [subst; split; eauto|].
    rewrite fmap_is_Some, IH. intuition congruence.
Qed.

Lemma remove_one_perm {A} `{EqDecision A} (x : A) l k :
  remove_one x l = Some k → l ≡ₚ x :: k.
Proof.
  revert k; induction l as [|y l IH]; intros k; simpl; [done|].
  case_decide; [naive_solver|]. intros (k' & Hk & ->)%fmap_Some.
  rewrite (IH k') by done. constructor.
Qed.

Lemma remove_one_None {A} `{EqDecision A} (x : A) l :
  remove_one x l = None ↔ x ∉ l.
Proof.
  rewrite <-remove_one_is_Some, <-not_eq_None_Some.
  destruct (remove_one x l); naive_solver.
Qed.

#[export] Hint Resolve wrap32_u32 len_nonneg Z_of_ascii_bound : proj.
#[export] Hint Rewrite @length_app @length_take @length_drop @length_fmap
  @length_chunks @length_insert @length_replicate : proj.
