(* ===== verification/Layout.v ===== *)
(** * On-disk data structures and the disk interface

    [filesys/fs_param.h] and [filesys/fs_server.h]: the file-server
    parameters, the two structures a disk block is reinterpreted as
    ([fs_inode] and an array of [fs_direntry]), their byte layout, and the
    interface of the disk that the infrastructure implements.  The layout is
    the one the two [static_assert]s of [fs_server.h] pin down (no padding:
    the 32-bit members are 4-aligned), with little-endian integers.  The C
    string functions the handlers use on the [char] arrays are here too. *)
From S2P Require Import Prelude.

Local Open Scope Z_scope.

(** ** Parameters ([fs_param.h], [fs_server.h], [file_system.h], [utils.h]) *)

Definition FS_BLOCKSIZE : Z := 512.
Definition FS_MAXFILEBLOCKS : Z := 124.
Definition FS_MAXFILENAME : Z := 59.
Definition FS_MAXPATHNAME : Z := 128.
Definition FS_MAXUSERNAME : Z := 10.
Definition FS_DISKSIZE : Z := 4096.

(** [sizeof(fs_direntry)] is 60 characters and one 32-bit integer. *)
Definition sizeof_direntry : Z := FS_MAXFILENAME + 1 + 4.
Definition FS_DIRENTRIES : Z := FS_BLOCKSIZE / sizeof_direntry.

Definition UNDEFINED_BLOCK : Z := FS_DISKSIZE + 1.
Definition ROOT_INODE : Z := 0.

(** ** Records *)

Record fs_direntry := Direntry {
  de_name : bytes;          (* char name[FS_MAXFILENAME + 1] *)
  de_inode_block : Z;       (* uint32_t inode_block, 0 if unused *)
}.

Record fs_inode := Inode {
  ino_type : ascii;         (* char type *)
  ino_owner : bytes;        (* char owner[FS_MAXUSERNAME + 1] *)
  ino_size : Z;             (* uint32_t size *)
  ino_blocks : list Z;      (* uint32_t blocks[FS_MAXFILEBLOCKS] *)
}.

#[export] Instance fs_direntry_eq_dec : EqDecision fs_direntry.
Proof. solve_decision. Defined.
#[export] Instance fs_inode_eq_dec : EqDecision fs_inode.
Proof. solve_decision. Defined.

(** ** Byte layout *)

Definition u32_of_bytes (l : bytes) : Z :=
  match l with
  | a :: b :: c :: d :: _ =>
      Z_of_ascii a + 256 * Z_of_ascii b + 65536 * Z_of_ascii c
      + 16777216 * Z_of_ascii d
  | _ => 0
  end.

Definition bytes_of_u32 (z : Z) : bytes :=
  [ascii_of_Z z; ascii_of_Z (z / 256); ascii_of_Z (z / 65536);
   ascii_of_Z (z / 16777216)].

Definition u32s_of_bytes (n : nat) (l : bytes) : list Z :=
  u32_of_bytes <$> chunks 4 n l.

Definition bytes_of_u32s (zs : list Z) : bytes := mjoin (bytes_of_u32 <$> zs).

Definition decode_inode (b : bytes) : fs_inode :=
  {| ino_type := hd NUL b;
     ino_owner := take 11 (drop 1 b);
     ino_size := u32_of_bytes (drop 12 b);
     ino_blocks := u32s_of_bytes (Z.to_nat FS_MAXFILEBLOCKS) (drop 16 b) |}.

Definition encode_inode (i : fs_inode) : bytes :=
  [ino_type i] ++ ino_owner i ++ bytes_of_u32 (ino_size i)
    ++ bytes_of_u32s (ino_blocks i).

Definition decode_direntry (b : bytes) : fs_direntry :=
  {| de_name := take 60 b; de_inode_block := u32_of_bytes (drop 60 b) |}.

Definition encode_direntry (e : fs_direntry) : bytes :=
  de_name e ++ bytes_of_u32 (de_inode_block e).

(** [fs_direntry tmp_block[FS_DIRENTRIES]] filled by [disk_readblock]. *)
Definition decode_direntries (b : bytes) : list fs_direntry :=
  decode_direntry <$> chunks (Z.to_nat sizeof_direntry) (Z.to_nat FS_DIRENTRIES) b.

Definition encode_direntries (l : list fs_direntry) : bytes :=
  mjoin (encode_direntry <$> l).

(** The values a C object of these types can have. *)
Definition inode_ok (i : fs_inode) : Prop :=
  len (ino_owner i) = FS_MAXUSERNAME + 1 ∧ is_u32 (ino_size i) ∧
  len (ino_blocks i) = FS_MAXFILEBLOCKS ∧ Forall is_u32 (ino_blocks i).

Definition direntry_ok (e : fs_direntry) : Prop :=
  len (de_name e) = FS_MAXFILENAME + 1 ∧ is_u32 (de_inode_block e).

Definition direntries_ok (l : list fs_direntry) : Prop :=
  len l = FS_DIRENTRIES ∧ Forall direntry_ok l.

(** ** C strings *)

(** The characters of a [char] array up to its terminator; [None] when there
    is none, where the C functions read past the array. *)
Fixpoint c_str (a : bytes) : option bytes :=
  match a with
  | [] => None
  | c :: a' => if is_nul c then Some [] else cons c <$> c_str a'
  end.

(** The characters [s.c_str()] shows to a C function: those before the first
    NUL of [s], or all of them. *)
Fixpoint until_nul (s : bytes) : bytes :=
  match s with
  | [] => []
  | c :: s' => if is_nul c then [] else c :: until_nul s'
  end.

(** [strcmp(a, s.c_str()) == 0]: the comparison stops at the first difference,
    so it may be defined even when the array [a] has no terminator. *)
Fixpoint strcmp_eq (a s : bytes) : option bool :=
  match a, s with
  | [], _ => None
  | c :: _, [] => Some (is_nul c)
  | c :: a', x :: s' =>
      if is_nul x then Some (is_nul c)
      else if Ascii.eqb c x then strcmp_eq a' s' else Some false
  end.

(** [s != a] for a [std::string] and a [char] array: [compare] measures the
    array with [strlen] first. *)
Definition string_ne (s a : bytes) : option bool :=
  (λ t, bool_decide (s ≠ t)) <$> c_str a.

(** [strcpy(dst, s.c_str())]; [None] when the array is too short. *)
Definition strcpy (dst s : bytes) : option bytes :=
  let t := until_nul s in
  if len t <? len dst then Some (t ++ [NUL] ++ drop (S (length t)) dst) else None.

(** ** The disk *)

(** [disk_readblock] and [disk_writeblock] are implemented by the
    infrastructure: the model is parametric in the disk.  [None] is the
    documented "asserts on failure". *)
Class Disk (D : Type) := {
  disk_readblock : D → Z → option bytes;
  disk_writeblock : D → Z → bytes → option D;
}.

(** Blocks are numbered from 0 to [FS_DISKSIZE]-1, hold [FS_BLOCKSIZE] bytes,
    and a read returns what was last written. *)
Class DiskSpec (D : Type) `{Disk D} : Prop := {
  disk_read_dom d b : is_Some (disk_readblock d b) ↔ 0 ≤ b < FS_DISKSIZE;
  disk_read_length d b v : disk_readblock d b = Some v → len v = FS_BLOCKSIZE;
  disk_write_dom d b v :
    len v = FS_BLOCKSIZE → is_Some (disk_writeblock d b v) ↔ 0 ≤ b < FS_DISKSIZE;
  disk_read_write d b v d' b' :
    len v = FS_BLOCKSIZE → disk_writeblock d b v = Some d' →
    disk_readblock d' b' = if decide (b = b') then Some v else disk_readblock d b';
}.

(** An in-memory disk, all zero at first. *)
Definition MemDisk : Type := gmap Z bytes.

Definition in_disk (b : Z) : bool := (0 <=? b) && (b <? FS_DISKSIZE).

Definition pad_block (v : bytes) : bytes := resize (Z.to_nat FS_BLOCKSIZE) NUL v.

#[export] Instance MemDisk_disk : Disk MemDisk := {
  disk_readblock d b :=
    if in_disk b then Some (pad_block (default [] ((d : gmap Z bytes) !! b))) else None;
  disk_writeblock d b v :=
    if in_disk b then Some (<[b:=v]> (d : gmap Z bytes)) else None;
}.

Arguments decode_inode : simpl never.
Arguments decode_direntries : simpl never.
Arguments encode_inode : simpl never.
Arguments encode_direntries : simpl never.

(** ** Facts about the byte layout *)

Lemma u32_of_bytes_u32 l : is_u32 (u32_of_bytes l).
Proof.
  unfold is_u32. destruct l as [|a [|b [|c [|d l]]]]; simpl; try lia.
  pose proof (Z_of_ascii_bound a). pose proof (Z_of_ascii_bound b).
  pose proof (Z_of_ascii_bound c). pose proof (Z_of_ascii_bound d). lia.
Qed.

Lemma u32_of_bytes_of_u32 z l : is_u32 z → u32_of_bytes (bytes_of_u32 z ++ l) = z.
Proof.
  unfold is_u32, bytes_of_u32. intros Hz. simpl. rewrite !Z_of_ascii_of_Z.
  Z.div_mod_to_equations. lia.
Qed.

Lemma ascii_of_Z_eq c z : z `mod` 256 = Z_of_ascii c → ascii_of_Z z = c.
Proof.
  intros Hz. rewrite <-(ascii_of_Z_of_ascii c), <-Hz.
  unfold ascii_of_Z. by rewrite Z.mod_mod by lia.
Qed.

Lemma bytes_of_u32_of_bytes l : length l = 4%nat → bytes_of_u32 (u32_of_bytes l) = l.
Proof.
  destruct l as [|a [|b [|c [|d [|]]]]]; try done. intros _. unfold bytes_of_u32. simpl.
  pose proof (Z_of_ascii_bound a). pose proof (Z_of_ascii_bound b).
  pose proof (Z_of_ascii_bound c). pose proof (Z_of_ascii_bound d).
  repeat f_equal; apply ascii_of_Z_eq; Z.div_mod_to_equations; lia.
Qed.

Lemma length_bytes_of_u32s zs : length (bytes_of_u32s zs) = (length zs * 4)%nat.
Proof.
  unfold bytes_of_u32s. rewrite (length_join_chunks 4), length_fmap; [done|].
  apply Forall_fmap, Forall_true. done.
Qed.

Lemma u32s_of_bytes_of_u32s zs :
  Forall is_u32 zs → u32s_of_bytes (length zs) (bytes_of_u32s zs) = zs.
Proof.
  intros Hzs. unfold u32s_of_bytes, bytes_of_u32s.
  rewrite join_chunks; [|by rewrite length_fmap|apply Forall_fmap, Forall_true; done].
  induction Hzs as [|z zs Hz _ IH]; [done|]. rewrite !fmap_cons, IH. f_equal.
  by rewrite <-(app_nil_r (bytes_of_u32 z)), u32_of_bytes_of_u32.
Qed.

Lemma bytes_of_u32s_of_bytes n l :
  length l = (n * 4)%nat → bytes_of_u32s (u32s_of_bytes n l) = l.
Proof.
  intros Hl. unfold bytes_of_u32s, u32s_of_bytes. rewrite <-list_fmap_compose.
  rewrite <-(chunks_join 4 n l) at 2 by done. f_equal.
  rewrite <-(list_fmap_id (chunks 4 n l)) at 2.
  apply list_fmap_ext. intros i c Hc. simpl. apply bytes_of_u32_of_bytes.
  eapply (Forall_lookup_1 _ _ _ _ (chunks_width 4 n l Hl) Hc).
Qed.

Lemma u32s_of_bytes_u32 n l : Forall is_u32 (u32s_of_bytes n l).
Proof. apply Forall_fmap, Forall_true. intros. apply u32_of_bytes_u32. Qed.

Lemma length_u32s_of_bytes n l : length (u32s_of_bytes n l) = n.
Proof. unfold u32s_of_bytes. by rewrite length_fmap, length_chunks. Qed.

Lemma length_encode_inode i : inode_ok i → len (encode_inode i) = FS_BLOCKSIZE.
Proof.
  unfold inode_ok, encode_inode, len, FS_MAXFILEBLOCKS, FS_MAXUSERNAME, FS_BLOCKSIZE.
  intros (Ho & _ & Hb & _). rewrite !length_app, length_bytes_of_u32s. simpl. lia.
Qed.

Lemma u32_of_bytes_app s r : length s = 4%nat → u32_of_bytes (s ++ r) = u32_of_bytes s.
Proof. by destruct s as [|? [|? [|? [|? [|]]]]]. Qed.

(** The members of the structure, at their offsets in the block. *)
Lemma decode_inode_members t o s r :
  length o = 11%nat → length s = 4%nat →
  decode_inode ([t] ++ o ++ s ++ r) =
  Inode t o (u32_of_bytes s) (u32s_of_bytes (Z.to_nat FS_MAXFILEBLOCKS) r).
Proof.
  intros Ho Hs. unfold decode_inode.
  assert (length ([t] ++ o) = 12%nat) as H12 by (rewrite length_app; simpl; lia).
  f_equal.
  - rewrite (drop_app_exact [t]) by done. by apply take_app_exact.
  - rewrite (app_assoc [t] o), drop_app_exact by done. by apply u32_of_bytes_app.
  - rewrite !(app_assoc [t]), (app_assoc ([t] ++ o)).
    rewrite drop_app_exact; [done|]. rewrite length_app, H12. lia.
Qed.

Lemma decode_encode_inode i : inode_ok i → decode_inode (encode_inode i) = i.
Proof.
  destruct i as [t o sz bl].
  unfold inode_ok, len, FS_MAXFILEBLOCKS, FS_MAXUSERNAME; simpl.
  intros (Ho & Hsz & Hb & Hbl). unfold encode_inode; cbn [ino_type ino_owner ino_size ino_blocks].
  rewrite decode_inode_members by (done || lia).
  rewrite <-(app_nil_r (bytes_of_u32 sz)), u32_of_bytes_of_u32 by done.
  replace (Z.to_nat FS_MAXFILEBLOCKS) with (length bl) by (unfold FS_MAXFILEBLOCKS; lia).
  by rewrite u32s_of_bytes_of_u32s.
Qed.

Lemma decode_inode_ok b : len b = FS_BLOCKSIZE → inode_ok (decode_inode b).
Proof.
  unfold len, FS_BLOCKSIZE. intros Hb.
  unfold inode_ok, decode_inode, len; cbn [ino_owner ino_size ino_blocks]. split_and!.
  - rewrite length_take, length_drop. unfold FS_MAXUSERNAME. lia.
  - apply u32_of_bytes_u32.
  - by rewrite length_u32s_of_bytes.
  - apply u32s_of_bytes_u32.
Qed.

Lemma encode_decode_inode b : len b = FS_BLOCKSIZE → encode_inode (decode_inode b) = b.
Proof.
  unfold len, FS_BLOCKSIZE. intros Hb.
  assert (b = [hd NUL b] ++ take 11 (drop 1 b) ++ take 4 (drop 12 b) ++ drop 16 b) as Hsplit.
  { destruct b as [|c b]; [done|]. simpl. f_equal.
    rewrite <-(take_drop 11 b) at 1. f_equal.
    rewrite <-(take_drop 4 (drop 11 b)) at 1. f_equal. by rewrite drop_drop. }
  rewrite Hsplit at 1. rewrite decode_inode_members by (rewrite length_take, length_drop; lia).
  unfold encode_inode; cbn [ino_type ino_owner ino_size ino_blocks].
  rewrite bytes_of_u32_of_bytes by (rewrite length_take, length_drop; lia).
  rewrite bytes_of_u32s_of_bytes by (rewrite length_drop; vm_compute Z.to_nat; lia).
  by rewrite <-Hsplit.
Qed.

Lemma decode_encode_direntry e : direntry_ok e → decode_direntry (encode_direntry e) = e.
Proof.
  destruct e as [n b]. unfold direntry_ok, len, FS_MAXFILENAME; simpl. intros [Hn Hb].
  unfold decode_direntry, encode_direntry; simpl.
  rewrite take_app_exact, drop_app_exact by lia. f_equal.
  rewrite <-(app_nil_r (bytes_of_u32 b)). by apply u32_of_bytes_of_u32.
Qed.

Lemma length_encode_direntry e :
  direntry_ok e → length (encode_direntry e) = Z.to_nat sizeof_direntry.
Proof.
  unfold direntry_ok, encode_direntry, sizeof_direntry, len. intros [Hn _].
  rewrite length_app. simpl. lia.
Qed.

Lemma length_encode_direntries l :
  direntries_ok l → len (encode_direntries l) = FS_BLOCKSIZE.
Proof.
  intros [Hl Hok]. unfold len, encode_direntries.
  rewrite (length_join_chunks (Z.to_nat sizeof_direntry)), length_fmap.
  - unfold len in Hl. change FS_DIRENTRIES with 8 in Hl.
    change (Z.to_nat sizeof_direntry) with 64%nat. unfold FS_BLOCKSIZE. lia.
  - apply Forall_fmap. eapply Forall_impl; [done|]. apply length_encode_direntry.
Qed.

Lemma decode_encode_direntries l :
  direntries_ok l → decode_direntries (encode_direntries l) = l.
Proof.
  intros [Hl Hok]. unfold decode_direntries, encode_direntries.
  rewrite join_chunks.
  - rewrite <-list_fmap_compose. rewrite <-(list_fmap_id l) at 2.
    apply list_fmap_ext. intros i e He. apply decode_encode_direntry.
    by eapply Forall_lookup_1.
  - rewrite length_fmap. unfold len in Hl. lia.
  - apply Forall_fmap. eapply Forall_impl; [done|]. apply length_encode_direntry.
Qed.

Lemma decode_direntries_ok b :
  len b = FS_BLOCKSIZE → direntries_ok (decode_direntries b).
Proof.
  unfold len. intros Hb. unfold direntries_ok, decode_direntries, len. split.
  - rewrite length_fmap, length_chunks. done.
  - apply Forall_fmap. eapply Forall_impl; [apply chunks_width|].
    + rewrite <-(Nat2Z.id (length b)), Hb. done.
    + intros c Hc. split; simpl; [|apply u32_of_bytes_u32].
      unfold len. rewrite length_take, Hc. done.
Qed.

#[export] Hint Resolve decode_inode_ok decode_direntries_ok length_encode_inode
  length_encode_direntries u32_of_bytes_u32 : proj.
#[export] Hint Rewrite decode_encode_inode decode_encode_direntries using done : proj.

(** ** Facts about C strings *)

Lemma c_str_nul a t : c_str a = Some t → NUL ∉ t.
Proof.
  revert t; induction a as [|c a IH]; intros t; simpl; [done|].
  case_match eqn:Hc; [intros [= <-]; by intros ?%elem_of_nil|].
  intros (t' & Ht' & ->)%fmap_Some. apply is_nul_false in Hc.
  intros [?|?]%elem_of_cons; [done|]. by eapply IH.
Qed.

Lemma c_str_app_nul t r : NUL ∉ t → c_str (t ++ NUL :: r) = Some t.
Proof.
  induction t as [|c t IH]; intros Ht; [done|]. simpl.
  apply not_elem_of_cons in Ht as [Hc Ht].
  assert (is_nul c = false) as -> by (apply is_nul_false; congruence).
  by rewrite IH.
Qed.

Lemma until_nul_no_nul s : NUL ∉ until_nul s.
Proof.
  induction s as [|c s IH]; simpl; [by intros ?%elem_of_nil|].
  case_match eqn:Hc; [by intros ?%elem_of_nil|]. apply is_nul_false in Hc.
  by intros [?|?]%elem_of_cons.
Qed.

Lemma until_nul_id s : NUL ∉ s → until_nul s = s.
Proof.
  induction s as [|c s IH]; intros Hs; simpl; [done|].
  apply not_elem_of_cons in Hs as [Hc Hs].
  assert (is_nul c = false) as -> by (apply is_nul_false; congruence).
  by rewrite IH.
Qed.

(** [strcmp] against a string that is shorter than the array is defined, and
    says whether the array holds that string. *)
Lemma strcmp_eq_spec a s :
  NUL ∉ s → len s < len a → strcmp_eq a s = Some (bool_decide (c_str a = Some s)).
Proof.
  revert s; induction a as [|c a IH]; intros s Hs Hl; [pose proof (len_nonneg s); unfold len in *; simpl in *; lia|].
  destruct s as [|x s]; simpl.
  - destruct (is_nul c); [by rewrite bool_decide_eq_true_2|].
    rewrite bool_decide_eq_false_2; [done|]. by destruct (c_str a).
  - apply not_elem_of_cons in Hs as [Hx Hs].
    assert (is_nul x = false) as -> by (apply is_nul_false; congruence).
    destruct (Ascii.eqb_spec c x) as [->|Hc].
    + assert (is_nul x = false) as -> by (apply is_nul_false; congruence).
      rewrite IH; [|done|unfold len in *; simpl in *; lia]. f_equal.
      apply bool_decide_ext. destruct (c_str a); simpl; split; intros; simplify_eq; done.
    + f_equal. symmetry. apply bool_decide_eq_false_2.
      destruct (is_nul c); [done|]. destruct (c_str a); simpl; congruence.
Qed.

Lemma string_ne_spec s a t :
  c_str a = Some t → string_ne s a = Some (bool_decide (s ≠ t)).
Proof. unfold string_ne. by intros ->. Qed.

Lemma strcpy_fits dst s :
  len s < len dst → NUL ∉ s →
  ∃ a, strcpy dst s = Some a ∧ len a = len dst ∧ c_str a = Some s.
Proof.
  intros Hl Hs. unfold strcpy. rewrite until_nul_id by done.
  rewrite (proj2 (Z.ltb_lt _ _)) by done. eexists; split_and!; [done| |].
  - unfold len in *. rewrite !length_app, length_drop. simpl. lia.
  - by apply c_str_app_nul.
Qed.

(** ** The in-memory disk meets the disk's contract *)

Lemma in_disk_spec b : in_disk b = true ↔ 0 ≤ b < FS_DISKSIZE.
Proof. unfold in_disk. rewrite andb_true_iff. lia. Qed.

Lemma pad_block_length v : len (pad_block v) = FS_BLOCKSIZE.
Proof. unfold pad_block, len. by rewrite length_resize. Qed.

Lemma pad_block_id v : len v = FS_BLOCKSIZE → pad_block v = v.
Proof. intros Hv. unfold pad_block. rewrite <-Hv. unfold len. rewrite Nat2Z.id. apply resize_all. Qed.

#[export] Instance MemDisk_spec : DiskSpec MemDisk.
Proof.
  split; simpl.
  - intros d b. rewrite <-in_disk_spec. destruct (in_disk b); split; naive_solver.
  - intros d b v. case_match; [|done]. intros [= <-]. apply pad_block_length.
  - intros d b v _. rewrite <-in_disk_spec. destruct (in_disk b); split; naive_solver.
  - intros d b v d' b' Hv. case_match eqn:Hb; [|done]. intros [= <-].
    destruct (decide (b = b')) as [->|Hne].
    + rewrite Hb, lookup_insert_eq. simpl. by rewrite pad_block_id.
    + by rewrite lookup_insert_ne.
Qed.

(** ** The properties of the layout *)

Lemma encode_decode_direntry b :
  length b = Z.to_nat sizeof_direntry → encode_direntry (decode_direntry b) = b.
Proof.
  intros Hb. unfold encode_direntry, decode_direntry. cbn [de_name de_inode_block].
  change (Z.to_nat sizeof_direntry) with 64%nat in Hb. change (Z.to_nat (FS_MAXFILENAME + 1)) with 60%nat.
  rewrite bytes_of_u32_of_bytes by (rewrite length_drop; lia). apply take_drop.
Qed.

Lemma encode_decode_direntries b :
  len b = FS_BLOCKSIZE → encode_direntries (decode_direntries b) = b.
Proof.
  unfold len. intros Hb.
  assert (length b = (Z.to_nat FS_DIRENTRIES * Z.to_nat sizeof_direntry)%nat) as Hl
    by (rewrite <-(Nat2Z.id (length b)), Hb; done).
  unfold encode_direntries, decode_direntries. rewrite <-list_fmap_compose.
  rewrite <-(chunks_join _ _ b Hl) at 2. f_equal.
  rewrite <-(list_fmap_id (chunks _ _ b)) at 2. apply list_fmap_ext. intros i c Hc. simpl.
  apply encode_decode_direntry. by eapply (Forall_lookup_1 _ _ _ _ (chunks_width _ _ b Hl) Hc).
Qed.

(** (C21) The casts between a disk block and [fs_inode] or an array of
    [fs_direntry] lose nothing: every block is the encoding of the structure
    it is read as, every structure whose members fit their C types encodes to
    exactly one block, and reads back as it was. *)
Theorem block_layout_bijective :
  (∀ i, inode_ok i → len (encode_inode i) = FS_BLOCKSIZE ∧ decode_inode (encode_inode i) = i) ∧
  (∀ b, len b = FS_BLOCKSIZE → inode_ok (decode_inode b) ∧ encode_inode (decode_inode b) = b) ∧
  (∀ l, direntries_ok l →
     len (encode_direntries l) = FS_BLOCKSIZE ∧ decode_direntries (encode_direntries l) = l) ∧
  (∀ b, len b = FS_BLOCKSIZE →
     direntries_ok (decode_direntries b) ∧ encode_direntries (decode_direntries b) = b).
Proof.
  split_and!.
  - intros i Hi. split; [by apply length_encode_inode|by apply decode_encode_inode].
  - intros b Hb. split; [by apply decode_inode_ok|by apply encode_decode_inode].
  - intros l Hl. split; [by apply length_encode_direntries|by apply decode_encode_direntries].
  - intros b Hb. split; [by apply decode_direntries_ok|by apply encode_decode_direntries].
Qed.

(** [strcpy] of a name that fits its array, followed by [strcmp] with any
    other name that fits, is defined and tells the two names apart exactly:
    this is how entries are written and found. *)
Theorem strcpy_strcmp (dst s t : bytes) :
  NUL ∉ s → NUL ∉ t → len s < len dst → len t < len dst →
  ∃ a, strcpy dst s = Some a ∧ len a = len dst ∧ strcmp_eq a t = Some (bool_decide (s = t)) ∧
    string_ne t a = Some (bool_decide (s ≠ t)).
Proof.
  intros Hs Ht Hls Hlt. destruct (strcpy_fits dst s Hls Hs) as (a & Ha & Hla & Hc).
  exists a. split_and!; [done|done| |].
  - rewrite strcmp_eq_spec by (done || lia). f_equal. apply bool_decide_ext. rewrite Hc.
    split; [by intros [= ->]|by intros ->].
  - rewrite (string_ne_spec _ _ _ Hc). f_equal. apply bool_decide_ext. split; congruence.
Qed.

(** A directory entry of the disk, and two names. *)
Lemma strcpy_strcmp_witness :
  ∃ a, strcpy (replicate 60 NUL) (chars "notes") = Some a ∧ len a = 60 ∧
    strcmp_eq a (chars "note") = Some false ∧ string_ne (chars "note") a = Some true.
Proof.
  apply (strcpy_strcmp (replicate 60 NUL) (chars "notes") (chars "note")).
  - by apply (bool_decide_unpack _).
  - by apply (bool_decide_unpack _).
  - reflexivity.
  - reflexivity.
Defined.

Lemma block_layout_bijective_witness :
  decode_inode (encode_inode (Inode "f" (replicate 11 NUL) 2 (seqZ 1 124))) =
  Inode "f" (replicate 11 NUL) 2 (seqZ 1 124).
Proof.
  apply block_layout_bijective. split_and!; try done.
  apply (bool_decide_unpack _). vm_compute. exact I.
Defined.
