(* ===== verification/Locks.v ===== *)
(** * Inode locks

    The lock table of [filesys/file_system.cpp] (lines 149-240) and the
    structure [GyattLock] of [filesys/utils.h].  Every inode has a
    reader/upgrade/writer lock that is created when somebody first wants it and
    erased when its last user is done.  Three layers:

    - [BoostSharedMutex]: [boost::shared_mutex], a library the program calls.
      It is a parameter; its contract is the documented reader/upgrade/writer
      automaton [rw_step].
    - [LockTable]: the program's six functions over [lock_map], which is a map
      to mutex objects shared through [shared_ptr]s, and to reference counts.
    - [InodeLocks]: the interface the file-system operations are written
      against.  Its contract is phrased on the multiset of locks held
      ([hold_step]); [LockTable] is proved to implement it, also in the middle
      of calls, when threads are counted that do not yet have their lock
      ([shares]). *)
From S2P Require Import Prelude.

Local Open Scope Z_scope.

(** ** Results of a locking call *)

(** A call succeeds, blocks its caller, or breaks a precondition (an
    assertion of the program, or undefined behaviour of the library). *)
Inductive lk_result (S : Type) :=
| LkDone (s : S)
| LkBlocks (s : S)
| LkInvalid.
Arguments LkDone {S} _.
Arguments LkBlocks {S} _.
Arguments LkInvalid {S}.

Definition lk_bind {S} (r : lk_result S) (f : S → lk_result S) : lk_result S :=
  match r with
  | LkDone s => f s
  | LkBlocks s => LkBlocks s
  | LkInvalid => LkInvalid
  end.

(** ** [boost::shared_mutex] *)

Inductive sm_op :=
| lock_shared | unlock_shared
| lock_upgrade | unlock_upgrade
| unlock_upgrade_and_lock | unlock.

(** The state the documentation describes. *)
Record rwstate := RW {
  rw_shared : nat;
  rw_upgrade : bool;
  rw_exclusive : bool;
}.

Definition rw_free : rwstate := RW 0 false false.

Definition rw_step (op : sm_op) (v : rwstate) : lk_result rwstate :=
  match op with
  | lock_shared =>
      if rw_exclusive v then LkBlocks v
      else LkDone (RW (S (rw_shared v)) (rw_upgrade v) (rw_exclusive v))
  | unlock_shared =>
      match rw_shared v with
      | O => LkInvalid
      | S n => LkDone (RW n (rw_upgrade v) (rw_exclusive v))
      end
  | lock_upgrade =>
      if rw_exclusive v || rw_upgrade v then LkBlocks v
      else LkDone (RW (rw_shared v) true (rw_exclusive v))
  | unlock_upgrade =>
      if rw_upgrade v then LkDone (RW (rw_shared v) false (rw_exclusive v)) else LkInvalid
  | unlock_upgrade_and_lock =>
      if rw_upgrade v then
        match rw_shared v with
        | O => LkDone (RW 0 false true)
        | S _ => LkBlocks v
        end
      else LkInvalid
  | unlock =>
      if rw_exclusive v then LkDone (RW (rw_shared v) (rw_upgrade v) false) else LkInvalid
  end.

Class BoostSharedMutex (M : Type) := {
  sm_new : M;
  sm_call : sm_op → M → lk_result M;
}.

(** [sm_view] reads the documented state off a mutex. *)
Class BoostSharedMutexSpec (M : Type) `{BoostSharedMutex M} := {
  sm_view : M → rwstate;
  sm_view_new : sm_view sm_new = rw_free;
  sm_view_call op m :
    match rw_step op (sm_view m), sm_call op m with
    | LkDone v, LkDone m' => sm_view m' = v
    | LkBlocks _, LkBlocks _ => True
    | LkInvalid, LkInvalid => True
    | _, _ => False
    end;
}.

(** The automaton itself is such a mutex. *)
#[export] Instance rwstate_mutex : BoostSharedMutex rwstate := {
  sm_new := rw_free;
  sm_call := rw_step;
}.

#[export, program] Instance rwstate_mutex_spec : BoostSharedMutexSpec rwstate := {
  sm_view := id;
}.
Next Obligation. done. Qed.
Next Obligation. intros [] [[] [] []]; done. Qed.

(** ** The interface: who holds what *)

Inductive lock_op :=
| LockRead | UnlockRead | LockUpgrade | UnlockUpgrade | UpgradeToWrite | UnlockWrite.

Inductive lock_mode := Shared | Upgrade | Exclusive.

#[export] Instance lock_op_eq_dec : EqDecision lock_op.
Proof. solve_decision. Defined.
#[export] Instance lock_mode_eq_dec : EqDecision lock_mode.
Proof. solve_decision. Defined.

(** The locks held on all inodes, as a multiset. *)
Abbreviation holdings := (list (Z * lock_mode)).

Definition drop_hold (b : Z) (m : lock_mode) (h : holdings) : lk_result holdings :=
  match remove_one (b, m) h with
  | Some h' => LkDone h'
  | None => LkInvalid
  end.

Definition hold_step (op : lock_op) (b : Z) (h : holdings) : lk_result holdings :=
  match op with
  | LockRead =>
      if bool_decide ((b, Exclusive) ∈ h) then LkBlocks h else LkDone ((b, Shared) :: h)
  | UnlockRead => drop_hold b Shared h
  | LockUpgrade =>
      if bool_decide ((b, Exclusive) ∈ h ∨ (b, Upgrade) ∈ h) then LkBlocks h
      else LkDone ((b, Upgrade) :: h)
  | UnlockUpgrade => drop_hold b Upgrade h
  | UpgradeToWrite =>
      match remove_one (b, Upgrade) h with
      | Some h' =>
          if bool_decide ((b, Shared) ∈ h) then LkBlocks h else LkDone ((b, Exclusive) :: h')
      | None => LkInvalid
      end
  | UnlockWrite => drop_hold b Exclusive h
  end.

Class InodeLocks (L : Type) := {
  lk_empty : L;
  lk_call : lock_op → Z → L → lk_result L;
}.

(** The reference counts are 32-bit. *)
Definition hold_bound : Z := 2 ^ 32 - 1.

Class InodeLocksSpec (L : Type) `{InodeLocks L} := {
  lk_view : L → holdings → Prop;
  lk_view_empty : lk_view lk_empty [];
  lk_view_perm l h h' : lk_view l h → h ≡ₚ h' → lk_view l h';
  lk_call_done op b l h h' :
    lk_view l h → len h < hold_bound → hold_step op b h = LkDone h' →
    ∃ l', lk_call op b l = LkDone l' ∧ lk_view l' h';
  lk_call_blocks op b l h h' :
    lk_view l h → len h < hold_bound → hold_step op b h = LkBlocks h' →
    ∃ l', lk_call op b l = LkBlocks l';
}.

(** ** The lock table of the file system *)

Module LockTable.

(** [struct GyattLock]: the [shared_ptr] is the identity of a mutex object. *)
Record GyattLock := mkGyattLock {
  m_ptr : nat;
  num_readers : Z;
}.

Section LockTable.
Context {M : Type} `{BoostSharedMutex M}.

(** [lock_map], with the store of mutex objects its [shared_ptr]s point into. *)
Record table := Table {
  lock_map : gmap Z GyattLock;
  mutexes : gmap nat M;
  next_ptr : nat;
}.

Definition empty_table : table := Table ∅ ∅ 0.

Definition set_lock_map (t : table) (lm : gmap Z GyattLock) : table :=
  Table lm (mutexes t) (next_ptr t).

(** [lock_map[b]] on a missing key: the [GyattLock] constructor makes a mutex. *)
Definition create_lock (b : Z) (t : table) : table :=
  Table (<[b := mkGyattLock (next_ptr t) 0]> (lock_map t))
        (<[next_ptr t := sm_new]> (mutexes t)) (S (next_ptr t)).

Definition ensure_lock (b : Z) (t : table) : table :=
  match lock_map t !! b with
  | Some _ => t
  | None => create_lock b t
  end.

(** [num_readers++] and [num_readers--] on an [unsigned int]. *)
Definition add_readers (n : Z) (g : GyattLock) : GyattLock :=
  mkGyattLock (m_ptr g) (wrap32 (num_readers g + n)).

(** A member function of the mutex a [shared_ptr] points to. *)
Definition call_mutex (op : sm_op) (p : nat) (t : table) : lk_result table :=
  match mutexes t !! p with
  | None => LkInvalid
  | Some m =>
      match sm_call op m with
      | LkDone m' => LkDone (Table (lock_map t) (<[p:=m']> (mutexes t)) (next_ptr t))
      | LkBlocks m' => LkBlocks (Table (lock_map t) (<[p:=m']> (mutexes t)) (next_ptr t))
      | LkInvalid => LkInvalid
      end
  end.

(** The block under [lock_map_mutex] of the two functions that take a fresh
    lock: the reader count goes up before the (possibly blocking) call, so that
    the entry cannot be erased meanwhile. *)
Definition register_lock (b : Z) (t : table) : table :=
  let t := ensure_lock b t in
  set_lock_map t (alter (add_readers 1) b (lock_map t)).

(** Their common body. *)
Definition acquire (op : sm_op) (b : Z) (t : table) : lk_result table :=
  let t := register_lock b t in
  match lock_map t !! b with
  | None => LkInvalid
  | Some g => call_mutex op (m_ptr g) t
  end.

Definition erase_if_unused (b : Z) (t : table) : table :=
  match lock_map t !! b with
  | Some g => if num_readers g =? 0 then set_lock_map t (delete b (lock_map t)) else t
  | None => t
  end.

(** The common body of the three functions that release a lock. *)
Definition release (op : sm_op) (b : Z) (t : table) : lk_result table :=
  match lock_map t !! b with
  | None => LkInvalid       (* assert(lock_map.find(inode_block) != lock_map.end()) *)
  | Some g =>
      lk_bind (call_mutex op (m_ptr g) t) (λ t,
        LkDone (erase_if_unused b
                  (set_lock_map t (alter (add_readers (-1)) b (lock_map t)))))
  end.

Definition lock_inode_read : Z → table → lk_result table := acquire lock_shared.
Definition unlock_inode_read : Z → table → lk_result table := release unlock_shared.
Definition lock_inode_upgrade : Z → table → lk_result table := acquire lock_upgrade.
Definition unlock_inode_upgrade : Z → table → lk_result table := release unlock_upgrade.
Definition unlock_inode_write : Z → table → lk_result table := release unlock.

Definition upgrade_to_write_lock (b : Z) (t : table) : lk_result table :=
  match lock_map t !! b with
  | None => LkInvalid
  | Some g => call_mutex unlock_upgrade_and_lock (m_ptr g) t
  end.

#[global] Instance table_locks : InodeLocks table := {
  lk_empty := empty_table;
  lk_call op :=
    match op with
    | LockRead => lock_inode_read
    | UnlockRead => unlock_inode_read
    | LockUpgrade => lock_inode_upgrade
    | UnlockUpgrade => unlock_inode_upgrade
    | UpgradeToWrite => upgrade_to_write_lock
    | UnlockWrite => unlock_inode_write
    end;
}.

(** ** What the table represents *)

(** How many times [x] occurs among the locks held. *)
Definition count_hold (x : Z * lock_mode) (h : holdings) : nat :=
  length (filter (λ y, y = x) h).

Definition holders (b : Z) (h : holdings) : nat :=
  count_hold (b, Shared) h + count_hold (b, Upgrade) h + count_hold (b, Exclusive) h.

Definition mutex_state (b : Z) (h : holdings) : rwstate :=
  RW (count_hold (b, Shared) h) (0 <? count_hold (b, Upgrade) h)%nat
     (0 <? count_hold (b, Exclusive) h)%nat.

(** The locks of an inode exclude each other as they should: one upgradeable
    or writer lock at most, and no reader next to a writer. *)
Definition exclusion_at (b : Z) (h : holdings) : Prop :=
  (count_hold (b, Upgrade) h + count_hold (b, Exclusive) h <= 1)%nat ∧
  ((0 < count_hold (b, Exclusive) h)%nat → count_hold (b, Shared) h = 0%nat).

(** [w] has the inodes whose lock some thread has asked for and not yet got:
    between [register_lock] and the end of its call of the mutex. *)
Definition waiters (b : Z) (w : list Z) : nat := length (filter (λ c, c = b) w).

Definition users (b : Z) (h : holdings) (w : list Z) : nat := (holders b h + waiters b w)%nat.

(** An entry exists exactly for the inodes that somebody has locked or asked
    for; it counts them, and its mutex is in the state the holders put it in. *)
Record shares `{!BoostSharedMutexSpec M} (t : table) (h : holdings) (w : list Z) : Prop := {
  sh_entry b :
    match lock_map t !! b with
    | None => users b h w = 0%nat
    | Some g => num_readers g = Z.of_nat (users b h w) ∧ (0 < users b h w)%nat ∧
        sm_view <$> mutexes t !! m_ptr g = Some (mutex_state b h)
    end;
  sh_ptr_inj b1 b2 g1 g2 :
    lock_map t !! b1 = Some g1 → lock_map t !! b2 = Some g2 →
    m_ptr g1 = m_ptr g2 → b1 = b2;
  sh_ptr_bound b g : lock_map t !! b = Some g → (m_ptr g < next_ptr t)%nat;
  sh_exclusion b : exclusion_at b h;
}.

(** Between two calls. *)
Definition represents `{!BoostSharedMutexSpec M} (t : table) (h : holdings) : Prop := shares t h [].

(** ** Facts about holdings *)

Lemma count_hold_cons x y h :
  count_hold x (y :: h) = ((if decide (y = x) then 1 else 0) + count_hold x h)%nat.
Proof. unfold count_hold. rewrite filter_cons. by case_decide. Qed.

Lemma count_hold_perm x h h' : h ≡ₚ h' → count_hold x h = count_hold x h'.
Proof. unfold count_hold. by intros ->. Qed.

Lemma count_hold_elem x h : x ∈ h ↔ (0 < count_hold x h)%nat.
Proof.
  induction h as [|y h IH]; [split; [by intros ?%elem_of_nil|unfold count_hold; simpl; lia]|].
  rewrite elem_of_cons, count_hold_cons, IH. case_decide as Hd; [subst; split; [lia|by left]|].
  split; [intros [->|?]; [done|lia]|right; lia].
Qed.

Lemma count_hold_remove x y h h' :
  remove_one y h = Some h' →
  count_hold x h = ((if decide (y = x) then 1 else 0) + count_hold x h')%nat.
Proof. intros Hr%remove_one_perm. by rewrite (count_hold_perm _ _ _ Hr), count_hold_cons. Qed.

Lemma holders_length b h : (holders b h <= length h)%nat.
Proof.
  unfold holders. induction h as [|y h IH]; [done|]. rewrite !count_hold_cons. simpl.
  repeat case_decide; simplify_eq; lia.
Qed.

Lemma holders_perm b h h' : h ≡ₚ h' → holders b h = holders b h'.
Proof. intros Hp. unfold holders. by rewrite !(count_hold_perm _ _ _ Hp). Qed.

Lemma mutex_state_perm b h h' : h ≡ₚ h' → mutex_state b h = mutex_state b h'.
Proof. intros Hp. unfold mutex_state. by rewrite !(count_hold_perm _ _ _ Hp). Qed.

(** [h'] differs from [h] only in the locks held on [b]. *)
Definition only_on (b : Z) (h h' : holdings) : Prop :=
  ∀ b' m, b' ≠ b → count_hold (b', m) h' = count_hold (b', m) h.

Lemma only_on_holders b h h' b' :
  only_on b h h' → b' ≠ b → holders b' h' = holders b' h ∧ mutex_state b' h' = mutex_state b' h.
Proof. intros Ho Hb. unfold holders, mutex_state. by rewrite !Ho. Qed.

Lemma only_on_cons b m h : only_on b h ((b, m) :: h).
Proof. intros b' m' Hb. rewrite count_hold_cons. case_decide; [congruence|done]. Qed.

Lemma only_on_remove b m h h' : remove_one (b, m) h = Some h' → only_on b h h'.
Proof.
  intros Hr b' m' Hb. rewrite (count_hold_remove _ _ _ _ Hr). case_decide; [congruence|done].
Qed.

Lemma only_on_trans b h1 h2 h3 : only_on b h1 h2 → only_on b h2 h3 → only_on b h1 h3.
Proof. intros H1 H2 b' m Hb. by rewrite H2, H1. Qed.

Lemma waiters_cons b c w : waiters b (c :: w) = ((if decide (c = b) then 1 else 0) + waiters b w)%nat.
Proof. unfold waiters. rewrite filter_cons. by case_decide. Qed.

Lemma waiters_perm b w w' : w ≡ₚ w' → waiters b w = waiters b w'.
Proof. unfold waiters. by intros ->. Qed.

Lemma users_length b h w : (users b h w <= length h + length w)%nat.
Proof.
  unfold users, waiters. pose proof (holders_length b h). pose proof (length_filter (λ c, c = b) w). lia.
Qed.

Lemma exclusion_perm b h h' : h ≡ₚ h' → exclusion_at b h → exclusion_at b h'.
Proof. intros Hp. unfold exclusion_at. by rewrite !(count_hold_perm _ _ _ Hp). Qed.

Lemma count_hold_ltb x h : (0 <? count_hold x h)%nat = bool_decide (x ∈ h).
Proof.
  apply eq_true_iff_eq. rewrite bool_decide_eq_true, count_hold_elem. apply Nat.ltb_lt.
Qed.

Lemma not_held_count x h : x ∉ h → count_hold x h = 0%nat.
Proof. rewrite count_hold_elem. lia. Qed.

(** The member function of the mutex that a locking function calls. *)
Definition mutex_op (op : lock_op) : sm_op :=
  match op with
  | LockRead => lock_shared
  | UnlockRead => unlock_shared
  | LockUpgrade => lock_upgrade
  | UnlockUpgrade => unlock_upgrade
  | UpgradeToWrite => unlock_upgrade_and_lock
  | UnlockWrite => unlock
  end.

(** How many locks of its inode a call adds and removes. *)
Definition new_holders (op : lock_op) : nat :=
  match op with LockRead | LockUpgrade => 1 | _ => 0 end.
Definition old_holders (op : lock_op) : nat :=
  match op with UnlockRead | UnlockUpgrade | UnlockWrite => 1 | _ => 0 end.

(** The mutex of an inode answers as the locks held on it say. *)
Lemma hold_step_spec op b h :
  exclusion_at b h →
  match hold_step op b h with
  | LkDone h' =>
      only_on b h h' ∧ exclusion_at b h' ∧
      (holders b h' + old_holders op = holders b h + new_holders op)%nat ∧
      rw_step (mutex_op op) (mutex_state b h) = LkDone (mutex_state b h')
  | LkBlocks h' => h' = h ∧ ∃ v, rw_step (mutex_op op) (mutex_state b h) = LkBlocks v
  | LkInvalid => rw_step (mutex_op op) (mutex_state b h) = LkInvalid
  end.
Proof.
  unfold exclusion_at, holders, mutex_state. intros Hx.
  destruct op; simpl; unfold drop_hold;
    repeat match goal with |- context [remove_one ?x h] => destruct (remove_one x h) as [k|] eqn:Hk end;
    rewrite ?bool_decide_or, <-?count_hold_ltb;
    try (pose proof (λ y, count_hold_remove y _ _ _ Hk) as Hc;
         pose proof (only_on_remove _ _ _ _ Hk) as Ho; rewrite !Hc in * );
    try (apply remove_one_None, not_held_count in Hk; rewrite ?Hk in * );
    repeat case_match; simplify_eq/=.
  all: repeat match goal with
    | H : (_ || _) = false |- _ => apply orb_false_iff in H as [??]
    | H : (_ <? _)%nat = false |- _ => apply Nat.ltb_ge in H
    end.
  all: eauto.
  all: split; [eauto using only_on_trans, only_on_cons|].
  all: rewrite ?count_hold_cons; repeat case_decide; simplify_eq; simpl; split_and?; try done; try lia.
  all: repeat f_equal; symmetry; first [apply Nat.ltb_ge; lia | apply Nat.ltb_lt; lia | lia].
Qed.

Lemma hold_step_exclusion op b h h' :
  hold_step op b h = LkDone h' → (∀ b', exclusion_at b' h) → ∀ b', exclusion_at b' h'.
Proof.
  intros Hs Hx b'. pose proof (hold_step_spec op b h (Hx b)) as Hsp. rewrite Hs in Hsp.
  destruct Hsp as (Ho & Hxb & _). destruct (decide (b' = b)) as [->|Hne]; [done|].
  unfold exclusion_at. rewrite !Ho by done. apply Hx.
Qed.

Lemma hold_step_length op b h h' :
  hold_step op b h = LkDone h' → (length h' + old_holders op = length h + new_holders op)%nat.
Proof.
  destruct op; simpl; unfold drop_hold; intros Hs; repeat case_match; simplify_eq/=; try lia;
    match goal with H : remove_one _ _ = Some _ |- _ => apply remove_one_perm, Permutation_length in H end;
    simpl in *; lia.
Qed.

(** Nobody can release or upgrade what nobody holds. *)
Lemma hold_step_unused op b h :
  new_holders op = 0%nat → holders b h = 0%nat → hold_step op b h = LkInvalid.
Proof.
  intros Hn Hz. assert (∀ m, remove_one (b, m) h = None) as Hnone.
  { intros m. apply remove_one_None. rewrite count_hold_elem. unfold holders in Hz. destruct m; lia. }
  destruct op; simpl in *; unfold drop_hold; by rewrite ?Hnone.
Qed.

(** ** The table implements the interface *)

Section refinement.
Context `{!BoostSharedMutexSpec M}.

Lemma shares_perm t h h' w w' : shares t h w → h ≡ₚ h' → w ≡ₚ w' → shares t h' w'.
Proof.
  intros [He Hi Hb Hx] Hh Hw. split; [|done|done|intros b; by eapply exclusion_perm].
  intros b. specialize (He b). unfold users in *.
  by rewrite <-(holders_perm _ _ _ Hh), <-(mutex_state_perm _ _ _ Hh), <-(waiters_perm _ _ _ Hw).
Qed.

Lemma represents_perm t h h' : represents t h → h ≡ₚ h' → represents t h'.
Proof. intros. by eapply shares_perm. Qed.

Lemma represents_empty : represents empty_table [].
Proof. split; simpl; try done. intros b. split; unfold count_hold; simpl; lia. Qed.

(** Somebody's entry is there. *)
Lemma shares_lookup b t h w :
  shares t h w → (0 < users b h w)%nat → ∃ g, lock_map t !! b = Some g.
Proof. intros Hs Hu. pose proof (sh_entry _ _ _ Hs b) as He. case_match; [eauto|lia]. Qed.

Lemma users_holder b m h w : (b, m) ∈ h → (0 < users b h w)%nat.
Proof. intros Hm%count_hold_elem. unfold users, holders. destruct m; lia. Qed.

(** The table after a step of the protocol on [b]: its mutex [p] and its entry
    are in the state of the new holders and waiters. *)
Lemma shares_update b p m np lm t h w h' w' :
  shares t h w →
  (∀ b' g', lock_map t !! b' = Some g' → m_ptr g' = p → b' = b) →
  (p < np)%nat → (next_ptr t <= np)%nat →
  only_on b h h' → (∀ b', b' ≠ b → waiters b' w' = waiters b' w) →
  (∀ b', exclusion_at b' h') →
  sm_view m = mutex_state b h' →
  (∀ b', b' ≠ b → lm !! b' = lock_map t !! b') →
  lm !! b = (if decide (users b h' w' = 0%nat) then None
             else Some (mkGyattLock p (Z.of_nat (users b h' w')))) →
  shares (Table lm (<[p := m]> (mutexes t)) np) h' w'.
Proof.
  intros [He Hi Hb Hx] Hp Hnp Hle Hon Hw Hx' Hm Hlm Hlmb.
  assert (∀ b' g', b' ≠ b → lm !! b' = Some g' → lock_map t !! b' = Some g' ∧ m_ptr g' ≠ p) as Hback.
  { intros b' g' Hne Hg. rewrite Hlm in Hg by done. split; [done|]. intros Hpt. by apply Hne, (Hp _ _ Hg). }
  split; simpl; [..|done].
  - intros b'. destruct (decide (b' = b)) as [->|Hne].
    + rewrite Hlmb. case_decide; [done|]. simpl. rewrite lookup_insert_eq. simpl.
      rewrite Hm. split_and!; [done|lia|done].
    + rewrite Hlm by done. specialize (He b'). unfold users in *.
      destruct (only_on_holders _ _ _ b' Hon Hne) as [-> ->]. rewrite Hw by done.
      destruct (lock_map t !! b') as [g'|] eqn:Hg'; [|done].
      rewrite lookup_insert_ne; [done|]. intros Heq. by apply Hne, (Hp _ _ Hg').
  - intros b1 b2 g1 g2 H1 H2 Heq. destruct (decide (b1 = b)) as [->|H1b], (decide (b2 = b)) as [->|H2b]; [done|..].
    + destruct (Hback _ _ H2b H2) as [_ Hne]. rewrite Hlmb in H1. case_decide; by simplify_eq/=.
    + destruct (Hback _ _ H1b H1) as [_ Hne]. rewrite Hlmb in H2. case_decide; by simplify_eq/=.
    + apply Hback in H1 as [??]; [|done]. apply Hback in H2 as [??]; [|done]. eauto.
  - intros b' g' Hg. destruct (decide (b' = b)) as [->|Hne].
    + rewrite Hlmb in Hg. case_decide; by simplify_eq/=.
    + apply Hback in Hg as [Hg%Hb _]; [lia|done].
Qed.

Lemma add_readers_users p n b h w z :
  len h + len w ≤ hold_bound → Z.of_nat n + z = Z.of_nat (users b h w) →
  add_readers z (mkGyattLock p (Z.of_nat n)) = mkGyattLock p (Z.of_nat (users b h w)).
Proof.
  intros Hl Hn. unfold add_readers. simpl. rewrite Hn, wrap32_small; [done|].
  pose proof (users_length b h w). unfold is_u32, hold_bound, len in *. lia.
Qed.

Lemma waiters_cons_ne b b' w : b' ≠ b → waiters b' (b :: w) = waiters b' w.
Proof. intros Hne. rewrite waiters_cons. by case_decide. Qed.

Lemma users_wait b h w : users b h (b :: w) = S (users b h w).
Proof. unfold users. rewrite waiters_cons, decide_True by done. lia. Qed.

(** The first half of taking a lock: somebody asks for [b]. *)
Lemma register_shares b t h w :
  shares t h w → len h + len (b :: w) ≤ hold_bound →
  ∃ g, lock_map (register_lock b t) !! b = Some g ∧ shares (register_lock b t) h (b :: w).
Proof.
  intros Hs Hl. pose proof Hs as [He Hi Hb Hx]. specialize (He b).
  unfold register_lock, ensure_lock, set_lock_map.
  destruct (lock_map t !! b) as [[p z]|] eqn:Hg; simpl.
  - destruct He as (Hn & _ & (m & Hm & Hv)%fmap_Some). simpl in *. subst z. pose proof (Hb _ _ Hg : p < _)%nat.
    rewrite lookup_alter_eq, Hg. eexists; split; [done|]. rewrite <-(insert_id _ _ _ Hm).
    eapply shares_update; eauto using waiters_cons_ne; try done.
    + intros b' ?. by rewrite lookup_alter_ne.
    + rewrite lookup_alter_eq, Hg. simpl. rewrite decide_False by (rewrite users_wait; lia).
      f_equal. apply add_readers_users; [done|]. rewrite users_wait. lia.
  - rewrite lookup_alter_eq, lookup_insert_eq. eexists; split; [done|].
    eapply shares_update; eauto using waiters_cons_ne; try done; try lia.
    + intros b' g' Hg' Hp. apply Hb in Hg'. lia.
    + rewrite sm_view_new. unfold mutex_state, rw_free, users, holders in *.
      f_equal; symmetry; try apply Nat.ltb_ge; lia.
    + intros b' ?. by rewrite lookup_alter_ne, lookup_insert_ne.
    + rewrite lookup_alter_eq, lookup_insert_eq. simpl. rewrite decide_False by (rewrite users_wait; lia).
      f_equal. apply (add_readers_users _ 0); [done|]. rewrite users_wait. lia.
Qed.

(** The second half: the mutex of [b] answers as the locks held say. *)
Lemma call_shares op b g t h w w' :
  shares t h w → lock_map t !! b = Some g →
  (waiters b w' + new_holders op = waiters b w + old_holders op)%nat →
  (∀ b', b' ≠ b → waiters b' w' = waiters b' w) →
  match hold_step op b h with
  | LkDone h' => ∃ t', call_mutex (mutex_op op) (m_ptr g) t = LkDone t' ∧
      shares t' h' w' ∧ lock_map t' = lock_map t
  | LkBlocks _ => ∃ t', call_mutex (mutex_op op) (m_ptr g) t = LkBlocks t'
  | LkInvalid => call_mutex (mutex_op op) (m_ptr g) t = LkInvalid
  end.
Proof.
  intros Hs Hg Hw Hne. pose proof Hs as [He Hi Hb Hx]. specialize (He b). rewrite Hg in He.
  destruct He as (Hn & Hu & (m & Hm & Hv)%fmap_Some).
  pose proof (hold_step_spec op b h (Hx b)) as Hsp. pose proof (hold_step_exclusion op b h) as Hxs.
  unfold call_mutex. rewrite Hm. pose proof (sm_view_call (mutex_op op) m) as Hc. rewrite <-Hv in Hc.
  destruct (hold_step op b h) as [h'|h'|].
  - destruct Hsp as (Ho & _ & Hh & Hr). rewrite Hr in Hc.
    destruct (sm_call (mutex_op op) m) as [m'| |]; [|done..]. eexists. split; [done|]. split; [|done].
    eapply shares_update; eauto; try done. rewrite Hg.
    assert (users b h' w' = users b h w) as -> by (unfold users; lia).
    rewrite decide_False by lia. rewrite <-Hn. by destruct g.
  - destruct Hsp as (_ & v & Hr). rewrite Hr in Hc. destruct (sm_call (mutex_op op) m); [done|by eexists|done].
  - rewrite Hsp in Hc. by destruct (sm_call (mutex_op op) m).
Qed.

(** Giving up an entry. *)
Lemma leave_shares b t h w :
  shares t h (b :: w) → len h + len (b :: w) ≤ hold_bound →
  shares (erase_if_unused b (set_lock_map t (alter (add_readers (-1)) b (lock_map t)))) h w.
Proof.
  intros Hs Hl. pose proof Hs as [He Hi Hb Hx]. specialize (He b). rewrite users_wait in He.
  destruct (lock_map t !! b) as [[p z]|] eqn:Hg; [|done]. simpl in He.
  destruct He as (Hn & _ & (m & Hm & Hv)%fmap_Some). subst z. pose proof (Hb _ _ Hg : p < _)%nat.
  unfold erase_if_unused, set_lock_map. simpl. rewrite lookup_alter_eq, Hg. cbn [fmap option_fmap option_map].
  rewrite (add_readers_users p _ b h w) by (unfold len in *; simpl in *; lia). simpl.
  rewrite <-(insert_id _ _ _ Hm).
  assert (∀ b', b' ≠ b → waiters b' w = waiters b' (b :: w)) as Hw by (intros; by rewrite waiters_cons_ne).
  destruct (Z.eqb_spec (Z.of_nat (users b h w)) 0); simpl; (eapply shares_update; eauto; try done).
  - intros b' ?. by rewrite lookup_delete_ne, lookup_alter_ne.
  - by rewrite lookup_delete_eq, decide_True by lia.
  - intros b' ?. by rewrite lookup_alter_ne.
  - rewrite lookup_alter_eq, Hg, decide_False by lia. cbn [fmap option_fmap option_map]. f_equal.
    apply add_readers_users; [unfold len in *; simpl in *; lia|lia].
Qed.

Lemma acquire_shares op b t h w :
  shares t h w → len h + len w < hold_bound → new_holders op = 1%nat → old_holders op = 0%nat →
  match hold_step op b h with
  | LkDone h' => ∃ t', acquire (mutex_op op) b t = LkDone t' ∧ shares t' h' w
  | LkBlocks _ => ∃ t', acquire (mutex_op op) b t = LkBlocks t'
  | LkInvalid => acquire (mutex_op op) b t = LkInvalid
  end.
Proof.
  intros Hs Hl Hn Ho.
  destruct (register_shares b t h w Hs) as (g & Hg & Hr); [unfold len in *; simpl; lia|].
  unfold acquire. rewrite Hg. pose proof (call_shares op b g _ h _ w Hr Hg) as Hc.
  rewrite waiters_cons, decide_True, Hn, Ho in Hc by done. specialize (Hc ltac:(lia)).
  destruct (hold_step op b h) as [h'|h'|]; [destruct Hc as (t' & ? & ? & ?)|..];
    eauto using eq_sym, waiters_cons_ne.
Qed.

Lemma release_shares op b t h w :
  shares t h w → len h + len w < hold_bound → new_holders op = 0%nat → old_holders op = 1%nat →
  match hold_step op b h with
  | LkDone h' => ∃ t', release (mutex_op op) b t = LkDone t' ∧ shares t' h' w
  | LkBlocks _ => ∃ t', release (mutex_op op) b t = LkBlocks t'
  | LkInvalid => release (mutex_op op) b t = LkInvalid
  end.
Proof.
  intros Hs Hl Hn Ho. unfold release. pose proof (sh_entry _ _ _ Hs b) as He.
  destruct (lock_map t !! b) as [g|] eqn:Hg.
  2: by rewrite hold_step_unused by (try done; unfold users in He; lia).
  pose proof (call_shares op b g t h w (b :: w) Hs Hg) as Hc.
  rewrite waiters_cons, decide_True, Hn, Ho in Hc by done. specialize (Hc ltac:(lia)).
  destruct (hold_step op b h) as [h'|h'|] eqn:Hst.
  - destruct Hc as (t' & -> & Hs' & Hlm); [by intros; rewrite waiters_cons_ne|]. eexists; split; [done|].
    apply hold_step_length in Hst. rewrite Hn, Ho in Hst. apply leave_shares; [done|].
    unfold len in *; simpl; lia.
  - destruct Hc as (t' & ->); [by intros; rewrite waiters_cons_ne|]. by eexists.
  - rewrite Hc; [done|]. by intros; rewrite waiters_cons_ne.
Qed.

(** Every function, while others wait for their locks. *)
Lemma table_call op b t h w :
  shares t h w → len h + len w < hold_bound →
  match hold_step op b h with
  | LkDone h' => ∃ t', lk_call op b t = LkDone t' ∧ shares t' h' w
  | LkBlocks _ => ∃ t', lk_call op b t = LkBlocks t'
  | LkInvalid => lk_call op b t = LkInvalid
  end.
Proof.
  intros Hs Hl. destruct op; [by apply acquire_shares|by apply release_shares|by apply acquire_shares|
    by apply release_shares| |by apply release_shares].
  simpl lk_call. unfold upgrade_to_write_lock. pose proof (sh_entry _ _ _ Hs b) as He.
  destruct (lock_map t !! b) as [g|] eqn:Hg.
  - pose proof (call_shares UpgradeToWrite b g t h w w Hs Hg) as Hc. specialize (Hc eq_refl (λ _ _, eq_refl)).
    destruct (hold_step UpgradeToWrite b h); [destruct Hc as (? & ? & ? & ?)|..]; eauto.
  - by rewrite hold_step_unused by (try done; unfold users in He; lia).
Qed.

Lemma represents_call op b t h :
  represents t h → len h < hold_bound →
  match hold_step op b h with
  | LkDone h' => ∃ t', lk_call op b t = LkDone t' ∧ represents t' h'
  | LkBlocks _ => ∃ t', lk_call op b t = LkBlocks t'
  | LkInvalid => lk_call op b t = LkInvalid
  end.
Proof. intros Hr Hl. apply table_call; [done|]. unfold len in *. simpl. lia. Qed.

#[global, program] Instance table_locks_spec : InodeLocksSpec table := {
  lk_view := represents;
  lk_view_empty := represents_empty;
  lk_view_perm := represents_perm;
}.
Next Obligation. intros op b t h h' Hr Hl Hs. pose proof (represents_call op b t h Hr Hl) as Hc. by rewrite Hs in Hc. Qed.
Next Obligation. intros op b t h h' Hr Hl Hs. pose proof (represents_call op b t h Hr Hl) as Hc. by rewrite Hs in Hc. Qed.

End refinement.
End LockTable.
Arguments table : clear implicits.
End LockTable.

(** ** The properties of the lock table *)

(** A writer of an inode excludes every other holder. *)
Definition exclusive (h : holdings) : Prop :=
  ∀ b, (b, Exclusive) ∈ h → LockTable.holders b h = 1%nat.

Lemma exclusion_exclusive h : (∀ b, LockTable.exclusion_at b h) → exclusive h.
Proof.
  intros Hx b Hb%LockTable.count_hold_elem. destruct (Hx b). unfold LockTable.holders. lia.
Qed.

Section table_properties.
Context {M : Type} `{BoostSharedMutexSpec M}.

(** (C13) The lock table does what the interface promises: after any sequence of
    successful calls, by any threads, a further call on the table succeeds or
    waits or fails its assertion exactly as the locks held say, and [lock_map]
    then has an entry for
    precisely the inodes that somebody has locked, counting their holders.
    ([hold_bound] is the range of the 32-bit reader count.) *)
Theorem lock_table_correct (t : LockTable.table M) (h : holdings) (op : lock_op) (b : Z) :
  LockTable.represents t h → len h < hold_bound →
  match hold_step op b h with
  | LkDone h' => ∃ t', lk_call op b t = LkDone t' ∧ LockTable.represents t' h' ∧
      ∀ b', LockTable.lock_map t' !! b' = None ↔ LockTable.holders b' h' = 0%nat
  | LkBlocks _ => ∃ t', lk_call op b t = LkBlocks t'
  | LkInvalid => lk_call op b t = LkInvalid
  end.
Proof.
  intros Hr Hl. pose proof (LockTable.represents_call op b t h Hr Hl) as Hc.
  destruct (hold_step op b h) as [h'|h'|]; [|done..]. destruct Hc as (t' & Hc & Hr').
  exists t'. split; [done|]. split; [done|]. intros b'. pose proof (LockTable.sh_entry _ _ _ Hr' b') as He.
  unfold LockTable.users, LockTable.waiters in He. simpl in He. rewrite Nat.add_0_r in He.
  destruct (LockTable.lock_map t' !! b') as [g|]; [|done]. split; [done|]. lia.
Qed.

End table_properties.

Lemma lock_table_correct_witness :
  ∃ t' : LockTable.table rwstate,
    lk_call LockRead 7 LockTable.empty_table = LkDone t' ∧ LockTable.represents t' [(7, Shared)] ∧
    ∀ b', LockTable.lock_map t' !! b' = None ↔ LockTable.holders b' [(7, Shared)] = 0%nat.
Proof.
  apply (lock_table_correct (M := rwstate) LockTable.empty_table [] LockRead 7).
  - exact LockTable.represents_empty.
  - reflexivity.
Defined.

(** A sequence of calls on the lock table, all of which were granted. *)
Fixpoint granted {M} `{BoostSharedMutex M} (calls : list (lock_op * Z)) (t : LockTable.table M)
    : option (LockTable.table M) :=
  match calls with
  | [] => Some t
  | (op, b) :: calls =>
      match lk_call op b t with
      | LkDone t' => granted calls t'
      | _ => None
      end
  end.

Lemma granted_represents {M} `{BoostSharedMutexSpec M} calls t t' h :
  LockTable.represents t h → len h + len calls < hold_bound →
  granted calls t = Some t' → ∃ h', LockTable.represents t' h'.
Proof.
  revert t h; induction calls as [|[op b] calls IH]; intros t h Hr Hl; cbn [granted].
  - intros [= <-]. by exists h.
  - pose proof (LockTable.represents_call op b t h Hr) as Hc. pose proof (LockTable.hold_step_length op b h) as Hlen.
    unfold len in *. simpl in Hl. specialize (Hc ltac:(lia)).
    destruct (hold_step op b h) as [h1|h1|]; [|by destruct Hc as (t1 & ->)|by rewrite Hc].
    destruct Hc as (t1 & -> & Hr1). apply (IH t1 h1 Hr1). specialize (Hlen h1 eq_refl).
    assert (LockTable.new_holders op <= 1)%nat by (by destruct op; simpl; lia). lia.
Qed.

(** Mutual exclusion: after any sequence of granted calls on the lock table,
    the locks held are those of [represents], a writer of an inode is its only
    holder, and at most one upgradeable or writer lock of it is held; a further
    call for a lock that would break this waits. *)
Theorem writers_exclude {M} `{BoostSharedMutexSpec M} (calls : list (lock_op * Z))
    (t : LockTable.table M) :
  len calls < hold_bound → granted calls LockTable.empty_table = Some t →
  ∃ h, LockTable.represents t h ∧ exclusive h ∧
    (∀ b, (LockTable.count_hold (b, Upgrade) h + LockTable.count_hold (b, Exclusive) h <= 1)%nat) ∧
    (len h < hold_bound → ∀ b, (b, Exclusive) ∈ h →
       (∃ t', lk_call LockRead b t = LkBlocks t') ∧ (∃ t', lk_call LockUpgrade b t = LkBlocks t')).
Proof.
  intros Hl Hg. destruct (granted_represents calls LockTable.empty_table t [] LockTable.represents_empty) as (h & Hr);
    [done|done|]. pose proof (LockTable.sh_exclusion _ _ _ Hr) as Hx.
  exists h. split_and!; [done|by apply exclusion_exclusive|apply Hx|]. intros Hlh b Hb. split.
  - pose proof (LockTable.represents_call LockRead b t h Hr Hlh) as Hc. simpl in Hc.
    by rewrite bool_decide_eq_true_2 in Hc by done.
  - pose proof (LockTable.represents_call LockUpgrade b t h Hr Hlh) as Hc. simpl in Hc.
    by rewrite bool_decide_eq_true_2 in Hc by auto.
Qed.

Lemma writers_exclude_witness :
  ∃ (t : LockTable.table rwstate) h, granted (M := rwstate) [(LockUpgrade, 3); (UpgradeToWrite, 3)] LockTable.empty_table = Some t ∧
    LockTable.represents t h ∧ exclusive h ∧
    (∀ b, (LockTable.count_hold (b, Upgrade) h + LockTable.count_hold (b, Exclusive) h <= 1)%nat) ∧
    (len h < hold_bound → ∀ b, (b, Exclusive) ∈ h →
       (∃ t', lk_call LockRead b t = LkBlocks t') ∧ (∃ t', lk_call LockUpgrade b t = LkBlocks t')).
Proof.
  eexists. destruct (writers_exclude (M := rwstate) [(LockUpgrade, 3); (UpgradeToWrite, 3)]
    (LockTable.Table {[3 := LockTable.mkGyattLock 0 1]} {[0%nat := RW 0 false true]} 1)) as [h Hh].
  - reflexivity.
  - vm_compute. reflexivity.
  - exists h. split; [|exact Hh]. vm_compute. reflexivity.
Defined.
