(* ===== verification/Prog.v ===== *)
(** * File-system operations as programs

    The handlers of [filesys/file_system.cpp] run in one thread per request
    and touch state that all threads share: the disk, the queue of free
    blocks with its mutex, and the inode locks.  A handler is therefore
    modelled as a program over those accesses ([prog]), with C++ exceptions as
    [Throw] and failed assertions or undefined behaviour as [Fail].

    A program is read in two ways.  [run] executes it alone, on a concrete
    disk and lock implementation.  [guarantee] quantifies over everything other
    threads may do between two accesses: every disk read and every look at the
    free list may return anything at all. *)
From S2P Require Import Prelude Layout Locks.

Local Open Scope Z_scope.

Inductive failure :=
| AssertFailure            (* assert(...) of the program *)
| UndefinedBehaviour       (* out-of-range array access, missing terminator *)
| DiskFailure.             (* the disk interface asserts *)

Inductive prog (A : Type) : Type :=
| Ret (a : A)
| Throw (e : string)
| Fail (f : failure)
| ReadBlock (b : Z) (k : bytes → prog A)
| WriteBlock (b : Z) (v : bytes) (k : prog A)
| InodeLock (op : lock_op) (b : Z) (k : prog A)
| LockFreeMutex (k : prog A)
| UnlockFreeMutex (k : prog A)
| GetFree (k : list Z → prog A)
| PutFree (l : list Z) (k : prog A).
Arguments Ret {A} _.
Arguments Throw {A} _.
Arguments Fail {A} _.
Arguments ReadBlock {A} _ _.
Arguments WriteBlock {A} _ _ _.
Arguments InodeLock {A} _ _ _.
Arguments LockFreeMutex {A} _.
Arguments UnlockFreeMutex {A} _.
Arguments GetFree {A} _.
Arguments PutFree {A} _ _.

#[export] Instance prog_ret : MRet prog := @Ret.

#[export] Instance prog_bind : MBind prog :=
  fix go A B f p {struct p} :=
    match p with
    | Ret a => f a
    | Throw e => Throw e
    | Fail x => Fail x
    | ReadBlock b k => ReadBlock b (λ v, go A B f (k v))
    | WriteBlock b v k => WriteBlock b v (go A B f k)
    | InodeLock op b k => InodeLock op b (go A B f k)
    | LockFreeMutex k => LockFreeMutex (go A B f k)
    | UnlockFreeMutex k => UnlockFreeMutex (go A B f k)
    | GetFree k => GetFree (λ l, go A B f (k l))
    | PutFree l k => PutFree l (go A B f k)
    end.

#[export] Instance prog_fmap : FMap prog := λ A B f p, p ≫= λ a, Ret (f a).

(** A [boost::lock_guard] in scope: the mutex is released when the scope is
    left, normally or by an exception. *)
Fixpoint unlock_on_exit {A} (p : prog A) : prog A :=
  match p with
  | Ret a => UnlockFreeMutex (Ret a)
  | Throw e => UnlockFreeMutex (Throw e)
  | Fail x => Fail x
  | ReadBlock b k => ReadBlock b (λ v, unlock_on_exit (k v))
  | WriteBlock b v k => WriteBlock b v (unlock_on_exit k)
  | InodeLock op b k => InodeLock op b (unlock_on_exit k)
  | LockFreeMutex k => LockFreeMutex (unlock_on_exit k)
  | UnlockFreeMutex k => UnlockFreeMutex (unlock_on_exit k)
  | GetFree k => GetFree (λ l, unlock_on_exit (k l))
  | PutFree l k => PutFree l (unlock_on_exit k)
  end.

(** [try { p } catch (std::runtime_error &) { handler; throw; }] *)
Fixpoint on_exception {A} (p : prog A) (handler : prog unit) : prog A :=
  match p with
  | Ret a => Ret a
  | Throw e => handler ≫= λ _, Throw e
  | Fail x => Fail x
  | ReadBlock b k => ReadBlock b (λ v, on_exception (k v) handler)
  | WriteBlock b v k => WriteBlock b v (on_exception k handler)
  | InodeLock op b k => InodeLock op b (on_exception k handler)
  | LockFreeMutex k => LockFreeMutex (on_exception k handler)
  | UnlockFreeMutex k => UnlockFreeMutex (on_exception k handler)
  | GetFree k => GetFree (λ l, on_exception (k l) handler)
  | PutFree l k => PutFree l (on_exception k handler)
  end.

(** ** Primitive accesses *)

Definition disk_read (b : Z) : prog bytes := ReadBlock b Ret.
Definition disk_write (b : Z) (v : bytes) : prog unit := WriteBlock b v (Ret ()).

Definition inode_lock (op : lock_op) (b : Z) : prog unit := InodeLock op b (Ret ()).

Definition with_free_mutex {A} (p : prog A) : prog A := LockFreeMutex (unlock_on_exit p).

(** [assert(c)] *)
Definition assert_ (c : bool) : prog unit := if c then Ret () else Fail AssertFailure.

(** A partial C operation: undefined behaviour outside its domain. *)
Definition or_undefined {A} (o : option A) : prog A :=
  match o with
  | Some a => Ret a
  | None => Fail UndefinedBehaviour
  end.

(** [std::queue<uint32_t> free_block_list] *)
Definition free_empty : prog bool :=
  GetFree (λ l, Ret (match l with [] => true | _ => false end)).
Definition free_front : prog Z := GetFree (λ l, or_undefined (head l)).
Definition free_pop : prog unit :=
  GetFree (λ l, match l with [] => Fail UndefinedBehaviour | _ :: l' => PutFree l' (Ret ()) end).
Definition free_push (b : Z) : prog unit := GetFree (λ l, PutFree (l ++ [b]) (Ret ())).

(** ** Running a program alone *)

Inductive outcome (A : Type) :=
| Done (a : A)
| Exn (e : string)
| Crash (f : failure)
| Blocked.                 (* waits for ever: nobody else can release the lock *)
Arguments Done {A} _.
Arguments Exn {A} _.
Arguments Crash {A} _.
Arguments Blocked {A}.

Record fs_state (D L : Type) := St {
  st_disk : D;
  st_free : list Z;
  st_locks : L;
  st_free_mutex : bool;     (* free_block_list_mutex is held *)
}.
Arguments St {D L} _ _ _ _.
Arguments st_disk {D L} _.
Arguments st_free {D L} _.
Arguments st_locks {D L} _.
Arguments st_free_mutex {D L} _.

Section run.
Context {D L : Type} `{Disk D} `{InodeLocks L}.

Fixpoint run {A} (p : prog A) (s : fs_state D L) : outcome A * fs_state D L :=
  match p with
  | Ret a => (Done a, s)
  | Throw e => (Exn e, s)
  | Fail f => (Crash f, s)
  | ReadBlock b k =>
      match disk_readblock (st_disk s) b with
      | Some v => run (k v) s
      | None => (Crash DiskFailure, s)
      end
  | WriteBlock b v k =>
      match disk_writeblock (st_disk s) b v with
      | Some d => run k (St d (st_free s) (st_locks s) (st_free_mutex s))
      | None => (Crash DiskFailure, s)
      end
  | InodeLock op b k =>
      match lk_call op b (st_locks s) with
      | LkDone l => run k (St (st_disk s) (st_free s) l (st_free_mutex s))
      | LkBlocks l => (Blocked, St (st_disk s) (st_free s) l (st_free_mutex s))
      | LkInvalid => (Crash AssertFailure, s)
      end
  | LockFreeMutex k =>
      if st_free_mutex s then (Blocked, s)
      else run k (St (st_disk s) (st_free s) (st_locks s) true)
  | UnlockFreeMutex k =>
      if st_free_mutex s then run k (St (st_disk s) (st_free s) (st_locks s) false)
      else (Crash UndefinedBehaviour, s)
  | GetFree k => run (k (st_free s)) s
  | PutFree l k => run k (St (st_disk s) l (st_locks s) (st_free_mutex s))
  end.

(** The result of a program on a state whose locks are known by what is held:
    the locks of the new state are some implementation state holding [h']. *)
Definition runs_to `{!InodeLocksSpec L} {A} (p : prog A) (d : D) (fl : list Z) (h : holdings)
    (o : outcome A) (d' : D) (fl' : list Z) (h' : holdings) : Prop :=
  ∀ l, lk_view l h → ∃ l', run p (St d fl l false) = (o, St d' fl' l' false) ∧ lk_view l' h'.

End run.

(** ** Running a program among others *)

(** What one thread holds: inode locks, and the free-list mutex. *)
Record thread_locks := TL { tl_inodes : holdings; tl_free : bool }.

(** Some lock of the thread protects the inode whose blocks it changes. *)
Definition may_write (h : holdings) : Prop :=
  ∃ b, (b, Upgrade) ∈ h ∨ (b, Exclusive) ∈ h.

(** A thread that may have to wait for an inode lock does not own the mutex of
    the free list, and when it waits for readers it reads nothing itself. *)
Definition waits_orderly (op : lock_op) (t : thread_locks) : bool :=
  match op with
  | LockRead | LockUpgrade => negb (tl_free t)
  | UpgradeToWrite =>
      negb (tl_free t) && forallb (λ x, match x.2 with Shared => false | _ => true end) (tl_inodes t)
  | UnlockRead | UnlockUpgrade | UnlockWrite => true
  end.

(** The locking discipline of one thread, whatever the other threads do:
    it reads the disk only while holding an inode lock and writes it only while
    holding an upgradeable or writer lock; it never holds more than two inode
    locks, and waits for them in an orderly way; it touches the free list only under its mutex, which it takes only
    when it does not hold it; it releases only what it holds.  [Q] speaks of
    how the thread ends and of the locks it still holds then ([Blocked] is the
    thread waiting for a lock that its own holdings exclude). *)
Fixpoint guarantee {A} (Q : outcome A → thread_locks → Prop) (p : prog A)
    (t : thread_locks) : Prop :=
  match p with
  | Ret a => Q (Done a) t
  | Throw e => Q (Exn e) t
  | Fail f => Q (Crash f) t
  | ReadBlock b k =>
      tl_inodes t ≠ [] ∧ ∀ v, len v = FS_BLOCKSIZE → guarantee Q (k v) t
  | WriteBlock b v k => may_write (tl_inodes t) ∧ guarantee Q k t
  | InodeLock op b k =>
      match hold_step op b (tl_inodes t) with
      | LkDone h => waits_orderly op t = true ∧ (length h <= 2)%nat ∧ guarantee Q k (TL h (tl_free t))
      | LkBlocks _ => Q Blocked t
      | LkInvalid => False
      end
  | LockFreeMutex k => tl_free t = false ∧ guarantee Q k (TL (tl_inodes t) true)
  | UnlockFreeMutex k => tl_free t = true ∧ guarantee Q k (TL (tl_inodes t) false)
  | GetFree k => tl_free t = true ∧ ∀ l, guarantee Q (k l) t
  | PutFree l k => tl_free t = true ∧ guarantee Q k t
  end.

(** ** Laws of the two readings *)

Lemma ret_bind {A B} (a : A) (f : A → prog B) : Ret a ≫= f = f a.
Proof. done. Qed.

Lemma assert_bind {B} (c : bool) (f : unit → prog B) : c = true → assert_ c ≫= f = f ().
Proof. by intros ->. Qed.

Lemma or_undefined_bind {A B} (o : option A) a (f : A → prog B) :
  o = Some a → or_undefined o ≫= f = f a.
Proof. by intros ->. Qed.

Section run_laws.
Context {D L : Type} `{DiskSpec D} `{InodeLocksSpec L}.
Implicit Types (d : D) (fl : list Z) (h : holdings).

Lemma run_bind {A B} (p : prog A) (f : A → prog B) (s : fs_state D L) :
  run (p ≫= f) s =
  match run p s with
  | (Done a, s') => run (f a) s'
  | (Exn e, s') => (Exn e, s')
  | (Crash x, s') => (Crash x, s')
  | (Blocked, s') => (Blocked, s')
  end.
Proof.
  revert s; induction p as [a|e|x|b k IH|b v k IH|op b k IH|k IH|k IH|k IH|l k IH];
    intros s; simpl; try done; try apply IH; case_match; try done; apply IH.
Qed.

Lemma runs_ret {A} (a : A) d fl h : runs_to (L:=L) (Ret a) d fl h (Done a) d fl h.
Proof. intros l Hl. exists l. done. Qed.

Lemma runs_throw {A} e d fl h : runs_to (L:=L) (A:=A) (Throw e) d fl h (Exn e) d fl h.
Proof. intros l Hl. exists l. done. Qed.

Lemma runs_bind {A B} (p : prog A) (f : A → prog B) d fl h a d1 fl1 h1 o d2 fl2 h2 :
  runs_to (L:=L) p d fl h (Done a) d1 fl1 h1 →
  runs_to (L:=L) (f a) d1 fl1 h1 o d2 fl2 h2 →
  runs_to (L:=L) (p ≫= f) d fl h o d2 fl2 h2.
Proof.
  intros Hp Hf l Hl. destruct (Hp l Hl) as (l1 & Hr & Hl1).
  rewrite run_bind, Hr. by apply Hf.
Qed.

Lemma runs_bind_exn {A B} (p : prog A) (f : A → prog B) d fl h e d1 fl1 h1 :
  runs_to (L:=L) p d fl h (Exn e) d1 fl1 h1 →
  runs_to (L:=L) (p ≫= f) d fl h (Exn e) d1 fl1 h1.
Proof.
  intros Hp l Hl. destruct (Hp l Hl) as (l1 & Hr & Hl1). exists l1.
  by rewrite run_bind, Hr.
Qed.

Lemma runs_fmap {A B} (g : A → B) (p : prog A) d fl h a d1 fl1 h1 :
  runs_to (L:=L) p d fl h (Done a) d1 fl1 h1 →
  runs_to (L:=L) (g <$> p) d fl h (Done (g a)) d1 fl1 h1.
Proof. intros Hp. eapply runs_bind; [done|apply runs_ret]. Qed.

Lemma runs_lock op b d fl h h' :
  len h < hold_bound → hold_step op b h = LkDone h' →
  runs_to (L:=L) (inode_lock op b) d fl h (Done ()) d fl h'.
Proof.
  intros Hb Hs l Hl. destruct (lk_call_done op b l h h' Hl Hb Hs) as (l' & Hc & Hl').
  exists l'. simpl. by rewrite Hc.
Qed.

Lemma runs_read b v d fl h :
  disk_readblock d b = Some v → runs_to (L:=L) (disk_read b) d fl h (Done v) d fl h.
Proof. intros Hv l Hl. exists l. simpl. by rewrite Hv. Qed.

Lemma runs_write b v d fl h d' :
  disk_writeblock d b v = Some d' →
  runs_to (L:=L) (disk_write b v) d fl h (Done ()) d' fl h.
Proof. intros Hv l Hl. exists l. simpl. by rewrite Hv. Qed.

(** A critical section on the free list that touches nothing else. *)
Lemma run_unlock_on_exit {A} (p : prog A) (s s' : fs_state D L) (o : outcome A) :
  run p s = (o, s') → st_free_mutex s' = true →
  (∃ a, o = Done a) ∨ (∃ e, o = Exn e) →
  run (unlock_on_exit p) s = (o, St (st_disk s') (st_free s') (st_locks s') false).
Proof.
  revert s; induction p as [a|e|x|b k IH|b v k IH|op b k IH|k IH|k IH|k IH|l k IH];
    intros s Hr Hm Ho; simpl in *; try (injection Hr as <- <-; rewrite Hm; done);
    try (by destruct Ho as [[? ?]|[? ?]]; simplify_eq);
    try (by apply IH); repeat case_match; simplify_eq;
    try (by destruct Ho as [[? ?]|[? ?]]; simplify_eq); by apply IH.
Qed.

End run_laws.

Lemma guarantee_mono {A} (Q Q' : outcome A → thread_locks → Prop) p t :
  guarantee Q p t → (∀ o t', Q o t' → Q' o t') → guarantee Q' p t.
Proof.
  intros Hp HQ. revert t Hp.
  induction p as [a|e|x|b k IH|b v k IH|op b k IH|k IH|k IH|k IH|l k IH];
    intros t; simpl; try apply HQ; try (intros [? ?]; split; eauto).
  case_match; eauto. intros (? & ? & ?); eauto.
Qed.

Lemma guarantee_bind {A B} (Q : outcome B → thread_locks → Prop) (p : prog A)
    (f : A → prog B) t :
  guarantee (λ o t', match o with
                     | Done a => guarantee Q (f a) t'
                     | Exn e => Q (Exn e) t'
                     | Crash x => Q (Crash x) t'
                     | Blocked => Q Blocked t'
                     end) p t →
  guarantee Q (p ≫= f) t.
Proof.
  revert t; induction p as [a|e|x|b k IH|b v k IH|op b k IH|k IH|k IH|k IH|l k IH];
    intros t; simpl; try done; try (intros [? ?]; split; eauto).
  case_match; eauto. intros (? & ? & ?); eauto.
Qed.

Lemma guarantee_assoc {A B C} (Q : outcome C → thread_locks → Prop) (p : prog A)
    (f : A → prog B) (g : B → prog C) t :
  guarantee Q (p ≫= λ a, f a ≫= g) t → guarantee Q ((p ≫= f) ≫= g) t.
Proof.
  revert t; induction p as [a|e|x|b k IH|b v k IH|op b k IH|k IH|k IH|k IH|l k IH];
    intros t; simpl; try done; try (intros [? ?]; split; eauto).
  case_match; eauto. intros (? & ? & ?); eauto.
Qed.

(** The lock guard hands the mutex back on both exits. *)
Lemma guarantee_unlock_on_exit {A} (Q : outcome A → thread_locks → Prop) (p : prog A) t :
  guarantee (λ o t', match o with
                     | Done _ | Exn _ => tl_free t' = true ∧ Q o (TL (tl_inodes t') false)
                     | _ => Q o t'
                     end) p t →
  guarantee Q (unlock_on_exit p) t.
Proof.
  revert t; induction p as [a|e|x|b k IH|b v k IH|op b k IH|k IH|k IH|k IH|l k IH];
    intros t; simpl; try done; try (intros [? ?]; split; eauto).
  case_match; eauto. intros (? & ? & ?); eauto.
Qed.

(** The accesses, one by one. *)
Lemma guarantee_inode_lock {A} (Q : outcome A → thread_locks → Prop) op b f t :
  guarantee Q (inode_lock op b ≫= f) t =
  match hold_step op b (tl_inodes t) with
  | LkDone h => waits_orderly op t = true ∧ (length h <= 2)%nat ∧ guarantee Q (f ()) (TL h (tl_free t))
  | LkBlocks _ => Q Blocked t
  | LkInvalid => False
  end.
Proof. done. Qed.

Lemma guarantee_disk_read {A} (Q : outcome A → thread_locks → Prop) b f t :
  guarantee Q (disk_read b ≫= f) t =
  (tl_inodes t ≠ [] ∧ ∀ v, len v = FS_BLOCKSIZE → guarantee Q (f v) t).
Proof. done. Qed.

Lemma guarantee_disk_write {A} (Q : outcome A → thread_locks → Prop) b v f t :
  guarantee Q (disk_write b v ≫= f) t = (may_write (tl_inodes t) ∧ guarantee Q (f ()) t).
Proof. done. Qed.

Lemma guarantee_free_mutex {A} (Q : outcome A → thread_locks → Prop) (p : prog A) h :
  guarantee (λ o t', match o with
                     | Done _ | Exn _ => tl_free t' = true ∧ Q o (TL (tl_inodes t') false)
                     | _ => Q o t'
                     end) p (TL h true) →
  guarantee Q (with_free_mutex p) (TL h false).
Proof. intros Hp. split; [done|]. by apply guarantee_unlock_on_exit. Qed.

Lemma guarantee_get_free {A} (Q : outcome A → thread_locks → Prop) (f : bool → prog A) h :
  (∀ c, guarantee Q (f c) (TL h true)) → guarantee Q (free_empty ≫= f) (TL h true).
Proof. intros Hf. split; [done|]. intros l. apply Hf. Qed.

(** ** Programs that never write the disk *)

Fixpoint never_writes {A} (p : prog A) : Prop :=
  match p with
  | Ret _ | Throw _ | Fail _ => True
  | ReadBlock b k => ∀ v, never_writes (k v)
  | WriteBlock _ _ _ => False
  | InodeLock op b k => never_writes k
  | LockFreeMutex k => never_writes k
  | UnlockFreeMutex k => never_writes k
  | GetFree k => ∀ l, never_writes (k l)
  | PutFree _ k => never_writes k
  end.

Lemma never_writes_bind {A B} (p : prog A) (f : A → prog B) :
  never_writes p → (∀ a, never_writes (f a)) → never_writes (p ≫= f).
Proof. intros Hp Hf. revert Hp. induction p; simpl; eauto. Qed.

Lemma never_writes_assert {B} c (f : unit → prog B) :
  never_writes (f ()) → never_writes (assert_ c ≫= f).
Proof. by destruct c. Qed.

Lemma never_writes_or_undefined {A B} (o : option A) (f : A → prog B) :
  (∀ a, never_writes (f a)) → never_writes (or_undefined o ≫= f).
Proof. destruct o; [|done]. intros Hf. apply Hf. Qed.

Lemma never_writes_run {D L A} `{Disk D} `{InodeLocks L} (p : prog A) (s s' : fs_state D L) o :
  never_writes p → run p s = (o, s') → st_disk s' = st_disk s.
Proof.
  revert s; induction p as [a|e|x|b k IH|b v k IH|op b k IH|k IH|k IH|k IH|l k IH];
    intros s Hp; simpl in *; try done; try (by intros [= <- <-]); try (by apply IH).
  - case_match; [|by intros [= <- <-]]. eauto.
  - case_match; [|by intros [= <- <-]..]. intros Hr. by apply IH in Hr.
  - case_match; [by intros [= <- <-]|]. intros Hr. by apply IH in Hr.
  - case_match; [|by intros [= <- <-]]. intros Hr. by apply IH in Hr.
  - intros Hr. by apply IH in Hr.
Qed.

(** Programs are taken apart by lemmas, not by computation. *)
Arguments disk_read : simpl never.
Arguments disk_write : simpl never.
Arguments inode_lock : simpl never.
Arguments with_free_mutex : simpl never.
Arguments prog_bind : simpl never.
Arguments guarantee : simpl never.
