(* ===== verification/FileSystem.v ===== *)
(** * The file system

    [class FileSystem] of [filesys/file_system.cpp], the path helpers of the
    same file, and [struct Command] of [filesys/utils.h]: the four request
    handlers and the constructor that finds the free blocks, as programs over
    the disk, the free list and the inode locks (file [Prog]). *)
From S2P Require Import Prelude Layout Locks Prog.

Local Open Scope Z_scope.

Inductive CommandType := FS_READBLOCK | FS_WRITEBLOCK | FS_CREATE | FS_DELETE | INVALID.

#[export] Instance CommandType_eq_dec : EqDecision CommandType.
Proof. solve_decision. Defined.

Record Command := mkCommand {
  command_type : CommandType;
  username : bytes;
  pathname : bytes;
  cmd_block : Z;
  cmd_type : ascii;
  cmd_data : bytes;
}.

Definition slash : ascii := "/"%char.
Definition type_file : ascii := "f"%char.
Definition type_dir : ascii := "d"%char.

(** ** Paths *)

Module Path.

(** [path.find_last_of(c)] *)
Fixpoint find_last_of (c : ascii) (s : bytes) : option nat :=
  match s with
  | [] => None
  | x :: s' =>
      match find_last_of c s' with
      | Some i => Some (S i)
      | None => if Ascii.eqb x c then Some O else None
      end
  end.

(** [!path.empty() && path.back() != '/'] *)
Definition path_ok (path : bytes) : bool :=
  match last path with
  | None => false
  | Some c => negb (Ascii.eqb c slash)
  end.

Definition get_parent_dir (path : bytes) : prog bytes :=
  _ ← assert_ (path_ok path);
  match find_last_of slash path with
  | None => Fail AssertFailure
  | Some last_slash => Ret (take last_slash path)
  end.

Definition get_target (path : bytes) : prog bytes :=
  _ ← assert_ (path_ok path);
  match find_last_of slash path with
  | None => Fail AssertFailure
  | Some last_slash => Ret (drop (S last_slash) path)
  end.

(** [while (std::getline(stream, name, d)) names.push_back(name)]: the pieces
    between delimiters; nothing after a final delimiter. *)
Fixpoint getlines (d : ascii) (s : bytes) : list bytes :=
  match s with
  | [] => []
  | c :: s' =>
      if Ascii.eqb c d then [] :: getlines d s'
      else match getlines d s' with
           | [] => [[c]]
           | t :: ts => (c :: t) :: ts
           end
  end.

End Path.

Module FileSystem.
Import Path.

(** ** Reading and writing structures *)

Definition read_inode (b : Z) : prog fs_inode := decode_inode <$> disk_read b.
Definition read_direntries (b : Z) : prog (list fs_direntry) :=
  decode_direntries <$> disk_read b.

Definition write_inode (b : Z) (i : fs_inode) : prog unit := disk_write b (encode_inode i).
Definition write_direntries (b : Z) (l : list fs_direntry) : prog unit :=
  disk_write b (encode_direntries l).

(** [inode.blocks[i]] on the 124-element array. *)
Definition inode_block_at (i : fs_inode) (k : Z) : prog Z :=
  or_undefined (if k <? 0 then None else ino_blocks i !! Z.to_nat k).

Definition inode_set_block (i : fs_inode) (k : Z) (b : Z) : prog fs_inode :=
  if (0 <=? k) && (k <? FS_MAXFILEBLOCKS)
  then Ret (Inode (ino_type i) (ino_owner i) (ino_size i) (<[Z.to_nat k := b]> (ino_blocks i)))
  else Fail UndefinedBehaviour.

Definition inode_set_size (i : fs_inode) (sz : Z) : fs_inode :=
  Inode (ino_type i) (ino_owner i) (wrap32 sz) (ino_blocks i).

(** [user_name != inode.owner] *)
Definition not_owner (user_name : bytes) (i : fs_inode) : prog bool :=
  or_undefined (string_ne user_name (ino_owner i)).

Definition is_type (i : fs_inode) (t : ascii) : bool := Ascii.eqb (ino_type i) t.

Definition unused (e : fs_direntry) : bool := de_inode_block e =? 0.

Arguments read_inode : simpl never.
Arguments read_direntries : simpl never.
Arguments write_inode : simpl never.
Arguments write_direntries : simpl never.
Arguments inode_block_at : simpl never.
Arguments inode_set_block : simpl never.
Arguments not_owner : simpl never.
Arguments or_undefined : simpl never.

(** ** Path traversal *)

(** The inner loop of [find_next_inode]. *)
Fixpoint find_in_entries (name : bytes) (tmp_block : list fs_direntry) : prog Z :=
  match tmp_block with
  | [] => Ret UNDEFINED_BLOCK
  | e :: rest =>
      if unused e then find_in_entries name rest
      else
        same ← or_undefined (strcmp_eq (de_name e) name);
        if (same : bool) then Ret (de_inode_block e) else find_in_entries name rest
  end.

(** The outer loop, [n] blocks left from index [i]. *)
Fixpoint find_in_blocks (name : bytes) (curr_inode : fs_inode) (n : nat) (i : Z) : prog Z :=
  match n with
  | O => Ret UNDEFINED_BLOCK
  | S n' =>
      b ← inode_block_at curr_inode i;
      tmp_block ← read_direntries b;
      result ← find_in_entries name tmp_block;
      if negb (result =? UNDEFINED_BLOCK) then Ret result
      else find_in_blocks name curr_inode n' (i + 1)
  end.

Definition find_next_inode (next_dir_name : bytes) (target_inode_block : Z)
    (user_name : bytes) : prog Z :=
  curr_inode ← read_inode target_inode_block;
  denied ← (if target_inode_block =? 0 then Ret false else not_owner user_name curr_inode);
  if (denied : bool) then
    _ ← inode_lock UnlockRead target_inode_block;
    Throw "User is not owner of this dir"
  else if negb (is_type curr_inode type_dir) then
    _ ← inode_lock UnlockRead target_inode_block;
    Throw "Expected a directory, but got a file"
  else
    result ← find_in_blocks next_dir_name curr_inode (Z.to_nat (ino_size curr_inode)) 0;
    if result =? UNDEFINED_BLOCK then
      _ ← inode_lock UnlockRead target_inode_block;
      Throw "Directory not found"
    else Ret result.

(** The loop of [find_parent_inode]: hand-over-hand reader locks. *)
Fixpoint walk (directory_names : list bytes) (target_inode_block : Z)
    (user_name : bytes) : prog Z :=
  match directory_names with
  | dir_name :: ((next_name :: _) as rest) =>
      _ ← assert_ (if bool_decide (until_nul dir_name = [])
                   then target_inode_block =? ROOT_INODE else true);
      next_inode_block ← find_next_inode next_name target_inode_block user_name;
      _ ← inode_lock LockRead next_inode_block;
      _ ← inode_lock UnlockRead target_inode_block;
      walk rest next_inode_block user_name
  | _ => Ret target_inode_block
  end.

Definition find_parent_inode (path_name user_name : bytes) : prog Z :=
  parent_path ← get_parent_dir path_name;
  _ ← inode_lock LockRead ROOT_INODE;
  walk (getlines slash parent_path) ROOT_INODE user_name.

(** ** Read *)

Definition handle_read (command : Command) : prog bytes :=
  parent_inode_block ← find_parent_inode (pathname command) (username command);
  target ← get_target (pathname command);
  target_inode_block ← find_next_inode target parent_inode_block (username command);
  _ ← inode_lock LockRead target_inode_block;
  _ ← inode_lock UnlockRead parent_inode_block;
  target_inode ← read_inode target_inode_block;
  if negb (is_type target_inode type_file) || (ino_size target_inode <=? cmd_block command) then
    _ ← inode_lock UnlockRead target_inode_block;
    Throw "Provided file is not a valid file"
  else
    denied ← not_owner (username command) target_inode;
    if (denied : bool) then
      _ ← inode_lock UnlockRead target_inode_block;
      Throw "User is not owner of file"
    else
      b ← inode_block_at target_inode (cmd_block command);
      data_read ← disk_read b;
      _ ← inode_lock UnlockRead target_inode_block;
      Ret data_read.

(** ** Write *)

(** The block taken from the free list to grow a file by one block. *)
Definition grow_file (target_inode_block : Z) (target_inode : fs_inode) : prog fs_inode :=
  with_free_mutex (
    no_space ← free_empty;
    if (no_space : bool) || (ino_size target_inode =? FS_MAXFILEBLOCKS) then
      _ ← inode_lock UnlockUpgrade target_inode_block;
      Throw "Not enough disk space for this write"
    else
      free_block ← free_front;
      on_exception (
        _ ← free_pop;
        target_inode' ← inode_set_block target_inode (ino_size target_inode) free_block;
        Ret (inode_set_size target_inode' (ino_size target_inode + 1)))
      (free_push free_block)).

Definition handle_write (command : Command) : prog unit :=
  parent_inode_block ← find_parent_inode (pathname command) (username command);
  target ← get_target (pathname command);
  target_inode_block ← find_next_inode target parent_inode_block (username command);
  _ ← inode_lock LockUpgrade target_inode_block;
  _ ← inode_lock UnlockRead parent_inode_block;
  target_inode ← read_inode target_inode_block;
  if negb (is_type target_inode type_file) || (ino_size target_inode <? cmd_block command) then
    _ ← inode_lock UnlockUpgrade target_inode_block;
    Throw "Provided block is not writable"
  else
    denied ← not_owner (username command) target_inode;
    if (denied : bool) then
      _ ← inode_lock UnlockUpgrade target_inode_block;
      Throw "User is not owner of file"
    else
      let increase_file_size := cmd_block command =? ino_size target_inode in
      target_inode ← (if increase_file_size then grow_file target_inode_block target_inode
                      else Ret target_inode);
      b ← inode_block_at target_inode (cmd_block command);
      _ ← (if negb increase_file_size then
             _ ← inode_lock UpgradeToWrite target_inode_block;
             disk_write b (cmd_data command)
           else
             _ ← disk_write b (cmd_data command);
             _ ← inode_lock UpgradeToWrite target_inode_block;
             write_inode target_inode_block target_inode);
      inode_lock UnlockWrite target_inode_block.

(** ** Create and delete: the parent directory *)

Definition get_parent_inode_and_upgradeable_lock (command : Command) (parent_path : bytes)
    : prog Z :=
  match parent_path with
  | [] =>
      _ ← inode_lock LockUpgrade ROOT_INODE;
      Ret ROOT_INODE
  | _ =>
      grandparent_inode_block ← find_parent_inode parent_path (username command);
      parent_dirname ← get_target parent_path;
      parent_inode_block ← find_next_inode parent_dirname grandparent_inode_block (username command);
      _ ← inode_lock LockUpgrade parent_inode_block;
      _ ← inode_lock UnlockRead grandparent_inode_block;
      Ret parent_inode_block
  end.

Definition validate_parent_inode (command : Command) (parent_path : bytes)
    (parent_inode : fs_inode) (parent_inode_block : Z) : prog unit :=
  invalid ←
    (match parent_path with
     | [] => Ret false
     | _ => if negb (is_type parent_inode type_dir) then Ret true
            else not_owner (username command) parent_inode
     end);
  if (invalid : bool) then
    _ ← inode_lock UnlockUpgrade parent_inode_block;
    Throw "Expected a directory, but got a file or user is not owner lol"
  else Ret ().

(** ** Create *)

(** The first free direntry seen: its block, its index in the block and the
    contents of the block ([updated_direntries_block]). *)
Record free_slot := Slot {
  slot_block : Z;
  slot_index : nat;
  slot_entries : list fs_direntry;
}.

(** The inner loop of [handle_create], from entry [j] of [tmp_block]. *)
Fixpoint create_scan_entries (parent_inode_block : Z) (target_name : bytes) (block : Z)
    (tmp_block : list fs_direntry) (rest : list fs_direntry) (j : nat)
    (slot : option free_slot) : prog (option free_slot) :=
  match rest with
  | [] => Ret slot
  | e :: rest' =>
      if unused e then
        let slot := match slot with
                    | None => Some (Slot block j tmp_block)
                    | Some _ => slot
                    end in
        create_scan_entries parent_inode_block target_name block tmp_block rest' (S j) slot
      else
        same ← or_undefined (strcmp_eq (de_name e) target_name);
        if (same : bool) then
          _ ← inode_lock UnlockUpgrade parent_inode_block;
          Throw "Path already exists"
        else create_scan_entries parent_inode_block target_name block tmp_block rest' (S j) slot
  end.

Fixpoint create_scan_blocks (parent_inode_block : Z) (target_name : bytes)
    (parent_inode : fs_inode) (n : nat) (i : Z) (slot : option free_slot)
    : prog (option free_slot) :=
  match n with
  | O => Ret slot
  | S n' =>
      b ← inode_block_at parent_inode i;
      tmp_block ← read_direntries b;
      slot ← create_scan_entries parent_inode_block target_name b tmp_block tmp_block 0 slot;
      create_scan_blocks parent_inode_block target_name parent_inode n' (i + 1) slot
  end.

Definition zero_direntry : fs_direntry :=
  Direntry (replicate (Z.to_nat (FS_MAXFILENAME + 1)) NUL) 0.

(** [memset(updated_direntries_block, 0, FS_BLOCKSIZE)] *)
Definition zero_direntries : list fs_direntry := replicate (Z.to_nat FS_DIRENTRIES) zero_direntry.

(** [strcpy] into the name of an entry whose [inode_block] is set. *)
Definition set_direntry (entries : list fs_direntry) (j : nat) (inode_block : Z) (name : bytes)
    : prog (list fs_direntry) :=
  e ← or_undefined (entries !! j);
  copied ← or_undefined (strcpy (de_name e) name);
  Ret (<[j := Direntry copied inode_block]> entries).

(** The inode of a new file or directory; [stack] is the uninitialised
    [fs_inode new_inode] whose other bytes are written as they are. *)
Definition make_inode (stack : fs_inode) (command : Command) : prog fs_inode :=
  owner ← or_undefined (strcpy (ino_owner stack) (username command));
  Ret (Inode (cmd_type command) owner 0 (ino_blocks stack)).

Definition pop_free_or_throw : prog Z :=
  with_free_mutex (
    no_space ← free_empty;
    if (no_space : bool) then Throw "Not enough disk space for create"
    else b ← free_front; _ ← free_pop; Ret b).

(** The new direntry block of a parent directory that has no free entry. *)
Definition grow_directory (parent_inode_block : Z) (parent_inode : fs_inode)
    : prog (Z * fs_inode) :=
  with_free_mutex (
    no_space ← free_empty;
    if (no_space : bool) || (ino_size parent_inode =? FS_MAXFILEBLOCKS) then
      _ ← inode_lock UnlockUpgrade parent_inode_block;
      Throw "Not enough disk space for create"
    else
      b ← free_front;
      parent_inode' ← inode_set_block parent_inode (ino_size parent_inode) b;
      _ ← free_pop;
      Ret (b, parent_inode')).

Definition handle_create (stack : fs_inode) (command : Command) : prog unit :=
  parent_path ← get_parent_dir (pathname command);
  target_name ← get_target (pathname command);
  parent_inode_block ← get_parent_inode_and_upgradeable_lock command parent_path;
  parent_inode ← read_inode parent_inode_block;
  _ ← validate_parent_inode command parent_path parent_inode parent_inode_block;
  slot ← create_scan_blocks parent_inode_block target_name parent_inode
           (Z.to_nat (ino_size parent_inode)) 0 None;
  new_inode_block ← pop_free_or_throw;
  let entries := match slot with Some s => slot_entries s | None => zero_direntries end in
  let location := match slot with Some s => slot_index s | None => O end in
  updated ← set_direntry entries location new_inode_block target_name;
  new_inode ← make_inode stack command;
  match slot with
  | Some s =>
      _ ← write_inode new_inode_block new_inode;
      _ ← inode_lock UpgradeToWrite parent_inode_block;
      _ ← write_direntries (slot_block s) updated;
      inode_lock UnlockWrite parent_inode_block
  | None =>
      '(new_direntry_block, parent_inode) ← grow_directory parent_inode_block parent_inode;
      _ ← write_inode new_inode_block new_inode;
      let parent_inode := inode_set_size parent_inode (ino_size parent_inode + 1) in
      _ ← write_direntries new_direntry_block updated;
      _ ← inode_lock UpgradeToWrite parent_inode_block;
      _ ← write_inode parent_inode_block parent_inode;
      inode_lock UnlockWrite parent_inode_block
  end.

(** ** Delete *)

Definition is_block_empty (dir_block : list fs_direntry) : bool := forallb unused dir_block.

(** The position of an entry in a directory. *)
Record entry_pos := EntryPos {
  pos_child : Z;                       (* child_inode_block *)
  pos_block : Z;                       (* dir_block_index *)
  pos_entry : nat;                     (* dir_entry_index *)
  pos_entries : list fs_direntry;      (* dir_block *)
}.

Fixpoint delete_scan_entries (target_name : bytes) (rest : list fs_direntry) (j : nat)
    : prog (option (Z * nat)) :=
  match rest with
  | [] => Ret None
  | e :: rest' =>
      if unused e then delete_scan_entries target_name rest' (S j)
      else
        same ← or_undefined (strcmp_eq (de_name e) target_name);
        if (same : bool) then Ret (Some (de_inode_block e, j))
        else delete_scan_entries target_name rest' (S j)
  end.

Fixpoint delete_scan_blocks (target_name : bytes) (parent_inode : fs_inode) (n : nat) (i : Z)
    : prog (option entry_pos) :=
  match n with
  | O => Ret None
  | S n' =>
      b ← inode_block_at parent_inode i;
      dir_block ← read_direntries b;
      found ← delete_scan_entries target_name dir_block 0;
      match found with
      | Some (child, j) => Ret (Some (EntryPos child i j dir_block))
      | None => delete_scan_blocks target_name parent_inode n' (i + 1)
      end
  end.

(** [for (i = ...; i < size - 1; ++i) blocks[i] = blocks[i + 1]], [n] rounds. *)
Fixpoint shift_blocks (i : fs_inode) (n : nat) (k : Z) : prog fs_inode :=
  match n with
  | O => Ret i
  | S n' =>
      b ← inode_block_at i (k + 1);
      i' ← inode_set_block i k b;
      shift_blocks i' n' (k + 1)
  end.

Definition push_free (b : Z) : prog unit := with_free_mutex (free_push b).

(** The data blocks [blocks[i]] of a deleted file, [n] left from index [i]. *)
Fixpoint free_file_blocks (child_inode : fs_inode) (n : nat) (i : Z) : prog unit :=
  match n with
  | O => Ret ()
  | S n' =>
      data_block ← inode_block_at child_inode i;
      _ ← push_free data_block;
      free_file_blocks child_inode n' (i + 1)
  end.

(** Removing the entry from the parent directory, and its block if empty. *)
Definition remove_entry (parent_inode_block : Z) (parent_inode : fs_inode) (p : entry_pos)
    : prog unit :=
  let dir_block := <[pos_entry p := zero_direntry]> (pos_entries p) in
  if is_block_empty dir_block then
    empty_block ← inode_block_at parent_inode (pos_block p);
    parent_inode ← shift_blocks parent_inode
        (Z.to_nat (ino_size parent_inode - 1 - pos_block p)) (pos_block p);
    _ ← write_inode parent_inode_block (inode_set_size parent_inode (ino_size parent_inode - 1));
    push_free empty_block
  else
    b ← inode_block_at parent_inode (pos_block p);
    write_direntries b dir_block.

(** The checks on the child under the parent's writer lock. *)
Definition check_child (command : Command) (parent_inode_block child_inode_block : Z)
    (child_inode : fs_inode) : prog unit :=
  denied ← not_owner (username command) child_inode;
  if (denied : bool) then
    _ ← inode_lock UnlockWrite parent_inode_block;
    _ ← inode_lock UnlockUpgrade child_inode_block;
    Throw "User is not owner of the target"
  else if is_type child_inode type_dir && negb (ino_size child_inode =? 0) then
    _ ← inode_lock UnlockWrite parent_inode_block;
    _ ← inode_lock UnlockUpgrade child_inode_block;
    Throw "Directory not empty"
  else Ret ().

Definition handle_delete (command : Command) : prog unit :=
  if bool_decide (until_nul (pathname command) = [slash]) then
    Throw "Attempting to delete root"
  else
  parent_path ← get_parent_dir (pathname command);
  target_name ← get_target (pathname command);
  parent_inode_block ← get_parent_inode_and_upgradeable_lock command parent_path;
  parent_inode ← read_inode parent_inode_block;
  _ ← validate_parent_inode command parent_path parent_inode parent_inode_block;
  found ← delete_scan_blocks target_name parent_inode (Z.to_nat (ino_size parent_inode)) 0;
  match found with
  | None =>
      _ ← inode_lock UnlockUpgrade parent_inode_block;
      Throw "Target does not exist"
  | Some p =>
      let child_inode_block := pos_child p in
      _ ← inode_lock UpgradeToWrite parent_inode_block;
      _ ← inode_lock LockUpgrade child_inode_block;
      child_inode ← read_inode child_inode_block;
      _ ← check_child command parent_inode_block child_inode_block child_inode;
      _ ← remove_entry parent_inode_block parent_inode p;
      _ ← inode_lock UpgradeToWrite child_inode_block;
      _ ← inode_lock UnlockWrite parent_inode_block;
      _ ← push_free child_inode_block;
      _ ← (if is_type child_inode type_file
           then free_file_blocks child_inode (Z.to_nat (ino_size child_inode)) 0
           else Ret ());
      inode_lock UnlockWrite child_inode_block
  end.

(** ** Construction: finding the free blocks *)

Definition bfs_file_inode (i : fs_inode) (used : gset Z) : prog (gset Z) :=
  (fix go (n : nat) (k : Z) (used : gset Z) : prog (gset Z) :=
     match n with
     | O => Ret used
     | S n' => b ← inode_block_at i k; go n' (k + 1) ({[b]} ∪ used)
     end) (Z.to_nat (ino_size i)) 0 used.

(** The entries of one directory block. *)
Definition bfs_entries (entries : list fs_direntry) (used : gset Z) (search : list Z)
    : gset Z * list Z :=
  foldl (λ '(used, search) e,
    if unused e then (used, search)
    else ({[de_inode_block e]} ∪ used, search ++ [de_inode_block e])) (used, search) entries.

Definition bfs_directory_inode (i : fs_inode) (used : gset Z) (search : list Z)
    : prog (gset Z * list Z) :=
  (fix go (n : nat) (k : Z) (used : gset Z) (search : list Z) : prog (gset Z * list Z) :=
     match n with
     | O => Ret (used, search)
     | S n' =>
         b ← inode_block_at i k;
         tmp_block ← read_direntries b;
         let '(used, search) := bfs_entries tmp_block ({[b]} ∪ used) search in
         go n' (k + 1) used search
     end) (Z.to_nat (ino_size i)) 0 used search.

(** The breadth-first search; [None] when [fuel] inodes did not suffice. *)
Fixpoint find_free_blocks (fuel : nat) (used : gset Z) (search : list Z)
    : prog (option (gset Z)) :=
  match search with
  | [] => Ret (Some used)
  | curr_block :: search =>
      match fuel with
      | O => Ret None
      | S fuel =>
          inode_to_search ← read_inode curr_block;
          if is_type inode_to_search type_file then
            used ← bfs_file_inode inode_to_search used;
            find_free_blocks fuel used search
          else
            _ ← assert_ (is_type inode_to_search type_dir);
            '(used, search) ← bfs_directory_inode inode_to_search used search;
            find_free_blocks fuel used search
      end
  end.

(** [FileSystem::FileSystem()] runs before any other thread exists. *)
Definition FileSystem_ctor (fuel : nat) : prog (option unit) :=
  used ← find_free_blocks fuel {[ROOT_INODE]} [ROOT_INODE];
  match used with
  | None => Ret None
  | Some used =>
      _ ← PutFree (filter (λ b, b ∉ used) (seqZ 0 FS_DISKSIZE)) (Ret ());
      Ret (Some ())
  end.

End FileSystem.
