(* ===== verification/FsLocking.v ===== *)
(** * The locking discipline of the handlers

    What each handler of [FileSystem] does to its own locks, for every
    behaviour of the disk and of the other threads ([Prog.guarantee]): which
    locks it holds when it returns or throws, that it reads under a lock and
    writes under an upgradeable or writer lock, that it never holds more than
    two inode locks and waits for them in an orderly way, and that the free list is only touched under its mutex. *)
From S2P Require Import Prelude Layout Locks Prog FileSystem.
Import Path FileSystem.

Local Open Scope Z_scope.

#[local] Arguments mbind : simpl never.

(** ** How a call ends *)

(** A helper that leaves the thread's locks alone and throws nothing. *)
Definition keeps {A} (t : thread_locks) (o : outcome A) (t' : thread_locks) : Prop :=
  match o with
  | Done _ => t' = t
  | Exn _ => False
  | Crash _ | Blocked => True
  end.

(** A call that ends with [td a] when it returns [a] and with [tx] when it
    throws. *)
Definition ends_with {A} (td : A → thread_locks) (tx : thread_locks) (o : outcome A)
    (t' : thread_locks) : Prop :=
  match o with
  | Done a => t' = td a
  | Exn _ => t' = tx
  | Crash _ | Blocked => True
  end.

Definition no_locks : thread_locks := TL [] false.

(** Returning or throwing without a lock left behind. *)
Definition balanced {A} : outcome A → thread_locks → Prop := ends_with (λ _, no_locks) no_locks.

(** The one exit of [handle_create] that keeps a lock. *)
Definition balanced_unless_full {A} (o : outcome A) (t' : thread_locks) : Prop :=
  balanced o t' ∨
  (o = Exn "Not enough disk space for create" ∧ ∃ b, t' = TL [(b, Upgrade)] false).

(** Postconditions that accept a crash or waiting for ever. *)
Class Lenient {A} (Q : outcome A → thread_locks → Prop) : Prop := {
  lenient_crash x t : Q (Crash x) t;
  lenient_blocked t : Q Blocked t;
}.

#[export] Instance lenient_keeps {A} t : Lenient (@keeps A t).
Proof. by split. Qed.
#[export] Instance lenient_ends_with {A} td tx : Lenient (@ends_with A td tx).
Proof. by split. Qed.
#[export] Instance lenient_unless_full {A} : Lenient (@balanced_unless_full A).
Proof. by split; left. Qed.
#[export] Instance lenient_exits {A} (Q : outcome A → thread_locks → Prop) :
  Lenient Q →
  Lenient (λ o t', match o with
                   | Done _ | Exn _ => tl_free t' = true ∧ Q o (TL (tl_inodes t') false)
                   | _ => Q o t'
                   end).
Proof. intros [? ?]; by split. Qed.

(** ** Composition *)

Lemma guarantee_keeps {A B} (Q : outcome B → thread_locks → Prop) `{!Lenient Q}
    (p : prog A) (f : A → prog B) t :
  guarantee (keeps t) p t → (∀ a, guarantee Q (f a) t) → guarantee Q (p ≫= f) t.
Proof.
  intros Hp Hf. apply guarantee_bind. eapply guarantee_mono; [exact Hp|].
  intros [a|e|x|] t'; simpl; [intros ->; auto|done|intros; apply lenient_crash|intros; apply lenient_blocked].
Qed.

Lemma guarantee_ends {A B} (Q : outcome B → thread_locks → Prop) `{!Lenient Q}
    (p : prog A) (f : A → prog B) t td tx :
  guarantee (ends_with td tx) p t → (∀ e, Q (Exn e) tx) → (∀ a, guarantee Q (f a) (td a)) →
  guarantee Q (p ≫= f) t.
Proof.
  intros Hp Hx Hf. apply guarantee_bind. eapply guarantee_mono; [exact Hp|].
  intros [a|e|x|] t'; simpl; [intros ->; auto|intros ->; auto|intros; apply lenient_crash|intros; apply lenient_blocked].
Qed.

Lemma guarantee_lock {A} (Q : outcome A → thread_locks → Prop) `{!Lenient Q}
    op b (f : unit → prog A) h m :
  match hold_step op b h with
  | LkDone h' => waits_orderly op (TL h m) = true ∧ (length h' <= 2)%nat ∧ guarantee Q (f ()) (TL h' m)
  | LkBlocks _ => True
  | LkInvalid => False
  end →
  guarantee Q (inode_lock op b ≫= f) (TL h m).
Proof. rewrite guarantee_inode_lock. simpl. case_match; auto. intros. apply lenient_blocked. Qed.

Lemma may_write_upgrade b h : may_write ((b, Upgrade) :: h).
Proof. exists b. left. by left. Qed.
Lemma may_write_exclusive b h : may_write ((b, Exclusive) :: h).
Proof. exists b. right. by left. Qed.
(** Re-associate binds, and step over a disk write. *)
Ltac gassoc := repeat apply guarantee_assoc.
Ltac gwrite := unfold write_inode, write_direntries; gassoc; rewrite guarantee_disk_write;
  split; [first [apply may_write_upgrade | apply may_write_exclusive]|].

(** ** The helpers *)

Lemma keeps_or_undefined {A} (o : option A) t : guarantee (keeps t) (or_undefined o) t.
Proof. by destruct o. Qed.

Lemma keeps_assert c t : guarantee (keeps t) (assert_ c) t.
Proof. by destruct c. Qed.

Lemma keeps_ret {A} (a : A) t : guarantee (keeps t) (Ret a) t.
Proof. done. Qed.

Lemma keeps_block_at i k t : guarantee (keeps t) (inode_block_at i k) t.
Proof. apply keeps_or_undefined. Qed.

Lemma keeps_set_block i k b t : guarantee (keeps t) (inode_set_block i k b) t.
Proof. unfold inode_set_block. by case_match. Qed.

Lemma keeps_not_owner u i t : guarantee (keeps t) (not_owner u i) t.
Proof. apply keeps_or_undefined. Qed.

Lemma keeps_read b t : tl_inodes t ≠ [] → guarantee (keeps t) (read_inode b) t.
Proof. by split. Qed.

Lemma keeps_read_direntries b t : tl_inodes t ≠ [] → guarantee (keeps t) (read_direntries b) t.
Proof. by split. Qed.

Lemma keeps_parent_dir p t : guarantee (keeps t) (get_parent_dir p) t.
Proof. apply guarantee_keeps; [apply _|apply keeps_assert|intros _; by case_match]. Qed.

Lemma keeps_target p t : guarantee (keeps t) (get_target p) t.
Proof. apply guarantee_keeps; [apply _|apply keeps_assert|intros _; by case_match]. Qed.

#[export] Hint Resolve keeps_or_undefined keeps_assert keeps_ret keeps_block_at keeps_set_block
  keeps_not_owner keeps_read keeps_read_direntries keeps_parent_dir keeps_target : proj.

(** Step through a bind whose first part leaves the locks alone. *)
Ltac gkeep := apply guarantee_keeps; [apply _|by eauto with proj|].
Ltac glock := apply guarantee_lock; [apply _|]; simpl; unfold drop_hold; simpl.

Lemma keeps_find_in_entries name es t : guarantee (keeps t) (find_in_entries name es) t.
Proof.
  induction es as [|e es IH]; simpl; [done|]. case_match; [done|].
  gkeep. intros []; [done|apply IH].
Qed.

Lemma keeps_find_in_blocks name i n k t :
  tl_inodes t ≠ [] → guarantee (keeps t) (find_in_blocks name i n k) t.
Proof.
  intros Ht. revert k; induction n as [|n IH]; intros k; simpl; [done|].
  gkeep. intros b. gkeep. intros es. apply guarantee_keeps; [apply _|apply keeps_find_in_entries|].
  intros r. case_match; [done|apply IH].
Qed.

Lemma keeps_delete_scan_entries name es j t :
  guarantee (keeps t) (delete_scan_entries name es j) t.
Proof.
  revert j; induction es as [|e es IH]; intros j; simpl; [done|]. case_match; [done|].
  gkeep. intros []; [done|apply IH].
Qed.

Lemma keeps_delete_scan_blocks name i n k t :
  tl_inodes t ≠ [] → guarantee (keeps t) (delete_scan_blocks name i n k) t.
Proof.
  intros Ht. revert k; induction n as [|n IH]; intros k; simpl; [done|].
  gkeep. intros b. gkeep. intros es. apply guarantee_keeps; [apply _|apply keeps_delete_scan_entries|].
  intros [[c j]|]; [done|apply IH].
Qed.

Lemma keeps_shift_blocks i n k t : guarantee (keeps t) (shift_blocks i n k) t.
Proof.
  revert i k; induction n as [|n IH]; intros i k; simpl; [done|]. gkeep. intros b. gkeep. intros i'. apply IH.
Qed.

Lemma keeps_set_direntry es j b name t : guarantee (keeps t) (set_direntry es j b name) t.
Proof. unfold set_direntry. gkeep. intros e. gkeep. done. Qed.

Lemma keeps_make_inode stack cmd t : guarantee (keeps t) (make_inode stack cmd) t.
Proof. unfold make_inode. gkeep. done. Qed.

Lemma keeps_push_free b h : guarantee (keeps (TL h false)) (push_free b) (TL h false).
Proof. repeat split. Qed.

Lemma keeps_free_file_blocks i n k h :
  guarantee (keeps (TL h false)) (free_file_blocks i n k) (TL h false).
Proof.
  revert k; induction n as [|n IH]; intros k; simpl; [done|]. gkeep. intros b.
  apply guarantee_keeps; [apply _|apply keeps_push_free|]. intros _. apply IH.
Qed.

#[export] Hint Resolve keeps_find_in_entries keeps_find_in_blocks keeps_delete_scan_blocks
  keeps_shift_blocks keeps_set_direntry keeps_make_inode keeps_push_free
  keeps_free_file_blocks : proj.

(** ** Traversal *)

Definition reading (b : Z) : thread_locks := TL [(b, Shared)] false.
Definition upgradeable (b : Z) : thread_locks := TL [(b, Upgrade)] false.

(** Every lock step of the handlers computes, up to comparing the two blocks. *)
Ltac glocks :=
  glock; repeat case_bool_decide; repeat case_decide; simplify_eq/=;
  rewrite ?(bool_decide_eq_false_2 (_ ∈ [])) by (by intros ?%elem_of_nil);
  try exact I; try (split; [done|split; [lia|]]).

Lemma guarantee_find_next_inode name b user :
  guarantee (ends_with (λ _, reading b) no_locks) (find_next_inode name b user) (reading b).
Proof.
  unfold find_next_inode, reading. gkeep. intros i.
  apply guarantee_keeps; [apply _|destruct (b =? 0); eauto with proj|]. intros [].
  { glocks; done. }
  destruct (negb _); [glocks; done|]. gkeep. intros r.
  destruct (r =? UNDEFINED_BLOCK); [glocks; done|done].
Qed.

(** Hand over hand: the next lock is taken before the previous one goes. *)
Lemma guarantee_hand_over {A} (Q : outcome A → thread_locks → Prop) `{!Lenient Q}
    op m b c (f : unit → unit → prog A) :
  (op, m) ∈ [(LockRead, Shared); (LockUpgrade, Upgrade)] →
  guarantee Q (f () ()) (TL [(c, m)] false) →
  guarantee Q (u ← inode_lock op c; v ← inode_lock UnlockRead b; f u v) (reading b).
Proof.
  intros Hop Hf. apply guarantee_lock; [done|].
  assert (hold_step op c (tl_inodes (reading b)) = LkDone [(c, m); (b, Shared)]) as Hs.
  { rewrite !elem_of_cons, elem_of_nil in Hop. destruct Hop as [[= -> ->]|[[= -> ->]|[]]]; simpl;
      rewrite bool_decide_eq_false_2; try done; rewrite !elem_of_cons, !elem_of_nil.
    all: intros Hx; repeat destruct Hx as [Hx|Hx]; done. }
  simpl in Hs. rewrite Hs. split; [|split; [simpl; lia|]].
  { rewrite !elem_of_cons, elem_of_nil in Hop. by destruct Hop as [[= -> ->]|[[= -> ->]|[]]]. }
  apply guarantee_lock; [done|]. simpl. unfold drop_hold. simpl.
  destruct (decide _) as [[= -> <-]|Hne]; [split; [done|split; [simpl; lia|done]]|].
  rewrite decide_True by done. simpl. split; [done|split; [lia|done]].
Qed.

Lemma guarantee_walk names b user :
  guarantee (ends_with reading no_locks) (walk names b user) (reading b).
Proof.
  revert b; induction names as [|n1 names IH]; intros b; [done|].
  destruct names as [|n2 names]; [done|]. cbn [walk]. gkeep. intros _.
  eapply guarantee_ends; [apply _|apply guarantee_find_next_inode|done|]. intros c.
  apply (guarantee_hand_over _ _ Shared); [set_solver|]. apply IH.
Qed.

Lemma guarantee_find_parent_inode path user :
  guarantee (ends_with reading no_locks) (find_parent_inode path user) no_locks.
Proof.
  unfold find_parent_inode, no_locks. gkeep. intros parent. glocks.
  apply guarantee_walk.
Qed.

(** ** The handlers *)

(** A handler that throws after releasing the one lock it holds. *)
Lemma balanced_throw {A} op m b e :
  (op, m) ∈ [(UnlockRead, Shared); (UnlockUpgrade, Upgrade); (UnlockWrite, Exclusive)] →
  guarantee (@balanced A) (inode_lock op b ≫= λ _, Throw e) (TL [(b, m)] false).
Proof.
  intros Hop. rewrite !elem_of_cons, elem_of_nil in Hop.
  destruct Hop as [[= -> ->]|[[= -> ->]|[[= -> ->]|[]]]]; by glocks.
Qed.

Lemma balanced_read_file command :
  guarantee balanced (handle_read command) no_locks.
Proof.
  unfold handle_read.
  eapply guarantee_ends; [apply _|apply guarantee_find_parent_inode|done|]. intros p. gkeep. intros target.
  eapply guarantee_ends; [apply _|apply guarantee_find_next_inode|done|]. intros c.
  apply (guarantee_hand_over _ _ Shared); [set_solver|]. gkeep. intros i.
  destruct (_ || _); [apply (balanced_throw _ Shared); set_solver|]. gkeep. intros [].
  { apply (balanced_throw _ Shared); set_solver. }
  gkeep. intros b. rewrite guarantee_disk_read. split; [done|]. intros v _. by glocks.
Qed.

Lemma guarantee_grow_file b i :
  guarantee (ends_with (λ _, upgradeable b) no_locks) (grow_file b i) (upgradeable b).
Proof.
  apply guarantee_free_mutex, guarantee_get_free. intros c.
  destruct (c || _); [by glocks|]. split; [done|]. intros [|f l]; [done|]. split; [done|].
  intros l'. unfold inode_set_block. destruct l'; [done|]. by destruct (_ && _).
Qed.

Lemma balanced_write_file command :
  guarantee balanced (handle_write command) no_locks.
Proof.
  unfold handle_write.
  eapply guarantee_ends; [apply _|apply guarantee_find_parent_inode|done|]. intros p. gkeep. intros target.
  eapply guarantee_ends; [apply _|apply guarantee_find_next_inode|done|]. intros c.
  apply (guarantee_hand_over _ _ Upgrade); [set_solver|]. gkeep. intros i.
  destruct (_ || _); [apply (balanced_throw _ Upgrade); set_solver|]. gkeep. intros [].
  { apply (balanced_throw _ Upgrade); set_solver. }
  eapply (guarantee_ends _ _ _ _ (λ _, upgradeable c)); [|done|].
  { destruct (cmd_block command =? _); [apply guarantee_grow_file|done]. }
  intros i'. gkeep. intros b. destruct (cmd_block command =? _); simpl.
  - gwrite. gassoc. glocks. gwrite. by glocks.
  - gassoc. glocks. gwrite. by glocks.
Qed.

Lemma guarantee_parent_upgrade command parent_path :
  guarantee (ends_with upgradeable no_locks)
    (get_parent_inode_and_upgradeable_lock command parent_path) no_locks.
Proof.
  unfold get_parent_inode_and_upgradeable_lock, no_locks.
  destruct parent_path as [|x path]; [by glocks|].
  eapply guarantee_ends; [apply _|apply guarantee_find_parent_inode|done|]. intros p. gkeep. intros name.
  eapply guarantee_ends; [apply _|apply guarantee_find_next_inode|done|]. intros c.
  by apply (guarantee_hand_over _ _ Upgrade); [set_solver|].
Qed.

Lemma guarantee_validate_parent command path i b :
  guarantee (ends_with (λ _, upgradeable b) no_locks)
    (validate_parent_inode command path i b) (upgradeable b).
Proof.
  unfold validate_parent_inode.
  apply guarantee_keeps; [apply _| |intros []; [by glocks|done]].
  destruct path; [done|]. destruct (negb _); eauto with proj.
Qed.

Lemma guarantee_create_scan_entries b name blk tmp es j slot :
  guarantee (ends_with (λ _, upgradeable b) no_locks)
    (create_scan_entries b name blk tmp es j slot) (upgradeable b).
Proof.
  revert j slot; induction es as [|e es IH]; intros j slot; simpl; [done|].
  destruct (unused e); [apply IH|]. gkeep. intros []; [by glocks|apply IH].
Qed.

Lemma guarantee_create_scan_blocks b name i n k slot :
  guarantee (ends_with (λ _, upgradeable b) no_locks)
    (create_scan_blocks b name i n k slot) (upgradeable b).
Proof.
  revert k slot; induction n as [|n IH]; intros k slot; simpl; [done|].
  gkeep. intros c. gkeep. intros es.
  eapply guarantee_ends; [apply _|apply guarantee_create_scan_entries|done|]. intros slot'. apply IH.
Qed.

Lemma guarantee_grow_directory b i :
  guarantee (ends_with (λ _, upgradeable b) no_locks) (grow_directory b i) (upgradeable b).
Proof.
  apply guarantee_free_mutex, guarantee_get_free. intros c.
  destruct (c || _); [by glocks|]. split; [done|]. intros [|f l]; [done|].
  unfold inode_set_block. simpl. destruct (_ && _); [|done]. split; [done|]. by intros [|f' l'].
Qed.

Lemma balanced_weaken {A} (p : prog A) t :
  guarantee balanced p t → guarantee balanced_unless_full p t.
Proof. intros Hp. eapply guarantee_mono; [done|]. intros o t' Ho. by left. Qed.

(** Taking the block of the new inode: the exit on a full disk forgets the
    lock of the parent directory. *)
Lemma guarantee_pop_free {A} (f : Z → prog A) b :
  (∀ n, guarantee balanced_unless_full (f n) (upgradeable b)) →
  guarantee balanced_unless_full (pop_free_or_throw ≫= f) (upgradeable b).
Proof.
  intros Hf. apply guarantee_bind, guarantee_free_mutex, guarantee_get_free. intros [].
  - simpl. split; [done|]. right. split; [done|]. by exists b.
  - split; [done|]. intros [|n l]; [by left|]. split; [done|]. intros [|n' l']; [by left|].
    split; [done|]. split; [done|]. apply Hf.
Qed.

Lemma balanced_create stack command :
  guarantee balanced_unless_full (handle_create stack command) no_locks.
Proof.
  unfold handle_create. gkeep. intros parent_path. gkeep. intros name.
  eapply guarantee_ends; [apply _|apply guarantee_parent_upgrade|by left|]. intros p.
  gkeep. intros i.
  eapply guarantee_ends; [apply _|apply guarantee_validate_parent|by left|]. intros [].
  eapply guarantee_ends; [apply _|apply guarantee_create_scan_blocks|by left|]. intros slot.
  apply guarantee_pop_free. intros n. gkeep. intros updated. gkeep. intros new_inode.
  apply balanced_weaken. destruct slot as [s|].
  - gwrite. glocks. gwrite. by glocks.
  - eapply guarantee_ends; [apply _|apply guarantee_grow_directory|done|]. intros [nb i'].
    gwrite. gwrite. glocks. gwrite. by glocks.
Qed.

(** Deleting holds the parent's writer lock and the child's upgradeable lock. *)
Definition deleting (p c : Z) : thread_locks := TL [(c, Upgrade); (p, Exclusive)] false.

Lemma guarantee_check_child command p c i :
  guarantee (ends_with (λ _, deleting p c) no_locks) (check_child command p c i) (deleting p c).
Proof.
  unfold check_child, deleting. gkeep. intros []; [|destruct (_ && _); [|done]]; glocks; by glocks.
Qed.

Lemma guarantee_remove_entry p c i e :
  guarantee (ends_with (λ _, deleting p c) no_locks) (remove_entry p i e) (deleting p c).
Proof.
  unfold remove_entry. destruct (is_block_empty _).
  - gkeep. intros b. gkeep. intros i'. gwrite. eapply guarantee_mono; [apply keeps_push_free|].
    by intros [] t'; simpl.
  - gkeep. intros b. split; [apply may_write_upgrade|done].
Qed.

Lemma balanced_delete command :
  guarantee balanced (handle_delete command) no_locks.
Proof.
  unfold handle_delete. destruct (bool_decide _); [done|].
  gkeep. intros parent_path. gkeep. intros name.
  eapply guarantee_ends; [apply _|apply guarantee_parent_upgrade|done|]. intros p. gkeep. intros i.
  eapply guarantee_ends; [apply _|apply guarantee_validate_parent|done|]. intros [].
  gkeep. intros [e|]; [|by glocks].
  glocks. glocks. gkeep. intros ci.
  eapply guarantee_ends; [apply _|apply guarantee_check_child|done|]. intros [].
  eapply guarantee_ends; [apply _|apply guarantee_remove_entry|done|]. intros [].
  unfold deleting. glocks. glocks.
  all: gkeep; intros _; apply guarantee_keeps; [apply _|destruct (is_type _ _); eauto with proj|].
  all: intros _; by glocks.
Qed.

