(* ===== verification/FsModel.v ===== *)
(** * The file system as a typed store

    The contract of the file system is stated on an abstract store: a finite
    map from block numbers to typed nodes (inode, directory block, data
    block) and the list of free blocks.  [fs_wf] is the well-formedness
    invariant that every request preserves; [node_write], [node_append],
    [node_create] and [node_delete] are what the requests do to the store.
    [FsRun] shows that the handlers on a disk implement these. *)
From S2P Require Import Prelude Layout FileSystem.
Import Path FileSystem.

Local Open Scope Z_scope.

(** ** The store *)

Inductive node :=
| NInode (i : fs_inode)
| NDir (es : list fs_direntry)
| NData (v : bytes).

Abbreviation store := (gmap Z node).

(** The block numbers an inode uses: the first [size] of [blocks]. *)
Definition inode_refs (i : fs_inode) : list Z := take (Z.to_nat (ino_size i)) (ino_blocks i).

Definition node_refs (n : node) : list Z :=
  match n with
  | NInode i => inode_refs i
  | NDir es => de_inode_block <$> es
  | NData _ => []
  end.

(** Block [b] refers to block [c] at position [p]; 0 marks an unused entry. *)
Definition refers (V : store) (b : Z) (p : nat) (c : Z) : Prop :=
  c ≠ 0 ∧ ∃ n, V !! b = Some n ∧ node_refs n !! p = Some c.

Definition dir_entries (V : store) (b : Z) : list fs_direntry :=
  match V !! b with
  | Some (NDir es) => es
  | _ => []
  end.

(** All entries of a directory, block after block. *)
Definition listing (V : store) (i : fs_inode) : list fs_direntry :=
  mjoin (dir_entries V <$> inode_refs i).

(** The entry holds a file or directory called [name]. *)
Definition entry_named (name : bytes) (e : fs_direntry) : bool :=
  negb (unused e) && bool_decide (c_str (de_name e) = Some name).

Definition lookup_name (name : bytes) (es : list fs_direntry) : option Z :=
  de_inode_block <$> List.find (entry_named name) es.

Definition used_names (es : list fs_direntry) : list (option bytes) :=
  (λ e, c_str (de_name e)) <$> filter (λ e, unused e = false) es.

(** ** The invariant *)

Definition node_ok (n : node) : Prop :=
  match n with
  | NInode i =>
      inode_ok i ∧ ino_size i ≤ FS_MAXFILEBLOCKS ∧
      (ino_type i = type_file ∨ ino_type i = type_dir) ∧ is_Some (c_str (ino_owner i))
  | NDir es => direntries_ok es
  | NData v => len v = FS_BLOCKSIZE
  end.

(** What a reference from a node of one type must lead to. *)
Definition target_ok (V : store) (n : node) (c : Z) : Prop :=
  match n with
  | NInode i =>
      if is_type i type_file then (∃ v, V !! c = Some (NData v))
      else (∃ es, V !! c = Some (NDir es))
  | NDir _ => c = 0 ∨ ∃ i, V !! c = Some (NInode i)
  | NData _ => False
  end.

Record fs_wf (V : store) (fl : list Z) : Prop := {
  wf_range b n : V !! b = Some n → 0 ≤ b < FS_DISKSIZE;
  wf_root : ∃ i, V !! 0 = Some (NInode i) ∧ ino_type i = type_dir;
  wf_node b n : V !! b = Some n → node_ok n;
  wf_target b n c : V !! b = Some n → c ∈ node_refs n → target_ok V n c;
  wf_unique b1 p1 b2 p2 c : refers V b1 p1 c → refers V b2 p2 c → b1 = b2 ∧ p1 = p2;
  wf_names b i : V !! b = Some (NInode i) → ino_type i = type_dir →
    NoDup (used_names (listing V i));
  wf_free_nodup : NoDup fl;
  wf_free b : b ∈ fl → 0 ≤ b < FS_DISKSIZE ∧ V !! b = None;
}.

(** ** Names and access *)

(** A path component: what [is_valid_pathname] lets through. *)
Definition good_name (name : bytes) : Prop :=
  name ≠ [] ∧ (slash ∉ name) ∧ (NUL ∉ name) ∧ len name ≤ FS_MAXFILENAME.

#[export] Instance good_name_dec name : Decision (good_name name).
Proof. unfold good_name. apply _. Defined.

Definition path_of (cs : list bytes) : bytes := mjoin (cons slash <$> cs).

Definition owned_by (user : bytes) (i : fs_inode) : bool :=
  bool_decide (c_str (ino_owner i) = Some user).

(** One step of a path: the inode called [name] in directory [b]. *)
Definition next_spec (V : store) (user : bytes) (b : Z) (name : bytes) : string + Z :=
  match V !! b with
  | Some (NInode i) =>
      if negb (b =? 0) && negb (owned_by user i) then inl "User is not owner of this dir"%string
      else if negb (is_type i type_dir) then inl "Expected a directory, but got a file"%string
      else match lookup_name name (listing V i) with
           | Some c => inr c
           | None => inl "Directory not found"%string
           end
  | _ => inl ""%string
  end.

Definition sum_bind {A B} (x : string + A) (f : A → string + B) : string + B :=
  match x with
  | inl e => inl e
  | inr a => f a
  end.

(** Following the components [cs] from the directory [b]. *)
Fixpoint walk_spec (V : store) (user : bytes) (b : Z) (cs : list bytes) : string + Z :=
  match cs with
  | [] => inr b
  | c :: cs' => sum_bind (next_spec V user b c) (λ b', walk_spec V user b' cs')
  end.

(** The inode of the file or directory named by a whole path. *)
Definition target_spec (V : store) (user : bytes) (cs : list bytes) (name : bytes) : string + Z :=
  sum_bind (walk_spec V user ROOT_INODE cs) (λ p, next_spec V user p name).

(** ** What the requests do *)

Definition inode_with (i : fs_inode) (sz : Z) (bl : list Z) : fs_inode :=
  Inode (ino_type i) (ino_owner i) sz bl.

(** Adding a block at the end of an inode. *)
Definition inode_push (i : fs_inode) (b : Z) : fs_inode :=
  inode_with i (ino_size i + 1) (<[Z.to_nat (ino_size i) := b]> (ino_blocks i)).

(** Overwriting data block [b], growing file [t] by block [b]. *)
Definition node_write (V : store) (b : Z) (v : bytes) : store := <[b := NData v]> V.

Definition node_append (V : store) (t : Z) (i : fs_inode) (b : Z) (v : bytes) : store :=
  <[t := NInode (inode_push i b)]> (<[b := NData v]> V).

(** Entry [j] of directory block [b], with contents [es], becomes [e]. *)
Definition set_entry (V : store) (b : Z) (es : list fs_direntry) (j : nat) (e : fs_direntry)
    : store := <[b := NDir (<[j := e]> es)]> V.

(** A new inode [ni] in block [nb], entered in a directory block with a free
    entry. *)
Definition node_create (V : store) (nb : Z) (ni : fs_inode) (b : Z) (es : list fs_direntry)
    (j : nat) (e : fs_direntry) : store := set_entry (<[nb := NInode ni]> V) b es j e.

(** The same when directory [p] needs a new block [b] for it. *)
Definition node_create_grow (V : store) (nb : Z) (ni : fs_inode) (p : Z) (i : fs_inode) (b : Z)
    (e : fs_direntry) : store :=
  <[p := NInode (inode_push i b)]>
    (<[b := NDir (<[0%nat := e]> zero_direntries)]> (<[nb := NInode ni]> V)).

(** Taking the [k]-th block out of an inode; the array keeps its tail. *)
Definition inode_drop (i : fs_inode) (k : nat) : fs_inode :=
  inode_with i (ino_size i - 1)
    (delete k (inode_refs i) ++ drop (Z.to_nat (ino_size i) - 1) (ino_blocks i)).

Definition remove_blocks (bs : list Z) (V : store) : store := foldl (λ V b, delete b V) V bs.

(** Removing entry [j] of the [k]-th block [b] of directory [p]; a directory
    block without entries goes too. *)
Definition node_unlink (V : store) (p : Z) (i : fs_inode) (k : nat) (b : Z)
    (es : list fs_direntry) (j : nat) : store :=
  if is_block_empty (<[j := zero_direntry]> es)
  then remove_blocks [b] (<[p := NInode (inode_drop i k)]> V)
  else set_entry V b es j zero_direntry.

(** The blocks of a file, or of an empty directory. *)
Definition child_blocks (c : Z) (ci : fs_inode) : list Z :=
  c :: (if is_type ci type_file then inode_refs ci else []).

Definition node_delete (V : store) (p : Z) (i : fs_inode) (k : nat) (b : Z)
    (es : list fs_direntry) (j : nat) (c : Z) (ci : fs_inode) : store :=
  remove_blocks (child_blocks c ci) (node_unlink V p i k b es j).

Definition freed_blocks (b : Z) (es : list fs_direntry) (j : nat) (c : Z) (ci : fs_inode)
    : list Z :=
  (if is_block_empty (<[j := zero_direntry]> es) then [b] else []) ++ child_blocks c ci.

(** ** Facts about entries and listings *)

Lemma is_type_true i t : is_type i t = true ↔ ino_type i = t.
Proof. apply Ascii.eqb_eq. Qed.

Lemma is_type_false i t : is_type i t = false ↔ ino_type i ≠ t.
Proof. apply Ascii.eqb_neq. Qed.

Lemma unused_true e : unused e = true ↔ de_inode_block e = 0.
Proof. apply Z.eqb_eq. Qed.

Lemma unused_false e : unused e = false ↔ de_inode_block e ≠ 0.
Proof. apply Z.eqb_neq. Qed.

Lemma length_inode_refs i :
  inode_ok i → ino_size i ≤ FS_MAXFILEBLOCKS → length (inode_refs i) = Z.to_nat (ino_size i).
Proof.
  unfold inode_ok, inode_refs, len, is_u32, FS_MAXFILEBLOCKS. intros (_ & ? & ? & _) ?.
  rewrite length_take. lia.
Qed.

Lemma used_names_app es es' : used_names (es ++ es') = used_names es ++ used_names es'.
Proof. unfold used_names. by rewrite filter_app, fmap_app. Qed.

#[export] Instance used_names_perm : Proper ((≡ₚ) ==> (≡ₚ)) used_names.
Proof. intros es es' Hp. unfold used_names. by rewrite Hp. Qed.

Lemma mjoin_perm {A} (ls ls' : list (list A)) : ls ≡ₚ ls' → mjoin ls ≡ₚ mjoin ls'.
Proof.
  induction 1; simpl; [done|by f_equiv| |by etrans].
  rewrite !app_assoc. f_equiv. apply Permutation_app_comm.
Qed.

(** The entries seen with the [k]-th block set apart. *)
Lemma mjoin_delete {A} (ls : list (list A)) k x :
  ls !! k = Some x → mjoin ls ≡ₚ x ++ mjoin (delete k ls).
Proof. intros Hk. by rewrite <-(mjoin_perm _ _ (delete_Permutation _ _ _ Hk)). Qed.

Lemma mjoin_insert {A} (ls : list (list A)) k x y :
  ls !! k = Some x → mjoin (<[k:=y]> ls) ≡ₚ y ++ mjoin (delete k ls).
Proof.
  intros Hk. pose proof (lookup_lt_Some _ _ _ Hk).
  rewrite (mjoin_delete (<[k:=y]> ls) k y) by (by apply list_lookup_insert_eq).
  f_equiv. rewrite !delete_take_drop.
  by rewrite take_insert_ge, drop_insert_lt by lia.
Qed.

Lemma used_names_insert es j e e' :
  es !! j = Some e' →
  used_names (<[j:=e]> es) ++ used_names [e'] ≡ₚ used_names es ++ used_names [e].
Proof.
  intros Hj. pose proof (lookup_lt_Some _ _ _ Hj).
  rewrite insert_take_drop by done. rewrite <-(take_drop_middle _ _ _ Hj) at 3.
  rewrite !(cons_middle e), !(cons_middle e'), !used_names_app. solve_Permutation.
Qed.

Lemma lookup_name_None name es :
  lookup_name name es = None → Some name ∉ used_names es.
Proof.
  unfold lookup_name, used_names. intros Hf%fmap_None Hin.
  apply list_elem_of_fmap in Hin as (e & He & Hin). apply list_elem_of_filter in Hin as [Hu Hin].
  apply list_elem_of_In in Hin. pose proof (List.find_none _ _ Hf _ Hin) as Hn.
  unfold entry_named in Hn. rewrite Hu in Hn. simpl in Hn.
  apply bool_decide_eq_false in Hn. congruence.
Qed.

Lemma lookup_name_Some name es c :
  lookup_name name es = Some c →
  ∃ j e, es !! j = Some e ∧ de_inode_block e = c ∧ c ≠ 0 ∧ c_str (de_name e) = Some name.
Proof.
  unfold lookup_name. intros (e & He & ->)%fmap_Some.
  apply List.find_some in He as [Hin He]. apply list_elem_of_In, list_elem_of_lookup in Hin as [j Hj].
  unfold entry_named in He. apply andb_true_iff in He as [Hu Hn].
  apply negb_true_iff, unused_false in Hu. apply bool_decide_eq_true in Hn. eauto 10.
Qed.

Lemma lookup_name_app name es es' :
  lookup_name name (es ++ es') =
  match lookup_name name es with Some c => Some c | None => lookup_name name es' end.
Proof. unfold lookup_name. induction es as [|e es IH]; simpl; [done|]. by destruct (entry_named name e). Qed.
