(* ===== verification/FsStore.v ===== *)
(** * Well-formed stores

    The elementary changes of a store ([FsModel]) that keep it well formed:
    putting a node in a free block, replacing a node by one of the same type,
    dropping a node nobody refers to; and from them, the effect of each request. *)
From S2P Require Import Prelude Layout FileSystem FsModel.
Import FileSystem.

Local Open Scope Z_scope.

Definition same_kind (n n' : node) : Prop :=
  match n, n' with
  | NInode i, NInode i' => ino_type i' = ino_type i
  | NDir _, NDir _ => True
  | NData _, NData _ => True
  | _, _ => False
  end.

(** A node that refers to nothing. *)
Definition no_refs (n : node) : Prop :=
  match n with
  | NInode i => inode_refs i = []
  | NDir es => Forall (λ e, unused e = true) es
  | NData _ => True
  end.

(** Nobody refers to [c]. *)
Definition unreferenced (V : store) (c : Z) : Prop := ∀ b p, ¬ refers V b p c.

(** ** Consequences of well-formedness *)

Lemma type_file_not_dir : type_file ≠ type_dir.
Proof. done. Qed.

Section wf_facts.
Context {V : store} {fl : list Z} (Hwf : fs_wf V fl).

Lemma wf_refers_target b p c :
  refers V b p c → ∃ n n', V !! b = Some n ∧ V !! c = Some n' ∧ target_ok V n c.
Proof.
  intros (Hc & n & Hn & Hp). apply list_elem_of_lookup_2 in Hp.
  pose proof (wf_target _ _ Hwf _ _ _ Hn Hp) as Ht.
  assert (∃ n', V !! c = Some n') as [n' Hn']; [|by eauto].
  destruct n as [i|es|v]; simpl in Ht; [|by destruct Ht as [?|[??]]; eauto|done].
  case_match; destruct Ht; eauto.
Qed.

Lemma wf_free_unreferenced b : b ∈ fl → unreferenced V b.
Proof.
  intros Hb x p Hr. apply wf_refers_target in Hr as (? & ? & _ & Hn & _).
  apply (wf_free _ _ Hwf) in Hb as [_ Hb]. congruence.
Qed.

Lemma wf_free_not_root b : b ∈ fl → b ≠ 0.
Proof.
  intros Hb ->. apply (wf_free _ _ Hwf) in Hb as [_ Hb].
  destruct (wf_root _ _ Hwf) as (? & ? & _). congruence.
Qed.

Lemma wf_inode b i :
  V !! b = Some (NInode i) →
  inode_ok i ∧ ino_size i ≤ FS_MAXFILEBLOCKS ∧
  (ino_type i = type_file ∨ ino_type i = type_dir) ∧ is_Some (c_str (ino_owner i)).
Proof. apply (wf_node _ _ Hwf). Qed.

Lemma wf_refs_length b i :
  V !! b = Some (NInode i) → length (inode_refs i) = Z.to_nat (ino_size i).
Proof. intros (? & ? & _)%wf_inode. by apply length_inode_refs. Qed.

Lemma wf_file_ref b i c :
  V !! b = Some (NInode i) → ino_type i = type_file → c ∈ inode_refs i →
  ∃ v, V !! c = Some (NData v).
Proof.
  intros Hb Ht Hc. pose proof (wf_target _ _ Hwf _ _ _ Hb Hc) as H. simpl in H.
  by rewrite (proj2 (is_type_true _ _) Ht) in H.
Qed.

Lemma wf_dir_ref b i c :
  V !! b = Some (NInode i) → ino_type i = type_dir → c ∈ inode_refs i →
  ∃ es, V !! c = Some (NDir es).
Proof.
  intros Hb Ht Hc. pose proof (wf_target _ _ Hwf _ _ _ Hb Hc) as H. simpl in H.
  rewrite (proj2 (is_type_false _ _)) in H; [done|]. rewrite Ht. auto using type_file_not_dir.
Qed.

Lemma wf_ref_nonzero b i c :
  V !! b = Some (NInode i) → c ∈ inode_refs i → c ≠ 0.
Proof.
  intros Hb Hc ->. pose proof (wf_target _ _ Hwf _ _ _ Hb Hc) as H. simpl in H.
  destruct (wf_root _ _ Hwf) as (? & ? & _). case_match; destruct H; congruence.
Qed.

Lemma wf_inode_refers b i p c :
  V !! b = Some (NInode i) → inode_refs i !! p = Some c → refers V b p c.
Proof.
  intros Hb Hp. split; [|by eauto]. by eapply wf_ref_nonzero; [|eapply list_elem_of_lookup_2].
Qed.

Lemma wf_entry_inode b es j e :
  V !! b = Some (NDir es) → es !! j = Some e → unused e = false →
  refers V b j (de_inode_block e) ∧ ∃ i, V !! de_inode_block e = Some (NInode i).
Proof.
  intros Hb Hj Hu%unused_false. assert (refers V b j (de_inode_block e)) as Hr.
  { split; [done|]. exists (NDir es). split; [done|]. simpl. by rewrite list_lookup_fmap, Hj. }
  split; [done|].
  pose proof (wf_target _ _ Hwf b (NDir es) (de_inode_block e) Hb) as [?|?]; [|done|done].
  apply list_elem_of_fmap. eauto using list_elem_of_lookup_2.
Qed.

(** No directory block is listed twice, in one directory or in two. *)
Lemma wf_refs_nodup b i : V !! b = Some (NInode i) → NoDup (inode_refs i).
Proof.
  intros Hb. apply NoDup_alt. intros p1 p2 c H1 H2.
  eapply (wf_unique _ _ Hwf b p1 b p2 c); eauto using wf_inode_refers.
Qed.

End wf_facts.

(** ** Elementary changes *)

Lemma target_ok_mono (V V' : store) n c :
  (∀ m, V !! c = Some m → ∃ m', V' !! c = Some m' ∧ same_kind m m') →
  target_ok V n c → target_ok V' n c.
Proof.
  intros Hm. destruct n as [i|es|v]; simpl; [case_match|..]; [| |intros [->|Hc]; [by left|right]|done].
  all: try intros Hc; destruct Hc as [x Hx]; destruct (Hm _ Hx) as (m' & Hm' & Hk);
    destruct m'; done || eauto.
Qed.

Lemma listing_ext (V V' : store) i :
  (∀ b, b ∈ inode_refs i → dir_entries V' b = dir_entries V b) → listing V' i = listing V i.
Proof.
  intros He. unfold listing. f_equal. apply list_fmap_ext. intros k b Hk.
  apply He. by eapply list_elem_of_lookup_2.
Qed.

Lemma fs_wf_free_perm V fl fl' : fs_wf V fl → fl ≡ₚ fl' → fs_wf V fl'.
Proof.
  intros [? ? ? ? ? ? Hnd Hf] Hp. split; try done.
  - by rewrite <-Hp.
  - intros b. rewrite <-Hp. apply Hf.
Qed.

(** Taking a block off the free list without using it. *)
Lemma fs_wf_free_drop V b fl : fs_wf V (b :: fl) → fs_wf V fl.
Proof.
  intros [? ? ? ? ? ? Hnd Hf]. split; try done.
  - by apply NoDup_cons in Hnd as [_ ?].
  - intros x Hx. apply Hf. by right.
Qed.

(** A node without references in a block off the free list. *)
Lemma fs_wf_add V fl b n :
  fs_wf V (b :: fl) → node_ok n → no_refs n → fs_wf (<[b := n]> V) fl.
Proof.
  intros Hwf Hn Hno. pose proof (wf_free _ _ Hwf b ltac:(by left)) as [Hrng HbN].
  pose proof (wf_free_unreferenced Hwf b ltac:(by left)) as Hunref.
  assert (∀ x m, x ≠ b → V !! x = Some m → ∀ c, c ∈ node_refs m → target_ok (<[b:=n]> V) m c) as Htgt.
  { intros x m Hx Hm c Hc. eapply target_ok_mono; [|by eapply wf_target].
    intros m' Hm'. exists m'. rewrite lookup_insert_ne by congruence. split; [done|]. by destruct m'. }
  assert (∀ c, c ∈ node_refs n → c = 0 ∧ ∃ es, n = NDir es) as Hzero.
  { intros c Hc. destruct n as [i|es|v]; simpl in *.
    - rewrite Hno in Hc. by apply elem_of_nil in Hc.
    - apply list_elem_of_fmap in Hc as (e & -> & He). rewrite Forall_forall in Hno.
      split; [|eauto]. by apply unused_true, Hno.
    - by apply elem_of_nil in Hc. }
  assert (∀ x p c, refers (<[b:=n]> V) x p c → x ≠ b ∧ refers V x p c) as Hback.
  { intros x p c (Hc & m & Hm & Hp). destruct (decide (x = b)) as [->|Hne].
    - rewrite lookup_insert_eq in Hm. simplify_eq. apply list_elem_of_lookup_2, Hzero in Hp as [? _]. done.
    - rewrite lookup_insert_ne in Hm by done. split; [done|]. split; [done|]. eauto. }
  destruct Hwf as [Hr Hroot Hnode Htar Huniq Hnames Hnd Hfree]. split.
  - intros x m. rewrite lookup_insert. case_decide; [intros _; congruence|apply Hr].
  - destruct Hroot as (i & Hi & Ht). exists i. rewrite lookup_insert_ne by congruence. done.
  - intros x m. rewrite lookup_insert. case_decide; [by intros [= <-]|apply Hnode].
  - intros x m c Hm Hc. destruct (decide (x = b)) as [->|Hne].
    + rewrite lookup_insert_eq in Hm. simplify_eq. apply Hzero in Hc as [-> [es ->]]. by left.
    + rewrite lookup_insert_ne in Hm by done. eauto.
  - intros b1 p1 b2 p2 c [_ H1]%Hback [_ H2]%Hback. eauto.
  - intros x i Hx Ht. destruct (decide (x = b)) as [->|Hne].
    + rewrite lookup_insert_eq in Hx. simplify_eq. simpl in Hno. unfold listing. rewrite Hno. constructor.
    + rewrite lookup_insert_ne in Hx by done. erewrite listing_ext; [by eauto|].
      intros c Hc. unfold dir_entries. rewrite lookup_insert_ne; [done|]. intros ->.
      specialize (Htar _ _ _ Hx Hc). simpl in Htar. case_match; destruct Htar; congruence.
  - by apply NoDup_cons in Hnd as [_ ?].
  - intros x Hx. apply NoDup_cons in Hnd as [HbNin _].
    destruct (Hfree x ltac:(by right)) as [? HxN]. split; [done|].
    rewrite lookup_insert_ne; [done|]. by intros ->.
Qed.

(** A node replaced by one of the same type. *)
Lemma fs_wf_replace V fl b n n' :
  fs_wf V fl → V !! b = Some n → same_kind n n' → node_ok n' →
  (∀ c, c ∈ node_refs n' → target_ok V n' c) →
  (∀ p c, c ≠ 0 → node_refs n' !! p = Some c →
     ∀ b1 p1, refers V b1 p1 c → b1 = b) →
  (∀ p1 p2 c, c ≠ 0 → node_refs n' !! p1 = Some c → node_refs n' !! p2 = Some c → p1 = p2) →
  (∀ x i, <[b := n']> V !! x = Some (NInode i) → ino_type i = type_dir →
     NoDup (used_names (listing (<[b := n']> V) i))) →
  fs_wf (<[b := n']> V) fl.
Proof.
  intros Hwf Hb Hk Hok Htgt Huni Hinj Hnm.
  assert (∀ c m, V !! c = Some m → ∃ m', <[b:=n']> V !! c = Some m' ∧ same_kind m m') as Hmono.
  { intros c m Hm. rewrite lookup_insert. case_decide; [subst; exists n'; by simplify_eq|].
    exists m. split; [done|]. by destruct m. }
  assert (∀ x p c, refers (<[b:=n']> V) x p c →
    c ≠ 0 ∧ (x = b ∧ node_refs n' !! p = Some c ∨ x ≠ b ∧ refers V x p c)) as Hback.
  { intros x p c (Hc & m & Hm & Hp). split; [done|]. rewrite lookup_insert in Hm.
    case_decide; simplify_eq; [by left|right; split; [done|split; eauto]]. }
  destruct Hwf as [Hr Hroot Hnode Htar Huniq _ Hnd Hfree]. split; try done.
  - intros x m. rewrite lookup_insert. case_decide; [intros _; subst; eauto|apply Hr].
  - destruct Hroot as (i & Hi & Ht). destruct (Hmono _ _ Hi) as ([i'| |] & Hi' & Hk'); try done.
    exists i'. simpl in Hk'. split; [done|congruence].
  - intros x m. rewrite lookup_insert. case_decide; [by intros [= <-]|apply Hnode].
  - intros x m c Hm Hc. eapply target_ok_mono; [apply Hmono|].
    rewrite lookup_insert in Hm. case_decide; simplify_eq; eauto.
  - intros b1 p1 b2 p2 c [Hc [[-> H1]|[Hn1 H1]]]%Hback [_ [[-> H2]|[Hn2 H2]]]%Hback; eauto.
    + by destruct Hn2; eapply Huni.
    + by destruct Hn1; eapply Huni.
  - intros x Hx. destruct (Hfree x Hx) as [? HxN]. split; [done|].
    rewrite lookup_insert_ne; [done|]. congruence.
Qed.

(** A node that nobody refers to goes to the free list. *)
Lemma fs_wf_delete V fl b n :
  fs_wf V fl → V !! b = Some n → b ≠ 0 → unreferenced V b → fs_wf (delete b V) (fl ++ [b]).
Proof.
  intros Hwf Hb Hb0 Hun.
  assert (∀ x p c, refers (delete b V) x p c → refers V x p c) as Hback.
  { intros x p c (Hc & m & [_ Hm]%lookup_delete_Some & Hp). split; eauto. }
  assert (∀ x m c, V !! x = Some m → c ∈ node_refs m → c ≠ 0 → c ≠ b) as Hne.
  { intros x m c Hm Hc Hc0 ->. apply list_elem_of_lookup in Hc as [p Hp]. eapply (Hun x p). split; eauto. }
  assert (∀ x i c, V !! x = Some (NInode i) → c ∈ inode_refs i → c ≠ b) as Hnei.
  { intros x i c Hi Hc. eapply (Hne x (NInode i)); eauto. by eapply wf_ref_nonzero. }
  destruct Hwf as [Hr Hroot Hnode Htar Huniq Hnames Hnd Hfree]. split.
  - intros x m [_ Hm]%lookup_delete_Some. eauto.
  - destruct Hroot as (i & Hi & Ht). exists i. by rewrite lookup_delete_ne.
  - intros x m [_ Hm]%lookup_delete_Some. eauto.
  - intros x m c [_ Hm]%lookup_delete_Some Hc. specialize (Htar _ _ _ Hm Hc).
    destruct m as [i|es|v]; simpl in *; [|destruct Htar as [?|?]; [by left|]|done].
    + rewrite lookup_delete_ne; [done|]. intros <-. by eapply Hnei.
    + destruct (decide (c = 0)); [by left|]. right. rewrite lookup_delete_ne; [done|].
      intros <-. by eapply (Hne x (NDir es)).
  - intros b1 p1 b2 p2 c H1%Hback H2%Hback. eauto.
  - intros x i [_ Hx]%lookup_delete_Some Ht. erewrite listing_ext; [by eauto|].
    intros c Hc. unfold dir_entries. rewrite lookup_delete_ne; [done|]. intros <-. by eapply Hnei.
  - apply NoDup_app. split_and!; [done| |apply NoDup_singleton].
    intros x Hx Hx'%list_elem_of_singleton. subst x. apply Hfree in Hx as [_ ?]. congruence.
  - intros x [Hx|Hx%list_elem_of_singleton]%elem_of_app.
    + destruct (Hfree x Hx). split; [done|]. apply lookup_delete_None. by right.
    + subst x. split; [by eapply Hr|]. by rewrite lookup_delete_eq.
Qed.

(** ** Directory listings under a change of one block *)

Lemma dir_entries_insert_ne (V : store) b n c :
  c ≠ b → dir_entries (<[b := n]> V) c = dir_entries V c.
Proof. intros. unfold dir_entries. by rewrite lookup_insert_ne. Qed.

Lemma listing_insert_out (V : store) b n i :
  b ∉ inode_refs i → listing (<[b := n]> V) i = listing V i.
Proof. intros Hb. apply listing_ext. intros c Hc. apply dir_entries_insert_ne. by intros ->. Qed.

(** Block [b], listed once, has the entries [es]; the rest is [rest]. *)
Lemma listing_split (V : store) i k b :
  NoDup (inode_refs i) → inode_refs i !! k = Some b →
  ∃ rest, ∀ V', (∀ c, c ≠ b → dir_entries V' c = dir_entries V c) →
    listing V' i ≡ₚ dir_entries V' b ++ rest.
Proof.
  intros Hnd Hk. exists (mjoin (dir_entries V <$> delete k (inode_refs i))). intros V' He.
  unfold listing. rewrite (mjoin_delete _ k (dir_entries V' b)) by (by rewrite list_lookup_fmap, Hk).
  rewrite <-list_fmap_delete.
  assert (dir_entries V' <$> delete k (inode_refs i) = dir_entries V <$> delete k (inode_refs i))
    as ->; [|done].
  apply list_fmap_ext. intros m c Hm. apply He.
  rewrite <-(take_drop_middle _ _ _ Hk) in Hnd. apply list_elem_of_lookup_2 in Hm.
  rewrite delete_take_drop in Hm. intros ->. apply NoDup_app in Hnd as (_ & Hd & [? _]%NoDup_cons).
  apply elem_of_app in Hm as [Hm|Hm]; [|done]. eapply Hd; [done|by left].
Qed.

Lemma used_names_unused es : Forall (λ e, unused e = true) es → used_names es = [].
Proof.
  induction 1 as [|e es He _ IH]; [done|]. unfold used_names. rewrite filter_cons, He. by case_decide.
Qed.

(** ** Effects of the requests *)

Section effects.
Context {V : store} {fl : list Z} (Hwf : fs_wf V fl).

Lemma fs_wf_write_data b v0 v :
  V !! b = Some (NData v0) → len v = FS_BLOCKSIZE → fs_wf (node_write V b v) fl.
Proof.
  intros Hb Hv. unfold node_write. eapply fs_wf_replace; eauto; simpl; try done.
  - intros c Hc. by apply elem_of_nil in Hc.
  - intros x i. rewrite lookup_insert. case_decide; [done|]. intros Hx Ht.
    rewrite listing_insert_out; [by eapply wf_names|].
    intros Hin. destruct (wf_dir_ref Hwf _ _ _ Hx Ht Hin). congruence.
Qed.

Lemma inode_push_ok b i :
  inode_ok i → ino_size i < FS_MAXFILEBLOCKS → is_u32 b → inode_ok (inode_push i b).
Proof.
  unfold inode_ok, inode_push, len, FS_MAXFILEBLOCKS, is_u32; simpl. intros (? & ? & ? & ?) ? ?.
  rewrite length_insert. split_and!; [done|lia|lia|done|]. by apply Forall_insert.
Qed.

Lemma inode_push_refs b i :
  inode_ok i → ino_size i < FS_MAXFILEBLOCKS → inode_refs (inode_push i b) = inode_refs i ++ [b].
Proof.
  unfold inode_ok, inode_refs, inode_push, len, FS_MAXFILEBLOCKS, is_u32; simpl. intros (_ & ? & ? & _) ?.
  replace (Z.to_nat (ino_size i + 1)) with (S (Z.to_nat (ino_size i))) by lia.
  rewrite (take_S_r _ _ b) by (apply list_lookup_insert_eq; lia). f_equal. by rewrite take_insert_ge.
Qed.

(** An inode takes in an unreferenced block of the right type. *)
Lemma fs_wf_push t i b n :
  V !! t = Some (NInode i) → ino_size i < FS_MAXFILEBLOCKS →
  V !! b = Some n → no_refs n → b ≠ 0 → unreferenced V b →
  (if is_type i type_file then ∃ v, n = NData v else ∃ es, n = NDir es) →
  fs_wf (<[t := NInode (inode_push i b)]> V) fl.
Proof.
  intros Ht Hsz Hb Hno Hb0 Hun Hkind.
  destruct (wf_inode Hwf _ _ Ht) as (Hok & Hle & Hty & Hown).
  pose proof (inode_push_refs b i Hok Hsz) as Hrefs.
  pose proof (wf_range _ _ Hwf _ _ Hb) as Hrng.
  assert (∀ p c, inode_refs (inode_push i b) !! p = Some c →
    (inode_refs i !! p = Some c) ∨ (p = length (inode_refs i) ∧ c = b)) as Hp.
  { intros p c. rewrite Hrefs, lookup_app_Some, list_lookup_singleton_Some. intuition lia. }
  assert (b ∉ inode_refs i) as Hnin.
  { intros [p Hin]%list_elem_of_lookup. eapply Hun, wf_inode_refers; eauto. }
  eapply fs_wf_replace; eauto; simpl; [done|..].
  - split_and!; [apply inode_push_ok; [done|done|unfold is_u32, FS_DISKSIZE in *; lia]|lia|done|done].
  - intros c. rewrite Hrefs, elem_of_app, list_elem_of_singleton.
    change (is_type (inode_push i b) type_file) with (is_type i type_file).
    intros [Hc| ->]; [exact (wf_target _ _ Hwf _ _ _ Ht Hc)|].
    rewrite Hb. case_match; destruct Hkind as [? ->]; eauto.
  - intros p c _ [Hc|[_ ->]]%Hp b1 p1 H1; [|by destruct (Hun b1 p1)].
    by eapply (wf_unique _ _ Hwf b1 p1 t p c); [|eapply wf_inode_refers].
  - intros p1 p2 c _ [H1|[-> H1]]%Hp [H2|[-> H2]]%Hp; subst; try done.
    + by eapply NoDup_lookup; [by eapply wf_refs_nodup|..].
    + by apply list_elem_of_lookup_2 in H1.
    + by apply list_elem_of_lookup_2 in H2.
  - intros x j. rewrite lookup_insert. case_decide as Hx; [intros [= <-]|intros Hj]; intros Hty'; simpl in Hty'.
    + subst x. assert (listing (<[t:=NInode (inode_push i b)]> V) (inode_push i b) =
        listing V i ++ dir_entries V b) as ->.
      { unfold listing. rewrite Hrefs, fmap_app, join_app. simpl. rewrite app_nil_r.
        assert (t ≠ b) as Hne by (intros ->; rewrite Hb in Ht; case_match; destruct Hkind; congruence).
        rewrite dir_entries_insert_ne by done. f_equal. f_equal. apply list_fmap_ext.
        intros k c Hc. apply dir_entries_insert_ne. intros ->.
        destruct (wf_dir_ref Hwf _ _ t Ht Hty' ltac:(by eapply list_elem_of_lookup_2)). congruence. }
      rewrite used_names_app. rewrite (used_names_unused (dir_entries V b)); [|].
      * rewrite app_nil_r. by eapply wf_names.
      * unfold dir_entries. rewrite Hb. destruct n; done || constructor.
    + rewrite listing_insert_out; [by eapply wf_names|].
      intros Hin. destruct (wf_dir_ref Hwf _ _ _ Hj Hty' Hin). congruence.
Qed.

(** Directory block [b] gets another entry [e] in place of [e0]. *)
Lemma fs_wf_set_entry b es j e0 e :
  V !! b = Some (NDir es) → es !! j = Some e0 → direntry_ok e →
  (unused e = false → (∃ ni, V !! de_inode_block e = Some (NInode ni)) ∧
     unreferenced V (de_inode_block e) ∧
     ∀ x i, V !! x = Some (NInode i) → ino_type i = type_dir → b ∈ inode_refs i →
       c_str (de_name e) ∉ used_names (listing V i)) →
  fs_wf (set_entry V b es j e) fl.
Proof.
  intros Hb Hj Heok Hnew. pose proof (lookup_lt_Some _ _ _ Hj) as Hlt.
  pose proof (wf_node _ _ Hwf _ _ Hb) as [Hlen Hall].
  assert (∀ p c, c ≠ 0 → node_refs (NDir (<[j:=e]> es)) !! p = Some c →
    (p ≠ j ∧ refers V b p c) ∨ (p = j ∧ c = de_inode_block e ∧ unreferenced V c)) as Hp.
  { intros p c Hc. simpl. rewrite list_lookup_fmap, list_lookup_insert. intros Hl.
    case_decide as Hpj; simpl in Hl; simplify_eq.
    - right. destruct Hpj as [<- _]. split_and!; [done..|]. by apply Hnew, unused_false.
    - left. split; [intros ->; by destruct Hpj|]. split; [done|]. exists (NDir es). split; [done|]. simpl.
      by rewrite list_lookup_fmap. }
  unfold set_entry. eapply fs_wf_replace; eauto.
  - done.
  - split; [unfold len; by rewrite length_insert|by apply Forall_insert].
  - intros c [p Hc]%list_elem_of_lookup. simpl. destruct (decide (c = 0)); [by left|right].
    destruct (Hp _ _ n Hc) as [[_ (_ & m & Hm & Hpc)]|(_ & -> & _)].
    + simplify_eq. apply list_elem_of_lookup_2 in Hpc.
      destruct (wf_target _ _ Hwf _ _ _ Hb Hpc); done.
    + by apply Hnew, unused_false.
  - intros p c Hc [[_ H1]|(_ & _ & H1)]%Hp b1 p1 H2; [|by destruct (H1 b1 p1)|done].
    eapply (wf_unique _ _ Hwf); eauto.
  - intros p1 p2 c Hc [[Hn1 H1]|(-> & _ & H1)]%Hp [[Hn2 H2]|(-> & _ & H2)]%Hp; try done.
    + eapply (wf_unique _ _ Hwf b p1 b p2); eauto.
    + by destruct (H2 b p1).
    + by destruct (H1 b p2).
  - intros x i. rewrite lookup_insert. case_decide; [done|]. intros Hx Ht.
    destruct (decide (b ∈ inode_refs i)) as [Hin|Hin];
      [|rewrite listing_insert_out by done; by eapply wf_names].
    pose proof Hin as [k Hk]%list_elem_of_lookup.
    destruct (listing_split V i k b) as [rest Hrest]; [by eapply wf_refs_nodup|done|].
    pose proof (Hrest V ltac:(done)) as HV.
    pose proof (Hrest (<[b:=NDir (<[j:=e]> es)]> V) ltac:(intros; by apply dir_entries_insert_ne)) as HV'.
    unfold dir_entries at 1 in HV. rewrite Hb in HV.
    unfold dir_entries at 1 in HV'. rewrite lookup_insert_eq in HV'.
    pose proof (wf_names _ _ Hwf _ _ Hx Ht) as Hnd.
    assert (NoDup (used_names (listing V i) ++ used_names [e])) as Hnd'.
    { apply NoDup_app. split_and!; [done|..]; unfold used_names at 1; unfold used_names;
        rewrite filter_cons; case_decide as Hu; simpl; try by constructor.
      - intros y Hy Hy'%list_elem_of_singleton. subst. by eapply Hnew.
      - intros y _ Hy'. by apply elem_of_nil in Hy'.
      - apply NoDup_singleton. }
    pose proof (used_names_insert es j e e0 Hj) as Hsw.
    rewrite HV, used_names_app in Hnd'. rewrite HV', used_names_app.
    assert ((used_names es ++ used_names rest) ++ used_names [e] ≡ₚ
      (used_names (<[j:=e]> es) ++ used_names rest) ++ used_names [e0]) as Hperm
      by (rewrite <-!(assoc_L (++)), (Permutation_app_comm (used_names rest) (used_names [e])),
            (Permutation_app_comm (used_names rest) (used_names [e0])), !(assoc_L (++));
          by rewrite Hsw).
    rewrite Hperm in Hnd'. by apply NoDup_app in Hnd' as [? _].
Qed.

(** Nobody refers any more to an entry that was overwritten. *)
Lemma set_entry_unreferenced b es j e0 e :
  V !! b = Some (NDir es) → es !! j = Some e0 → unused e0 = false →
  de_inode_block e ≠ de_inode_block e0 →
  unreferenced (set_entry V b es j e) (de_inode_block e0).
Proof.
  intros Hb Hj Hu Hne x p (Hc & n & Hn & Hp).
  destruct (wf_entry_inode Hwf _ _ _ _ Hb Hj Hu) as [Hr _].
  unfold set_entry in Hn. rewrite lookup_insert in Hn. case_decide as Hx; simplify_eq.
  - simpl in Hp. rewrite list_lookup_fmap, list_lookup_insert in Hp. case_decide as Hpj; [by destruct Hne; injection Hp|].
    + assert (refers V x p (de_inode_block e0)) as Hr'.
      { split; [done|]. exists (NDir es). split; [done|]. simpl. by rewrite list_lookup_fmap. }
      destruct (wf_unique _ _ Hwf _ _ _ _ _ Hr Hr') as [_ <-].
      apply Hpj. split; [done|]. by eapply lookup_lt_Some.
  - assert (refers V x p (de_inode_block e0)) as Hr' by (split; eauto).
    by destruct (wf_unique _ _ Hwf _ _ _ _ _ Hr Hr') as [<- _].
Qed.

Lemma inode_drop_ok i k :
  inode_ok i → ino_size i ≤ FS_MAXFILEBLOCKS → (k < Z.to_nat (ino_size i))%nat →
  inode_ok (inode_drop i k) ∧ inode_refs (inode_drop i k) = delete k (inode_refs i).
Proof.
  intros Hok Hle Hk. pose proof (length_inode_refs _ Hok Hle) as Hlen.
  destruct Hok as (Ho & Hsz & Hbl & Hu). unfold is_u32, len in *.
  assert (length (delete k (inode_refs i)) = (Z.to_nat (ino_size i) - 1)%nat) as Hdel.
  { rewrite length_delete; [lia|]. apply lookup_lt_is_Some. lia. }
  unfold inode_ok, inode_drop, inode_with, is_u32, len; simpl. split_and!; [done|lia|lia|..].
  - rewrite length_app, Hdel, length_drop. lia.
  - apply Forall_app. split; [|by apply Forall_drop].
    rewrite delete_take_drop. unfold inode_refs.
    apply Forall_app; split; [apply Forall_take|apply Forall_drop]; by apply Forall_take.
  - unfold inode_refs at 1; simpl. rewrite take_app_le by (rewrite Hdel; lia).
    apply take_ge. lia.
Qed.

(** A directory gives up its [k]-th block. *)
Lemma fs_wf_drop p i k b :
  V !! p = Some (NInode i) → inode_refs i !! k = Some b →
  fs_wf (<[p := NInode (inode_drop i k)]> V) fl.
Proof.
  intros Hp Hk. destruct (wf_inode Hwf _ _ Hp) as (Hok & Hle & Hty & Hown).
  pose proof (lookup_lt_Some _ _ _ Hk) as Hlt. rewrite (wf_refs_length Hwf _ _ Hp) in Hlt.
  destruct (inode_drop_ok i k Hok Hle Hlt) as [Hok' Hrefs].
  pose proof (wf_refs_nodup Hwf _ _ Hp) as Hnd.
  pose proof (delete_Permutation _ _ _ Hk) as Hperm.
  assert (∀ c, c ∈ delete k (inode_refs i) → c ∈ inode_refs i) as Hsub
    by (intros c Hc; rewrite Hperm; by right).
  assert (∀ x m, <[p:=NInode (inode_drop i k)]> V !! x = Some m → x ≠ p → V !! x = Some m) as Hother
    by (intros x m Hm Hx; by rewrite lookup_insert_ne in Hm).
  eapply fs_wf_replace; eauto; simpl; [done|..].
  - split_and!; [done|lia|done|done].
  - intros c. rewrite Hrefs. intros Hc%Hsub. exact (wf_target _ _ Hwf _ _ _ Hp Hc).
  - intros q c _. rewrite Hrefs. intros Hq%list_elem_of_lookup_2%Hsub b1 p1 H1.
    apply list_elem_of_lookup in Hq as [q' Hq'].
    by eapply (wf_unique _ _ Hwf b1 p1 p q' c); [|eapply wf_inode_refers].
  - intros p1 p2 c _. rewrite Hrefs. intros H1 H2. eapply NoDup_lookup; [|done..].
    rewrite Hperm in Hnd. by apply NoDup_cons in Hnd as [_ ?].
  - intros x i' Hx Ht.
    assert (∀ i0, (∃ q, V !! q = Some (NInode i0)) → ino_type i0 = type_dir →
      listing (<[p:=NInode (inode_drop i k)]> V) i0 = listing V i0) as Hlist.
    { intros i0 [q Hq] Ht0. apply listing_insert_out. intros Hin.
      destruct (wf_dir_ref Hwf _ _ _ Hq Ht0 Hin). congruence. }
    rewrite lookup_insert in Hx. case_decide; simplify_eq; [|rewrite Hlist; eauto using wf_names].
    simpl in Ht. pose proof (wf_names _ _ Hwf _ _ Hp Ht) as Hnm.
    rewrite <-Hlist in Hnm by eauto. unfold listing in *. rewrite Hrefs.
    rewrite (mjoin_delete _ k (dir_entries (<[x:=NInode (inode_drop i k)]> V) b)) in Hnm
      by (by rewrite list_lookup_fmap, Hk).
    rewrite used_names_app, <-list_fmap_delete in Hnm. by apply NoDup_app in Hnm as (_ & _ & ?).
Qed.

Lemma drop_unreferenced p i k b :
  V !! p = Some (NInode i) → inode_refs i !! k = Some b →
  unreferenced (<[p := NInode (inode_drop i k)]> V) b.
Proof.
  intros Hp Hk x q (Hc & n & Hn & Hq). destruct (wf_inode Hwf _ _ Hp) as (Hok & Hle & _).
  pose proof (lookup_lt_Some _ _ _ Hk) as Hlt. rewrite (wf_refs_length Hwf _ _ Hp) in Hlt.
  destruct (inode_drop_ok i k Hok Hle Hlt) as [_ Hrefs].
  pose proof (wf_inode_refers Hwf _ _ _ _ Hp Hk) as Hr.
  pose proof (wf_refs_nodup Hwf _ _ Hp) as Hnd.
  rewrite lookup_insert in Hn. case_decide; simplify_eq.
  - simpl in Hq. rewrite Hrefs in Hq. apply list_elem_of_lookup_2 in Hq.
    rewrite (delete_Permutation _ _ _ Hk) in Hnd. by apply NoDup_cons in Hnd as [? _].
  - assert (refers V x q b) as Hr' by (split; eauto).
    by destruct (wf_unique _ _ Hwf _ _ _ _ _ Hr Hr') as [<- _].
Qed.

End effects.

(** ** The requests keep the store well formed *)

Lemma refers_insert_back (V : store) b n x p c :
  no_refs n → refers (<[b := n]> V) x p c → x ≠ b ∧ refers V x p c.
Proof.
  intros Hno (Hc & m & Hm & Hp). rewrite lookup_insert in Hm. case_decide as Hx; simplify_eq.
  - apply list_elem_of_lookup_2 in Hp. destruct m as [i|es|v]; simpl in *.
    + rewrite Hno in Hp. by apply elem_of_nil in Hp.
    + apply list_elem_of_fmap in Hp as (e & -> & He). rewrite Forall_forall in Hno.
      by apply Hno, unused_true in He.
    + by apply elem_of_nil in Hp.
  - split; [congruence|]. split; eauto.
Qed.

Lemma unreferenced_insert (V : store) b n c :
  no_refs n → unreferenced V c → unreferenced (<[b := n]> V) c.
Proof. intros Hno Hun x p [_ Hr]%refers_insert_back; [|done]. by eapply Hun. Qed.

Lemma refers_delete_back (V : store) b x p c :
  refers (delete b V) x p c → x ≠ b ∧ refers V x p c.
Proof. intros (Hc & m & [Hx Hm]%lookup_delete_Some & Hp). split; [congruence|]. split; eauto. Qed.

Lemma fs_wf_remove_blocks bs V fl :
  fs_wf V fl → NoDup bs →
  Forall (λ b, is_Some (V !! b) ∧ b ≠ 0 ∧ unreferenced V b) bs →
  fs_wf (remove_blocks bs V) (fl ++ bs).
Proof.
  revert V fl; induction bs as [|b bs IH]; intros V fl Hwf Hnd Hbs; [by rewrite app_nil_r|].
  apply NoDup_cons in Hnd as [Hb Hnd]. apply Forall_cons in Hbs as [([n Hn] & Hb0 & Hun) Hbs].
  simpl. rewrite (cons_middle b fl bs), (assoc_L (++)). apply IH; [by eapply fs_wf_delete|done|].
  rewrite Forall_forall in Hbs |- *. intros c Hc. destruct (Hbs c Hc) as (Hin & Hc0 & Hunc).
  split_and!; [|done|].
  - by rewrite lookup_delete_ne by (by intros ->).
  - intros x p [_ Hr]%refers_delete_back. by eapply Hunc.
Qed.

(** Creating a file or directory where its parent has a free entry. *)
Lemma fs_wf_node_create V nb fl ni p i b es j e0 e :
  fs_wf V (nb :: fl) → node_ok (NInode ni) → inode_refs ni = [] →
  V !! p = Some (NInode i) → ino_type i = type_dir → b ∈ inode_refs i →
  V !! b = Some (NDir es) → es !! j = Some e0 →
  direntry_ok e → de_inode_block e = nb → c_str (de_name e) ∉ used_names (listing V i) →
  fs_wf (node_create V nb ni b es j e) fl.
Proof.
  intros Hwf Hni Hrefs Hp Ht Hin Hb Hj He <- Hname.
  set (nb := de_inode_block e) in *.
  pose proof (wf_free _ _ Hwf nb ltac:(by left)) as [_ Hnone].
  pose proof (wf_free_unreferenced Hwf nb ltac:(by left)) as Hun.
  pose proof (fs_wf_add _ _ _ (NInode ni) Hwf Hni Hrefs) as Hwf1.
  unfold node_create. eapply fs_wf_set_entry; eauto.
  { rewrite lookup_insert_ne; [done|]. congruence. }
  intros _. split_and!; [rewrite lookup_insert_eq; eauto|by apply unreferenced_insert|].
  intros x i' Hx Hx' Hin'. rewrite lookup_insert in Hx. case_decide; simplify_eq.
  { simpl in *. rewrite Hrefs in Hin'. by apply elem_of_nil in Hin'. }
  pose proof Hin as [k Hk]%list_elem_of_lookup. pose proof Hin' as [k' Hk']%list_elem_of_lookup.
  destruct (wf_unique _ _ Hwf x k' p k b) as [-> _]; eauto using @wf_inode_refers.
  simplify_eq. rewrite listing_insert_out; [done|].
  intros Hnb. destruct (wf_dir_ref Hwf _ _ _ Hp Ht Hnb). congruence.
Qed.

Lemma zero_direntries_ok : direntries_ok zero_direntries.
Proof. split; [done|]. apply Forall_replicate. done. Qed.

Lemma zero_direntries_unused : Forall (λ e, unused e = true) zero_direntries.
Proof. by apply Forall_replicate. Qed.

(** The entries of a directory that took in an empty directory block. *)
Lemma listing_push V fl t i b n :
  fs_wf V fl → V !! t = Some (NInode i) → ino_type i = type_dir →
  ino_size i < FS_MAXFILEBLOCKS → V !! b = Some n → b ≠ t →
  listing (<[t := NInode (inode_push i b)]> V) (inode_push i b) = listing V i ++ dir_entries V b.
Proof.
  intros Hwf Ht Hty Hsz Hb Hne. destruct (wf_inode Hwf _ _ Ht) as (Hok & _).
  unfold listing. rewrite inode_push_refs, fmap_app, join_app by done. simpl. rewrite app_nil_r.
  rewrite dir_entries_insert_ne by done. f_equal. f_equal. apply list_fmap_ext.
  intros k c Hc. apply dir_entries_insert_ne. intros ->.
  destruct (wf_dir_ref Hwf _ _ t Ht Hty ltac:(by eapply list_elem_of_lookup_2)). congruence.
Qed.

(** The same where the parent takes in a new directory block [b] for it. *)
Lemma fs_wf_node_create_grow V nb b fl ni p i e :
  fs_wf V (nb :: b :: fl) → node_ok (NInode ni) → inode_refs ni = [] →
  V !! p = Some (NInode i) → ino_type i = type_dir → ino_size i < FS_MAXFILEBLOCKS →
  direntry_ok e → de_inode_block e = nb → c_str (de_name e) ∉ used_names (listing V i) →
  fs_wf (node_create_grow V nb ni p i b e) fl.
Proof.
  intros Hwf Hni Hrefs Hp Ht Hsz He <- Hname.
  set (nb := de_inode_block e) in *.
  pose proof (wf_free _ _ Hwf nb ltac:(by left)) as [_ Hnone].
  pose proof (wf_free _ _ Hwf b ltac:(by right; left)) as [_ Hbnone].
  pose proof (wf_free_not_root Hwf b ltac:(by right; left)) as Hb0.
  assert (nb ≠ b) as Hnb.
  { intros Heq. pose proof (wf_free_nodup _ _ Hwf) as [Hn _]%NoDup_cons. apply Hn. rewrite Heq. by left. }
  pose proof (wf_free_unreferenced Hwf nb ltac:(by left)) as Hun.
  pose proof (wf_free_unreferenced Hwf b ltac:(by right; left)) as Hbun.
  pose proof (fs_wf_add _ _ _ (NInode ni) Hwf Hni Hrefs) as Hwf1.
  pose proof (fs_wf_add _ _ _ (NDir zero_direntries) Hwf1 zero_direntries_ok zero_direntries_unused) as Hwf2.
  set (V2 := <[b:=NDir zero_direntries]> (<[nb:=NInode ni]> V)) in *.
  assert (V2 !! p = Some (NInode i)) as Hp2
    by (unfold V2; rewrite !lookup_insert_ne by congruence; done).
  assert (V2 !! b = Some (NDir zero_direntries)) as Hb2 by (unfold V2; apply lookup_insert_eq).
  assert (unreferenced V2 b) as Hbun2
    by (apply unreferenced_insert; [apply zero_direntries_unused|by apply unreferenced_insert]).
  assert (unreferenced V2 nb) as Hun2
    by (apply unreferenced_insert; [apply zero_direntries_unused|by apply unreferenced_insert]).
  assert (listing V2 i = listing V i) as HL.
  { assert (∀ c, V !! c = None → c ∉ inode_refs i) as Hout
      by (intros c Hc Hin; destruct (wf_dir_ref Hwf _ _ _ Hp Ht Hin); congruence).
    unfold V2. by rewrite !listing_insert_out by auto. }
  assert (fs_wf (<[p:=NInode (inode_push i b)]> V2) fl) as Hwf3.
  { eapply (fs_wf_push Hwf2); eauto; [apply zero_direntries_unused|].
    rewrite (proj2 (is_type_false _ _)); [eauto|]. rewrite Ht. done. }
  assert (node_create_grow V nb ni p i b e =
    set_entry (<[p:=NInode (inode_push i b)]> V2) b zero_direntries 0 e) as ->.
  { unfold node_create_grow, set_entry, V2. rewrite (insert_insert_ne _ b p) by congruence.
    by rewrite insert_insert_eq. }
  assert (∀ x q c, refers (<[p:=NInode (inode_push i b)]> V2) x q c → c ≠ b → refers V2 x q c) as Hback.
  { intros x q c (Hc & m & Hm & Hq) Hcb. rewrite lookup_insert in Hm. case_decide; simplify_eq.
    - simpl in Hq. rewrite inode_push_refs in Hq by (done || by apply (wf_inode Hwf2 _ _ Hp2)).
      apply lookup_app_Some in Hq as [Hq|[_ [_ Hq]%list_lookup_singleton_Some]]; [|done].
      by eapply wf_inode_refers.
    - split; eauto. }
  eapply fs_wf_set_entry; eauto.
  { rewrite lookup_insert_ne by congruence. done. }
  intros _. fold nb. split_and!.
  - rewrite lookup_insert_ne by congruence. unfold V2.
    rewrite lookup_insert_ne, lookup_insert_eq by done. eauto.
  - intros x q Hr%Hback; [|done]. by eapply Hun2.
  - intros x i' Hx Hx' Hin'. rewrite lookup_insert in Hx. case_decide; simplify_eq.
    + erewrite (listing_push V2) by eauto || congruence. unfold dir_entries. rewrite Hb2, used_names_app, HL.
      rewrite (used_names_unused zero_direntries) by apply zero_direntries_unused. by rewrite app_nil_r.
    + apply list_elem_of_lookup in Hin' as [q Hq].
      exfalso. eapply Hbun2, (wf_inode_refers Hwf2); eauto.
Qed.


(** *** Deleting *)

Section delete.
Context {V : store} {fl : list Z} (Hwf : fs_wf V fl).
Context {p : Z} {i : fs_inode} {k : nat} {b : Z} {es : list fs_direntry} {j : nat} {e : fs_direntry}.
Hypotheses (Hp : V !! p = Some (NInode i)) (Ht : ino_type i = type_dir)
  (Hk : inode_refs i !! k = Some b) (Hb : V !! b = Some (NDir es))
  (Hj : es !! j = Some e) (Hu : unused e = false).

Lemma drop_refers_back x q c :
  refers (<[p := NInode (inode_drop i k)]> V) x q c → ∃ q', refers V x q' c.
Proof.
  intros (Hc & m & Hm & Hq). rewrite lookup_insert in Hm.
  case_decide; simplify_eq; [|exists q; split; eauto].
  destruct (wf_inode Hwf _ _ Hp) as (Hok & Hle & _).
  pose proof (lookup_lt_Some _ _ _ Hk) as Hlt. rewrite (wf_refs_length Hwf _ _ Hp) in Hlt.
  destruct (inode_drop_ok i k Hok Hle Hlt) as [_ Hrefs]. simpl in Hq. rewrite Hrefs in Hq.
  apply list_elem_of_lookup_2 in Hq.
  assert (c ∈ inode_refs i) as [q' Hq']%list_elem_of_lookup
    by (rewrite (delete_Permutation _ _ _ Hk); by right).
  exists q'. by eapply wf_inode_refers.
Qed.

Lemma clear_refers_back x q c :
  refers (set_entry V b es j zero_direntry) x q c → refers V x q c.
Proof.
  intros (Hc & m & Hm & Hq). unfold set_entry in Hm. rewrite lookup_insert in Hm.
  case_decide; simplify_eq; [|split; eauto].
  simpl in Hq. rewrite list_lookup_fmap, list_lookup_insert in Hq.
  case_decide; simpl in Hq; simplify_eq.
  split; [done|]. eexists; split; [done|]. simpl. by rewrite list_lookup_fmap.
Qed.

Lemma unlink_refers_back x q c :
  refers (node_unlink V p i k b es j) x q c → ∃ q', refers V x q' c.
Proof.
  unfold node_unlink. case_match; [|eauto using clear_refers_back].
  simpl. intros [_ Hr]%refers_delete_back. by eapply drop_refers_back.
Qed.

Lemma unlink_lookup c : c ≠ p → c ≠ b → node_unlink V p i k b es j !! c = V !! c.
Proof.
  intros. unfold node_unlink, set_entry. case_match; simpl;
    rewrite ?lookup_delete_ne, lookup_insert_ne by congruence; done.
Qed.

(** Nobody refers any more to the inode of the removed entry. *)
Lemma unlink_unreferenced :
  unreferenced (node_unlink V p i k b es j) (de_inode_block e).
Proof.
  destruct (wf_entry_inode Hwf _ _ _ _ Hb Hj Hu) as [Hr _].
  unfold node_unlink. case_match eqn:Hemp; simpl.
  - intros x q [Hx [q' Hq']%drop_refers_back]%refers_delete_back.
    by destruct (wf_unique _ _ Hwf _ _ _ _ _ Hr Hq') as [<- _].
  - eapply (set_entry_unreferenced Hwf); eauto. apply unused_false in Hu. done.
Qed.

Lemma fs_wf_node_unlink :
  fs_wf (node_unlink V p i k b es j)
    (fl ++ (if is_block_empty (<[j := zero_direntry]> es) then [b] else [])).
Proof.
  unfold node_unlink. case_match.
  - pose proof (fs_wf_drop Hwf _ _ _ _ Hp Hk) as Hwf1. eapply fs_wf_delete; [done|..].
    + rewrite lookup_insert_ne; [done|]. congruence.
    + eapply (wf_ref_nonzero Hwf); [exact Hp|by eapply list_elem_of_lookup_2].
    + by eapply drop_unreferenced.
  - rewrite app_nil_r. by eapply fs_wf_set_entry.
Qed.

Lemma fs_wf_node_delete ci :
  V !! de_inode_block e = Some (NInode ci) → de_inode_block e ≠ p →
  fs_wf (node_delete V p i k b es j (de_inode_block e) ci)
    (fl ++ freed_blocks b es j (de_inode_block e) ci).
Proof.
  set (c := de_inode_block e). intros Hc Hcp. pose proof fs_wf_node_unlink as Hwf1.
  assert (c ≠ b) as Hcb by congruence. assert (c ≠ 0) as Hc0 by (by apply unused_false).
  unfold node_delete, child_blocks, freed_blocks, child_blocks. simpl. rewrite (assoc_L (++)).
  rewrite (cons_middle c _ (if is_type ci type_file then _ else _)), (assoc_L (++)).
  set (V1 := node_unlink V p i k b es j) in *.
  assert (V1 !! c = Some (NInode ci)) as Hc1 by (unfold V1; by rewrite unlink_lookup).
  assert (fs_wf (delete c V1) ((fl ++ (if is_block_empty (<[j := zero_direntry]> es) then [b] else []))
    ++ [c])) as Hwf2 by (eapply fs_wf_delete; eauto using unlink_unreferenced).
  destruct (is_type ci type_file) eqn:Hf; [|by rewrite app_nil_r].
  apply is_type_true in Hf.
  apply fs_wf_remove_blocks; [done|exact (wf_refs_nodup Hwf _ _ Hc)|].
  rewrite Forall_forall. intros d Hd. destruct (wf_file_ref Hwf _ _ _ Hc Hf Hd) as [v Hv].
  split_and!.
  - exists (NData v). rewrite lookup_delete_ne by congruence. unfold V1.
    by rewrite unlink_lookup by congruence.
  - exact (wf_ref_nonzero Hwf _ _ _ Hc Hd).
  - intros x q [Hx [q' Hq']%unlink_refers_back]%refers_delete_back.
    apply list_elem_of_lookup in Hd as [q0 Hq0]. pose proof (wf_inode_refers Hwf _ _ _ _ Hc Hq0) as H0.
    by destruct (wf_unique _ _ Hwf _ _ _ _ _ H0 Hq') as [<- _].
Qed.

End delete.

(** ** Directories and their children *)

(** The entry [name] of directory [p] names inode [c]. *)
Definition child_of (V : store) (p : Z) (name : bytes) (c : Z) : Prop :=
  ∃ i, V !! p = Some (NInode i) ∧ ino_type i = type_dir ∧
    lookup_name name (listing V i) = Some c.

(** Where that entry is: entry [j] of the [k]-th block [b]. *)
Record entry_at (V : store) (p : Z) (name : bytes) (c : Z) (i : fs_inode) (k : nat) (b : Z)
    (es : list fs_direntry) (j : nat) (e : fs_direntry) : Prop := {
  ea_inode : V !! p = Some (NInode i);
  ea_type : ino_type i = type_dir;
  ea_ref : inode_refs i !! k = Some b;
  ea_block : V !! b = Some (NDir es);
  ea_entry : es !! j = Some e;
  ea_used : unused e = false;
  ea_child : de_inode_block e = c;
  ea_name : c_str (de_name e) = Some name;
}.

Lemma listing_lookup_inv (V : store) i q e :
  listing V i !! q = Some e →
  ∃ k b es j, inode_refs i !! k = Some b ∧ V !! b = Some (NDir es) ∧ es !! j = Some e.
Proof.
  intros Hq%list_elem_of_lookup_2. apply list_elem_of_join in Hq as (es & He & Hes).
  apply list_elem_of_fmap in Hes as (b & -> & [k Hk]%list_elem_of_lookup).
  unfold dir_entries in He. destruct (V !! b) as [[|es|]|] eqn:Hb; try by apply elem_of_nil in He.
  apply list_elem_of_lookup in He as [j Hj]. eauto 10.
Qed.

Lemma child_of_entry V p name c :
  child_of V p name c → ∃ i k b es j e, entry_at V p name c i k b es j e.
Proof.
  intros (i & Hp & Ht & (q & e & Hq & Hc & Hc0 & Hn)%lookup_name_Some).
  destruct (listing_lookup_inv _ _ _ _ Hq) as (k & b & es & j & Hk & Hb & Hj).
  exists i, k, b, es, j, e. split; try done. apply unused_false. congruence.
Qed.

Section children.
Context {V : store} {fl : list Z} (Hwf : fs_wf V fl).

(** Every inode has one parent. *)
Lemma child_of_parent p name p' name' c :
  child_of V p name c → child_of V p' name' c → p = p' ∧ name = name'.
Proof.
  intros (i & k & b & es & j & e & H1)%child_of_entry (i' & k' & b' & es' & j' & e' & H2)%child_of_entry.
  destruct (wf_entry_inode Hwf _ _ _ _ (ea_block _ _ _ _ _ _ _ _ _ _ H1) (ea_entry _ _ _ _ _ _ _ _ _ _ H1)
    (ea_used _ _ _ _ _ _ _ _ _ _ H1)) as [R1 _].
  destruct (wf_entry_inode Hwf _ _ _ _ (ea_block _ _ _ _ _ _ _ _ _ _ H2) (ea_entry _ _ _ _ _ _ _ _ _ _ H2)
    (ea_used _ _ _ _ _ _ _ _ _ _ H2)) as [R2 _].
  destruct H1, H2; subst. rewrite ea_child1 in R2.
  destruct (wf_unique _ _ Hwf _ _ _ _ _ R1 R2) as [-> ->]. simplify_eq.
  pose proof (wf_inode_refers Hwf _ _ _ _ ea_inode0 ea_ref0) as S1.
  pose proof (wf_inode_refers Hwf _ _ _ _ ea_inode1 ea_ref1) as S2.
  by destruct (wf_unique _ _ Hwf _ _ _ _ _ S1 S2) as [-> _].
Qed.

Lemma child_of_inode p name c :
  child_of V p name c → c ≠ ROOT_INODE ∧ ∃ ci, V !! c = Some (NInode ci).
Proof.
  intros (i & k & b & es & j & e & [])%child_of_entry. subst c.
  destruct (wf_entry_inode Hwf _ _ _ _ ea_block0 ea_entry0 ea_used0) as [_ ?].
  split; [by apply unused_false|done].
Qed.

Lemma next_spec_child user b name c : next_spec V user b name = inr c → child_of V b name c.
Proof.
  unfold next_spec. intros Hn.
  destruct (V !! b) as [[i| |]|] eqn:Hb; try done. case_match; [done|].
  destruct (is_type i type_dir) eqn:Ht; [|done]. apply is_type_true in Ht.
  destruct (lookup_name name (listing V i)) eqn:Hl; simplify_eq/=.
  eexists; split_and!; eauto.
Qed.

Lemma walk_spec_snoc user b cs c :
  walk_spec V user b (cs ++ [c]) = sum_bind (walk_spec V user b cs) (λ p, next_spec V user p c).
Proof.
  revert b; induction cs as [|x cs IH]; intros b; simpl.
  - by destruct (next_spec V user b c).
  - destruct (next_spec V user b x); simpl; [done|apply IH].
Qed.

Lemma walk_spec_inode user cs p :
  walk_spec V user ROOT_INODE cs = inr p → ∃ i, V !! p = Some (NInode i).
Proof.
  destruct cs as [|c cs _] using rev_ind; [simpl; intros [= <-]; destruct (wf_root _ _ Hwf); naive_solver|].
  rewrite walk_spec_snoc. destruct (walk_spec V user ROOT_INODE cs); simpl; [done|].
  intros Hn%next_spec_child. by apply child_of_inode in Hn as [_ ?].
Qed.

(** No directory on a path is its own child. *)
Lemma walk_spec_acyclic user cs p name :
  walk_spec V user ROOT_INODE cs = inr p → ¬ child_of V p name p.
Proof.
  revert p name; induction cs as [|c cs IH] using rev_ind; intros p name.
  - simpl. intros [= <-] [Hc _]%child_of_inode. done.
  - rewrite walk_spec_snoc. destruct (walk_spec V user ROOT_INODE cs) as [|g] eqn:Hg; simpl; [done|].
    intros Hn%next_spec_child Hp. destruct (child_of_parent _ _ _ _ _ Hn Hp) as [-> ->].
    by eapply IH.
Qed.

End children.
