(* ===== verification/FsPaths.v ===== *)
(** * Paths and their components

    What the path helpers of [filesys/file_system.cpp] compute on the paths
    the server accepts: [path_of cs], with every component a [good_name]. *)
From S2P Require Import Prelude Layout Prog FileSystem FsModel.
Import Path FileSystem.

Local Open Scope Z_scope.

Lemma find_last_of_None c s : c ∉ s → find_last_of c s = None.
Proof.
  induction s as [|x s IH]; intros Hs; simpl; [done|].
  apply not_elem_of_cons in Hs as [Hx Hs]. rewrite IH by done.
  by rewrite (proj2 (Ascii.eqb_neq _ _)).
Qed.

Lemma find_last_of_app c s t : c ∉ t → find_last_of c (s ++ c :: t) = Some (length s).
Proof.
  intros Ht. induction s as [|x s IH]; simpl.
  - by rewrite find_last_of_None, Ascii.eqb_refl.
  - by rewrite IH.
Qed.

Lemma path_of_cons c cs : path_of (c :: cs) = slash :: c ++ path_of cs.
Proof. done. Qed.

Lemma path_of_snoc cs c : path_of (cs ++ [c]) = path_of cs ++ slash :: c.
Proof.
  unfold path_of. rewrite fmap_app, join_app. simpl. by rewrite app_nil_r.
Qed.

Lemma path_of_nil cs : path_of cs = [] ↔ cs = [].
Proof. destruct cs; simpl; done. Qed.

Lemma path_ok_snoc cs c : good_name c → path_ok (path_of (cs ++ [c])) = true.
Proof.
  intros (Hne & Hs & _). rewrite path_of_snoc. unfold path_ok.
  destruct c as [|x c _] using rev_ind; [done|].
  rewrite app_comm_cons, (assoc_L (++)), last_snoc. apply negb_true_iff, Ascii.eqb_neq.
  intros ->. apply Hs. apply elem_of_app. right. by left.
Qed.

Lemma get_parent_dir_path cs c :
  good_name c → get_parent_dir (path_of (cs ++ [c])) = Ret (path_of cs).
Proof.
  intros Hc. unfold get_parent_dir. rewrite assert_bind by by apply path_ok_snoc.
  rewrite path_of_snoc, find_last_of_app by apply Hc. f_equal. by apply take_app_exact.
Qed.

Lemma get_target_path cs c :
  good_name c → get_target (path_of (cs ++ [c])) = Ret c.
Proof.
  intros Hc. unfold get_target. rewrite assert_bind by by apply path_ok_snoc.
  rewrite path_of_snoc, find_last_of_app by apply Hc. f_equal.
  rewrite (cons_middle slash), (assoc_L (++)). apply drop_app_exact.
  rewrite length_app. simpl. lia.
Qed.

Lemma getlines_single d s : s ≠ [] → d ∉ s → getlines d s = [s].
Proof.
  induction s as [|c s IH]; [done|]. intros _ [Hc Hs]%not_elem_of_cons. simpl.
  rewrite (proj2 (Ascii.eqb_neq _ _)) by done.
  destruct s as [|c' s]; [done|]. by rewrite IH.
Qed.

Lemma getlines_delim d s t : d ∉ s → getlines d (s ++ d :: t) = s :: getlines d t.
Proof.
  induction s as [|c s IH]; intros Hs; simpl; [by rewrite Ascii.eqb_refl|].
  apply not_elem_of_cons in Hs as [Hc Hs].
  rewrite (proj2 (Ascii.eqb_neq _ _)) by done. by rewrite IH.
Qed.

(** The names [find_parent_inode] goes through: an empty one for the root. *)
Lemma getlines_path cs :
  Forall good_name cs →
  getlines slash (path_of cs) = match cs with [] => [] | _ => [] :: cs end.
Proof.
  intros Hcs. destruct cs as [|c cs]; [done|]. simpl. f_equal.
  revert c Hcs; induction cs as [|c' cs IH]; intros c Hcs; apply Forall_cons in Hcs as [Hc Hcs].
  - simpl. rewrite app_nil_r. apply getlines_single; apply Hc.
  - simpl. rewrite getlines_delim by apply Hc. f_equal. by apply IH.
Qed.

(** Two paths are the same string only when they have the same components. *)
Lemma path_of_inj cs cs' :
  Forall good_name cs → Forall good_name cs' → path_of cs = path_of cs' → cs = cs'.
Proof.
  intros H1 H2 He. pose proof (getlines_path _ H1) as G1. pose proof (getlines_path _ H2) as G2.
  rewrite He in G1. destruct cs, cs'; congruence.
Qed.

Lemma path_of_no_nul cs : Forall good_name cs → NUL ∉ path_of cs.
Proof.
  induction 1 as [|c cs (_ & _ & Hc & _) _ IH]; simpl; [by intros ?%elem_of_nil|].
  intros [?|[?|?]%elem_of_app]%elem_of_cons; done.
Qed.
