(* ===== verification/FsRun.v ===== *)
(** * The file system on a disk that holds a store

    [models d V] says that the disk holds the nodes of the store [V].  On such
    a disk the reading side of the file system, run by one thread, computes
    what the store says: looking a name up, one step of a path, and the whole
    hand-over-hand walk to a parent directory. *)
From S2P Require Import Prelude Layout Locks Prog FileSystem FsModel FsStore FsPaths.
Import Path FileSystem.

Local Open Scope Z_scope.

Definition holds_node (v : bytes) (n : node) : Prop :=
  match n with
  | NInode i => decode_inode v = i
  | NDir es => decode_direntries v = es
  | NData w => v = w
  end.

Definition models {D} `{Disk D} (d : D) (V : store) : Prop :=
  ∀ b n, V !! b = Some n → ∃ v, disk_readblock d b = Some v ∧ holds_node v n.

(** The outcome of a program that returns or throws. *)
Definition of_sum {A} (x : string + A) : outcome A :=
  match x with
  | inl e => Exn e
  | inr a => Done a
  end.

(** What a program that ends in [x] still holds. *)
Definition held_by {A} (x : string + A) (f : A → holdings) : holdings :=
  match x with
  | inl _ => []
  | inr a => f a
  end.

(** ** Lock steps on the few locks a thread holds *)

Lemma hold_read b h : (b, Exclusive) ∉ h → hold_step LockRead b h = LkDone ((b, Shared) :: h).
Proof. intros Hb. simpl. by rewrite bool_decide_eq_false_2. Qed.

Lemma hold_upgrade b h :
  (b, Exclusive) ∉ h → (b, Upgrade) ∉ h → hold_step LockUpgrade b h = LkDone ((b, Upgrade) :: h).
Proof. intros H1 H2. simpl. rewrite bool_decide_eq_false_2; tauto. Qed.

Lemma hold_drop_head b m h : drop_hold b m ((b, m) :: h) = LkDone h.
Proof. unfold drop_hold. simpl. by rewrite decide_True. Qed.

Lemma hold_drop_second b m x : drop_hold b m [x; (b, m)] = LkDone [x].
Proof.
  unfold drop_hold. simpl. case_decide; simplify_eq/=; [done|]. by rewrite decide_True.
Qed.

Lemma hold_write b h : (b, Shared) ∉ h →
  hold_step UpgradeToWrite b ((b, Upgrade) :: h) = LkDone ((b, Exclusive) :: h).
Proof.
  intros Hb. simpl. rewrite decide_True by done. rewrite bool_decide_eq_false_2; [done|].
  by intros [?|?]%elem_of_cons.
Qed.

Lemma two_holds (x y : Z * lock_mode) : len [x; y] < hold_bound.
Proof. done. Qed.

Ltac lock_side :=
  first [ done | apply hold_drop_head | apply hold_drop_second
        | apply hold_read; set_solver | apply hold_upgrade; set_solver
        | apply hold_write; set_solver ].

(** ** Executions over stores

    [exec V fl h p o V' fl' h']: from any disk that holds [V], with free list
    [fl] and locks [h], the program [p] ends in [o] with a disk that holds
    [V'], and [fl'] and [h']. *)

Section run.
Context {D L : Type} `{DiskSpec D} `{InodeLocksSpec L}.

Definition exec {A} (V : store) (fl : list Z) (h : holdings) (p : prog A) (o : outcome A)
    (V' : store) (fl' : list Z) (h' : holdings) : Prop :=
  ∀ d : D, models d V → ∃ d', runs_to (L:=L) p d fl h o d' fl' h' ∧ models d' V'.

Lemma exec_runs {A} V fl h (p : prog A) o fl' h' :
  (∀ d : D, models d V → runs_to (L:=L) p d fl h o d fl' h') → exec V fl h p o V fl' h'.
Proof. intros Hp d Hm. exists d. auto. Qed.

Lemma exec_ret {A} V fl h (a : A) : exec V fl h (Ret a) (Done a) V fl h.
Proof. apply exec_runs. intros. apply runs_ret. Qed.

Lemma exec_bind {A B} V fl h (p : prog A) a V1 fl1 h1 (f : A → prog B) o V2 fl2 h2 :
  exec V fl h p (Done a) V1 fl1 h1 → exec V1 fl1 h1 (f a) o V2 fl2 h2 →
  exec V fl h (p ≫= f) o V2 fl2 h2.
Proof.
  intros Hp Hf d Hm. destruct (Hp d Hm) as (d1 & Hr1 & Hm1). destruct (Hf d1 Hm1) as (d2 & Hr2 & Hm2).
  exists d2. split; [|done]. by eapply runs_bind.
Qed.

Lemma exec_bind_exn {A B} V fl h (p : prog A) e V1 fl1 h1 (f : A → prog B) :
  exec V fl h p (Exn e) V1 fl1 h1 → exec V fl h (p ≫= f) (Exn e) V1 fl1 h1.
Proof.
  intros Hp d Hm. destruct (Hp d Hm) as (d1 & Hr1 & Hm1). exists d1. split; [|done].
  by apply runs_bind_exn.
Qed.

Lemma exec_fmap {A B} (g : A → B) V fl h (p : prog A) a V1 fl1 h1 :
  exec V fl h p (Done a) V1 fl1 h1 → exec V fl h (g <$> p) (Done (g a)) V1 fl1 h1.
Proof. intros Hp. eapply exec_bind; [done|apply exec_ret]. Qed.

(** One access followed by the rest of a handler. *)
Lemma exec_lock {A} op b (f : unit → prog A) V fl h h' o V' fl' h2 :
  len h < hold_bound → hold_step op b h = LkDone h' →
  exec V fl h' (f ()) o V' fl' h2 → exec V fl h (inode_lock op b ≫= f) o V' fl' h2.
Proof.
  intros Hl Hs Hf. eapply exec_bind; [|exact Hf]. apply exec_runs. intros. by apply runs_lock.
Qed.

(** A lock operation at the end. *)
Lemma exec_last_lock op b V fl h h' :
  len h < hold_bound → hold_step op b h = LkDone h' →
  exec V fl h (inode_lock op b) (Done ()) V fl h'.
Proof. intros. apply exec_runs. intros. by apply runs_lock. Qed.

Lemma exec_unlock_throw {A} op b e V fl h h' :
  len h < hold_bound → hold_step op b h = LkDone h' →
  exec V fl h (_ ← inode_lock op b; Throw (A:=A) e) (Exn e) V fl h'.
Proof. intros. eapply exec_lock; [done..|]. apply exec_runs. intros. apply runs_throw. Qed.

(** A critical section on the free list that leaves the disk alone. *)
Lemma exec_free_mutex {A} (p : prog A) V fl h (x : string + A) fl' h' :
  (∀ (d : D) (l : L), lk_view l h → ∃ l', run p (St d fl l true) = (of_sum x, St d fl' l' true) ∧
     lk_view l' h') →
  exec V fl h (with_free_mutex p) (of_sum x) V fl' h'.
Proof.
  intros Hp. apply exec_runs. intros d _ l Hl. destruct (Hp d l Hl) as (l' & Hr & Hl').
  exists l'. split; [|done].
  unfold with_free_mutex. simpl. rewrite (run_unlock_on_exit _ _ _ _ Hr); [done|done|].
  destruct x; simpl; eauto.
Qed.

Lemma exec_push_free b V fl h : exec V fl h (push_free b) (Done ()) V (fl ++ [b]) h.
Proof. apply (exec_free_mutex _ _ _ _ (inr ())). intros d l Hl. by exists l. Qed.

(** The exception of a critical section that gives up the upgradeable lock. *)
Lemma run_unlock_throw {A} op b e (d : D) fl h h' (l : L) m :
  lk_view l h → len h < hold_bound → hold_step op b h = LkDone h' →
  ∃ l', run (_ ← inode_lock op b; Throw (A:=A) e) (St d fl l m)
          = (Exn e, St d fl l' m) ∧ lk_view l' h'.
Proof.
  intros Hl Hb Hs. destruct (lk_call_done op b l h h' Hl Hb Hs) as (l' & Hc & Hl').
  exists l'. rewrite run_bind. simpl. by rewrite Hc.
Qed.

(** ** Reading and writing nodes *)

Lemma exec_write b v n V fl h :
  0 ≤ b < FS_DISKSIZE → len v = FS_BLOCKSIZE → holds_node v n →
  exec V fl h (disk_write b v) (Done ()) (<[b := n]> V) fl h.
Proof.
  intros Hb Hv Hn d Hm. destruct (proj2 (disk_write_dom d b v Hv) Hb) as [d' Hd'].
  exists d'. split; [by apply runs_write|]. intros c m Hc. erewrite disk_read_write by done.
  rewrite lookup_insert in Hc. case_decide; simplify_eq; eauto.
Qed.

Lemma exec_write_inode b i V fl h :
  0 ≤ b < FS_DISKSIZE → inode_ok i →
  exec V fl h (write_inode b i) (Done ()) (<[b := NInode i]> V) fl h.
Proof.
  intros Hb Hi. apply exec_write; [done|by apply length_encode_inode|by apply decode_encode_inode].
Qed.

Lemma exec_write_direntries b es V fl h :
  0 ≤ b < FS_DISKSIZE → direntries_ok es →
  exec V fl h (write_direntries b es) (Done ()) (<[b := NDir es]> V) fl h.
Proof.
  intros Hb Hes. apply exec_write;
    [done|by apply length_encode_direntries|by apply decode_encode_direntries].
Qed.

(** A disk that holds a store holds a smaller one. *)
Lemma exec_forget {A} bs V fl h (p : prog A) o V' fl' h' :
  exec V fl h p o V' fl' h' → exec V fl h p o (remove_blocks bs V') fl' h'.
Proof.
  intros Hp d Hm. destruct (Hp d Hm) as (d' & Hr & Hm'). exists d'. split; [done|]. clear Hr Hp.
  revert V' Hm'; induction bs as [|b bs IH]; intros V' Hm'; [done|]. simpl. apply IH.
  intros c n [_ Hc]%lookup_delete_Some. eauto.
Qed.

Lemma exec_read b n V fl h :
  V !! b = Some n →
  ∀ d : D, models d V → ∃ v, runs_to (L:=L) (disk_read b) d fl h (Done v) d fl h ∧ holds_node v n.
Proof. intros Hb d Hm. destruct (Hm _ _ Hb) as (v & Hv & Hn). exists v. split; [by apply runs_read|done]. Qed.

Lemma exec_read_inode b i V fl h :
  V !! b = Some (NInode i) → exec V fl h (read_inode b) (Done i) V fl h.
Proof.
  intros Hb. apply exec_runs. intros d Hm. destruct (exec_read _ _ _ fl h Hb d Hm) as (v & Hv & <-).
  by apply runs_fmap.
Qed.

Lemma exec_read_direntries b es V fl h :
  V !! b = Some (NDir es) → exec V fl h (read_direntries b) (Done es) V fl h.
Proof.
  intros Hb. apply exec_runs. intros d Hm. destruct (exec_read _ _ _ fl h Hb d Hm) as (v & Hv & <-).
  by apply runs_fmap.
Qed.

Lemma exec_read_data b v V fl h :
  V !! b = Some (NData v) → exec V fl h (disk_read b) (Done v) V fl h.
Proof.
  intros Hb. apply exec_runs. intros d Hm. by destruct (exec_read _ _ _ fl h Hb d Hm) as (w & Hw & <-).
Qed.

(** ** Looking names up *)

Section modelled.
Context {V : store} {fl : list Z} (Hwf : fs_wf V fl).

(** Every block an inode mentions below its size is a defined array access. *)
Lemma inode_block_at_ref i k b :
  inode_refs i !! k = Some b → inode_block_at i (Z.of_nat k) = Ret b.
Proof.
  intros Hk. unfold inode_block_at, or_undefined. rewrite (proj2 (Z.ltb_ge _ _)) by lia.
  rewrite Nat2Z.id. unfold inode_refs in Hk. by apply lookup_take_Some in Hk as [-> _].
Qed.

Lemma find_in_entries_lookup name es :
  Forall direntry_ok es → good_name name →
  find_in_entries name es = Ret (default UNDEFINED_BLOCK (lookup_name name es)).
Proof.
  intros Hes (_ & _ & Hnul & Hlen). induction Hes as [|e es [He _] Hes IH]; [done|]. simpl.
  unfold lookup_name; simpl. unfold entry_named at 1. destruct (unused e); simpl; [done|].
  erewrite or_undefined_bind by (apply strcmp_eq_spec; [done|lia]).
  by case_bool_decide.
Qed.

Lemma lookup_name_in_disk name b i c :
  V !! b = Some (NInode i) → ino_type i = type_dir →
  lookup_name name (listing V i) = Some c →
  0 ≤ c < FS_DISKSIZE ∧ c ≠ 0 ∧ ∃ ci, V !! c = Some (NInode ci).
Proof.
  intros Hb Ht (j & e & Hj & <- & Hc & Hn)%lookup_name_Some.
  apply list_elem_of_lookup_2, list_elem_of_join in Hj as (es & Hes & Hin).
  apply list_elem_of_fmap in Hin as (db & -> & Hdb).
  destruct (wf_dir_ref Hwf _ _ _ Hb Ht Hdb) as [es Hdir]. unfold dir_entries in Hes.
  rewrite Hdir in Hes. apply list_elem_of_lookup in Hes as [q Hq].
  destruct (wf_entry_inode Hwf _ _ _ _ Hdir Hq) as [_ [ci Hci]]; [by apply unused_false|].
  split; [by eapply wf_range|eauto].
Qed.

Lemma find_in_blocks_lookup name b i n k fl' h :
  V !! b = Some (NInode i) → ino_type i = type_dir → good_name name →
  (n + k = Z.to_nat (ino_size i))%nat →
  exec V fl' h (find_in_blocks name i n (Z.of_nat k))
    (Done (default UNDEFINED_BLOCK
       (lookup_name name (mjoin (dir_entries V <$> drop k (inode_refs i)))))) V fl' h.
Proof.
  intros Hb Ht Hname. pose proof (wf_refs_length Hwf _ _ Hb) as Hlen.
  revert k; induction n as [|n IH]; intros k Hk.
  - rewrite drop_ge by lia. apply exec_ret.
  - destruct (lookup_lt_is_Some_2 (inode_refs i) k ltac:(lia)) as [db Hdb].
    destruct (wf_dir_ref Hwf b i db Hb Ht ltac:(by eapply list_elem_of_lookup_2)) as [es Hes].
    simpl. rewrite (inode_block_at_ref _ _ _ Hdb), ret_bind.
    eapply exec_bind; [by apply exec_read_direntries|].
    rewrite find_in_entries_lookup, ret_bind by (done || apply (wf_node _ _ Hwf _ _ Hes)).
    rewrite (drop_S _ _ _ Hdb). simpl. rewrite lookup_name_app.
    unfold dir_entries at 1. rewrite Hes.
    destruct (lookup_name name es) as [c|] eqn:Hc; simpl.
    + rewrite (proj2 (Z.eqb_neq _ _)); [apply exec_ret|].
      apply lookup_name_Some in Hc as (j & e & Hj & <- & Hc & _).
      destruct (wf_entry_inode Hwf _ _ _ _ Hes Hj) as [_ [ci Hci]]; [by apply unused_false|].
      pose proof (wf_range _ _ Hwf _ _ Hci). unfold UNDEFINED_BLOCK. lia.
    + replace (Z.of_nat k + 1) with (Z.of_nat (S k)) by lia. apply IH. lia.
Qed.

(** The owner test on an inode whose owner field is a C string. *)
Lemma not_owner_spec user b i :
  V !! b = Some (NInode i) → not_owner user i = Ret (negb (owned_by user i)).
Proof.
  intros Hb. destruct (wf_inode Hwf _ _ Hb) as (_ & _ & _ & [t Ht]).
  unfold not_owner, owned_by. rewrite (string_ne_spec _ _ _ Ht), Ht. unfold or_undefined. f_equal.
  rewrite <-bool_decide_not. apply bool_decide_ext. naive_solver.
Qed.

(** One step of a path: [find_next_inode]. *)
Lemma find_next_inode_spec name b user fl' :
  good_name name → is_Some (V !! b ≫= λ n, match n with NInode i => Some i | _ => None end) →
  let r := next_spec V user b name in
  exec V fl' [(b, Shared)] (find_next_inode name b user)
    (of_sum r) V fl' (held_by r (λ _, [(b, Shared)])).
Proof.
  intros Hname [i Hi]. destruct (V !! b) as [[i'| |]|] eqn:Hb; simplify_eq/=.
  unfold next_spec, find_next_inode. rewrite Hb.
  eapply exec_bind; [by apply exec_read_inode|].
  assert ((if b =? 0 then Ret false else not_owner user i) =
    Ret (negb (b =? 0) && negb (owned_by user i))) as ->.
  { destruct (b =? 0); [done|]. by eapply not_owner_spec. }
  rewrite ret_bind. destruct (negb (b =? 0) && negb (owned_by user i)); simpl.
  { eapply exec_unlock_throw; lock_side. }
  destruct (is_type i type_dir) eqn:Ht; simpl; [|eapply exec_unlock_throw; lock_side].
  apply is_type_true in Ht. pose proof (find_in_blocks_lookup name b i (Z.to_nat (ino_size i)) 0 fl'
    [(b, Shared)] Hb Ht Hname ltac:(lia)) as Hr. rewrite drop_0 in Hr.
  eapply exec_bind; [exact Hr|]. fold (listing V i).
  destruct (lookup_name name (listing V i)) as [c|] eqn:Hc; simpl.
  - destruct (lookup_name_in_disk _ _ _ _ Hb Ht Hc) as (Hrng & _).
    rewrite (proj2 (Z.eqb_neq _ _)) by (unfold UNDEFINED_BLOCK; lia). apply exec_ret.
  - eapply exec_unlock_throw; lock_side.
Qed.

Lemma inode_here b i :
  V !! b = Some (NInode i) →
  is_Some (V !! b ≫= λ n, match n with NInode i => Some i | _ => None end).
Proof. intros ->. eauto. Qed.

(** The loop of [find_parent_inode]. *)
Lemma walk_run user fl' x cs b i :
  V !! b = Some (NInode i) → (until_nul x = [] → b = ROOT_INODE) → Forall good_name cs →
  let r := walk_spec V user b cs in
  exec V fl' [(b, Shared)] (walk (x :: cs) b user)
    (of_sum r) V fl' (held_by r (λ p, [(p, Shared)])).
Proof.
  revert x b i; induction cs as [|c cs IH]; intros x b i Hb Hx Hcs; [apply exec_ret|].
  apply Forall_cons in Hcs as [Hc Hcs]. cbn [walk walk_spec].
  rewrite assert_bind by (case_bool_decide; [by rewrite (proj2 (Z.eqb_eq _ _)) by auto|done]).
  pose proof (find_next_inode_spec c b user fl' Hc (inode_here _ _ Hb)) as Hn.
  destruct (next_spec V user b c) as [e|b'] eqn:Hr; simpl in Hn.
  - by apply exec_bind_exn.
  - eapply exec_bind; [exact Hn|]. simpl.
    destruct (child_of_inode Hwf _ _ _ (next_spec_child _ _ _ _ Hr)) as [_ [i' Hi']].
    eapply exec_lock; [done|lock_side|]. eapply exec_lock; [done|lock_side|].
    eapply IH; [done| |done]. intros Hc0. destruct Hc as (Hne & _ & Hnul & _).
    by rewrite until_nul_id in Hc0.
Qed.

(** [find_parent_inode] follows the directories of the path and ends holding
    the parent's lock. *)
Lemma find_parent_inode_run user fl' cs c :
  Forall good_name cs → good_name c →
  let r := walk_spec V user ROOT_INODE cs in
  exec V fl' [] (find_parent_inode (path_of (cs ++ [c])) user)
    (of_sum r) V fl' (held_by r (λ p, [(p, Shared)])).
Proof.
  intros Hcs Hc. unfold find_parent_inode. rewrite get_parent_dir_path, ret_bind by done.
  eapply exec_lock; [done|lock_side|].
  rewrite getlines_path by done. destruct cs as [|c' cs]; [apply exec_ret|].
  destruct (wf_root _ _ Hwf) as (i & Hi & _). by eapply walk_run.
Qed.

(** The first three steps of a request on an existing target. *)
Lemma find_target_run {A} user fl' cs c (f : Z → Z → prog A) o V' fl2 h2 :
  Forall good_name cs → good_name c →
  match target_spec V user cs c with
  | inl e => o = Exn e ∧ V' = V ∧ fl2 = fl' ∧ h2 = []
  | inr t => ∀ p, walk_spec V user ROOT_INODE cs = inr p →
      exec V fl' [(p, Shared)] (f p t) o V' fl2 h2
  end →
  exec V fl' [] (p ← find_parent_inode (path_of (cs ++ [c])) user;
        x ← get_target (path_of (cs ++ [c]));
        t ← find_next_inode x p user;
        f p t) o V' fl2 h2.
Proof.
  intros Hcs Hc Hrest. pose proof (find_parent_inode_run user fl' cs c Hcs Hc) as Hp.
  unfold target_spec in Hrest.
  destruct (walk_spec V user ROOT_INODE cs) as [e|p] eqn:Hw; simpl in Hp, Hrest.
  { destruct Hrest as (-> & -> & -> & ->). by apply exec_bind_exn. }
  eapply exec_bind; [exact Hp|]. rewrite get_target_path, ret_bind by done.
  destruct (walk_spec_inode Hwf _ _ _ Hw) as [i Hi].
  pose proof (find_next_inode_spec c p user fl' Hc (inode_here _ _ Hi)) as Hn.
  destruct (next_spec V user p c) as [e|t]; simpl in Hn, Hrest.
  - destruct Hrest as (-> & -> & -> & ->). by apply exec_bind_exn.
  - eapply exec_bind; [exact Hn|]. by apply Hrest.
Qed.

End modelled.
End run.
