(* ===== verification/FsSpec.v ===== *)
(** * What the four requests do to a store

    The abstract specification of [FileSystem::handle_read], [handle_write],
    [handle_create] and [handle_delete]: their answer, the store and free list
    they leave, and the inode locks they leave held.  [FsHandlers] proves that
    the handlers implement these functions on every well-formed disk. *)
From S2P Require Import Prelude Layout Locks FileSystem FsModel.
Import FileSystem.

Local Open Scope Z_scope.

(** ** Requests *)

(** What [parse_message] guarantees of every command besides its path. *)
Record cmd_ok (cmd : Command) : Prop := {
  cmd_user_nul : NUL ∉ username cmd;
  cmd_user_len : len (username cmd) ≤ FS_MAXUSERNAME;
  cmd_block_nonneg : 0 ≤ cmd_block cmd;
  cmd_data_len : len (cmd_data cmd) = FS_BLOCKSIZE;
}.

(** A request that changes the file system. *)
Record fs_result := FsResult {
  res_answer : string + unit;
  res_store : store;
  res_free : list Z;
  res_locks : holdings;
}.

Definition failed (V : store) (fl : list Z) (e : string) : fs_result := FsResult (inl e) V fl [].

Definition inode_at (V : store) (b : Z) : option fs_inode :=
  match V !! b with
  | Some (NInode i) => Some i
  | _ => None
  end.

(** ** Read and write *)

(** The data block behind index [k] of a file. *)
Definition file_block (V : store) (i : fs_inode) (k : Z) : option bytes :=
  match inode_refs i !! Z.to_nat k ≫= (λ b, V !! b) with
  | Some (NData v) => Some v
  | _ => None
  end.

Definition read_spec (V : store) (user : bytes) (cs : list bytes) (name : bytes) (k : Z)
    : string + bytes :=
  sum_bind (target_spec V user cs name) (λ t,
    match inode_at V t with
    | None => inl ""%string
    | Some i =>
        if negb (is_type i type_file) || (ino_size i <=? k)
        then inl "Provided file is not a valid file"%string
        else if negb (owned_by user i) then inl "User is not owner of file"%string
        else match file_block V i k with
             | Some v => inr v
             | None => inl ""%string
             end
    end).

Definition write_file (V : store) (fl : list Z) (t : Z) (i : fs_inode) (k : Z) (v : bytes)
    : fs_result :=
  if k =? ino_size i then
    match fl with
    | [] => failed V fl "Not enough disk space for this write"
    | b :: fl' =>
        if ino_size i =? FS_MAXFILEBLOCKS then failed V fl "Not enough disk space for this write"
        else FsResult (inr ()) (node_append V t i b v) fl' []
    end
  else
    match inode_refs i !! Z.to_nat k with
    | Some b => FsResult (inr ()) (node_write V b v) fl []
    | None => failed V fl ""
    end.

Definition write_spec (V : store) (fl : list Z) (user : bytes) (cs : list bytes) (name : bytes)
    (k : Z) (v : bytes) : fs_result :=
  match target_spec V user cs name with
  | inl e => failed V fl e
  | inr t =>
      match inode_at V t with
      | None => failed V fl ""
      | Some i =>
          if negb (is_type i type_file) || (ino_size i <? k)
          then failed V fl "Provided block is not writable"
          else if negb (owned_by user i) then failed V fl "User is not owner of file"
          else write_file V fl t i k v
      end
  end.

(** ** Create and delete *)

(** The directory a target is created in or deleted from. *)
Definition parent_spec (V : store) (user : bytes) (cs : list bytes) : string + (Z * fs_inode) :=
  sum_bind (walk_spec V user ROOT_INODE cs) (λ p,
    match inode_at V p with
    | None => inl ""%string
    | Some i =>
        if match cs with
           | [] => false
           | _ => negb (is_type i type_dir) || negb (owned_by user i)
           end
        then inl "Expected a directory, but got a file or user is not owner lol"%string
        else inr (p, i)
    end).

(** The first free entry of a directory. *)
Definition first_unused (es : list fs_direntry) : option nat :=
  fst <$> list_find (λ e, unused e = true) es.

Fixpoint first_slot (V : store) (bs : list Z) : option free_slot :=
  match bs with
  | [] => None
  | b :: bs' =>
      match first_unused (dir_entries V b) with
      | Some j => Some (Slot b j (dir_entries V b))
      | None => first_slot V bs'
      end
  end.

(** The entry and the inode that are written. *)
Definition new_entry (e : fs_direntry) (nb : Z) (name : bytes) : fs_direntry :=
  Direntry (default [] (strcpy (de_name e) name)) nb.

Definition new_inode (stack : fs_inode) (user : bytes) (ty : ascii) : fs_inode :=
  Inode ty (default [] (strcpy (ino_owner stack) user)) 0 (ino_blocks stack).

Definition create_in (V : store) (fl : list Z) (stack : fs_inode) (user : bytes) (ty : ascii)
    (p : Z) (i : fs_inode) (name : bytes) : fs_result :=
  match lookup_name name (listing V i) with
  | Some _ => failed V fl "Path already exists"
  | None =>
      match fl with
      | [] => FsResult (inl "Not enough disk space for create"%string) V [] [(p, Upgrade)]
      | nb :: fl' =>
          let ni := new_inode stack user ty in
          match first_slot V (inode_refs i) with
          | Some s =>
              let e := default zero_direntry (slot_entries s !! slot_index s) in
              FsResult (inr ())
                (node_create V nb ni (slot_block s) (slot_entries s) (slot_index s)
                   (new_entry e nb name)) fl' []
          | None =>
              match fl' with
              | [] => failed V fl' "Not enough disk space for create"
              | b :: fl'' =>
                  if ino_size i =? FS_MAXFILEBLOCKS
                  then failed V fl' "Not enough disk space for create"
                  else FsResult (inr ())
                         (node_create_grow V nb ni p i b (new_entry zero_direntry nb name)) fl'' []
              end
          end
      end
  end.

Definition create_spec (V : store) (fl : list Z) (stack : fs_inode) (user : bytes)
    (cs : list bytes) (name : bytes) (ty : ascii) : fs_result :=
  match parent_spec V user cs with
  | inl e => failed V fl e
  | inr (p, i) => create_in V fl stack user ty p i name
  end.

(** The first entry called [name], from the [k]-th block on. *)
Fixpoint find_entry (V : store) (name : bytes) (bs : list Z) (k : Z) : option entry_pos :=
  match bs with
  | [] => None
  | b :: bs' =>
      match list_find (λ e, entry_named name e = true) (dir_entries V b) with
      | Some (j, e) => Some (EntryPos (de_inode_block e) k j (dir_entries V b))
      | None => find_entry V name bs' (k + 1)
      end
  end.

Definition delete_in (V : store) (fl : list Z) (user : bytes) (p : Z) (i : fs_inode)
    (q : entry_pos) : fs_result :=
  match inode_at V (pos_child q), inode_refs i !! Z.to_nat (pos_block q) with
  | Some ci, Some b =>
      if negb (owned_by user ci) then failed V fl "User is not owner of the target"
      else if is_type ci type_dir && negb (ino_size ci =? 0)
      then failed V fl "Directory not empty"
      else FsResult (inr ())
             (node_delete V p i (Z.to_nat (pos_block q)) b (pos_entries q) (pos_entry q)
                (pos_child q) ci)
             (fl ++ freed_blocks b (pos_entries q) (pos_entry q) (pos_child q) ci) []
  | _, _ => failed V fl ""
  end.

Definition delete_spec (V : store) (fl : list Z) (user : bytes) (cs : list bytes)
    (name : bytes) : fs_result :=
  match parent_spec V user cs with
  | inl e => failed V fl e
  | inr (p, i) =>
      match find_entry V name (inode_refs i) 0 with
      | None => failed V fl "Target does not exist"
      | Some q => delete_in V fl user p i q
      end
  end.

(** ** The scans of a directory *)

Lemma first_slot_Some V bs s :
  first_slot V bs = Some s →
  slot_block s ∈ bs ∧ slot_entries s = dir_entries V (slot_block s) ∧
  ∃ e, slot_entries s !! slot_index s = Some e ∧ unused e = true.
Proof.
  induction bs as [|b bs IH]; simpl; [done|].
  destruct (first_unused (dir_entries V b)) as [j|] eqn:Hf.
  - intros [= <-]. simpl. split; [by left|split; [done|]].
    unfold first_unused in Hf. apply fmap_Some in Hf as ([j' e] & Hf & ->).
    apply list_find_Some in Hf as (Hj & Hu & _). eauto.
  - intros (H1 & H2 & H3)%IH. split; [by right|done].
Qed.

Lemma find_entry_Some V name bs k q :
  0 ≤ k → find_entry V name bs k = Some q →
  ∃ n b e, pos_block q = k + Z.of_nat n ∧ bs !! n = Some b ∧ pos_entries q = dir_entries V b ∧
    pos_entries q !! pos_entry q = Some e ∧ unused e = false ∧ de_inode_block e = pos_child q ∧
    c_str (de_name e) = Some name.
Proof.
  revert k; induction bs as [|b bs IH]; intros k Hk0; simpl; [done|].
  destruct (list_find _ (dir_entries V b)) as [[j e]|] eqn:Hf.
  - intros [= <-]. apply list_find_Some in Hf as (Hj & He & _). simpl.
    apply andb_true_iff in He as [Hu Hn]. apply negb_true_iff in Hu. apply bool_decide_eq_true in Hn.
    exists 0%nat, b, e. split_and!; try done. lia.
  - intros Hq. destruct (IH (k + 1) ltac:(lia) Hq) as (n & b' & e & Hn & Hb' & Hrest).
    exists (S n), b', e. split; [lia|done].
Qed.

Lemma find_entry_lookup V name bs k :
  lookup_name name (mjoin (dir_entries V <$> bs)) = pos_child <$> find_entry V name bs k.
Proof.
  revert k; induction bs as [|b bs IH]; intros k; simpl; [done|]. rewrite lookup_name_app.
  assert (lookup_name name (dir_entries V b) =
    (λ x, de_inode_block x.2) <$> list_find (λ e, entry_named name e = true) (dir_entries V b)) as ->.
  { unfold lookup_name. induction (dir_entries V b) as [|e es IHes]; simpl; [done|].
    destruct (entry_named name e) eqn:He; case_decide; simplify_eq/=; try done.
    rewrite IHes. by destruct (list_find _ es) as [[]|]. }
  destruct (list_find _ _) as [[j e]|]; simpl; [done|]. apply IH.
Qed.
