(* ===== verification/FsHandlers.v ===== *)
(** * The handlers implement the specification

    Run by one thread on a disk that holds a well-formed store, the four
    handlers of [filesys/file_system.cpp] give the answers of [FsSpec], leave
    a disk that holds the specified store, the specified free list, and the
    specified locks. *)
From S2P Require Import Prelude Layout Locks Prog FileSystem FsModel FsStore FsPaths FsRun FsSpec.
Import Path FileSystem.

Local Open Scope Z_scope.

(** The parts of a handler are taken apart by their own lemmas. *)
#[local] Arguments grow_file : simpl never.
#[local] Arguments grow_directory : simpl never.
#[local] Arguments pop_free_or_throw : simpl never.
#[local] Arguments push_free : simpl never.
#[local] Arguments create_scan_blocks : simpl never.
#[local] Arguments delete_scan_blocks : simpl never.

Section handlers.
Context {D L : Type} `{DiskSpec D} `{InodeLocksSpec L}.
Abbreviation exec := (exec (D:=D) (L:=L)).

(** The handler [p] does what [r] says. *)
Definition implements (V : store) (fl : list Z) (p : prog unit) (r : fs_result) : Prop :=
  exec V fl [] p (of_sum (res_answer r)) (res_store r) (res_free r) (res_locks r).

Context {V : store} {fl : list Z} (Hwf : fs_wf V fl).
Context {cmd : Command} {cs : list bytes} {name : bytes}.
Hypotheses (Hcmd : cmd_ok cmd) (Hpath : pathname cmd = path_of (cs ++ [name]))
  (Hcs : Forall good_name cs) (Hname : good_name name).

Lemma target_spec_inode t :
  target_spec V (username cmd) cs name = inr t →
  ∃ p i, walk_spec V (username cmd) ROOT_INODE cs = inr p ∧ inode_at V t = Some i ∧
    V !! t = Some (NInode i).
Proof.
  unfold target_spec. destruct (walk_spec V (username cmd) ROOT_INODE cs) as [|p]; simpl; [done|].
  intros Hn%next_spec_child. destruct (child_of_inode Hwf _ _ _ Hn) as [_ [i Hi]].
  exists p, i. unfold inode_at. by rewrite Hi.
Qed.

(** ** Read *)

Lemma file_block_read t i k :
  V !! t = Some (NInode i) → ino_type i = type_file → 0 ≤ k < ino_size i →
  ∃ b v, inode_refs i !! Z.to_nat k = Some b ∧ V !! b = Some (NData v) ∧
    inode_block_at i k = Ret b ∧ file_block V i k = Some v.
Proof.
  intros Ht Hty Hk. pose proof (wf_refs_length Hwf _ _ Ht) as Hlen.
  destruct (lookup_lt_is_Some_2 (inode_refs i) (Z.to_nat k) ltac:(lia)) as [b Hb].
  destruct (wf_file_ref Hwf _ _ b Ht Hty ltac:(by eapply list_elem_of_lookup_2)) as [v Hv].
  exists b, v. split_and!; [done..| |].
  - replace k with (Z.of_nat (Z.to_nat k)) by lia. by apply inode_block_at_ref.
  - unfold file_block. rewrite Hb. simpl. by rewrite Hv.
Qed.

Lemma handle_read_run :
  exec V fl [] (handle_read cmd)
    (of_sum (read_spec V (username cmd) cs name (cmd_block cmd))) V fl [].
Proof.
  unfold handle_read, read_spec. rewrite Hpath. eapply (find_target_run Hwf); [done..|].
  destruct (target_spec V (username cmd) cs name) as [e|t] eqn:Ht; simpl; [done|].
  intros p Hp. destruct (target_spec_inode _ Ht) as (_ & i & _ & Hi & HVt). rewrite Hi.
  eapply exec_lock; [done|lock_side|]. eapply exec_lock; [done|lock_side|].
  eapply exec_bind; [by apply exec_read_inode|].
  destruct (negb (is_type i type_file) || (ino_size i <=? cmd_block cmd)) eqn:Hbad.
  { eapply exec_unlock_throw; lock_side. }
  apply orb_false_iff in Hbad as [Hf%negb_false_iff%is_type_true Hk%Z.leb_gt].
  rewrite (not_owner_spec Hwf _ t), ret_bind by done.
  destruct (negb (owned_by (username cmd) i)); [eapply exec_unlock_throw; lock_side|].
  pose proof (cmd_block_nonneg _ Hcmd) as H0k.
  destruct (file_block_read t i (cmd_block cmd)) as (b & v & _ & Hv & Hat & ->); [done|done|lia|].
  rewrite Hat, ret_bind.
  eapply exec_bind; [by apply exec_read_data|].
  eapply exec_lock; [done|lock_side|]. apply exec_ret.
Qed.

(** ** Write *)

Lemma inode_set_block_ok i b :
  0 ≤ ino_size i < FS_MAXFILEBLOCKS →
  inode_set_block i (ino_size i) b =
    Ret (inode_with i (ino_size i) (<[Z.to_nat (ino_size i) := b]> (ino_blocks i))).
Proof.
  intros Hsz. unfold inode_set_block.
  by rewrite (proj2 (Z.leb_le _ _)), (proj2 (Z.ltb_lt _ _)) by lia.
Qed.

Lemma inode_set_size_push i b :
  0 ≤ ino_size i < FS_MAXFILEBLOCKS →
  inode_set_size (inode_with i (ino_size i) (<[Z.to_nat (ino_size i) := b]> (ino_blocks i)))
    (ino_size i + 1) = inode_push i b.
Proof.
  intros Hsz. unfold inode_set_size, inode_push. simpl. unfold FS_MAXFILEBLOCKS in *.
  by rewrite wrap32_small by (unfold is_u32; lia).
Qed.

(** The size of an inode of the store. *)
Lemma wf_size t i : V !! t = Some (NInode i) → 0 ≤ ino_size i ≤ FS_MAXFILEBLOCKS.
Proof. intros (Hok & Hle & _)%(wf_inode Hwf). destruct Hok as (_ & [? _] & _). done. Qed.

Lemma grow_file_full t i fl1 :
  match fl1 with [] => true | _ => ino_size i =? FS_MAXFILEBLOCKS end = true →
  exec V fl1 [(t, Upgrade)] (grow_file t i) (Exn "Not enough disk space for this write") V fl1 [].
Proof.
  intros Hfull. apply (exec_free_mutex _ _ _ _ (inl _)). intros d l Hl. unfold free_empty.
  destruct fl1 as [|b fl']; rewrite run_bind; simpl; [|rewrite Hfull];
    apply (run_unlock_throw _ _ _ _ _ [(t, Upgrade)]); lock_side.
Qed.

Lemma grow_file_ok t i b fl' :
  0 ≤ ino_size i < FS_MAXFILEBLOCKS →
  exec V (b :: fl') [(t, Upgrade)] (grow_file t i) (Done (inode_push i b)) V fl' [(t, Upgrade)].
Proof.
  intros Hsz. apply (exec_free_mutex _ _ _ _ (inr _)). intros d l Hl. exists l. split; [|done].
  rewrite run_bind. simpl. rewrite (proj2 (Z.eqb_neq _ _)) by lia. rewrite run_bind. simpl.
  rewrite inode_set_block_ok by done. rewrite <-inode_set_size_push by done. done.
Qed.

Lemma inode_push_at i b :
  inode_ok i → ino_size i < FS_MAXFILEBLOCKS →
  inode_block_at (inode_push i b) (ino_size i) = Ret b.
Proof.
  intros Hok Hsz. pose proof (inode_push_refs b i Hok Hsz) as Hrefs.
  assert (0 ≤ ino_size i) by (destruct Hok as (_ & [? _] & _); done).
  rewrite <-(Z2Nat.id (ino_size i)) by done. apply inode_block_at_ref. rewrite Hrefs.
  rewrite lookup_app_r; rewrite length_inode_refs by (done || lia); [|done].
  by rewrite Nat.sub_diag.
Qed.

(** Overwriting a block, and growing the file by one. *)
Lemma write_file_run t i :
  V !! t = Some (NInode i) → ino_type i = type_file → cmd_block cmd ≤ ino_size i →
  let r := write_file V fl t i (cmd_block cmd) (cmd_data cmd) in
  exec V fl [(t, Upgrade)]
    (let increase_file_size := cmd_block cmd =? ino_size i in
     target_inode ← (if increase_file_size then grow_file t i else Ret i);
     b ← inode_block_at target_inode (cmd_block cmd);
     _ ← (if negb increase_file_size then
            _ ← inode_lock UpgradeToWrite t;
            disk_write b (cmd_data cmd)
          else
            _ ← disk_write b (cmd_data cmd);
            _ ← inode_lock UpgradeToWrite t;
            write_inode t target_inode);
     inode_lock UnlockWrite t)
    (of_sum (res_answer r)) (res_store r) (res_free r) (res_locks r).
Proof.
  intros Ht Hty Hle. pose proof (wf_size _ _ Ht) as Hsz. pose proof (cmd_block_nonneg _ Hcmd).
  unfold write_file. destruct (Z.eqb_spec (cmd_block cmd) (ino_size i)) as [->|Hne]; cbn [negb].
  - destruct (wf_inode Hwf _ _ Ht) as (Hok & _). pose proof (wf_free _ _ Hwf) as Hfree.
    destruct fl as [|b fl']; [by apply exec_bind_exn, grow_file_full|].
    destruct (Z.eqb_spec (ino_size i) FS_MAXFILEBLOCKS) as [Hf|Hf];
      [by apply exec_bind_exn, grow_file_full, Z.eqb_eq|].
    destruct (Hfree b ltac:(by left)) as [Hb HbN].
    eapply exec_bind; [apply grow_file_ok; lia|].
    rewrite inode_push_at, ret_bind by (done || lia).
    eapply exec_bind; [|by apply (exec_last_lock UnlockWrite t _ _ [(t, Exclusive)]), hold_drop_head].
    eapply exec_bind; [apply (exec_write _ _ (NData (cmd_data cmd)));
      [done|by apply cmd_data_len|done]|].
    eapply exec_lock; [done|lock_side|]. apply exec_write_inode; [by eapply wf_range|].
    apply inode_push_ok; [done|lia|]. unfold is_u32, FS_DISKSIZE in *. lia.
  - destruct (file_block_read t i (cmd_block cmd)) as (b & v & -> & Hv & Hat & _); [done..|lia|].
    rewrite ret_bind, Hat, ret_bind.
    eapply exec_bind; [|by apply (exec_last_lock UnlockWrite t _ _ [(t, Exclusive)]), hold_drop_head].
    eapply exec_lock; [done|lock_side|].
    apply (exec_write _ _ (NData _)); [by eapply wf_range|by apply cmd_data_len|done].
Qed.

Lemma handle_write_run :
  implements V fl (handle_write cmd)
    (write_spec V fl (username cmd) cs name (cmd_block cmd) (cmd_data cmd)).
Proof.
  unfold implements, handle_write, write_spec. rewrite Hpath.
  eapply (find_target_run Hwf); [done..|].
  destruct (target_spec V (username cmd) cs name) as [e|t] eqn:Ht; [done|]. intros p _.
  destruct (target_spec_inode _ Ht) as (_ & i & _ & Hi & HVt). rewrite Hi.
  eapply exec_lock; [done|lock_side|]. eapply exec_lock; [done|lock_side|].
  eapply exec_bind; [by apply exec_read_inode|].
  destruct (negb (is_type i type_file) || (ino_size i <? cmd_block cmd)) eqn:Hbad.
  { eapply exec_unlock_throw; lock_side. }
  apply orb_false_iff in Hbad as [Hf%negb_false_iff%is_type_true Hk%Z.ltb_ge].
  rewrite (not_owner_spec Hwf _ t), ret_bind by done.
  destruct (negb (owned_by (username cmd) i)); [eapply exec_unlock_throw; lock_side|].
  by apply write_file_run.
Qed.

End handlers.
