(* ===== verification/FsDirs.v ===== *)
(** * Creating and deleting implement the specification

    [handle_create] and [handle_delete] of [filesys/file_system.cpp], run by
    one thread on a disk that holds a well-formed store. *)
From S2P Require Import Prelude Layout Locks Prog FileSystem FsModel FsStore FsPaths FsRun FsSpec.
From S2P Require Import FsHandlers.
Import Path FileSystem.

Local Open Scope Z_scope.

#[local] Arguments create_scan_entries : simpl never.
#[local] Arguments delete_scan_entries : simpl never.

(** ** What is written *)

Lemma new_entry_ok e nb name :
  direntry_ok e → good_name name → is_u32 nb →
  direntry_ok (new_entry e nb name) ∧ c_str (de_name (new_entry e nb name)) = Some name ∧
  strcpy (de_name e) name = Some (de_name (new_entry e nb name)).
Proof.
  intros [He Hb] (_ & _ & Hnul & Hlen) Hnb.
  destruct (strcpy_fits (de_name e) name ltac:(lia) Hnul) as (a & Ha & Hla & Hca).
  unfold new_entry. rewrite Ha. simpl. split_and!; [split; simpl; [by rewrite Hla|done]|done..].
Qed.

Lemma new_inode_ok stack user ty :
  inode_ok stack → NUL ∉ user → len user ≤ FS_MAXUSERNAME → ty = type_file ∨ ty = type_dir →
  node_ok (NInode (new_inode stack user ty)) ∧ inode_refs (new_inode stack user ty) = [] ∧
  owned_by user (new_inode stack user ty) = true ∧
  strcpy (ino_owner stack) user = Some (ino_owner (new_inode stack user ty)).
Proof.
  intros (Ho & _ & Hbl & Hu) Hnul Hlen Hty.
  destruct (strcpy_fits (ino_owner stack) user ltac:(lia) Hnul) as (a & Ha & Hla & Hca).
  unfold owned_by, new_inode, node_ok, inode_ok. rewrite Ha. simpl.
  rewrite Hca, Hla. split_and!; try done. by rewrite bool_decide_eq_true_2.
Qed.

Lemma set_direntry_ok es j e nb name :
  es !! j = Some e → direntry_ok e → good_name name → is_u32 nb →
  set_direntry es j nb name = Ret (<[j := new_entry e nb name]> es).
Proof.
  intros Hj He Hname Hnb. destruct (new_entry_ok e nb name He Hname Hnb) as (_ & _ & Hcpy).
  unfold set_direntry. rewrite (or_undefined_bind _ _ _ Hj), (or_undefined_bind _ _ _ Hcpy). done.
Qed.

Lemma first_unused_cons e es :
  first_unused (e :: es) = if unused e then Some O else S <$> first_unused es.
Proof.
  unfold first_unused. simpl. destruct (unused e) eqn:He; case_decide; try done.
  by destruct (list_find _ es) as [[]|].
Qed.

(** ** The scans *)

Lemma create_scan_entries_eq p name b tmp rest j slot :
  Forall direntry_ok rest → good_name name →
  create_scan_entries p name b tmp rest j slot =
  match lookup_name name rest with
  | Some _ => _ ← inode_lock UnlockUpgrade p; Throw "Path already exists"
  | None => Ret (match slot with
                 | Some s => Some s
                 | None => (λ k, Slot b (j + k) tmp) <$> first_unused rest
                 end)
  end.
Proof.
  intros Hrest Hname. pose proof Hname as (_ & _ & Hnul & Hlen).
  revert j slot; induction Hrest as [|e rest [He _] _ IH]; intros j slot.
  - unfold create_scan_entries. by destruct slot.
  - change (create_scan_entries p name b tmp (e :: rest) j slot) with
      (if unused e then
         create_scan_entries p name b tmp rest (S j)
           match slot with None => Some (Slot b j tmp) | Some _ => slot end
       else
         same ← or_undefined (strcmp_eq (de_name e) name);
         if (same : bool) then _ ← inode_lock UnlockUpgrade p; Throw "Path already exists"
         else create_scan_entries p name b tmp rest (S j) slot).
    rewrite first_unused_cons. unfold lookup_name. cbn [find]. unfold entry_named at 1.
    destruct (unused e); simpl.
    + rewrite IH. fold (lookup_name name rest). case_match; [done|].
      destruct slot; [done|]. by rewrite Nat.add_0_r.
    + rewrite (or_undefined_bind _ _ _ (strcmp_eq_spec (de_name e) name Hnul ltac:(lia))).
      case_bool_decide; simpl; [done|]. rewrite IH. fold (lookup_name name rest). case_match; [done|].
      destruct slot; [done|]. f_equal. rewrite <-option_fmap_compose.
      destruct (first_unused rest); simpl; [|done]. by rewrite Nat.add_succ_r.
Qed.

Lemma delete_scan_entries_eq name rest j :
  Forall direntry_ok rest → good_name name →
  delete_scan_entries name rest j =
  Ret ((λ x, (de_inode_block x.2, j + x.1)%nat) <$>
         list_find (λ e, entry_named name e = true) rest).
Proof.
  intros Hrest Hname. pose proof Hname as (_ & _ & Hnul & Hlen).
  revert j; induction Hrest as [|e rest [He _] _ IH]; intros j; [done|].
  change (delete_scan_entries name (e :: rest) j) with
    (if unused e then delete_scan_entries name rest (S j)
     else
       same ← or_undefined (strcmp_eq (de_name e) name);
       if (same : bool) then Ret (Some (de_inode_block e, j))
       else delete_scan_entries name rest (S j)).
  simpl. unfold entry_named. destruct (unused e) eqn:Hu; simpl.
  - rewrite IH. f_equal. destruct (list_find _ rest) as [[k e']|]; simpl; [|done].
    by rewrite Nat.add_succ_r.
  - rewrite (or_undefined_bind _ _ _ (strcmp_eq_spec (de_name e) name Hnul ltac:(lia))).
    case_bool_decide; simpl; [by rewrite Nat.add_0_r|].
    rewrite IH. f_equal. destruct (list_find _ rest) as [[k e']|]; simpl; [|done].
    by rewrite Nat.add_succ_r.
Qed.

(** The loop that closes the gap in [blocks]. *)
Lemma shift_blocks_eq i n k :
  (k + n < length (ino_blocks i))%nat → len (ino_blocks i) = FS_MAXFILEBLOCKS →
  shift_blocks i n (Z.of_nat k) =
  Ret (inode_with i (ino_size i)
    (take k (ino_blocks i) ++ take n (drop (S k) (ino_blocks i)) ++ drop (k + n) (ino_blocks i))).
Proof.
  revert i k; induction n as [|n IH]; intros i k Hk Hlen.
  - simpl. rewrite Nat.add_0_r, take_drop. by destruct i.
  - destruct (lookup_lt_is_Some_2 (ino_blocks i) (S k) ltac:(lia)) as [x Hx].
    cbn [shift_blocks]. replace (Z.of_nat k + 1) with (Z.of_nat (S k)) by lia.
    assert (inode_block_at i (Z.of_nat (S k)) = Ret x) as ->.
    { unfold inode_block_at, or_undefined. rewrite (proj2 (Z.ltb_ge _ _)) by lia.
      by rewrite Nat2Z.id, Hx. }
    rewrite ret_bind. unfold inode_set_block. unfold len in Hlen.
    rewrite (proj2 (Z.leb_le _ _)), (proj2 (Z.ltb_lt _ _)) by lia. simpl andb. cbv iota.
    rewrite ret_bind, IH; simpl; rewrite ?length_insert; [|lia|unfold len; by rewrite length_insert].
    rewrite Nat2Z.id. f_equal. unfold inode_with; simpl. f_equal.
    rewrite (take_S_r _ _ x) by (apply list_lookup_insert_eq; lia).
    rewrite take_insert_ge by lia. rewrite drop_insert_lt by lia. rewrite drop_insert_lt by lia.
    rewrite (drop_S _ _ _ Hx). simpl. rewrite <-(assoc_L (++)). simpl.
    by rewrite Nat.add_succ_r.
Qed.

Lemma shift_blocks_drop i k :
  inode_ok i → ino_size i ≤ FS_MAXFILEBLOCKS → (k < Z.to_nat (ino_size i))%nat →
  ∃ i', shift_blocks i (Z.to_nat (ino_size i - 1 - Z.of_nat k)) (Z.of_nat k) = Ret i' ∧
    inode_set_size i' (ino_size i' - 1) = inode_drop i k.
Proof.
  intros (Ho & Hsz & Hbl & Hu) Hle Hk. unfold is_u32, len in *.
  eexists. split; [apply shift_blocks_eq; unfold len; lia|].
  unfold inode_set_size, inode_drop, inode_with; simpl.
  rewrite wrap32_small by (unfold is_u32; lia). f_equal.
  rewrite (assoc_L (++)). f_equal; [|f_equal; lia].
  unfold inode_refs. rewrite delete_take_drop, take_take, skipn_firstn_comm.
  repeat f_equal; lia.
Qed.

Section dirs.
Context {D L : Type} `{DiskSpec D} `{InodeLocksSpec L}.
Abbreviation exec := (exec (D:=D) (L:=L)).
Abbreviation implements := (implements (D:=D) (L:=L)).

Context {V : store} {fl : list Z} (Hwf : fs_wf V fl).

Lemma create_scan_blocks_run p name b i n k slot fl' :
  V !! b = Some (NInode i) → ino_type i = type_dir → good_name name →
  (n + k = Z.to_nat (ino_size i))%nat →
  exec V fl' [(p, Upgrade)] (create_scan_blocks p name i n (Z.of_nat k) slot)
    (match lookup_name name (mjoin (dir_entries V <$> drop k (inode_refs i))) with
     | Some _ => Exn "Path already exists"
     | None => Done (match slot with
                     | Some s => Some s
                     | None => first_slot V (drop k (inode_refs i))
                     end)
     end) V fl'
    (match lookup_name name (mjoin (dir_entries V <$> drop k (inode_refs i))) with
     | Some _ => []
     | None => [(p, Upgrade)]
     end).
Proof.
  intros Hb Ht Hname. pose proof (wf_refs_length Hwf _ _ Hb) as Hlen.
  revert k slot; induction n as [|n IH]; intros k slot Hk.
  - rewrite drop_ge by lia. simpl. destruct slot; apply exec_ret.
  - destruct (lookup_lt_is_Some_2 (inode_refs i) k ltac:(lia)) as [db Hdb].
    destruct (wf_dir_ref Hwf b i db Hb Ht ltac:(by eapply list_elem_of_lookup_2)) as [es Hes].
    cbn [create_scan_blocks]. rewrite (inode_block_at_ref _ _ _ Hdb), ret_bind.
    eapply exec_bind; [by apply exec_read_direntries|].
    rewrite create_scan_entries_eq by (done || apply (wf_node _ _ Hwf _ _ Hes)).
    rewrite (drop_S _ _ _ Hdb), fmap_cons. simpl. rewrite lookup_name_app.
    assert (dir_entries V db = es) as -> by (unfold dir_entries; by rewrite Hes).
    destruct (lookup_name name es) as [c|] eqn:Hc.
    + apply exec_bind_exn. eapply exec_unlock_throw; lock_side.
    + rewrite ret_bind. replace (Z.of_nat k + 1) with (Z.of_nat (S k)) by lia.
      assert (match slot with Some s => Some s
              | None => match first_unused es with
                        | Some j => Some (Slot db j es)
                        | None => first_slot V (drop (S k) (inode_refs i)) end end =
        match (match slot with Some s => Some s
               | None => (λ k0, Slot db (0 + k0) es) <$> first_unused es end) with
        | Some s => Some s | None => first_slot V (drop (S k) (inode_refs i)) end) as ->
        by (destruct slot; [done|]; by destruct (first_unused es)).
      apply IH. lia.
Qed.

(** The free list, with and without blocks on it. *)
Lemma pop_free_run p fl' :
  exec V fl' [(p, Upgrade)] pop_free_or_throw
    (match fl' with [] => Exn "Not enough disk space for create" | b :: _ => Done b end)
    V (match fl' with [] => [] | _ :: fl'' => fl'' end) [(p, Upgrade)].
Proof.
  destruct fl' as [|b fl''].
  - apply (exec_free_mutex _ _ _ _ (inl _)). intros d l Hl. by exists l.
  - apply (exec_free_mutex _ _ _ _ (inr _)). intros d l Hl. by exists l.
Qed.

Lemma grow_directory_full p i fl' :
  match fl' with [] => true | _ => ino_size i =? FS_MAXFILEBLOCKS end = true →
  exec V fl' [(p, Upgrade)] (grow_directory p i) (Exn "Not enough disk space for create") V fl' [].
Proof.
  intros Hfull. apply (exec_free_mutex _ _ _ _ (inl _)). intros d l Hl. unfold free_empty.
  destruct fl' as [|b fl'']; rewrite run_bind; simpl; [|rewrite Hfull];
    apply (run_unlock_throw _ _ _ _ _ [(p, Upgrade)]); lock_side.
Qed.

Lemma grow_directory_ok p i b fl' :
  0 ≤ ino_size i < FS_MAXFILEBLOCKS →
  exec V (b :: fl') [(p, Upgrade)] (grow_directory p i)
    (Done (b, inode_with i (ino_size i) (<[Z.to_nat (ino_size i) := b]> (ino_blocks i))))
    V fl' [(p, Upgrade)].
Proof.
  intros Hsz. apply (exec_free_mutex _ _ _ _ (inr _)). intros d l Hl. exists l. split; [|done].
  rewrite run_bind. simpl. rewrite (proj2 (Z.eqb_neq _ _)) by lia. rewrite run_bind. simpl.
  by rewrite inode_set_block_ok by done.
Qed.

Context {cmd : Command} {cs : list bytes} {name : bytes}.
Hypotheses (Hcmd : cmd_ok cmd) (Hpath : pathname cmd = path_of (cs ++ [name]))
  (Hcs : Forall good_name cs) (Hname : good_name name).

(** ** The parent directory *)

Lemma get_parent_run fl' :
  let r := walk_spec V (username cmd) ROOT_INODE cs in
  exec V fl' [] (get_parent_inode_and_upgradeable_lock cmd (path_of cs))
    (of_sum r) V fl' (held_by r (λ p, [(p, Upgrade)])).
Proof.
  destruct cs as [|g gs _] using rev_ind; simpl.
  { eapply exec_lock; [done|lock_side|apply exec_ret]. }
  apply Forall_app in Hcs as [Hgs [Hg _]%Forall_cons].
  unfold get_parent_inode_and_upgradeable_lock.
  destruct (path_of (gs ++ [g])) as [|x xs] eqn:Hx; [by apply path_of_nil, app_nil in Hx as []|].
  rewrite <-Hx. eapply (find_target_run Hwf); [done..|].
  unfold target_spec. rewrite walk_spec_snoc.
  destruct (sum_bind _ _) as [e|t] eqn:Ht; simpl; [done|]. intros q _.
  eapply exec_lock; [done|lock_side|]. eapply exec_lock; [done|lock_side|apply exec_ret].
Qed.

Lemma validate_parent_eq p i :
  V !! p = Some (NInode i) →
  validate_parent_inode cmd (path_of cs) i p =
  if match cs with
     | [] => false
     | _ => negb (is_type i type_dir) || negb (owned_by (username cmd) i)
     end
  then _ ← inode_lock UnlockUpgrade p;
       Throw "Expected a directory, but got a file or user is not owner lol"
  else Ret ().
Proof.
  intros Hi. unfold validate_parent_inode. destruct cs as [|c cs']; [done|]. simpl.
  destruct (is_type i type_dir); simpl; [|done]. by rewrite (not_owner_spec Hwf _ p), ret_bind.
Qed.

(** Every handler that changes a directory starts like this. *)
Lemma open_parent_run {A} (f : Z → fs_inode → prog A) o V' fl' h' :
  match parent_spec V (username cmd) cs with
  | inl e => o = Exn e ∧ V' = V ∧ fl' = fl ∧ h' = []
  | inr (p, i) =>
      V !! p = Some (NInode i) → ino_type i = type_dir →
      walk_spec V (username cmd) ROOT_INODE cs = inr p →
      exec V fl [(p, Upgrade)] (f p i) o V' fl' h'
  end →
  exec V fl []
    (p ← get_parent_inode_and_upgradeable_lock cmd (path_of cs);
     i ← read_inode p;
     _ ← validate_parent_inode cmd (path_of cs) i p;
     f p i) o V' fl' h'.
Proof.
  intros Hrest. pose proof (get_parent_run fl) as Hp. unfold parent_spec in Hrest.
  destruct (walk_spec V (username cmd) ROOT_INODE cs) as [e|p] eqn:Hw; simpl in Hp, Hrest.
  { destruct Hrest as (-> & -> & -> & ->). by apply exec_bind_exn. }
  eapply exec_bind; [exact Hp|]. destruct (walk_spec_inode Hwf _ _ _ Hw) as [i Hi].
  unfold inode_at in Hrest. rewrite Hi in Hrest.
  eapply exec_bind; [by apply exec_read_inode|].
  rewrite validate_parent_eq by done.
  destruct (match cs with [] => false | _ => _ end) eqn:Hbad.
  { destruct Hrest as (-> & -> & -> & ->). apply exec_bind_exn. eapply exec_unlock_throw; lock_side. }
  rewrite ret_bind. apply Hrest; [done| |done].
  destruct cs as [|c cs'].
  - simpl in Hw. injection Hw as <-. destruct (wf_root _ _ Hwf) as (i' & Hi' & ?).
    change 0 with ROOT_INODE in Hi'. congruence.
  - apply orb_false_iff in Hbad as [Hd _]. by apply negb_false_iff, is_type_true in Hd.
Qed.

(** ** Create *)

Section create.
Context {stack : fs_inode} (Hstack : inode_ok stack)
  (Htype : cmd_type cmd = type_file ∨ cmd_type cmd = type_dir).
Abbreviation ni := (new_inode stack (username cmd) (cmd_type cmd)).

Lemma make_inode_run : make_inode stack cmd = Ret ni.
Proof.
  destruct (new_inode_ok stack (username cmd) (cmd_type cmd) Hstack (cmd_user_nul _ Hcmd)
    (cmd_user_len _ Hcmd) Htype) as (_ & _ & _ & Hcpy).
  unfold make_inode. by rewrite (or_undefined_bind _ _ _ Hcpy).
Qed.

Lemma free_u32 b fl' : fs_wf V fl' → b ∈ fl' → is_u32 b.
Proof. intros Hwf' Hb. destruct (wf_free _ _ Hwf' _ Hb). unfold is_u32, FS_DISKSIZE in *. lia. Qed.

Lemma ni_ok : node_ok (NInode ni) ∧ inode_refs ni = [].
Proof.
  destruct (new_inode_ok stack (username cmd) (cmd_type cmd) Hstack (cmd_user_nul _ Hcmd)
    (cmd_user_len _ Hcmd) Htype) as (? & ? & _). done.
Qed.

(** The second half of [handle_create], once the name is known to be free. *)
Lemma create_in_run p i s nb fl' :
  fl = nb :: fl' → V !! p = Some (NInode i) → ino_type i = type_dir →
  lookup_name name (listing V i) = None → s = first_slot V (inode_refs i) →
  let r := create_in V fl stack (username cmd) (cmd_type cmd) p i name in
  exec V fl' [(p, Upgrade)]
    (let entries := match s with Some s => slot_entries s | None => zero_direntries end in
     let location := match s with Some s => slot_index s | None => O end in
     updated ← set_direntry entries location nb name;
     new_inode ← make_inode stack cmd;
     match s with
     | Some s =>
         _ ← write_inode nb new_inode;
         _ ← inode_lock UpgradeToWrite p;
         _ ← write_direntries (slot_block s) updated;
         inode_lock UnlockWrite p
     | None =>
         '(new_direntry_block, parent_inode) ← grow_directory p i;
         _ ← write_inode nb new_inode;
         let parent_inode := inode_set_size parent_inode (ino_size parent_inode + 1) in
         _ ← write_direntries new_direntry_block updated;
         _ ← inode_lock UpgradeToWrite p;
         _ ← write_inode p parent_inode;
         inode_lock UnlockWrite p
     end) (of_sum (res_answer r)) (res_store r) (res_free r) (res_locks r).
Proof.
  intros Hfl Hp Ht Hnone Hs. unfold create_in. rewrite Hnone, Hfl, <-Hs.
  destruct ni_ok as [Hni _]. rewrite make_inode_run.
  pose proof (free_u32 nb fl Hwf ltac:(rewrite Hfl; by left)) as Hnb.
  destruct (wf_free _ _ Hwf nb ltac:(rewrite Hfl; by left)) as [Hnbr _].
  pose proof (wf_range _ _ Hwf _ _ Hp) as Hpr.
  destruct s as [s|]; cbn zeta.
  - symmetry in Hs. apply first_slot_Some in Hs as (Hin & Hes & e & He & _).
    destruct (wf_dir_ref Hwf _ _ _ Hp Ht Hin) as [es Hb].
    unfold dir_entries in Hes. rewrite Hb in Hes. rewrite He. cbn [default from_option].
    pose proof (wf_node _ _ Hwf _ _ Hb) as [Hlen Hall]. rewrite <-Hes in Hlen, Hall.
    pose proof (Forall_lookup_1 _ _ _ _ Hall He) as Heok.
    destruct (new_entry_ok e nb name Heok Hname Hnb) as (Hok & _).
    rewrite (set_direntry_ok _ _ _ _ _ He), !ret_bind by done.
    eapply exec_bind; [by apply exec_write_inode; [|apply Hni]|].
    eapply exec_lock; [done|lock_side|].
    eapply exec_bind; [|by apply exec_last_lock; [|apply hold_drop_head]].
    apply exec_write_direntries; [by eapply wf_range|].
    split; [unfold len; by rewrite length_insert|by apply Forall_insert].
  - assert (Forall direntry_ok zero_direntries) as Hz by apply zero_direntries_ok.
    assert (direntry_ok zero_direntry) as Hz0 by done.
    destruct (new_entry_ok zero_direntry nb name Hz0 Hname Hnb) as (Hok & _).
    rewrite (set_direntry_ok zero_direntries 0 zero_direntry), !ret_bind by done.
    pose proof (wf_free _ _ Hwf) as Hfree. rewrite Hfl in Hfree.
    destruct (wf_inode Hwf _ _ Hp) as (Hiok & Hle & _).
    assert (0 ≤ ino_size i) by (destruct Hiok as (_ & [? _] & _); done).
    destruct fl' as [|b fl'']; [by apply exec_bind_exn, grow_directory_full|].
    destruct (Z.eqb_spec (ino_size i) FS_MAXFILEBLOCKS) as [Hf|Hf];
      [by apply exec_bind_exn, grow_directory_full, Z.eqb_eq|].
    destruct (Hfree b ltac:(by right; left)) as [Hbr _].
    eapply exec_bind; [apply grow_directory_ok; lia|]. cbn iota beta zeta.
    eapply exec_bind; [by apply exec_write_inode; [|apply Hni]|].
    eapply exec_bind; [apply exec_write_direntries; [done|]|].
    { split; [unfold len; by rewrite length_insert|by apply Forall_insert]. }
    eapply exec_lock; [done|lock_side|].
    eapply exec_bind; [|by apply exec_last_lock; [|apply hold_drop_head]].
    change (ino_size (inode_with i (ino_size i) _)) with (ino_size i).
    rewrite inode_set_size_push by lia. apply exec_write_inode; [done|].
    apply inode_push_ok; [done|lia|]. unfold is_u32, FS_DISKSIZE in *. lia.
Qed.

Lemma handle_create_run :
  implements V fl (handle_create stack cmd)
    (create_spec V fl stack (username cmd) cs name (cmd_type cmd)).
Proof.
  unfold handle_create, create_spec, FsHandlers.implements. rewrite Hpath.
  rewrite get_parent_dir_path, get_target_path, !ret_bind by done.
  eapply open_parent_run.
  destruct (parent_spec V (username cmd) cs) as [e|[p i]]; [done|]. intros Hp Ht _.
  pose proof (create_scan_blocks_run p name p i (Z.to_nat (ino_size i)) 0 None fl
    Hp Ht Hname ltac:(lia)) as Hscan.
  rewrite drop_0 in Hscan. fold (listing V i) in Hscan.
  pose proof (create_in_run p i (first_slot V (inode_refs i))) as Hrest.
  unfold create_in in *.
  destruct (lookup_name name (listing V i)) as [c|]; [by apply exec_bind_exn|].
  eapply exec_bind; [exact Hscan|].
  destruct fl as [|nb fl'] eqn:Hfl.
  - apply exec_bind_exn. apply (pop_free_run p []).
  - eapply exec_bind; [apply (pop_free_run p (nb :: fl'))|]. by apply Hrest.
Qed.

End create.

(** ** Delete *)

Lemma delete_scan_blocks_run p i n k fl' h :
  V !! p = Some (NInode i) → ino_type i = type_dir →
  (n + k = Z.to_nat (ino_size i))%nat →
  exec V fl' h (delete_scan_blocks name i n (Z.of_nat k))
    (Done (find_entry V name (drop k (inode_refs i)) (Z.of_nat k))) V fl' h.
Proof.
  intros Hp Ht. pose proof (wf_refs_length Hwf _ _ Hp) as Hlen.
  revert k; induction n as [|n IH]; intros k Hk.
  - rewrite drop_ge by lia. apply exec_ret.
  - destruct (lookup_lt_is_Some_2 (inode_refs i) k ltac:(lia)) as [db Hdb].
    destruct (wf_dir_ref Hwf p i db Hp Ht ltac:(by eapply list_elem_of_lookup_2)) as [es Hes].
    cbn [delete_scan_blocks]. rewrite (inode_block_at_ref _ _ _ Hdb), ret_bind.
    eapply exec_bind; [by apply exec_read_direntries|].
    rewrite delete_scan_entries_eq, ret_bind by (done || apply (wf_node _ _ Hwf _ _ Hes)).
    rewrite (drop_S _ _ _ Hdb). cbn [find_entry].
    assert (dir_entries V db = es) as -> by (unfold dir_entries; by rewrite Hes).
    destruct (list_find _ es) as [[j e]|]; simpl; [apply exec_ret|].
    replace (Z.of_nat k + 1) with (Z.of_nat (S k)) by lia. apply IH. lia.
Qed.

Lemma free_file_blocks_run ci n k V' fl' h :
  length (inode_refs ci) = Z.to_nat (ino_size ci) → (n + k = Z.to_nat (ino_size ci))%nat →
  exec V' fl' h (free_file_blocks ci n (Z.of_nat k)) (Done ()) V' (fl' ++ drop k (inode_refs ci)) h.
Proof.
  intros Hlen. revert k fl'; induction n as [|n IH]; intros k fl' Hk.
  - rewrite drop_ge, app_nil_r by lia. apply exec_ret.
  - destruct (lookup_lt_is_Some_2 (inode_refs ci) k ltac:(lia)) as [b Hb].
    cbn [free_file_blocks]. rewrite (inode_block_at_ref _ _ _ Hb), ret_bind.
    eapply exec_bind; [apply exec_push_free|]. replace (Z.of_nat k + 1) with (Z.of_nat (S k)) by lia.
    rewrite (drop_S _ _ _ Hb), (cons_middle b fl' (drop _ _)), (assoc_L (++)). apply IH. lia.
Qed.

Lemma remove_entry_run p i c k b es j fl' h :
  V !! p = Some (NInode i) → inode_refs i !! k = Some b → V !! b = Some (NDir es) →
  exec V fl' h (remove_entry p i (EntryPos c (Z.of_nat k) j es)) (Done ())
    (node_unlink V p i k b es j)
    (fl' ++ (if is_block_empty (<[j := zero_direntry]> es) then [b] else [])) h.
Proof.
  intros Hp Hk Hb. destruct (wf_inode Hwf _ _ Hp) as (Hok & Hle & _).
  pose proof (lookup_lt_Some _ _ _ Hk) as Hlt. rewrite (wf_refs_length Hwf _ _ Hp) in Hlt.
  unfold remove_entry, node_unlink. cbn [pos_entry pos_entries pos_block].
  destruct (is_block_empty _).
  - rewrite (inode_block_at_ref _ _ _ Hk), ret_bind.
    destruct (shift_blocks_drop i k Hok Hle Hlt) as (i' & -> & Hi'). rewrite ret_bind.
    rewrite Hi'. apply exec_forget. eapply exec_bind; [|apply exec_push_free].
    apply exec_write_inode; [by eapply wf_range|]. by apply inode_drop_ok.
  - rewrite app_nil_r, (inode_block_at_ref _ _ _ Hk), ret_bind.
    apply exec_write_direntries; [by eapply wf_range|].
    pose proof (wf_node _ _ Hwf _ _ Hb) as [Hlen Hall].
    split; [unfold len; by rewrite length_insert|by apply Forall_insert].
Qed.

(** What [check_child] and the rest of [handle_delete] do under the writer
    lock of the parent. *)
Lemma delete_in_run p i q :
  V !! p = Some (NInode i) → ino_type i = type_dir →
  walk_spec V (username cmd) ROOT_INODE cs = inr p →
  find_entry V name (inode_refs i) 0 = Some q →
  let r := delete_in V fl (username cmd) p i q in
  exec V fl [(p, Upgrade)]
    (_ ← inode_lock UpgradeToWrite p;
     _ ← inode_lock LockUpgrade (pos_child q);
     child_inode ← read_inode (pos_child q);
     _ ← check_child cmd p (pos_child q) child_inode;
     _ ← remove_entry p i q;
     _ ← inode_lock UpgradeToWrite (pos_child q);
     _ ← inode_lock UnlockWrite p;
     _ ← push_free (pos_child q);
     _ ← (if is_type child_inode type_file
          then free_file_blocks child_inode (Z.to_nat (ino_size child_inode)) 0
          else Ret ());
     inode_lock UnlockWrite (pos_child q))
    (of_sum (res_answer r)) (res_store r) (res_free r) (res_locks r).
Proof.
  intros Hp Ht Hw Hq.
  assert (child_of V p name (pos_child q)) as Hchild.
  { exists i. split_and!; [done..|]. unfold listing. by rewrite (find_entry_lookup _ _ _ 0), Hq. }
  destruct (find_entry_Some _ _ _ _ _ (Z.le_refl 0) Hq) as (k & b & e & Hk & Hb & Hes & He & Hu & Hc & Hn).
  destruct q as [c kz j es]. cbn [pos_child pos_block pos_entry pos_entries] in *. rewrite Z.add_0_l in Hk.
  subst kz. destruct (wf_dir_ref Hwf _ _ _ Hp Ht ltac:(by eapply list_elem_of_lookup_2)) as [es' Hdir].
  unfold dir_entries in Hes. rewrite Hdir in Hes. subst es'.
  destruct (child_of_inode Hwf _ _ _ Hchild) as [_ [ci Hci]].
  assert (c ≠ p) as Hcp by (intros ->; by eapply walk_spec_acyclic).
  unfold delete_in, inode_at. cbn [pos_child pos_block pos_entry pos_entries].
  rewrite Hci, Nat2Z.id, Hb.
  eapply exec_lock; [done|lock_side|]. eapply exec_lock; [done|lock_side|].
  eapply exec_bind; [by apply exec_read_inode|].
  unfold check_child. rewrite (not_owner_spec Hwf _ c), ret_bind by done.
  destruct (negb (owned_by (username cmd) ci)).
  { apply exec_bind_exn. eapply exec_lock; [done|lock_side|]. eapply exec_unlock_throw; lock_side. }
  destruct (is_type ci type_dir && negb (ino_size ci =? 0)).
  { apply exec_bind_exn. eapply exec_lock; [done|lock_side|]. eapply exec_unlock_throw; lock_side. }
  rewrite ret_bind. eapply exec_bind; [by apply remove_entry_run|].
  eapply exec_lock; [done|lock_side|]. eapply exec_lock; [done|lock_side|].
  eapply exec_bind; [apply exec_push_free|]. cbn [of_sum res_answer res_store res_free res_locks].
  unfold node_delete, freed_blocks, child_blocks. apply exec_forget.
  eapply exec_bind; [|by apply exec_last_lock; [|apply hold_drop_head]].
  rewrite (cons_middle c _ (if is_type ci type_file then _ else _)), !(assoc_L (++)).
  destruct (is_type ci type_file); [|rewrite app_nil_r; apply exec_ret].
  pose proof (wf_refs_length Hwf _ _ Hci) as Hlen.
  apply (free_file_blocks_run ci _ 0); [done|lia].
Qed.

Lemma path_not_root : bool_decide (until_nul (pathname cmd) = [slash]) = false.
Proof.
  rewrite Hpath, until_nul_id.
  - apply bool_decide_eq_false_2. rewrite path_of_snoc. intros Heq%(f_equal length).
    rewrite length_app in Heq. destruct Hname as (Hne & _). destruct name; [done|]. simpl in Heq. lia.
  - apply path_of_no_nul, Forall_app. split; [done|by apply Forall_singleton].
Qed.

Lemma handle_delete_run :
  implements V fl (handle_delete cmd) (delete_spec V fl (username cmd) cs name).
Proof.
  unfold handle_delete, delete_spec, FsHandlers.implements. rewrite path_not_root, Hpath.
  rewrite get_parent_dir_path, get_target_path, !ret_bind by done.
  eapply open_parent_run.
  destruct (parent_spec V (username cmd) cs) as [e|[p i]]; [done|]. intros Hp Ht Hw.
  pose proof (delete_scan_blocks_run p i (Z.to_nat (ino_size i)) 0 fl [(p, Upgrade)]
    Hp Ht ltac:(lia)) as Hscan. rewrite drop_0 in Hscan.
  eapply exec_bind; [exact Hscan|]. change (Z.of_nat 0) with 0.
  destruct (find_entry V name (inode_refs i) 0) as [q|] eqn:Hq; [by apply delete_in_run|].
  eapply exec_unlock_throw; lock_side.
Qed.

End dirs.
