(* ===== verification/FsInvariant.v ===== *)
(** * Every request keeps the store well formed

    The invariant [fs_wf] holds of the store and free list that [write_spec],
    [create_spec] and [delete_spec] leave, whatever the request and whatever
    the answer. *)
From S2P Require Import Prelude Layout Locks FileSystem FsModel FsStore FsPaths FsSpec FsDirs.
Import FileSystem.

Local Open Scope Z_scope.

Definition res_wf (r : fs_result) : Prop := fs_wf (res_store r) (res_free r).

Lemma node_append_wf V t i b fl v :
  fs_wf V (b :: fl) → V !! t = Some (NInode i) → ino_type i = type_file →
  ino_size i < FS_MAXFILEBLOCKS → len v = FS_BLOCKSIZE → fs_wf (node_append V t i b v) fl.
Proof.
  intros Hwf Ht Hty Hsz Hv.
  pose proof (wf_free _ _ Hwf b ltac:(by left)) as [_ HbN].
  pose proof (fs_wf_add _ _ _ (NData v) Hwf Hv I) as Hwf1.
  unfold node_append. apply (fs_wf_push Hwf1 t i b (NData v)); [|done|apply lookup_insert_eq|done|..].
  - rewrite lookup_insert_ne; [done|]. congruence.
  - by apply (wf_free_not_root Hwf); left.
  - apply unreferenced_insert; [done|]. apply (wf_free_unreferenced Hwf). by left.
  - rewrite (proj2 (is_type_true _ _) Hty). eauto.
Qed.

Section invariant.
Context {V : store} {fl : list Z} (Hwf : fs_wf V fl).

Lemma inode_at_Some b i : inode_at V b = Some i ↔ V !! b = Some (NInode i).
Proof. unfold inode_at. destruct (V !! b) as [[]|]; naive_solver. Qed.

Lemma failed_wf e : res_wf (failed V fl e).
Proof. exact Hwf. Qed.

(** ** Write *)

Lemma write_spec_wf user cs name k v :
  len v = FS_BLOCKSIZE → res_wf (write_spec V fl user cs name k v).
Proof.
  intros Hv. unfold write_spec. destruct (target_spec V user cs name) as [e|t]; [apply failed_wf|].
  destruct (inode_at V t) as [i|] eqn:Hi; [|apply failed_wf]. apply inode_at_Some in Hi.
  destruct (negb (is_type i type_file) || _) eqn:Hbad; [apply failed_wf|].
  destruct (negb (owned_by user i)); [apply failed_wf|].
  apply orb_false_iff in Hbad as [Hf%negb_false_iff%is_type_true _].
  unfold write_file. destruct (k =? ino_size i).
  - destruct fl as [|b fl'] eqn:Hfl; [exact Hwf|].
    destruct (Z.eqb_spec (ino_size i) FS_MAXFILEBLOCKS); [exact Hwf|].
    destruct (wf_inode Hwf _ _ Hi) as (_ & Hle & _). eapply node_append_wf; eauto. lia.
  - destruct (inode_refs i !! Z.to_nat k) as [b|] eqn:Hb; [|apply failed_wf].
    destruct (wf_file_ref Hwf _ _ b Hi Hf) as [v0 Hv0]; [by eapply list_elem_of_lookup_2|].
    by eapply fs_wf_write_data.
Qed.

(** ** Create *)

Lemma parent_spec_inode user cs p i :
  parent_spec V user cs = inr (p, i) →
  walk_spec V user ROOT_INODE cs = inr p ∧ V !! p = Some (NInode i) ∧ ino_type i = type_dir.
Proof.
  unfold parent_spec. destruct (walk_spec V user ROOT_INODE cs) as [e|q] eqn:Hw; [done|]. simpl.
  destruct (inode_at V q) as [i'|] eqn:Hi; [|done]. apply inode_at_Some in Hi.
  destruct (match cs with [] => false | _ => _ end) eqn:Hbad; [done|]. intros [= <- <-].
  split_and!; [done..|]. destruct cs as [|c cs'].
  - simpl in Hw. injection Hw as <-. destruct (wf_root _ _ Hwf) as (i0 & Hi0 & ?).
    change ROOT_INODE with 0 in Hi. congruence.
  - apply orb_false_iff in Hbad as [Hd _]. by apply negb_false_iff, is_type_true in Hd.
Qed.

Lemma create_spec_wf stack user cs name ty :
  inode_ok stack → NUL ∉ user → len user ≤ FS_MAXUSERNAME → ty = type_file ∨ ty = type_dir →
  good_name name → res_wf (create_spec V fl stack user cs name ty).
Proof.
  intros Hst Hnul Hlen Hty Hname.
  destruct (new_inode_ok stack user ty Hst Hnul Hlen Hty) as (Hni & Hrefs & _).
  unfold create_spec. destruct (parent_spec V user cs) as [e|[p i]] eqn:Hp; [apply failed_wf|].
  apply parent_spec_inode in Hp as (_ & Hp & Hd). unfold create_in.
  destruct (lookup_name name (listing V i)) eqn:Hl; [apply failed_wf|].
  apply lookup_name_None in Hl.
  destruct fl as [|nb fl'] eqn:Hfl; [exact Hwf|].
  pose proof (free_u32 nb _ Hwf ltac:(by left)) as Hnb.
  destruct (first_slot V (inode_refs i)) as [s|] eqn:Hs.
  - apply first_slot_Some in Hs as (Hin & Hes & e & He & Hu). rewrite He. simpl.
    destruct (wf_dir_ref Hwf _ _ _ Hp Hd Hin) as [es Hb]. unfold dir_entries in Hes. rewrite Hb in Hes.
    pose proof (wf_node _ _ Hwf _ _ Hb) as [_ Hall]. rewrite <-Hes in Hall.
    destruct (new_entry_ok e nb name (Forall_lookup_1 _ _ _ _ Hall He) Hname Hnb) as (Hok & Hn & _).
    unfold res_wf; simpl. eapply fs_wf_node_create; eauto; [by rewrite Hes|by rewrite Hn].
  - destruct fl' as [|b fl'']; [by eapply fs_wf_free_drop|].
    destruct (Z.eqb_spec (ino_size i) FS_MAXFILEBLOCKS); [by eapply fs_wf_free_drop|].
    destruct (wf_inode Hwf _ _ Hp) as (_ & Hle & _).
    destruct (new_entry_ok zero_direntry nb name ltac:(done) Hname Hnb) as (Hok & Hn & _).
    unfold res_wf; simpl. eapply fs_wf_node_create_grow; eauto; [lia|by rewrite Hn].
Qed.

(** ** Delete *)

Lemma delete_spec_wf user cs name : res_wf (delete_spec V fl user cs name).
Proof.
  unfold delete_spec. destruct (parent_spec V user cs) as [e|[p i]] eqn:Hp; [apply failed_wf|].
  apply parent_spec_inode in Hp as (Hw & Hp & Hd).
  destruct (find_entry V name (inode_refs i) 0) as [q|] eqn:Hq; [|apply failed_wf].
  assert (child_of V p name (pos_child q)) as Hchild.
  { exists i. split_and!; [done..|]. unfold listing. by rewrite (find_entry_lookup _ _ _ 0), Hq. }
  destruct (find_entry_Some _ _ _ _ _ (Z.le_refl 0) Hq) as (k & b & e & Hk & Hb & Hes & He & Hu & Hc & Hn).
  rewrite Z.add_0_l in Hk. unfold delete_in. rewrite Hk, Nat2Z.id, Hb.
  destruct (wf_dir_ref Hwf _ _ _ Hp Hd ltac:(by eapply list_elem_of_lookup_2)) as [es Hdir].
  unfold dir_entries in Hes. rewrite Hdir in Hes.
  destruct (inode_at V (pos_child q)) as [ci|] eqn:Hci; [|apply failed_wf].
  apply inode_at_Some in Hci.
  destruct (negb (owned_by user ci)); [apply failed_wf|].
  destruct (is_type ci type_dir && _); [apply failed_wf|].
  unfold res_wf; simpl. rewrite <-Hc in *. rewrite Hes in *.
  eapply (fs_wf_node_delete Hwf); eauto. intros Heq. rewrite Heq in Hchild.
  by eapply walk_spec_acyclic.
Qed.

End invariant.
