(* ===== verification/FsTree.v ===== *)
(** * The file system as a tree of names

    The outermost specification: a file system is a partial function from
    paths (lists of components) to files with their contents and directories.
    [tree V] is the tree a store holds; the requests of [FsSpec] are the
    textbook operations on it: a write replaces or appends one block of one
    file, a create adds one path, a delete removes one, and nothing else
    changes. *)
From S2P Require Import Prelude Layout Locks FileSystem FsModel FsStore FsPaths FsSpec FsDirs.
From S2P Require Import FsInvariant.
Import FileSystem.

Local Open Scope Z_scope.

Inductive entity :=
| EFile (owner : bytes) (data : list bytes)
| EDir (owner : bytes).

Definition entity_owner (e : entity) : bytes :=
  match e with
  | EFile o _ => o
  | EDir o => o
  end.

Abbreviation fs_tree := (list bytes → option entity).

(** ** The tree of a store *)

Definition child (V : store) (b : Z) (c : bytes) : option Z :=
  match inode_at V b with
  | Some i => if is_type i type_dir then lookup_name c (listing V i) else None
  | None => None
  end.

Fixpoint resolve (V : store) (b : Z) (cs : list bytes) : option Z :=
  match cs with
  | [] => Some b
  | c :: cs' => child V b c ≫= λ b', resolve V b' cs'
  end.

Definition data_at (V : store) (b : Z) : bytes :=
  match V !! b with
  | Some (NData v) => v
  | _ => []
  end.

Definition owner_name (i : fs_inode) : bytes := default [] (c_str (ino_owner i)).

Definition entity_of (V : store) (b : Z) : option entity :=
  (λ i, if is_type i type_file then EFile (owner_name i) (data_at V <$> inode_refs i)
        else EDir (owner_name i)) <$> inode_at V b.

Definition tree (V : store) : fs_tree := λ cs, resolve V ROOT_INODE cs ≫= entity_of V.

Definition update (T : fs_tree) (path : list bytes) (e : option entity) : fs_tree :=
  λ cs, if decide (cs = path) then e else T cs.

(** ** Operations on trees *)

(** Following [cs] from the directory at [ps]. *)
Fixpoint tree_walk (T : fs_tree) (user : bytes) (ps cs : list bytes) : string + unit :=
  match cs with
  | [] => inr ()
  | c :: cs' =>
      match T ps with
      | Some e =>
          if negb (bool_decide (ps = [])) && negb (bool_decide (entity_owner e = user))
          then inl "User is not owner of this dir"%string
          else match e with
               | EFile _ _ => inl "Expected a directory, but got a file"%string
               | EDir _ =>
                   match T (ps ++ [c]) with
                   | Some _ => tree_walk T user (ps ++ [c]) cs'
                   | None => inl "Directory not found"%string
                   end
               end
      | None => inl ""%string
      end
  end.

Definition tree_read (T : fs_tree) (user : bytes) (path : list bytes) (k : Z) : string + bytes :=
  sum_bind (tree_walk T user [] path) (λ _,
    match T path with
    | Some (EFile o data) =>
        if len data <=? k then inl "Provided file is not a valid file"%string
        else if bool_decide (o = user) then inr (nth (Z.to_nat k) data [])
        else inl "User is not owner of file"%string
    | _ => inl "Provided file is not a valid file"%string
    end).

(** The contents of a file after block [k] was written: replaced, or added. *)
Definition write_block (data : list bytes) (k : Z) (v : bytes) : list bytes :=
  if k =? len data then data ++ [v] else <[Z.to_nat k := v]> data.

Definition tree_write (T : fs_tree) (user : bytes) (path : list bytes) (k : Z) (v : bytes)
    : string + fs_tree :=
  sum_bind (tree_walk T user [] path) (λ _,
    match T path with
    | Some (EFile o data) =>
        if len data <? k then inl "Provided block is not writable"%string
        else if bool_decide (o = user) then inr (update T path (Some (EFile o (write_block data k v))))
        else inl "User is not owner of file"%string
    | _ => inl "Provided block is not writable"%string
    end).

(** The checks on the directory that is changed. *)
Definition tree_parent (T : fs_tree) (user : bytes) (cs : list bytes) : string + unit :=
  sum_bind (tree_walk T user [] cs) (λ _,
    if match cs, T cs with
       | [], _ => false
       | _, Some (EDir o) => negb (bool_decide (o = user))
       | _, _ => true
       end
    then inl "Expected a directory, but got a file or user is not owner lol"%string
    else inr ()).

Definition new_entity (user : bytes) (ty : ascii) : entity :=
  if Ascii.eqb ty type_file then EFile user [] else EDir user.

Definition tree_create (T : fs_tree) (user : bytes) (cs : list bytes) (name : bytes) (ty : ascii)
    : string + fs_tree :=
  sum_bind (tree_parent T user cs) (λ _,
    match T (cs ++ [name]) with
    | Some _ => inl "Path already exists"%string
    | None => inr (update T (cs ++ [name]) (Some (new_entity user ty)))
    end).

(** A directory is empty when it has no entry. *)
Definition tree_delete (T : fs_tree) (user : bytes) (cs : list bytes) (name : bytes)
    (empty : bool) : string + fs_tree :=
  sum_bind (tree_parent T user cs) (λ _,
    match T (cs ++ [name]) with
    | None => inl "Target does not exist"%string
    | Some e =>
        if negb (bool_decide (entity_owner e = user)) then inl "User is not owner of the target"%string
        else if match e with EDir _ => negb empty | EFile _ _ => false end
        then inl "Directory not empty"%string
        else inr (update T (cs ++ [name]) None)
    end).

(** ** Lookups in listings *)

Lemma lookup_name_cons name e es :
  lookup_name name (e :: es) =
  if entry_named name e then Some (de_inode_block e) else lookup_name name es.
Proof. unfold lookup_name. simpl. by destruct (entry_named name e). Qed.

Lemma entry_named_used name e : entry_named name e = true → Some name ∈ used_names [e].
Proof.
  intros [Hu Hn]%andb_true_iff. apply negb_true_iff in Hu. apply bool_decide_eq_true in Hn.
  unfold used_names. rewrite filter_cons, Hu. case_decide; [|done]. simpl. rewrite Hn. by left.
Qed.

(** With distinct names, lookups do not depend on the order of the entries. *)
Lemma lookup_name_perm name es es' :
  NoDup (used_names es) → es ≡ₚ es' → lookup_name name es = lookup_name name es'.
Proof.
  intros Hnd Hp. induction Hp as [|e es es' _ IH|e1 e2 es|es1 es2 es3 H1 IH1 H2 IH2]; [done|..].
  - rewrite !lookup_name_cons. change (e :: es) with ([e] ++ es) in Hnd. rewrite used_names_app in Hnd.
    apply NoDup_app in Hnd as (_ & _ & Hnd). by rewrite IH.
  - rewrite !lookup_name_cons. destruct (entry_named name e1) eqn:He1; [|done].
    destruct (entry_named name e2) eqn:He2; [|done].
    apply entry_named_used in He1, He2.
    change (e2 :: e1 :: es) with ([e2] ++ [e1] ++ es) in Hnd. rewrite !used_names_app in Hnd.
    apply NoDup_app in Hnd as (_ & Hd & _). exfalso. eapply Hd; [exact He2|].
    apply elem_of_app. by left.
  - rewrite IH1 by done. apply IH2. by rewrite <-H1.
Qed.

Lemma lookup_name_unused name es :
  Forall (λ e, unused e = true) es → lookup_name name es = None.
Proof.
  induction 1 as [|e es He _ IH]; [done|]. rewrite lookup_name_cons.
  unfold entry_named. by rewrite He.
Qed.

(** ** Resolving paths *)

Section resolve.
Context {V : store} {fl : list Z} (Hwf : fs_wf V fl).

Lemma child_child_of b c b' : child V b c = Some b' ↔ child_of V b c b'.
Proof.
  unfold child, child_of, inode_at. split.
  - destruct (V !! b) as [[i| |]|]; try done. destruct (is_type i type_dir) eqn:Ht; [|done].
    apply is_type_true in Ht. eauto.
  - intros (i & -> & Ht & Hl). by rewrite (proj2 (is_type_true _ _) Ht).
Qed.

Lemma resolve_snoc (W : store) b cs c :
  resolve W b (cs ++ [c]) = resolve W b cs ≫= λ b', child W b' c.
Proof.
  revert b; induction cs as [|x cs IH]; intros b; simpl.
  - by destruct (child W b c).
  - destruct (child W b x); simpl; [apply IH|done].
Qed.

Lemma resolve_inode cs b :
  resolve V ROOT_INODE cs = Some b → ∃ i, V !! b = Some (NInode i).
Proof.
  destruct cs as [|c cs _] using rev_ind.
  - intros [= <-]. destruct (wf_root _ _ Hwf) as (i & ? & _). by exists i.
  - rewrite resolve_snoc. destruct (resolve V ROOT_INODE cs) as [p|]; simpl; [|done].
    intros Hc%child_child_of. by destruct (child_of_inode Hwf _ _ _ Hc).
Qed.

(** A block is at one path only. *)
Lemma resolve_inj cs cs' b :
  resolve V ROOT_INODE cs = Some b → resolve V ROOT_INODE cs' = Some b → cs = cs'.
Proof.
  revert cs' b; induction cs as [|c cs IH] using rev_ind; intros cs' b;
    destruct cs' as [|c' cs' _] using rev_ind; rewrite ?resolve_snoc; [done|..].
  - intros [= <-]. destruct (resolve V ROOT_INODE cs') as [p|]; simpl; [|done].
    intros Hc%child_child_of. by destruct (child_of_inode Hwf _ _ _ Hc).
  - destruct (resolve V ROOT_INODE cs) as [p|]; simpl; [|done].
    intros Hc%child_child_of [= <-]. by destruct (child_of_inode Hwf _ _ _ Hc).
  - destruct (resolve V ROOT_INODE cs) as [p|] eqn:Hp; simpl; [|done].
    destruct (resolve V ROOT_INODE cs') as [p'|] eqn:Hp'; simpl; [|done].
    intros Hc%child_child_of Hc'%child_child_of.
    destruct (child_of_parent Hwf _ _ _ _ _ Hc Hc') as [-> ->]. by rewrite (IH cs' p').
Qed.

Lemma owner_name_eq b i user :
  V !! b = Some (NInode i) → owned_by user i = bool_decide (owner_name i = user).
Proof.
  intros (_ & _ & _ & [o Ho])%(wf_inode Hwf). unfold owned_by, owner_name. rewrite Ho. simpl.
  apply bool_decide_ext. naive_solver.
Qed.

Lemma tree_at cs b i :
  resolve V ROOT_INODE cs = Some b → V !! b = Some (NInode i) →
  tree V cs = Some (if is_type i type_file then EFile (owner_name i) (data_at V <$> inode_refs i)
                    else EDir (owner_name i)).
Proof. intros Hr Hb. unfold tree, entity_of, inode_at. rewrite Hr. simpl. by rewrite Hb. Qed.

Lemma type_cases b i :
  V !! b = Some (NInode i) → is_type i type_dir = negb (is_type i type_file).
Proof.
  intros (_ & _ & [Ht|Ht] & _)%(wf_inode Hwf); unfold is_type; by rewrite Ht.
Qed.

(** The walk over inodes and the walk over paths. *)
Lemma tree_walk_spec user ps b cs :
  resolve V ROOT_INODE ps = Some b →
  match walk_spec V user b cs with
  | inl e => tree_walk (tree V) user ps cs = inl e
  | inr p => tree_walk (tree V) user ps cs = inr () ∧ resolve V ROOT_INODE (ps ++ cs) = Some p
  end.
Proof.
  revert ps b; induction cs as [|c cs IH]; intros ps b Hb; simpl; [by rewrite app_nil_r|].
  destruct (resolve_inode _ _ Hb) as [i Hi]. unfold next_spec. rewrite Hi, (tree_at _ _ _ Hb Hi).
  assert (negb (b =? 0) = negb (bool_decide (ps = []))) as ->.
  { f_equal. destruct (Z.eqb_spec b 0) as [->|Hne]; symmetry.
    - apply bool_decide_eq_true_2. by eapply (resolve_inj ps [] 0).
    - apply bool_decide_eq_false_2. intros ->. by injection Hb. }
  rewrite (owner_name_eq _ _ _ Hi), (type_cases _ _ Hi), negb_involutive.
  assert (entity_owner (if is_type i type_file then EFile (owner_name i) (data_at V <$> inode_refs i)
     else EDir (owner_name i)) = owner_name i) as -> by (by destruct (is_type i type_file)).
  destruct (negb _ && negb _); simpl; [done|].
  destruct (is_type i type_file) eqn:Ht; simpl; [done|].
  assert (resolve V ROOT_INODE (ps ++ [c]) = lookup_name c (listing V i)) as Hr.
  { rewrite resolve_snoc, Hb. simpl. unfold child, inode_at. by rewrite Hi, (type_cases _ _ Hi), Ht. }
  destruct (lookup_name c (listing V i)) as [b'|] eqn:Hl; simpl.
  - destruct (resolve_inode _ _ Hr) as [i' Hi']. rewrite (tree_at _ _ _ Hr Hi').
    specialize (IH _ _ Hr). rewrite <-(assoc_L (++)) in IH. exact IH.
  - unfold tree. by rewrite Hr.
Qed.

Lemma tree_target_spec user cs name :
  match target_spec V user cs name with
  | inl e => tree_walk (tree V) user [] (cs ++ [name]) = inl e
  | inr t => tree_walk (tree V) user [] (cs ++ [name]) = inr () ∧
      resolve V ROOT_INODE (cs ++ [name]) = Some t
  end.
Proof.
  unfold target_spec. rewrite <-(walk_spec_snoc user ROOT_INODE cs name).
  apply (tree_walk_spec user [] ROOT_INODE (cs ++ [name])). done.
Qed.

Lemma tree_parent_spec user cs :
  match parent_spec V user cs with
  | inl e => tree_parent (tree V) user cs = inl e
  | inr (p, i) => tree_parent (tree V) user cs = inr () ∧ resolve V ROOT_INODE cs = Some p ∧
      V !! p = Some (NInode i)
  end.
Proof.
  pose proof (tree_walk_spec user [] ROOT_INODE cs ltac:(done)) as Hw. simpl in Hw.
  unfold parent_spec, tree_parent. destruct (walk_spec V user ROOT_INODE cs) as [e|p]; simpl.
  { by rewrite Hw. }
  destruct Hw as [-> Hr]. simpl. destruct (resolve_inode _ _ Hr) as [i Hi].
  rewrite (proj2 (inode_at_Some _ _) Hi). pose proof (tree_at _ _ _ Hr Hi) as Ht.
  destruct cs as [|c cs]; [done|]. rewrite Ht, (owner_name_eq _ _ _ Hi), (type_cases _ _ Hi).
  destruct (is_type i type_file); simpl; [done|]. by destruct (bool_decide _); simpl.
Qed.

End resolve.

(** ** Reading *)

Lemma file_block_nth V i k :
  0 ≤ k < len (inode_refs i) → (∀ b, b ∈ inode_refs i → ∃ v, V !! b = Some (NData v)) →
  file_block V i k = Some (nth (Z.to_nat k) (data_at V <$> inode_refs i) []).
Proof.
  unfold len. intros Hk Hall.
  destruct (lookup_lt_is_Some_2 (inode_refs i) (Z.to_nat k) ltac:(lia)) as [b Hb].
  destruct (Hall b ltac:(by eapply list_elem_of_lookup_2)) as [v Hv].
  unfold file_block. rewrite Hb. simpl. rewrite Hv. f_equal.
  erewrite nth_lookup_Some; [done|]. rewrite list_lookup_fmap, Hb. simpl. unfold data_at. by rewrite Hv.
Qed.

(** The number of blocks of a file. *)
Lemma len_data V fl b i :
  fs_wf V fl → V !! b = Some (NInode i) → len (data_at V <$> inode_refs i) = ino_size i.
Proof.
  intros Hwf Hb. unfold len. rewrite length_fmap, (wf_refs_length Hwf _ _ Hb).
  destruct (wf_inode Hwf _ _ Hb) as ((_ & [? _] & _) & _). lia.
Qed.

Lemma read_spec_tree V fl user cs name k :
  fs_wf V fl → 0 ≤ k →
  read_spec V user cs name k = tree_read (tree V) user (cs ++ [name]) k.
Proof.
  intros Hwf Hk. pose proof (tree_target_spec Hwf user cs name) as Ht.
  unfold read_spec, tree_read. destruct (target_spec V user cs name) as [e|t]; simpl.
  { by rewrite Ht. }
  destruct Ht as [-> Hr]. simpl. destruct (resolve_inode Hwf _ _ Hr) as [i Hi].
  rewrite (proj2 (inode_at_Some _ _) Hi), (tree_at _ _ _ Hr Hi), (owner_name_eq Hwf _ _ _ Hi).
  destruct (is_type i type_file) eqn:Hf; simpl; [|done]. apply is_type_true in Hf.
  rewrite (len_data _ _ _ _ Hwf Hi). destruct (Z.leb_spec (ino_size i) k); [done|].
  destruct (bool_decide _); simpl; [|done].
  rewrite file_block_nth; [done| |].
  - unfold len. rewrite (wf_refs_length Hwf _ _ Hi). lia.
  - intros b. by apply (wf_file_ref Hwf _ _ _ Hi).
Qed.

(** ** Trees of changed stores *)

Lemma tree_update (V V' : store) path :
  (∀ cs, cs ≠ path → resolve V' ROOT_INODE cs = resolve V ROOT_INODE cs) →
  (∀ cs b, cs ≠ path → resolve V ROOT_INODE cs = Some b → entity_of V' b = entity_of V b) →
  ∀ cs, tree V' cs = update (tree V) path (tree V' path) cs.
Proof.
  intros Hres Hent cs. unfold update. case_decide as Hc; [by rewrite Hc|].
  unfold tree. rewrite Hres by done. destruct (resolve V ROOT_INODE cs) as [b|] eqn:Hb; [|done].
  by eapply Hent.
Qed.

Lemma resolve_ext (V V' : store) b cs :
  (∀ b c, child V' b c = child V b c) → resolve V' b cs = resolve V b cs.
Proof.
  intros Hc. revert b; induction cs as [|c cs IH]; intros b; simpl; [done|].
  rewrite Hc. destruct (child V b c); simpl; [apply IH|done].
Qed.

(** Children depend on the inodes' types and on the listings only. *)
Lemma child_ext (V V' : store) b c :
  match inode_at V b, inode_at V' b with
  | Some i, Some i' => ino_type i' = ino_type i ∧
      (ino_type i = type_dir → listing V' i' = listing V i)
  | None, None => True
  | _, _ => False
  end → child V' b c = child V b c.
Proof.
  unfold child. destruct (inode_at V b) as [i|], (inode_at V' b) as [i'|]; try done.
  intros [Ht Hl]. unfold is_type. rewrite Ht.
  destruct (Ascii.eqb_spec (ino_type i) type_dir); [|done]. by rewrite Hl.
Qed.

(** *** Writing *)

Section write.
Context {V : store} {fl : list Z} (Hwf : fs_wf V fl).
Context {t : Z} {i : fs_inode} (Ht : V !! t = Some (NInode i)) (Hty : ino_type i = type_file).

(** A data block of file [t] gets other contents. *)
Lemma data_write k b v :
  inode_refs i !! k = Some b →
  data_at (node_write V b v) <$> inode_refs i = <[k := v]> (data_at V <$> inode_refs i).
Proof.
  intros Hk. pose proof (wf_refs_nodup Hwf _ _ Ht) as Hnd. apply list_eq. intros m.
  rewrite list_lookup_fmap. destruct (decide (m = k)) as [->|Hm].
  - rewrite Hk, list_lookup_insert_eq.
    + simpl. unfold data_at, node_write. by rewrite lookup_insert_eq.
    + rewrite length_fmap. by eapply lookup_lt_Some.
  - rewrite list_lookup_insert_ne, list_lookup_fmap by done.
    destruct (inode_refs i !! m) as [x|] eqn:Hx; [|done]. simpl. f_equal.
    unfold data_at, node_write. rewrite lookup_insert_ne; [done|].
    intros <-. by destruct Hm; eapply NoDup_lookup.
Qed.

Lemma node_write_inode b v v0 x :
  V !! b = Some (NData v0) → inode_at (node_write V b v) x = inode_at V x.
Proof.
  intros Hb. unfold inode_at, node_write. rewrite lookup_insert. case_decide; [|done].
  subst. by rewrite Hb.
Qed.

Lemma node_write_tree cs k b v :
  resolve V ROOT_INODE cs = Some t → inode_refs i !! k = Some b →
  ∀ cs', tree (node_write V b v) cs' =
    update (tree V) cs (Some (EFile (owner_name i) (<[k := v]> (data_at V <$> inode_refs i)))) cs'.
Proof.
  intros Hr Hk. destruct (wf_file_ref Hwf _ _ b Ht Hty ltac:(by eapply list_elem_of_lookup_2)) as [v0 Hv0].
  assert (∀ x c, child (node_write V b v) x c = child V x c) as Hchild.
  { intros x c. apply child_ext. rewrite (node_write_inode _ _ v0) by done.
    destruct (inode_at V x) as [i'|] eqn:Hx; [|done]. split; [done|]. intros Hd.
    apply inode_at_Some in Hx. apply listing_insert_out. intros Hin.
    destruct (wf_dir_ref Hwf _ _ _ Hx Hd Hin). congruence. }
  intros cs'. rewrite (tree_update V (node_write V b v) cs).
  - unfold update. case_decide; [|done]. unfold tree. rewrite (resolve_ext V) by done. rewrite Hr. simpl.
    unfold entity_of. rewrite (node_write_inode _ _ v0), (proj2 (inode_at_Some _ _) Ht) by done. simpl.
    by rewrite (proj2 (is_type_true _ _) Hty), (data_write k).
  - intros cs1 _. by apply resolve_ext.
  - intros cs1 x Hne Hx. unfold entity_of. rewrite (node_write_inode _ _ v0) by done.
    destruct (inode_at V x) as [i'|] eqn:Hi'; [|done]. simpl. apply inode_at_Some in Hi'.
    destruct (is_type i' type_file); [|done]. do 2 f_equal. apply list_fmap_ext.
    intros m y Hy. unfold data_at, node_write. rewrite lookup_insert_ne; [done|]. intros <-.
    destruct (wf_unique _ _ Hwf x m t k b) as [-> _]; eauto using @wf_inode_refers.
    destruct Hne. by eapply (resolve_inj Hwf).
Qed.

(** The file takes in a new last block. *)
Lemma node_append_tree cs b v :
  resolve V ROOT_INODE cs = Some t → b ∈ fl → ino_size i < FS_MAXFILEBLOCKS →
  ∀ cs', tree (node_append V t i b v) cs' =
    update (tree V) cs (Some (EFile (owner_name i) ((data_at V <$> inode_refs i) ++ [v]))) cs'.
Proof.
  intros Hr Hb Hsz. destruct (wf_free _ _ Hwf _ Hb) as [_ HbN].
  destruct (wf_inode Hwf _ _ Ht) as (Hok & _).
  assert (b ≠ t) as Hbt by congruence.
  assert (∀ x, x ≠ t → inode_at (node_append V t i b v) x = inode_at V x) as Hino.
  { intros x Hx. unfold inode_at, node_append. rewrite lookup_insert_ne, lookup_insert by done.
    case_decide; [|done]. subst. by rewrite HbN. }
  assert (inode_at (node_append V t i b v) t = Some (inode_push i b)) as Hit.
  { apply inode_at_Some. unfold node_append. apply lookup_insert_eq. }
  assert (∀ x i', V !! x = Some (NInode i') → b ∉ inode_refs i') as Hout.
  { intros x i' Hx [m Hm]%list_elem_of_lookup. eapply (wf_free_unreferenced Hwf b Hb).
    by eapply wf_inode_refers. }
  assert (∀ x c, child (node_append V t i b v) x c = child V x c) as Hchild.
  { intros x c. apply child_ext. destruct (decide (x = t)) as [->|Hx].
    - rewrite Hit, (proj2 (inode_at_Some _ _) Ht). split; [done|]. rewrite Hty. done.
    - rewrite Hino by done. destruct (inode_at V x) as [i'|] eqn:Hi'; [|done]. split; [done|]. intros Hd.
      apply inode_at_Some in Hi'. unfold node_append. rewrite !listing_insert_out; [done|by eapply Hout|].
      intros Hin. destruct (wf_dir_ref Hwf _ _ _ Hi' Hd Hin). congruence. }
  assert (∀ x i', V !! x = Some (NInode i') → is_type i' type_file = true →
    data_at (node_append V t i b v) <$> inode_refs i' = data_at V <$> inode_refs i') as Hdata.
  { intros x i' Hx Hf%is_type_true. apply list_fmap_ext. intros m y Hy%list_elem_of_lookup_2.
    destruct (wf_file_ref Hwf _ _ _ Hx Hf Hy) as [w Hw]. unfold data_at, node_append.
    rewrite !lookup_insert_ne; [done|intros ->; by eapply Hout|congruence]. }
  intros cs'. rewrite (tree_update V (node_append V t i b v) cs).
  - unfold update. case_decide; [|done]. unfold tree. rewrite (resolve_ext V) by done. rewrite Hr. simpl.
    unfold entity_of. rewrite Hit. simpl.
    change (is_type (inode_push i b) type_file) with (is_type i type_file).
    rewrite (proj2 (is_type_true _ _) Hty), inode_push_refs, fmap_app by done. simpl.
    rewrite (Hdata t i Ht) by by apply is_type_true. repeat f_equal.
    unfold data_at, node_append. by rewrite lookup_insert_ne, lookup_insert_eq by done.
  - intros cs1 _. by apply resolve_ext.
  - intros cs1 x Hne Hx. assert (x ≠ t) as Hxt by (intros ->; destruct Hne; by eapply (resolve_inj Hwf)).
    unfold entity_of. rewrite Hino by done. destruct (inode_at V x) as [i'|] eqn:Hi'; [|done].
    apply inode_at_Some in Hi'. simpl. destruct (is_type i' type_file) eqn:Hf; [|done].
    by rewrite (Hdata x i').
Qed.

End write.

(** A request on a store does what [x] says of its tree, or fails for lack of
    space ([nospace]) without changing the tree. *)
Definition does (V : store) (r : fs_result) (x : string + fs_tree) (full : string)
    (nospace : Prop) : Prop :=
  match x with
  | inl e => res_answer r = inl e ∧ res_store r = V
  | inr T' => (res_answer r = inr () ∧ ∀ cs, tree (res_store r) cs = T' cs) ∨
      (res_answer r = inl full ∧ res_store r = V ∧ nospace)
  end.

Lemma write_spec_tree V fl user cs name k v :
  fs_wf V fl → 0 ≤ k →
  does V (write_spec V fl user cs name k v) (tree_write (tree V) user (cs ++ [name]) k v)
    "Not enough disk space for this write" (fl = [] ∨ k = FS_MAXFILEBLOCKS).
Proof.
  intros Hwf Hk. pose proof (tree_target_spec Hwf user cs name) as Ht.
  unfold does, write_spec, tree_write. destruct (target_spec V user cs name) as [e|t]; simpl.
  { by rewrite Ht. }
  destruct Ht as [-> Hr]. simpl. destruct (resolve_inode Hwf _ _ Hr) as [i Hi].
  rewrite (proj2 (inode_at_Some _ _) Hi), (tree_at _ _ _ Hr Hi), (owner_name_eq Hwf _ _ _ Hi).
  destruct (is_type i type_file) eqn:Hf; simpl; [|done]. apply is_type_true in Hf.
  rewrite (len_data _ _ _ _ Hwf Hi). destruct (Z.ltb_spec (ino_size i) k); [done|].
  destruct (bool_decide _); simpl; [|done]. unfold write_file, write_block.
  rewrite (len_data _ _ _ _ Hwf Hi). destruct (Z.eqb_spec k (ino_size i)) as [->|Hne].
  - destruct (wf_inode Hwf _ _ Hi) as (_ & Hle & _).
    destruct fl as [|b fl'] eqn:Hfl; [right; by auto|].
    destruct (Z.eqb_spec (ino_size i) FS_MAXFILEBLOCKS); [right; by auto|].
    left. split; [done|]. simpl. eapply (node_append_tree Hwf); eauto; [by left|lia].
  - destruct (lookup_lt_is_Some_2 (inode_refs i) (Z.to_nat k)) as [b Hb];
      [rewrite (wf_refs_length Hwf _ _ Hi); lia|].
    rewrite Hb. left. split; [done|]. simpl. by eapply (node_write_tree Hwf).
Qed.

(** *** Entries *)

(** The entries of a directory before and after one of them changed. *)
Lemma listing_set_entry V fl p i b es j e0 e :
  fs_wf V fl → V !! p = Some (NInode i) → b ∈ inode_refs i →
  V !! b = Some (NDir es) → es !! j = Some e0 →
  ∃ rest, listing V i ≡ₚ e0 :: rest ∧ listing (set_entry V b es j e) i ≡ₚ e :: rest.
Proof.
  intros Hwf Hp [k Hk]%list_elem_of_lookup Hb Hj. pose proof (lookup_lt_Some _ _ _ Hj) as Hlt.
  destruct (listing_split V i k b) as [rest Hrest]; [by eapply wf_refs_nodup|done|].
  exists (take j es ++ drop (S j) es ++ rest). split.
  - rewrite (Hrest V) by done. unfold dir_entries. rewrite Hb.
    rewrite <-(take_drop_middle _ _ _ Hj) at 1. solve_Permutation.
  - rewrite (Hrest (set_entry V b es j e)) by (intros; by apply dir_entries_insert_ne).
    unfold dir_entries, set_entry. rewrite lookup_insert_eq, insert_take_drop by done. solve_Permutation.
Qed.

(** The other directories of the store do not list block [b]. *)
Lemma dir_block_owner V fl p i p' i' b :
  fs_wf V fl → V !! p = Some (NInode i) → V !! p' = Some (NInode i') →
  b ∈ inode_refs i → b ∈ inode_refs i' → p = p'.
Proof.
  intros Hwf Hp Hp' [k Hk]%list_elem_of_lookup [k' Hk']%list_elem_of_lookup.
  by destruct (wf_unique _ _ Hwf p k p' k' b) as [-> _]; eauto using wf_inode_refers.
Qed.

Lemma entry_named_new name name' e nb :
  c_str (de_name e) = Some name → de_inode_block e = nb → nb ≠ 0 →
  entry_named name' e = bool_decide (name' = name).
Proof.
  intros Hn He Hnb. unfold entry_named, unused. rewrite He, (proj2 (Z.eqb_neq _ _)) by done. simpl.
  rewrite Hn. apply bool_decide_ext. naive_solver.
Qed.

(** Trees after a path was added or removed: [child] changes at one name. *)
Lemma resolve_add (V V' : store) fl cs name p nb :
  fs_wf V fl → resolve V ROOT_INODE cs = Some p → child V p name = None →
  (∀ b c, child V' b c = if decide (b = p ∧ c = name) then Some nb else child V b c) →
  (∀ c, child V nb c = None) → nb ≠ p →
  ∀ cs', resolve V' ROOT_INODE cs' =
    if decide (cs' = cs ++ [name]) then Some nb else resolve V ROOT_INODE cs'.
Proof.
  intros Hwf Hp Hnone Hchild Hnew Hne. induction cs' as [|c cs' IH] using rev_ind.
  - by destruct (decide ([] = cs ++ [name])) as [[]%app_cons_not_nil|].
  - rewrite !resolve_snoc, IH. destruct (decide (cs' = cs ++ [name])) as [->|Hcs']; simpl.
    + rewrite Hchild, Hnew, decide_False by (by intros [-> _]). case_decide as Heq.
      * apply (f_equal length) in Heq. rewrite !length_app in Heq. simpl in Heq. lia.
      * rewrite resolve_snoc, Hp. simpl. by rewrite Hnone.
    + destruct (resolve V ROOT_INODE cs') as [b|] eqn:Hb; simpl.
      * rewrite Hchild. destruct (decide (b = p ∧ c = name)) as [[-> ->]|Hbc].
        -- rewrite decide_True; [done|]. by rewrite (resolve_inj Hwf cs' cs p).
        -- rewrite decide_False; [done|]. intros [-> [= ->]]%app_inj_2; [|done]. destruct Hbc. split; congruence.
      * rewrite decide_False; [done|]. intros [-> [= ->]]%app_inj_2; [|done]. congruence.
Qed.

Lemma resolve_remove (V V' : store) fl cs name p c0 :
  fs_wf V fl → resolve V ROOT_INODE cs = Some p → child V p name = Some c0 →
  (∀ b c, child V' b c = if decide (b = p ∧ c = name) then None else child V b c) →
  (∀ c, child V c0 c = None) →
  ∀ cs', resolve V' ROOT_INODE cs' =
    if decide (cs' = cs ++ [name]) then None else resolve V ROOT_INODE cs'.
Proof.
  intros Hwf Hp Hc0 Hchild Hnone. induction cs' as [|c cs' IH] using rev_ind.
  - by destruct (decide ([] = cs ++ [name])) as [[]%app_cons_not_nil|].
  - rewrite !resolve_snoc, IH. destruct (decide (cs' = cs ++ [name])) as [->|Hcs']; simpl.
    + case_decide; [done|]. rewrite resolve_snoc, Hp. simpl. rewrite Hc0. simpl. by rewrite Hnone.
    + destruct (resolve V ROOT_INODE cs') as [b|] eqn:Hb; simpl.
      * rewrite Hchild. destruct (decide (b = p ∧ c = name)) as [[-> ->]|Hbc].
        -- rewrite decide_True; [done|]. by rewrite (resolve_inj Hwf cs' cs p).
        -- rewrite decide_False; [done|]. intros [-> [= ->]]%app_inj_2; [|done]. destruct Hbc. split; congruence.
      * by case_decide.
Qed.

(** *** Creating *)

Section create.
Context {V V' : store} {fl : list Z} (Hwf : fs_wf V fl).
Context {cs : list bytes} {name : bytes} {p : Z} {i i' : fs_inode} {nb : Z} {ni : fs_inode}.
Hypotheses (Hr : resolve V ROOT_INODE cs = Some p) (Hp : V !! p = Some (NInode i))
  (Ht : ino_type i = type_dir) (Hnb : V !! nb = None).

(** A store [V'] that differs from [V] by a new inode [nb], called [name] in
    directory [p], has that path added to its tree. *)
Lemma tree_add :
  V' !! p = Some (NInode i') → ino_type i' = type_dir → ino_owner i' = ino_owner i →
  V' !! nb = Some (NInode ni) → inode_refs ni = [] →
  (∀ x, x ≠ p → x ≠ nb → inode_at V' x = inode_at V x) →
  (∀ x j, x ≠ p → V !! x = Some (NInode j) → ino_type j = type_dir → listing V' j = listing V j) →
  (∀ x v, V !! x = Some (NData v) → V' !! x = Some (NData v)) →
  lookup_name name (listing V i) = None →
  (∀ c, lookup_name c (listing V' i') = if decide (c = name) then Some nb
                                        else lookup_name c (listing V i)) →
  ∀ cs', tree V' cs' = update (tree V) (cs ++ [name])
    (Some (if is_type ni type_file then EFile (owner_name ni) [] else EDir (owner_name ni))) cs'.
Proof.
  intros Hp' Ht' Ho Hnb' Hrefs Hino Hlist Hdata Hnone Hlook.
  assert (nb ≠ p) as Hne by congruence.
  assert (∀ c, child V nb c = None) as Hnew by (intros c; unfold child, inode_at; by rewrite Hnb).
  assert (∀ b c, child V' b c = if decide (b = p ∧ c = name) then Some nb else child V b c) as Hchild.
  { intros b c. destruct (decide (b = p)) as [->|Hb].
    - unfold child, inode_at. rewrite Hp, Hp', !(proj2 (is_type_true _ _)), Hlook by done.
      by destruct (decide (c = name)) as [->|Hc];
        [rewrite decide_True|rewrite decide_False by (by intros [_ ?])].
    - rewrite decide_False by (by intros [? _]). destruct (decide (b = nb)) as [->|Hb'].
      + rewrite Hnew. unfold child, inode_at. rewrite Hnb'. unfold listing. rewrite Hrefs.
        by case_match.
      + apply child_ext. rewrite Hino by done. destruct (inode_at V b) as [j|] eqn:Hj; [|done].
        apply inode_at_Some in Hj. split; [done|]. intros Hd. by eapply Hlist. }
  assert (child V p name = None) as Hcn.
  { unfold child, inode_at. by rewrite Hp, (proj2 (is_type_true _ _)). }
  pose proof (resolve_add V V' fl cs name p nb Hwf Hr Hcn Hchild Hnew Hne) as Hres.
  intros cs'. rewrite (tree_update V V' (cs ++ [name])).
  - unfold update. case_decide; [|done]. unfold tree. rewrite Hres, decide_True by done. simpl.
    unfold entity_of. rewrite (proj2 (inode_at_Some _ _) Hnb'). simpl. by rewrite Hrefs.
  - intros cs1 H1. by rewrite Hres, decide_False.
  - intros cs1 b _ Hb. destruct (resolve_inode Hwf _ _ Hb) as [j Hj].
    assert (b ≠ nb) as Hbn by congruence. unfold entity_of.
    destruct (decide (b = p)) as [->|Hbp].
    + rewrite (proj2 (inode_at_Some _ _) Hp), (proj2 (inode_at_Some _ _) Hp'). simpl.
      rewrite !(proj2 (is_type_false _ _)) by (rewrite ?Ht, ?Ht'; done).
      unfold owner_name. by rewrite Ho.
    + rewrite Hino, (proj2 (inode_at_Some _ _) Hj) by done. simpl.
      destruct (is_type j type_file) eqn:Hf; [|done]. apply is_type_true in Hf.
      do 2 f_equal. apply list_fmap_ext. intros m y Hy%list_elem_of_lookup_2.
      destruct (wf_file_ref Hwf _ _ _ Hj Hf Hy) as [v Hv]. unfold data_at.
      by rewrite Hv, (Hdata _ _ Hv).
Qed.

End create.

(** What the parent directory lists then. *)
Lemma node_create_lookup V nb fl name p i b es j e0 e ni :
  fs_wf V (nb :: fl) → node_ok (NInode ni) → inode_refs ni = [] →
  V !! p = Some (NInode i) → ino_type i = type_dir →
  b ∈ inode_refs i → V !! b = Some (NDir es) → es !! j = Some e0 → unused e0 = true →
  direntry_ok e → de_inode_block e = nb → c_str (de_name e) = Some name →
  lookup_name name (listing V i) = None →
  node_create V nb ni b es j e !! p = Some (NInode i) ∧
  ∀ c, lookup_name c (listing (node_create V nb ni b es j e) i) =
       if decide (c = name) then Some nb else lookup_name c (listing V i).
Proof.
  intros Hwf Hni Hrefs Hp Ht Hin Hb Hj Hu0 He Heb Hen Hnone.
  pose proof (wf_free _ _ Hwf nb ltac:(by left)) as [_ Hnb].
  pose proof (wf_free_not_root Hwf nb ltac:(by left)) as Hnb0.
  pose proof (fs_wf_add _ _ _ (NInode ni) Hwf Hni Hrefs) as Hwf1.
  assert (fs_wf (node_create V nb ni b es j e) fl) as Hwf'.
  { eapply fs_wf_node_create; eauto. rewrite Hen. by apply lookup_name_None. }
  unfold node_create, set_entry in *.
  assert (<[nb:=NInode ni]> V !! p = Some (NInode i) ∧ <[nb:=NInode ni]> V !! b = Some (NDir es)) as [Hp1 Hb1]
    by (split; rewrite lookup_insert_ne; congruence).
  assert (<[b:=NDir (<[j:=e]> es)]> (<[nb:=NInode ni]> V) !! p = Some (NInode i)) as Hp2
    by (rewrite lookup_insert_ne; congruence).
  split; [done|]. intros c.
  destruct (listing_set_entry _ fl p i b es j e0 e Hwf1 Hp1 Hin Hb1 Hj) as (rest & H1 & H2).
  rewrite (listing_insert_out V nb) in H1
    by (intros Hc; destruct (wf_dir_ref Hwf _ _ _ Hp Ht Hc); congruence).
  rewrite (lookup_name_perm _ _ _ (wf_names _ _ Hwf' p i Hp2 Ht) H2).
  rewrite (lookup_name_perm _ _ _ (wf_names _ _ Hwf p i Hp Ht) H1).
  rewrite !lookup_name_cons. unfold entry_named at 2. rewrite Hu0. simpl.
  rewrite (entry_named_new name c e nb) by done. case_bool_decide; case_decide; congruence.
Qed.

Lemma node_create_tree V nb fl cs name p i b es j e0 e ni :
  fs_wf V (nb :: fl) → node_ok (NInode ni) → inode_refs ni = [] →
  resolve V ROOT_INODE cs = Some p → V !! p = Some (NInode i) → ino_type i = type_dir →
  b ∈ inode_refs i → V !! b = Some (NDir es) → es !! j = Some e0 → unused e0 = true →
  direntry_ok e → de_inode_block e = nb → c_str (de_name e) = Some name →
  lookup_name name (listing V i) = None →
  ∀ cs', tree (node_create V nb ni b es j e) cs' = update (tree V) (cs ++ [name])
    (Some (if is_type ni type_file then EFile (owner_name ni) [] else EDir (owner_name ni))) cs'.
Proof.
  intros Hwf Hni Hrefs Hr Hp Ht Hin Hb Hj Hu0 He Heb Hen Hnone.
  pose proof (wf_free _ _ Hwf nb ltac:(by left)) as [_ Hnb].
  assert (∀ x m, V !! x = Some m → x ≠ nb) as Hxn by (intros x m Hx ->; congruence).
  assert (∀ x i', V !! x = Some (NInode i') → ino_type i' = type_dir → nb ∉ inode_refs i') as Hout.
  { intros x i' Hx Hd Hc. destruct (wf_dir_ref Hwf _ _ _ Hx Hd Hc). congruence. }
  unfold node_create, set_entry.
  apply (tree_add Hwf Hr Hp Ht Hnb (i' := i)); try done.
  - rewrite !lookup_insert_ne; [done|by apply not_eq_sym; eauto|congruence].
  - rewrite lookup_insert_ne by congruence. by rewrite lookup_insert_eq.
  - intros x Hxp Hx. unfold inode_at. rewrite lookup_insert. case_decide; [subst; by rewrite Hb|].
    by rewrite lookup_insert_ne.
  - intros x i' Hx Hi' Hd. rewrite !listing_insert_out; [done|by eapply Hout|].
    intros Hc. destruct Hx. symmetry. eapply dir_block_owner; [exact Hwf|exact Hp|exact Hi'|done..].
  - intros x v Hx. rewrite !lookup_insert_ne; [done|by apply not_eq_sym; eauto|congruence].
  - by apply (node_create_lookup V nb fl name p i b es j e0 e ni).
Qed.

Lemma node_create_grow_lookup V nb b fl name p i e ni :
  fs_wf V (nb :: b :: fl) →
  V !! p = Some (NInode i) → ino_type i = type_dir → ino_size i < FS_MAXFILEBLOCKS →
  de_inode_block e = nb → c_str (de_name e) = Some name →
  lookup_name name (listing V i) = None →
  ∀ c, lookup_name c (listing (node_create_grow V nb ni p i b e) (inode_push i b)) =
       if decide (c = name) then Some nb else lookup_name c (listing V i).
Proof.
  intros Hwf Hp Ht Hsz Heb Hen Hnone c.
  pose proof (wf_free _ _ Hwf nb ltac:(by left)) as [_ Hnb].
  pose proof (wf_free _ _ Hwf b ltac:(by right; left)) as [_ Hb].
  pose proof (wf_free_not_root Hwf nb ltac:(by left)) as Hnb0.
  destruct (wf_inode Hwf _ _ Hp) as (Hok & _).
  assert (∀ y, V !! y = None ∨ y = p → y ∉ inode_refs i) as Hout.
  { intros y Hy Hc. destruct (wf_dir_ref Hwf _ _ _ Hp Ht Hc). destruct Hy as [Hy| ->]; congruence. }
  unfold node_create_grow.
  assert (listing (<[p:=NInode (inode_push i b)]>
      (<[b:=NDir (<[0%nat:=e]> zero_direntries)]> (<[nb:=NInode ni]> V))) (inode_push i b) =
    listing V i ++ (<[0%nat:=e]> zero_direntries)) as ->.
  { unfold listing at 1. rewrite inode_push_refs, fmap_app, join_app by done.
    match goal with |- mjoin (dir_entries ?W <$> _) ++ _ = _ => fold (listing W i) end.
    f_equal; [by rewrite !listing_insert_out by auto|].
    simpl. unfold dir_entries. rewrite lookup_insert_ne, lookup_insert_eq by congruence. by rewrite app_nil_r. }
  rewrite lookup_name_app. simpl. rewrite lookup_name_cons, (entry_named_new name c e nb) by done.
  destruct (decide (c = name)) as [->|Hc].
  - by rewrite Hnone, bool_decide_eq_true_2, Heb.
  - rewrite bool_decide_eq_false_2 by done. by destruct (lookup_name c (listing V i)).
Qed.

Lemma node_create_grow_tree V nb b fl cs name p i e ni :
  fs_wf V (nb :: b :: fl) → node_ok (NInode ni) → inode_refs ni = [] →
  resolve V ROOT_INODE cs = Some p → V !! p = Some (NInode i) → ino_type i = type_dir →
  ino_size i < FS_MAXFILEBLOCKS →
  direntry_ok e → de_inode_block e = nb → c_str (de_name e) = Some name →
  lookup_name name (listing V i) = None →
  ∀ cs', tree (node_create_grow V nb ni p i b e) cs' = update (tree V) (cs ++ [name])
    (Some (if is_type ni type_file then EFile (owner_name ni) [] else EDir (owner_name ni))) cs'.
Proof.
  intros Hwf Hni Hrefs Hr Hp Ht Hsz He Heb Hen Hnone.
  pose proof (wf_free _ _ Hwf nb ltac:(by left)) as [_ Hnb].
  pose proof (wf_free _ _ Hwf b ltac:(by right; left)) as [_ Hb].
  assert (nb ≠ b) as Hnbb.
  { intros Heq. pose proof (wf_free_nodup _ _ Hwf) as [Hn _]%NoDup_cons. apply Hn. rewrite Heq. by left. }
  assert (∀ y x i', V !! y = None → V !! x = Some (NInode i') → ino_type i' = type_dir →
    y ∉ inode_refs i') as Hout.
  { intros y x i' Hy Hx Hd Hc. destruct (wf_dir_ref Hwf _ _ _ Hx Hd Hc). congruence. }
  unfold node_create_grow.
  set (V1 := <[b:=NDir (<[0%nat:=e]> zero_direntries)]> (<[nb:=NInode ni]> V)).
  assert (V1 !! p = Some (NInode i)) as Hp1 by (unfold V1; rewrite !lookup_insert_ne; congruence).
  assert (V1 !! b = Some (NDir (<[0%nat:=e]> zero_direntries))) as Hb1 by apply lookup_insert_eq.
  assert (∀ x i', V !! x = Some (NInode i') → ino_type i' = type_dir →
    listing V1 i' = listing V i') as HL1.
  { intros x i' Hx Hd. unfold V1. rewrite !listing_insert_out; eauto. }
  apply (tree_add Hwf Hr Hp Ht Hnb (i' := inode_push i b)); try done.
  - apply lookup_insert_eq.
  - rewrite lookup_insert_ne by congruence. unfold V1.
    rewrite lookup_insert_ne by congruence. apply lookup_insert_eq.
  - intros x Hxp Hx. unfold inode_at. rewrite lookup_insert_ne by done. unfold V1.
    rewrite lookup_insert. case_decide; [subst; by rewrite Hb|]. by rewrite lookup_insert_ne.
  - intros x i' Hx Hi' Hd. rewrite listing_insert_out; [by eapply HL1|].
    intros Hc. destruct (wf_dir_ref Hwf _ _ _ Hi' Hd Hc). congruence.
  - intros x v Hx. unfold V1. rewrite !lookup_insert_ne; congruence.
  - by apply (node_create_grow_lookup V nb b fl name p i e ni).
Qed.

(** What the tree has below a directory. *)
Lemma tree_child V p i cs name :
  resolve V ROOT_INODE cs = Some p → V !! p = Some (NInode i) → ino_type i = type_dir →
  tree V (cs ++ [name]) = lookup_name name (listing V i) ≫= entity_of V.
Proof.
  intros Hr Hp Ht. unfold tree. rewrite resolve_snoc, Hr. simpl. unfold child.
  by rewrite (proj2 (inode_at_Some _ _) Hp), (proj2 (is_type_true _ _) Ht).
Qed.

Lemma create_spec_tree V fl stack user cs name ty :
  fs_wf V fl → inode_ok stack → NUL ∉ user → len user ≤ FS_MAXUSERNAME →
  ty = type_file ∨ ty = type_dir → good_name name →
  does V (create_spec V fl stack user cs name ty) (tree_create (tree V) user cs name ty)
    "Not enough disk space for create"
    (fl = [] ∨ (∃ b, fl = [b]) ∨ ∃ p i, resolve V ROOT_INODE cs = Some p ∧ V !! p = Some (NInode i) ∧
       ino_size i = FS_MAXFILEBLOCKS).
Proof.
  intros Hwf Hst Hnul Hlen Hty Hname. pose proof (tree_parent_spec Hwf user cs) as Hpar.
  destruct (new_inode_ok stack user ty Hst Hnul Hlen Hty) as (Hni & Hrefs & Hown & _).
  unfold does, create_spec, tree_create.
  destruct (parent_spec V user cs) as [e|[p i]] eqn:Hps; simpl; [by rewrite Hpar|].
  destruct Hpar as (-> & Hr & Hp). simpl.
  apply (parent_spec_inode Hwf) in Hps as (_ & _ & Ht).
  rewrite (tree_child V p i cs name Hr Hp Ht).
  unfold create_in. destruct (lookup_name name (listing V i)) as [c|] eqn:Hl; simpl.
  { assert (child_of V p name c) as Hc by (by exists i).
    destruct (child_of_inode Hwf _ _ _ Hc) as [_ [ci Hci]]. unfold entity_of.
    by rewrite (proj2 (inode_at_Some _ _) Hci). }
  assert (Some (new_entity user ty) = Some (if is_type (new_inode stack user ty) type_file
    then EFile (owner_name (new_inode stack user ty)) []
    else EDir (owner_name (new_inode stack user ty)))) as ->.
  { unfold owned_by in Hown. apply bool_decide_eq_true in Hown. unfold owner_name. rewrite Hown. done. }
  destruct fl as [|nb fl']; [right; by auto|].
  pose proof (free_u32 nb _ Hwf ltac:(by left)) as Hnb.
  destruct (first_slot V (inode_refs i)) as [s|] eqn:Hs.
  - left. split; [done|]. simpl. apply first_slot_Some in Hs as (Hin & Hes & e & He & Hu).
    destruct (wf_dir_ref Hwf _ _ _ Hp Ht Hin) as [es Hb]. unfold dir_entries in Hes. rewrite Hb in Hes.
    pose proof (wf_node _ _ Hwf _ _ Hb) as [_ Hall]. rewrite <-Hes in Hall. rewrite He. simpl.
    destruct (new_entry_ok e nb name (Forall_lookup_1 _ _ _ _ Hall He) Hname Hnb) as (Hok & Hn & _).
    eapply node_create_tree; eauto. by rewrite Hes.
  - destruct (wf_inode Hwf _ _ Hp) as (_ & Hle & _).
    destruct fl' as [|b fl'']; [right; split; [done|split; [done|right; left; eauto]]|].
    destruct (Z.eqb_spec (ino_size i) FS_MAXFILEBLOCKS);
      [right; split; [done|split; [done|right; right; eauto]]|].
    left. split; [done|]. simpl.
    destruct (new_entry_ok zero_direntry nb name ltac:(done) Hname Hnb) as (Hok & Hn & _).
    eapply node_create_grow_tree; eauto. lia.
Qed.

(** *** Deleting *)

Lemma lookup_remove_blocks bs (V : store) x :
  remove_blocks bs V !! x = if decide (x ∈ bs) then None else V !! x.
Proof.
  revert V; induction bs as [|b bs IH]; intros V; simpl.
  - done.
  - rewrite IH. destruct (decide (x ∈ bs)) as [Hx|Hx].
    + rewrite decide_True; [done|by right].
    + rewrite lookup_delete. destruct (decide (b = x)) as [->|Hb].
      * rewrite decide_True; [done|by left].
      * rewrite decide_False; [done|]. by intros [->|?]%elem_of_cons.
Qed.

Lemma tree_remove V V' fl cs name p i i' c0 :
  fs_wf V fl → resolve V ROOT_INODE cs = Some p → V !! p = Some (NInode i) →
  ino_type i = type_dir → lookup_name name (listing V i) = Some c0 → c0 ≠ p →
  (∀ c, child V c0 c = None) → inode_at V' c0 = None →
  V' !! p = Some (NInode i') → ino_type i' = type_dir → ino_owner i' = ino_owner i →
  (∀ x, x ≠ p → x ≠ c0 → inode_at V' x = inode_at V x) →
  (∀ x j, x ≠ p → x ≠ c0 → V !! x = Some (NInode j) → ino_type j = type_dir →
     listing V' j = listing V j) →
  (∀ x j y, x ≠ c0 → V !! x = Some (NInode j) → ino_type j = type_file → y ∈ inode_refs j →
     V' !! y = V !! y) →
  (∀ c, lookup_name c (listing V' i') = if decide (c = name) then None
                                        else lookup_name c (listing V i)) →
  ∀ cs', tree V' cs' = update (tree V) (cs ++ [name]) None cs'.
Proof.
  intros Hwf Hr Hp Ht Hc0 Hne Hnone Hgone Hp' Ht' Ho Hino Hlist Hdata Hlook.
  assert (∀ b c, child V' b c = if decide (b = p ∧ c = name) then None else child V b c) as Hchild.
  { intros b c. destruct (decide (b = p)) as [->|Hb].
    - unfold child, inode_at. rewrite Hp, Hp', !(proj2 (is_type_true _ _)), Hlook by done.
      by destruct (decide (c = name)) as [->|Hc];
        [rewrite decide_True|rewrite decide_False by (by intros [_ ?])].
    - rewrite decide_False by (by intros [? _]). destruct (decide (b = c0)) as [->|Hb'].
      + rewrite Hnone. unfold child. by rewrite Hgone.
      + apply child_ext. rewrite Hino by done. destruct (inode_at V b) as [j|] eqn:Hj; [|done].
        apply inode_at_Some in Hj. split; [done|]. intros Hd. by eapply Hlist. }
  assert (child V p name = Some c0) as Hcn.
  { unfold child, inode_at. by rewrite Hp, (proj2 (is_type_true _ _)). }
  pose proof (resolve_remove V V' fl cs name p c0 Hwf Hr Hcn Hchild Hnone) as Hres.
  intros cs'. rewrite (tree_update V V' (cs ++ [name])).
  - unfold update. case_decide; [|done]. unfold tree. by rewrite Hres, decide_True.
  - intros cs1 H1. by rewrite Hres, decide_False.
  - intros cs1 b H1 Hb. destruct (resolve_inode Hwf _ _ Hb) as [j Hj].
    assert (b ≠ c0) as Hbc.
    { intros ->. apply H1. eapply (resolve_inj Hwf); [exact Hb|]. rewrite resolve_snoc, Hr. exact Hcn. }
    unfold entity_of. destruct (decide (b = p)) as [->|Hbp].
    + rewrite (proj2 (inode_at_Some _ _) Hp), (proj2 (inode_at_Some _ _) Hp'). simpl.
      rewrite !(proj2 (is_type_false _ _)) by (rewrite ?Ht, ?Ht'; done).
      unfold owner_name. by rewrite Ho.
    + rewrite Hino, (proj2 (inode_at_Some _ _) Hj) by done. simpl.
      destruct (is_type j type_file) eqn:Hf; [|done]. apply is_type_true in Hf.
      do 2 f_equal. apply list_fmap_ext. intros m y Hy%list_elem_of_lookup_2.
      unfold data_at. by rewrite (Hdata b j y).
Qed.

(** The entry [name] is gone from the directory, the others are still there. *)
Lemma unlink_lookup_name V fl p i k b es j e name :
  fs_wf V fl → V !! p = Some (NInode i) → ino_type i = type_dir →
  inode_refs i !! k = Some b → V !! b = Some (NDir es) → es !! j = Some e →
  unused e = false → c_str (de_name e) = Some name →
  ∃ i', node_unlink V p i k b es j !! p = Some (NInode i') ∧ ino_type i' = type_dir ∧
    ino_owner i' = ino_owner i ∧ (∀ x, x ∈ inode_refs i' → x ∈ inode_refs i) ∧
    ∀ c, lookup_name c (listing (node_unlink V p i k b es j) i') =
         if decide (c = name) then None else lookup_name c (listing V i).
Proof.
  intros Hwf Hp Ht Hk Hb Hj Hu Hn.
  pose proof (list_elem_of_lookup_2 _ _ _ Hk) as Hin.
  destruct (listing_set_entry V fl p i b es j e zero_direntry Hwf Hp Hin Hb Hj) as (rest & H1 & H2).
  pose proof (wf_names _ _ Hwf p i Hp Ht) as Hnd.
  assert (∀ c, lookup_name c rest = if decide (c = name) then None else lookup_name c (listing V i)) as Hrest.
  { intros c. rewrite (lookup_name_perm c _ _ Hnd H1), lookup_name_cons.
    rewrite (entry_named_new name c e (de_inode_block e)) by (done || by apply unused_false).
    destruct (decide (c = name)) as [->|Hc]; [|by rewrite bool_decide_eq_false_2].
    destruct (lookup_name name rest) as [x|] eqn:Hx; [|done]. exfalso.
    rewrite H1 in Hnd. change (e :: rest) with ([e] ++ rest) in Hnd. rewrite used_names_app in Hnd.
    apply NoDup_app in Hnd as (_ & Hd & _). eapply Hd.
    - apply entry_named_used. by rewrite (entry_named_new name name e (de_inode_block e)),
        bool_decide_eq_true_2 by (done || by apply unused_false).
    - apply lookup_name_Some in Hx as (q & e' & Hq & He' & Hne & Hn'). unfold used_names.
      apply list_elem_of_fmap. exists e'. split; [done|]. apply list_elem_of_filter.
      split; [apply unused_false; congruence|by eapply list_elem_of_lookup_2]. }
  assert (fs_wf (set_entry V b es j zero_direntry) fl) as Hwf1 by (by eapply fs_wf_set_entry).
  assert (set_entry V b es j zero_direntry !! p = Some (NInode i)) as Hp1
    by (unfold set_entry; rewrite lookup_insert_ne; congruence).
  assert (∀ c, lookup_name c (listing (set_entry V b es j zero_direntry) i) =
    if decide (c = name) then None else lookup_name c (listing V i)) as Hlook.
  { intros c. by rewrite (lookup_name_perm c _ _ (wf_names _ _ Hwf1 p i Hp1 Ht) H2),
      lookup_name_cons, <-Hrest. }
  unfold node_unlink. destruct (is_block_empty _) eqn:Hemp; [|exists i; split_and!; done].
  pose proof (lookup_lt_Some _ _ _ Hk) as Hlt. rewrite (wf_refs_length Hwf _ _ Hp) in Hlt.
  destruct (wf_inode Hwf _ _ Hp) as (Hok & Hle & _).
  destruct (inode_drop_ok i k Hok Hle Hlt) as [_ Hrefs].
  pose proof (delete_Permutation _ _ _ Hk) as Hperm.
  assert (b ∉ delete k (inode_refs i)) as Hnodup.
  { pose proof (wf_refs_nodup Hwf _ _ Hp) as Hd. rewrite Hperm in Hd. by apply NoDup_cons in Hd as [? _]. }
  assert (∀ x, x ∈ delete k (inode_refs i) → x ∈ inode_refs i) as Hsub
    by (intros x Hx; rewrite Hperm; by right).
  exists (inode_drop i k). split_and!; [|done|done| |].
  - simpl. rewrite lookup_delete_ne by congruence. apply lookup_insert_eq.
  - intros x. rewrite Hrefs. apply Hsub.
  - intros c. rewrite <-Hlook. unfold listing. rewrite Hrefs.
    assert (dir_entries (remove_blocks [b] (<[p:=NInode (inode_drop i k)]> V)) <$> delete k (inode_refs i) =
      dir_entries (set_entry V b es j zero_direntry) <$> delete k (inode_refs i)) as ->.
    { apply list_fmap_ext. intros m x Hx%list_elem_of_lookup_2.
      assert (x ≠ b) as Hxb by (intros ->; by apply Hnodup).
      assert (x ≠ p) as Hxp.
      { intros ->. destruct (wf_dir_ref Hwf _ _ p Hp Ht (Hsub _ Hx)). congruence. }
      unfold dir_entries, set_entry. simpl. rewrite lookup_delete_ne, !lookup_insert_ne by done. done. }
    pose proof (mjoin_delete (dir_entries (set_entry V b es j zero_direntry) <$> inode_refs i) k
      (<[j := zero_direntry]> es)) as Hm.
    rewrite list_lookup_fmap, Hk in Hm. simpl in Hm. unfold dir_entries at 1, set_entry at 1 in Hm.
    rewrite lookup_insert_eq in Hm. specialize (Hm eq_refl).
    pose proof (wf_names _ _ Hwf1 p i Hp1 Ht) as Hnd1.
    pose proof (lookup_name_perm c _ _ Hnd1 Hm) as Heq. unfold listing in Heq.
    rewrite Heq, lookup_name_app, (lookup_name_unused c (<[j:=zero_direntry]> es)).
    + by rewrite list_fmap_delete.
    + rewrite Forall_forall. intros x Hx. apply list_elem_of_In in Hx.
      exact (proj1 (forallb_forall _ _) Hemp x Hx).
Qed.

Lemma node_delete_tree V fl cs name p i k b es j e ci :
  fs_wf V fl → resolve V ROOT_INODE cs = Some p → V !! p = Some (NInode i) →
  ino_type i = type_dir → inode_refs i !! k = Some b → V !! b = Some (NDir es) →
  es !! j = Some e → unused e = false → c_str (de_name e) = Some name →
  V !! de_inode_block e = Some (NInode ci) → de_inode_block e ≠ p →
  (ino_type ci = type_file ∨ ino_size ci = 0) →
  lookup_name name (listing V i) = Some (de_inode_block e) →
  ∀ cs', tree (node_delete V p i k b es j (de_inode_block e) ci) cs' =
    update (tree V) (cs ++ [name]) None cs'.
Proof.
  intros Hwf Hr Hp Ht Hk Hb Hj Hu Hn Hci Hne Hempty Hl. set (c0 := de_inode_block e) in *.
  destruct (unlink_lookup_name V fl p i k b es j e name) as (i' & Hp1 & Ht1 & Ho1 & Hsub & Hlook); [done..|].
  set (V1 := node_unlink V p i k b es j) in *.
  assert (∀ y, y ∈ child_blocks c0 ci → y = c0 ∨ (ino_type ci = type_file ∧ y ∈ inode_refs ci ∧
    ∃ v, V !! y = Some (NData v))) as Hcb.
  { intros y [->|Hy]%elem_of_cons; [by left|right]. destruct (is_type ci type_file) eqn:Hf.
    - apply is_type_true in Hf. split_and!; [done..|]. by eapply (wf_file_ref Hwf).
    - by apply elem_of_nil in Hy. }
  assert (∀ x, x ∉ child_blocks c0 ci → x ≠ p → x ≠ b →
    node_delete V p i k b es j c0 ci !! x = V !! x) as Hother.
  { intros x Hx Hxp Hxb. unfold node_delete. rewrite lookup_remove_blocks, decide_False by done.
    by apply unlink_lookup. }
  assert (∀ y m, V !! y = Some (NDir m) → y ∉ child_blocks c0 ci) as Hdir
    by (intros y m Hy [->|(_ & _ & v & Hv)]%Hcb; congruence).
  assert (∀ y m, V !! y = Some (NInode m) → y ≠ c0 → y ∉ child_blocks c0 ci) as Hinode
    by (intros y m Hy Hyc [->|(_ & _ & v & Hv)]%Hcb; congruence).
  assert (node_delete V p i k b es j c0 ci !! p = Some (NInode i')) as Hp'.
  { unfold node_delete. rewrite lookup_remove_blocks, decide_False; [done|]. by eapply Hinode. }
  eapply (tree_remove V _ fl cs name p i i' c0); try done.
  - intros c. unfold child. rewrite (proj2 (inode_at_Some _ _) Hci).
    destruct (is_type ci type_dir) eqn:Hd; [|done]. apply is_type_true in Hd.
    destruct Hempty as [Hf|Hz]; [rewrite Hd in Hf; done|].
    unfold listing, inode_refs. by rewrite Hz.
  - unfold inode_at, node_delete. rewrite lookup_remove_blocks, decide_True; [done|by left].
  - intros x Hxp Hxc. destruct (decide (x = b)) as [->|Hxb].
    + unfold inode_at. rewrite Hb. unfold node_delete. rewrite lookup_remove_blocks.
      case_decide; [done|]. unfold V1, node_unlink. destruct (is_block_empty _); simpl.
      * by rewrite lookup_delete_eq.
      * unfold set_entry. by rewrite lookup_insert_eq.
    + destruct (decide (x ∈ child_blocks c0 ci)) as [Hx|Hx]; unfold inode_at.
      * unfold node_delete. rewrite lookup_remove_blocks, decide_True by done.
        destruct (Hcb _ Hx) as [->|(_ & _ & v & ->)]; done.
      * by rewrite Hother.
  - intros x m Hxp Hxc Hx Hd. apply listing_ext. intros y Hy. unfold dir_entries.
    destruct (wf_dir_ref Hwf _ _ _ Hx Hd Hy) as [ys Hys]. rewrite Hother; [done|by eapply Hdir|congruence|].
    intros ->. destruct Hxp. symmetry. eapply dir_block_owner; [exact Hwf|exact Hp|exact Hx| |done].
    by eapply list_elem_of_lookup_2.
  - intros x m y Hxc Hx Hf Hy. destruct (wf_file_ref Hwf _ _ _ Hx Hf Hy) as [v Hv].
    rewrite Hother; [done| |congruence..]. intros [->|(Hfc & Hin & _)]%Hcb; [congruence|].
    apply list_elem_of_lookup in Hin as [q Hq]. apply list_elem_of_lookup in Hy as [q' Hq'].
    by destruct (wf_unique _ _ Hwf c0 q x q' y) as [-> _]; eauto using @wf_inode_refers.
  - intros c. rewrite <-Hlook. f_equal. apply listing_ext. intros y Hy%Hsub.
    destruct (wf_dir_ref Hwf _ _ _ Hp Ht Hy) as [ys Hys].
    unfold dir_entries, node_delete. fold V1. rewrite lookup_remove_blocks, decide_False; [done|].
    by eapply Hdir.
Qed.

(** *** Directories without entries *)

(** Every directory block holds an entry, and every entry has a name.  The
    requests keep this: a block that becomes empty is dropped. *)
Definition fs_compact (V : store) : Prop :=
  ∀ b es, V !! b = Some (NDir es) → is_block_empty es = false ∧
    Forall (λ e, unused e = false → is_Some (c_str (de_name e))) es.

Lemma compact_empty V fl cs t i :
  fs_wf V fl → fs_compact V → resolve V ROOT_INODE cs = Some t → V !! t = Some (NInode i) →
  ino_type i = type_dir → (∀ c, tree V (cs ++ [c]) = None) ↔ ino_size i = 0.
Proof.
  intros Hwf Hcomp Hr Ht Hd.
  assert (∀ c, tree V (cs ++ [c]) = lookup_name c (listing V i) ≫= entity_of V) as Htree.
  { intros c. unfold tree. rewrite resolve_snoc, Hr. simpl. unfold child.
    by rewrite (proj2 (inode_at_Some _ _) Ht), (proj2 (is_type_true _ _) Hd). }
  split.
  - intros Hnone. destruct (inode_refs i) as [|b bs] eqn:Hrefs.
    { pose proof (wf_refs_length Hwf _ _ Ht) as Hlen. rewrite Hrefs in Hlen.
      destruct (wf_inode Hwf _ _ Ht) as ((_ & [? _] & _) & _). simpl in Hlen. lia. }
    assert (b ∈ inode_refs i) as Hin by (rewrite Hrefs; by left).
    destruct (wf_dir_ref Hwf _ _ _ Ht Hd Hin) as [es Hes]. destruct (Hcomp _ _ Hes) as [Hne Hall].
    apply not_true_iff_false in Hne. exfalso. apply Hne, forallb_forall. intros e He.
    destruct (unused e) eqn:Hu; [done|]. apply list_elem_of_In in He.
    rewrite Forall_forall in Hall. destruct (Hall _ He Hu) as [n Hn].
    specialize (Hnone n). rewrite Htree in Hnone.
    destruct (lookup_name n (listing V i)) as [c|] eqn:Hl; simpl in Hnone.
    + assert (child_of V t n c) as Hc by (by exists i).
      destruct (child_of_inode Hwf _ _ _ Hc) as [_ [ci Hci]]. unfold entity_of in Hnone.
      by rewrite (proj2 (inode_at_Some _ _) Hci) in Hnone.
    + apply lookup_name_None in Hl. destruct Hl. unfold used_names. apply list_elem_of_fmap.
      exists e. split; [done|]. apply list_elem_of_filter. split; [done|].
      apply list_elem_of_join. exists es. split; [done|]. apply list_elem_of_fmap. exists b.
      split; [|done]. unfold dir_entries. by rewrite Hes.
  - intros Hz c. rewrite Htree. unfold listing, inode_refs. by rewrite Hz.
Qed.

Lemma delete_spec_tree V fl user cs name empty :
  fs_wf V fl → fs_compact V →
  (empty = true ↔ ∀ c, tree V ((cs ++ [name]) ++ [c]) = None) →
  does V (delete_spec V fl user cs name) (tree_delete (tree V) user cs name empty) "" False.
Proof.
  intros Hwf Hcomp Hempty. pose proof (tree_parent_spec Hwf user cs) as Hpar.
  unfold does, delete_spec, tree_delete.
  destruct (parent_spec V user cs) as [e|[p i]] eqn:Hps; simpl; [by rewrite Hpar|].
  destruct Hpar as (-> & Hr & Hp). simpl.
  apply (parent_spec_inode Hwf) in Hps as (Hw & _ & Ht).
  pose proof (find_entry_lookup V name (inode_refs i) 0) as Hl. fold (listing V i) in Hl.
  assert (resolve V ROOT_INODE (cs ++ [name]) = lookup_name name (listing V i)) as Hrc.
  { rewrite resolve_snoc, Hr. simpl. unfold child.
    by rewrite (proj2 (inode_at_Some _ _) Hp), (proj2 (is_type_true _ _) Ht). }
  unfold tree at 1. rewrite Hrc, Hl.
  destruct (find_entry V name (inode_refs i) 0) as [q|] eqn:Hq; simpl; [|done].
  simpl in Hl. assert (child_of V p name (pos_child q)) as Hchild by (by exists i).
  destruct (find_entry_Some _ _ _ _ _ (Z.le_refl 0) Hq) as (k & b & e & Hk & Hb & Hes & He & Hu & Hc & Hn).
  rewrite Z.add_0_l in Hk. unfold delete_in. rewrite Hk, Nat2Z.id, Hb.
  destruct (wf_dir_ref Hwf _ _ _ Hp Ht ltac:(by eapply list_elem_of_lookup_2)) as [es Hdir].
  unfold dir_entries in Hes. rewrite Hdir in Hes.
  destruct (child_of_inode Hwf _ _ _ Hchild) as [_ [ci Hci]]. unfold entity_of.
  rewrite (proj2 (inode_at_Some _ _) Hci). simpl. rewrite (owner_name_eq Hwf _ _ _ Hci).
  assert (entity_owner (if is_type ci type_file then EFile (owner_name ci) (data_at V <$> inode_refs ci)
     else EDir (owner_name ci)) = owner_name ci) as -> by (by destruct (is_type ci type_file)).
  destruct (bool_decide (owner_name ci = user)); simpl; [|done].
  rewrite (type_cases Hwf _ _ Hci).
  assert (ino_type ci = type_dir → empty = (ino_size ci =? 0)) as Hsz.
  { intros Hd. rewrite Hl in Hrc. pose proof (compact_empty V fl _ _ _ Hwf Hcomp Hrc Hci Hd) as Hz.
    destruct (Z.eqb_spec (ino_size ci) 0) as [Hs|Hs]; [by apply Hempty, Hz|].
    apply not_true_iff_false. intros Htrue. by apply Hs, Hz, Hempty. }
  assert (de_inode_block e ≠ p) as Hne.
  { rewrite Hc. intros Heq. rewrite Heq in Hchild. by eapply walk_spec_acyclic. }
  destruct (is_type ci type_file) eqn:Hf; simpl.
  - left. split; [done|]. simpl. apply is_type_true in Hf. rewrite Hes, <-Hc in *.
    eapply node_delete_tree; eauto.
  - assert (ino_type ci = type_dir) as Hd.
    { pose proof (type_cases Hwf _ _ Hci) as Htc. rewrite Hf in Htc. by apply is_type_true. }
    rewrite (Hsz Hd). destruct (Z.eqb_spec (ino_size ci) 0); simpl; [|done].
    left. split; [done|]. simpl. rewrite Hes, <-Hc in *. eapply node_delete_tree; eauto.
Qed.

(** *** The requests keep stores compact *)

Definition compact_entries (es : list fs_direntry) : Prop :=
  is_block_empty es = false ∧ Forall (λ e, unused e = false → is_Some (c_str (de_name e))) es.

Lemma fs_compact_insert V b n :
  fs_compact V → match n with NDir es => compact_entries es | _ => True end →
  fs_compact (<[b := n]> V).
Proof.
  intros Hc Hn x es. rewrite lookup_insert. case_decide; [|by apply Hc]. intros [= ->]. done.
Qed.

Lemma fs_compact_remove bs V : fs_compact V → fs_compact (remove_blocks bs V).
Proof. intros Hc x es. rewrite lookup_remove_blocks. case_decide; [done|]. apply Hc. Qed.

Lemma compact_entries_set es j e :
  (j < length es)%nat → unused e = false → is_Some (c_str (de_name e)) →
  Forall (λ e, unused e = false → is_Some (c_str (de_name e))) es → compact_entries (<[j := e]> es).
Proof.
  intros Hj Hu Hn Hall. split; [|by apply Forall_insert].
  apply not_true_iff_false. unfold is_block_empty. intros He.
  assert (In e (<[j := e]> es)) as Hin
    by (apply list_elem_of_In; by apply list_elem_of_insert).
  apply (proj1 (forallb_forall _ _) He) in Hin. congruence.
Qed.

Lemma write_spec_compact V fl user cs name k v :
  fs_compact V → fs_compact (res_store (write_spec V fl user cs name k v)).
Proof.
  intros Hc. unfold write_spec. destruct (target_spec V user cs name); [done|].
  destruct (inode_at V z) as [i|]; [|done]. repeat case_match; try done.
  unfold write_file. destruct (_ =? _); [destruct fl as [|b fl']; [done|]; destruct (_ =? _); [done|]|].
  - by repeat apply fs_compact_insert.
  - case_match; [|done]. by apply fs_compact_insert.
Qed.

Lemma create_spec_compact V fl stack user cs name ty :
  fs_wf V fl → fs_compact V → good_name name →
  fs_compact (res_store (create_spec V fl stack user cs name ty)).
Proof.
  intros Hwf Hc Hname. unfold create_spec.
  destruct (parent_spec V user cs) as [e|[p i]] eqn:Hps; [done|].
  apply (parent_spec_inode Hwf) in Hps as (_ & Hp & Ht). unfold create_in.
  destruct (lookup_name name (listing V i)); [done|]. destruct fl as [|nb fl']; [done|].
  pose proof (free_u32 nb _ Hwf ltac:(by left)) as Hnb.
  pose proof (wf_free_not_root Hwf nb ltac:(by left)) as Hnb0.
  destruct (first_slot V (inode_refs i)) as [s|] eqn:Hs.
  - apply first_slot_Some in Hs as (Hin & Hes & e & He & Hu). rewrite He. simpl.
    destruct (wf_dir_ref Hwf _ _ _ Hp Ht Hin) as [es Hb]. unfold dir_entries in Hes. rewrite Hb in Hes.
    pose proof (wf_node _ _ Hwf _ _ Hb) as [_ Hall]. rewrite <-Hes in Hall.
    destruct (new_entry_ok e nb name (Forall_lookup_1 _ _ _ _ Hall He) Hname Hnb) as (_ & Hn & _).
    apply fs_compact_insert; [by apply fs_compact_insert|].
    apply compact_entries_set; [by eapply lookup_lt_Some|by apply unused_false|by rewrite Hn; eauto|].
    rewrite Hes. by apply (Hc _ _ Hb).
  - destruct fl' as [|b fl'']; [done|]. destruct (_ =? _); [done|].
    destruct (new_entry_ok zero_direntry nb name ltac:(done) Hname Hnb) as (_ & Hn & _).
    apply fs_compact_insert; [|done]. apply fs_compact_insert; [by apply fs_compact_insert|].
    apply compact_entries_set; [vm_compute; lia|by apply unused_false|by rewrite Hn; eauto|].
    by apply Forall_replicate.
Qed.

Lemma delete_spec_compact V fl user cs name :
  fs_wf V fl → fs_compact V → fs_compact (res_store (delete_spec V fl user cs name)).
Proof.
  intros Hwf Hc. unfold delete_spec.
  destruct (parent_spec V user cs) as [e|[p i]] eqn:Hps; [done|].
  apply (parent_spec_inode Hwf) in Hps as (_ & Hp & Ht).
  destruct (find_entry V name (inode_refs i) 0) as [q|] eqn:Hq; [|done].
  destruct (find_entry_Some _ _ _ _ _ (Z.le_refl 0) Hq) as (k & b & e & Hk & Hb & Hes & He & Hu & _).
  rewrite Z.add_0_l in Hk. unfold delete_in. rewrite Hk, Nat2Z.id, Hb.
  destruct (wf_dir_ref Hwf _ _ _ Hp Ht ltac:(by eapply list_elem_of_lookup_2)) as [es Hdir].
  unfold dir_entries in Hes. rewrite Hdir in Hes.
  destruct (inode_at V (pos_child q)) as [ci|]; [|done].
  destruct (negb _); [done|]. destruct (_ && _); [done|].
  simpl. apply fs_compact_remove. unfold node_unlink. destruct (is_block_empty _) eqn:Hemp.
  - apply fs_compact_remove. by apply fs_compact_insert.
  - apply fs_compact_insert; [done|]. split; [done|]. apply Forall_insert; [|done].
    rewrite Hes. by apply (Hc _ _ Hdir).
Qed.
