(* ===== verification/FsBoot.v ===== *)
(** * Finding the free blocks

    The constructor [FileSystem::FileSystem] walks the directory tree from the
    root and puts every block it did not meet on the free list.  On a disk
    that holds a store all of whose blocks are reachable, the walk meets
    exactly the blocks of the store, each inode once. *)
From S2P Require Import Prelude Layout Locks Prog FileSystem FsModel FsStore FsPaths FsRun.
Import FileSystem.

Local Open Scope Z_scope.

(** The inodes named in some entries. *)
Definition children (es : list fs_direntry) : list Z :=
  de_inode_block <$> filter (λ e, unused e = false) es.

(** Inode [c] is a child of inode [b]. *)
Definition names_child (V : store) (b c : Z) : Prop :=
  ∃ i, V !! b = Some (NInode i) ∧ ino_type i = type_dir ∧ c ∈ children (listing V i).

(** Every block of the store can be reached from the root. *)
Definition all_reachable (V : store) : Prop :=
  ∀ b, is_Some (V !! b) → rtc (λ x y, ∃ p, refers V x p y) 0 b.

Lemma bfs_entries_eq es used search :
  bfs_entries es used search = (list_to_set (children es) ∪ used, search ++ children es).
Proof.
  revert used search; induction es as [|e es IH]; intros used search.
  - unfold bfs_entries, children. simpl. rewrite app_nil_r. f_equal. set_solver.
  - unfold bfs_entries in *. simpl. unfold children in *. rewrite filter_cons.
    destruct (unused e) eqn:Hu; rewrite IH; case_decide; try done.
    simpl. rewrite <-(assoc_L (++)). f_equal. set_solver.
Qed.

Section boot.
Context {D L : Type} `{DiskSpec D} `{InodeLocksSpec L}.
Abbreviation exec := (exec (D:=D) (L:=L)).
Context {V : store} (Hwf : fs_wf V []).

Lemma bfs_file_inode_eq b i used :
  V !! b = Some (NInode i) →
  bfs_file_inode i used = Ret (list_to_set (inode_refs i) ∪ used).
Proof.
  intros Hb. pose proof (wf_refs_length Hwf _ _ Hb) as Hlen. unfold bfs_file_inode.
  set (go := fix go (n : nat) (k : Z) (used : gset Z) : prog (gset Z) := _).
  assert (∀ n k used, (n + k = Z.to_nat (ino_size i))%nat →
    go n (Z.of_nat k) used = Ret (list_to_set (drop k (inode_refs i)) ∪ used)) as Hgo.
  { induction n as [|n IH]; intros k u Hk.
    - rewrite drop_ge by lia. simpl. f_equal. set_solver.
    - destruct (lookup_lt_is_Some_2 (inode_refs i) k ltac:(lia)) as [x Hx].
      cbn [go]. rewrite (inode_block_at_ref _ _ _ Hx), ret_bind.
      replace (Z.of_nat k + 1) with (Z.of_nat (S k)) by lia. rewrite IH by lia.
      rewrite (drop_S _ _ _ Hx). f_equal. set_solver. }
  rewrite (Hgo _ 0%nat used) by lia. by rewrite drop_0.
Qed.

Lemma bfs_directory_inode_run b i used search fl h :
  V !! b = Some (NInode i) → ino_type i = type_dir →
  exec V fl h (bfs_directory_inode i used search)
    (Done (list_to_set (inode_refs i) ∪ list_to_set (children (listing V i)) ∪ used,
           search ++ children (listing V i))) V fl h.
Proof.
  intros Hb Ht. pose proof (wf_refs_length Hwf _ _ Hb) as Hlen. unfold bfs_directory_inode.
  set (go := fix go (n : nat) (k : Z) (used : gset Z) (search : list Z) : prog (gset Z * list Z) := _).
  assert (∀ n k used search, (n + k = Z.to_nat (ino_size i))%nat →
    exec V fl h (go n (Z.of_nat k) used search)
      (Done (list_to_set (drop k (inode_refs i)) ∪
             list_to_set (children (mjoin (dir_entries V <$> drop k (inode_refs i)))) ∪ used,
             search ++ children (mjoin (dir_entries V <$> drop k (inode_refs i))))) V fl h) as Hgo.
  { induction n as [|n IH]; intros k u s Hk.
    - rewrite drop_ge by lia. cbn. rewrite app_nil_r.
      replace (∅ ∪ ∅ ∪ u : gset Z) with u by set_solver. apply exec_ret.
    - destruct (lookup_lt_is_Some_2 (inode_refs i) k ltac:(lia)) as [x Hx].
      destruct (wf_dir_ref Hwf b i x Hb Ht ltac:(by eapply list_elem_of_lookup_2)) as [es Hes].
      cbn [go]. rewrite (inode_block_at_ref _ _ _ Hx), ret_bind.
      eapply exec_bind; [by apply exec_read_direntries|].
      replace (Z.of_nat k + 1) with (Z.of_nat (S k)) by lia.
      rewrite bfs_entries_eq. rewrite (drop_S _ _ _ Hx). cbn [fmap list_fmap mjoin list_join].
      assert (dir_entries V x = es) as -> by (unfold dir_entries; by rewrite Hes).
      assert (children (es ++ mjoin (dir_entries V <$> drop (S k) (inode_refs i))) =
        children es ++ children (mjoin (dir_entries V <$> drop (S k) (inode_refs i)))) as Hch
        by (unfold children; by rewrite filter_app, fmap_app).
      specialize (IH (S k) (list_to_set (children es) ∪ ({[x]} ∪ u)) (s ++ children es) ltac:(lia)).
      unfold mjoin in Hch |- *. rewrite Hch. rewrite <-(assoc_L (++)) in IH.
      match goal with |- context [Done (?U, _)] => match type of IH with context [Done (?U', _)] =>
        replace U with U'; [exact IH|set_solver] end end. }
  pose proof (Hgo (Z.to_nat (ino_size i)) 0%nat used search ltac:(lia)) as Hr.
  by rewrite drop_0 in Hr.
Qed.

(** ** The search *)

(** What has been met when the inodes [done] were searched and those of
    [search] are waiting. *)
Record bfs_inv (used : gset Z) (seen search : list Z) : Prop := {
  bi_nodup : NoDup (seen ++ search);
  bi_inode b : b ∈ seen ++ search → ∃ i, V !! b = Some (NInode i);
  bi_used b : b ∈ seen ++ search → b ∈ used;
  bi_root : 0 ∈ seen ++ search;
  bi_stored b : b ∈ used → is_Some (V !! b);
  bi_seen b i : b ∈ used → V !! b = Some (NInode i) → b ∈ seen ++ search;
  bi_refs b p c : b ∈ seen → refers V b p c → c ∈ used;
  bi_dirs b es c : b ∈ used → V !! b = Some (NDir es) → c ∈ children es → c ∈ used;
  bi_parent c : c ∈ seen ++ search → c ≠ 0 → ∃ b, b ∈ seen ∧ names_child V b c;
}.

Lemma children_elem es c : c ∈ children es ↔ ∃ j e, es !! j = Some e ∧ unused e = false ∧ de_inode_block e = c.
Proof.
  unfold children. rewrite list_elem_of_fmap. setoid_rewrite list_elem_of_filter.
  setoid_rewrite list_elem_of_lookup. naive_solver.
Qed.

Lemma names_child_block b c :
  names_child V b c →
  ∃ i k db es j, V !! b = Some (NInode i) ∧ inode_refs i !! k = Some db ∧ V !! db = Some (NDir es) ∧
    refers V db j c ∧ (∃ ci, V !! c = Some (NInode ci)) ∧ c ≠ 0.
Proof.
  intros (i & Hb & Ht & (q & e & Hq & Hu & <-)%children_elem).
  destruct (listing_lookup_inv _ _ _ _ Hq) as (k & db & es & j & Hk & Hdb & Hj).
  destruct (wf_entry_inode Hwf _ _ _ _ Hdb Hj Hu) as [Hr Hci].
  exists i, k, db, es, j. split_and!; try done. by apply unused_false.
Qed.

(** A child has one parent, and is named once. *)
Lemma names_child_inj b b' c : names_child V b c → names_child V b' c → b = b'.
Proof.
  intros (i & k & db & es & j & Hb & Hk & Hdb & Hr & _)%names_child_block
    (i' & k' & db' & es' & j' & Hb' & Hk' & Hdb' & Hr' & _)%names_child_block.
  destruct (wf_unique _ _ Hwf _ _ _ _ _ Hr Hr') as [-> _].
  by destruct (wf_unique _ _ Hwf b k b' k' db') as [-> _]; eauto using @wf_inode_refers.
Qed.

Lemma children_nodup es :
  (∀ j1 j2 e1 e2, es !! j1 = Some e1 → es !! j2 = Some e2 → unused e1 = false →
     de_inode_block e1 = de_inode_block e2 → j1 = j2) → NoDup (children es).
Proof.
  induction es as [|e es IH]; intros Hinj; [constructor|].
  assert (NoDup (children es)) as Hnd.
  { apply IH. intros j1 j2 e1 e2 E1 E2 Hu He. by injection (Hinj (S j1) (S j2) e1 e2 E1 E2 Hu He). }
  unfold children in *. rewrite filter_cons. case_decide as Hu; [|done]. simpl.
  apply NoDup_cons. split; [|done]. intros (j & e' & Hj & Hu' & He)%children_elem.
  by specialize (Hinj O (S j) e e' eq_refl Hj Hu (eq_sym He)).
Qed.

Lemma children_app es es' : children (es ++ es') = children es ++ children es'.
Proof. unfold children. by rewrite filter_app, fmap_app. Qed.

Lemma listing_children_nodup b i :
  V !! b = Some (NInode i) → ino_type i = type_dir → NoDup (children (listing V i)).
Proof.
  intros Hb Ht. pose proof (wf_refs_nodup Hwf _ _ Hb) as Hnd.
  assert (∀ x, x ∈ inode_refs i → ∃ es, V !! x = Some (NDir es)) as Hdirs
    by (intros x Hx; by eapply (wf_dir_ref Hwf)).
  unfold listing. revert Hnd Hdirs. generalize (inode_refs i) as bs. clear b i Hb Ht.
  induction bs as [|x bs IH]; intros Hnd Hdirs; [constructor|].
  apply NoDup_cons in Hnd as [Hx Hnd]. cbn [fmap list_fmap mjoin list_join]. rewrite children_app.
  destruct (Hdirs x ltac:(by left)) as [es Hes].
  assert (dir_entries V x = es) as -> by (unfold dir_entries; by rewrite Hes).
  apply NoDup_app. split_and!.
  - apply children_nodup. intros j1 j2 e1 e2 E1 E2 Hu He.
    destruct (wf_entry_inode Hwf _ _ _ _ Hes E1 Hu) as [R1 _].
    assert (unused e2 = false) as Hu2 by (apply unused_false; rewrite <-He; by apply unused_false).
    destruct (wf_entry_inode Hwf _ _ _ _ Hes E2 Hu2) as [R2 _]. rewrite <-He in R2.
    by destruct (wf_unique _ _ Hwf _ _ _ _ _ R1 R2).
  - intros c (j1 & e1 & E1 & Hu1 & <-)%children_elem (q & e2 & Hq & Hu2 & Heq)%children_elem.
    apply list_elem_of_lookup_2, list_elem_of_join in Hq as (es2 & He2 & Hes2).
    apply list_elem_of_fmap in Hes2 as (y & -> & Hy).
    destruct (Hdirs y ltac:(by right)) as [ys Hys]. unfold dir_entries in He2. rewrite Hys in He2.
    apply list_elem_of_lookup in He2 as [j2 E2].
    destruct (wf_entry_inode Hwf _ _ _ _ Hes E1 Hu1) as [R1 _].
    destruct (wf_entry_inode Hwf _ _ _ _ Hys E2 Hu2) as [R2 _]. rewrite Heq in R2.
    destruct (wf_unique _ _ Hwf _ _ _ _ _ R1 R2) as [-> _]. done.
  - apply IH; [done|]. intros y Hy. apply Hdirs. by right.
Qed.

Lemma bfs_inv_start : bfs_inv {[0]} [] [0].
Proof.
  destruct (wf_root _ _ Hwf) as (i & Hi & _). split; simpl.
  - apply NoDup_singleton.
  - intros b ->%list_elem_of_singleton. by exists i.
  - intros b ->%list_elem_of_singleton. set_solver.
  - by left.
  - intros b ->%elem_of_singleton. by exists (NInode i).
  - intros b i' ->%elem_of_singleton _. by left.
  - intros b p c Hb. by apply elem_of_nil in Hb.
  - intros b es c ->%elem_of_singleton Hb. congruence.
  - intros c ->%list_elem_of_singleton. done.
Qed.

(** One inode searched. *)
Lemma bfs_inv_file used seen b search i :
  bfs_inv used seen (b :: search) → V !! b = Some (NInode i) → ino_type i = type_file →
  bfs_inv (list_to_set (inode_refs i) ∪ used) (seen ++ [b]) search.
Proof.
  intros [Hnd Hino Huse Hroot Hst Hseen Hrefs Hdirs Hpar] Hb Ht.
  rewrite (cons_middle b seen search), (assoc_L (++) seen [b] search) in Hnd, Hino, Huse, Hroot, Hseen, Hpar.
  assert (∀ x, x ∈ inode_refs i → ∃ v, V !! x = Some (NData v)) as Hdata
    by (intros x Hx; by eapply (wf_file_ref Hwf)).
  split; try done.
  - intros x Hx. apply elem_of_union_r. auto.
  - intros x [Hx%elem_of_list_to_set|Hx]%elem_of_union; [|auto].
    destruct (Hdata _ Hx). eauto.
  - intros x i' [Hx%elem_of_list_to_set|Hx]%elem_of_union Hi'; [|eauto].
    destruct (Hdata _ Hx). congruence.
  - intros x p c [Hx| ->%list_elem_of_singleton]%elem_of_app Hr; apply elem_of_union; [right; eauto|left].
    destruct Hr as (_ & n & Hn & Hp). simplify_eq. apply elem_of_list_to_set.
    by eapply list_elem_of_lookup_2.
  - intros x es c [Hx%elem_of_list_to_set|Hx]%elem_of_union Hes Hc; [|apply elem_of_union_r; eauto].
    destruct (Hdata _ Hx). congruence.
  - intros c Hc Hc0. destruct (Hpar c Hc Hc0) as (g & Hg & Hgc). exists g. split; [|done].
    apply elem_of_app. by left.
Qed.

Lemma bfs_inv_dir used seen b search i :
  bfs_inv used seen (b :: search) → V !! b = Some (NInode i) → ino_type i = type_dir →
  bfs_inv (list_to_set (inode_refs i) ∪ list_to_set (children (listing V i)) ∪ used)
    (seen ++ [b]) (search ++ children (listing V i)).
Proof.
  intros [Hnd Hino Huse Hroot Hst Hseen Hrefs Hdirs Hpar] Hb Ht.
  assert ((seen ++ [b]) ++ search ++ children (listing V i) =
    (seen ++ b :: search) ++ children (listing V i)) as Heq by (by rewrite <-!(assoc_L (++))).
  assert (∀ x, x ∈ inode_refs i → ∃ es, V !! x = Some (NDir es)) as Hdb
    by (intros x Hx; by eapply (wf_dir_ref Hwf)).
  assert (∀ c, c ∈ children (listing V i) → names_child V b c) as Hch by (intros c Hc; by exists i).
  assert (∀ c, c ∈ children (listing V i) → ∃ ci, V !! c = Some (NInode ci)) as Hci.
  { intros c Hc. by destruct (names_child_block _ _ (Hch c Hc)) as (? & ? & ? & ? & ? & ? & ? & ? & ? & ? & ?). }
  assert (b ∉ seen) as Hbs.
  { intros Hin. apply NoDup_app in Hnd as (_ & Hd & _). apply (Hd b Hin). by left. }
  assert (∀ x e es j, V !! x = Some (NDir es) → x ∈ inode_refs i → es !! j = Some e → unused e = false →
    de_inode_block e ∈ children (listing V i)) as Hin.
  { intros x e es j Hx Hxi Hj Hu. unfold children. apply list_elem_of_fmap. exists e. split; [done|].
    apply list_elem_of_filter. split; [done|]. apply list_elem_of_join. exists es.
    split; [by eapply list_elem_of_lookup_2|]. apply list_elem_of_fmap. exists x. split; [|done].
    unfold dir_entries. by rewrite Hx. }
  split; rewrite ?Heq.
  - apply NoDup_app. split_and!; [done| |by eapply listing_children_nodup].
    intros c Hc Hcc. pose proof (Hch c Hcc) as Hbc. destruct (decide (c = 0)) as [->|Hc0].
    { by destruct (names_child_block _ _ Hbc) as (? & ? & ? & ? & ? & ? & ? & ? & ? & ? & ?). }
    destruct (Hpar c Hc Hc0) as (g & Hg & Hgc). by rewrite (names_child_inj _ _ _ Hgc Hbc) in Hg.
  - intros x [Hx|Hx]%elem_of_app; eauto.
  - intros x [Hx|Hx]%elem_of_app; rewrite !elem_of_union; [right; auto|].
    left; right. by apply elem_of_list_to_set.
  - apply elem_of_app. by left.
  - intros x. rewrite !elem_of_union, !elem_of_list_to_set. intros [[Hx|Hx]|Hx]; [..|auto].
    + destruct (Hdb _ Hx). eauto.
    + destruct (Hci _ Hx). eauto.
  - intros x i'. rewrite !elem_of_union, !elem_of_list_to_set. intros [[Hx|Hx]|Hx] Hi'; rewrite elem_of_app.
    + destruct (Hdb _ Hx). congruence.
    + by right.
    + left. eauto.
  - intros x p c. rewrite elem_of_app, list_elem_of_singleton. intros [Hx| ->] Hr; rewrite !elem_of_union.
    + right. eauto.
    + left; left. destruct Hr as (_ & n & Hn & Hp). simplify_eq. apply elem_of_list_to_set.
      by eapply list_elem_of_lookup_2.
  - intros x es c. rewrite !elem_of_union, !elem_of_list_to_set. intros [[Hx|Hx]|Hx] Hes Hc.
    + apply children_elem in Hc as (j & e & Hj & Hu & <-). left; right. by eapply Hin.
    + destruct (Hci _ Hx). congruence.
    + right. eauto.
  - intros c [Hc|Hc]%elem_of_app Hc0.
    + destruct (Hpar c Hc Hc0) as (g & Hg & Hgc). exists g. split; [|done]. apply elem_of_app. by left.
    + exists b. split; [apply elem_of_app; right; by left|auto].
Qed.

(** When nothing is waiting, everything reachable was met. *)
Lemma bfs_inv_end used seen :
  all_reachable V → bfs_inv used seen [] → used = dom V.
Proof.
  intros Hall [_ _ Huse Hroot Hst Hseen Hrefs Hdirs _]. rewrite app_nil_r in *.
  apply set_eq. intros x. rewrite elem_of_dom. split; [apply Hst|]. intros Hx.
  specialize (Hall x Hx). clear Hx. revert x Hall. apply rtc_ind_r; [auto|].
  intros y z _ [p Hyz] IH.
  destruct Hyz as (Hz & n & Hn & Hp). destruct n as [i|es|v].
  - eapply (Hrefs y p); [by eapply Hseen|]. split; eauto.
  - simpl in Hp. rewrite list_lookup_fmap in Hp. destruct (es !! p) as [e|] eqn:He; simplify_eq/=.
    eapply Hdirs; eauto. apply children_elem. exists p, e. split_and!; try done. by apply unused_false.
  - done.
Qed.

(** The search ends when every inode was searched once. *)
Lemma find_free_blocks_run fuel used seen search fl h :
  all_reachable V → bfs_inv used seen search →
  (size (dom V) <= fuel + length seen)%nat →
  exec V fl h (find_free_blocks fuel used search) (Done (Some (dom V))) V fl h.
Proof.
  intros Hall. revert used seen search; induction fuel as [|fuel IH]; intros used seen search Hinv Hfuel.
  - destruct search as [|b search]; cbn [find_free_blocks].
    { rewrite (bfs_inv_end _ _ Hall Hinv). apply exec_ret. }
    exfalso. destruct Hinv as [Hnd Hino _ _ _ _ _ _ _].
    assert (list_to_set (seen ++ b :: search) ⊆ dom V) as Hsub.
    { intros x. rewrite elem_of_list_to_set, elem_of_dom. intros Hx.
      destruct (Hino x Hx) as [i ->]. eauto. }
    apply subseteq_size in Hsub. rewrite size_list_to_set, length_app in Hsub by done. simpl in *. lia.
  - destruct search as [|b search]; cbn [find_free_blocks].
    { rewrite (bfs_inv_end _ _ Hall Hinv). apply exec_ret. }
    destruct (bi_inode _ _ _ Hinv b) as [i Hi]; [apply elem_of_app; right; by left|].
    eapply exec_bind; [by apply exec_read_inode|].
    destruct (is_type i type_file) eqn:Hf.
    + apply is_type_true in Hf. rewrite (bfs_file_inode_eq b), ret_bind by done.
      eapply IH; [by eapply bfs_inv_file|]. rewrite length_app. simpl. lia.
    + assert (is_type i type_dir = true) as Hd.
      { destruct (wf_inode Hwf _ _ Hi) as (_ & _ & [Ht|Ht] & _); [|by apply is_type_true].
        apply is_type_true in Ht. congruence. }
      rewrite assert_bind by done. apply is_type_true in Hd.
      eapply exec_bind; [by eapply bfs_directory_inode_run|]. cbn beta iota.
      eapply IH; [by eapply bfs_inv_dir|]. rewrite length_app. simpl. lia.
Qed.

Definition free_blocks (used : gset Z) : list Z :=
  filter (λ b, b ∉ used) (seqZ 0 FS_DISKSIZE).

Lemma fs_wf_boot : fs_wf V (free_blocks (dom V)).
Proof.
  destruct Hwf as [? ? ? ? ? ? _ _]. split; try done.
  - apply NoDup_filter, NoDup_seqZ.
  - intros b [Hb Hs]%list_elem_of_filter. apply elem_of_seqZ in Hs. split; [lia|].
    by apply not_elem_of_dom.
Qed.

Lemma disk_bound : (size (dom V) <= Z.to_nat FS_DISKSIZE)%nat.
Proof.
  assert (dom V ⊆ list_to_set (seqZ 0 FS_DISKSIZE)) as Hsub.
  { intros b. rewrite elem_of_dom, elem_of_list_to_set, elem_of_seqZ. intros [n Hn].
    pose proof (wf_range _ _ Hwf _ _ Hn). lia. }
  apply subseteq_size in Hsub. rewrite size_list_to_set, length_seqZ in Hsub by apply NoDup_seqZ. done.
Qed.

Lemma ctor_run fuel fl h :
  all_reachable V → (Z.to_nat FS_DISKSIZE <= fuel)%nat →
  exec V fl h (FileSystem_ctor fuel) (Done (Some ())) V (free_blocks (dom V)) h.
Proof.
  intros Hall Hfuel. unfold FileSystem_ctor. eapply exec_bind.
  - eapply (find_free_blocks_run _ _ []); [done|apply bfs_inv_start|].
    pose proof disk_bound. simpl. lia.
  - apply exec_runs. intros d _ l Hl. exists l. done.
Qed.

End boot.
