(* ===== verification/FsFree.v ===== *)
(** * What a delete gives back

    [delete_spec] puts on the queue exactly the blocks that leave the store,
    and leaves no block in the store that cannot be reached any more: nothing is
    lost. *)
From S2P Require Import Prelude Layout Locks FileSystem FsModel FsStore FsPaths FsSpec FsDirs.
From S2P Require Import FsInvariant FsTree FsBoot.
Import FileSystem.

Local Open Scope Z_scope.

(** The blocks of [V] that [V'] has no more were added to the queue. *)
Definition gives_back (V V' : store) (fl fl' : list Z) : Prop :=
  ∃ gone, fl' = fl ++ gone ∧ ∀ b, b ∈ gone ↔ is_Some (V !! b) ∧ V' !! b = None.

Lemma gives_back_nothing V fl : gives_back V V fl fl.
Proof.
  exists []. rewrite app_nil_r. split; [done|]. intros b. split; [by intros ?%elem_of_nil|]. intros [[n Hn] Hno]. congruence.
Qed.

Section delete.
Context {V : store} {fl : list Z} (Hwf : fs_wf V fl).
Context {p : Z} {i : fs_inode} {k : nat} {b : Z} {es : list fs_direntry} {j : nat} {e : fs_direntry} {ci : fs_inode}.
Abbreviation c := (de_inode_block e).
Hypotheses (Hp : V !! p = Some (NInode i)) (Ht : ino_type i = type_dir)
  (Hk : inode_refs i !! k = Some b) (Hb : V !! b = Some (NDir es))
  (Hj : es !! j = Some e) (Hu : unused e = false)
  (Hci : V !! c = Some (NInode ci)) (Hcp : c ≠ p) (Hempty : ino_type ci = type_file ∨ ino_size ci = 0).
Abbreviation V' := (node_delete V p i k b es j c ci).
Abbreviation emptied := (is_block_empty (<[j := zero_direntry]> es)).

Lemma child_block_node x : x ∈ child_blocks c ci → x = c ∨ x ∈ inode_refs ci ∧ ∃ v, V !! x = Some (NData v).
Proof.
  intros [->|Hx]%elem_of_cons; [by left|right]. destruct (is_type ci type_file) eqn:Hf; [|by apply elem_of_nil in Hx].
  apply is_type_true in Hf. split; [done|]. by eapply (wf_file_ref Hwf).
Qed.

(** The blocks of the store afterwards. *)
Lemma node_delete_lookup x :
  V' !! x = if decide (x ∈ child_blocks c ci) then None
            else if decide (x = b) then (if emptied then None else Some (NDir (<[j := zero_direntry]> es)))
            else if decide (x = p ∧ emptied = true) then Some (NInode (inode_drop i k)) else V !! x.
Proof.
  assert (b ≠ p) as Hbp by congruence.
  unfold node_delete. rewrite lookup_remove_blocks. case_decide; [done|]. unfold node_unlink, set_entry.
  destruct (is_block_empty _); simpl; (destruct (decide (x = b)) as [->|Hxb]).
  - by rewrite lookup_delete_eq.
  - rewrite lookup_delete_ne by done. destruct (decide (x = p)) as [->|].
    + by rewrite lookup_insert_eq, decide_True.
    + rewrite lookup_insert_ne, decide_False by naive_solver. done.
  - by rewrite lookup_insert_eq.
  - rewrite lookup_insert_ne, decide_False by naive_solver. done.
Qed.

Lemma freed_blocks_gone x : x ∈ freed_blocks b es j c ci ↔ is_Some (V !! x) ∧ V' !! x = None.
Proof.
  rewrite node_delete_lookup. unfold freed_blocks. rewrite elem_of_app. split.
  - intros [Hx|Hx].
    + destruct (is_block_empty _); [|by apply elem_of_nil in Hx]. apply list_elem_of_singleton in Hx as ->.
      split; [by eexists|]. repeat case_decide; done.
    + split; [|by rewrite decide_True]. destruct (child_block_node x Hx) as [->|(_ & v & Hv)]; by eexists.
  - intros [[n Hn] Hno]. case_decide as Hc; [by right|]. left. case_decide as Hxb; [|case_decide; congruence].
    subst. destruct (is_block_empty _); [by apply list_elem_of_singleton|done].
Qed.

(** What leads to a block that stays, stays, and leads there. *)
Lemma refers_stays x q y : refers V x q y → is_Some (V' !! y) → ∃ q', refers V' x q' y.
Proof.
  intros Hr [n Hn]. pose proof Hr as (Hy & m & Hm & Hq).
  assert (y ∉ child_blocks c ci) as Hyc by (intros Hin; rewrite node_delete_lookup, decide_True in Hn by done; done).
  assert (y = b → emptied = false) as Hyb.
  { intros ->. rewrite node_delete_lookup in Hn. rewrite decide_False, decide_True in Hn by done.
    by destruct (is_block_empty _). }
  assert (x ∉ child_blocks c ci) as Hxc.
  { intros [->|(_ & v & Hv)]%child_block_node; [|rewrite Hv in Hm; by injection Hm as <-].
    rewrite Hci in Hm. injection Hm as <-. simpl in Hq. apply Hyc. unfold child_blocks. destruct Hempty as [Hf|Hz].
    - rewrite (proj2 (is_type_true _ _) Hf). right. by eapply list_elem_of_lookup_2.
    - unfold inode_refs in Hq. by rewrite Hz in Hq. }
  unfold refers. setoid_rewrite node_delete_lookup. rewrite (decide_False (P := x ∈ _)) by done.
  destruct (decide (x = b)) as [->|Hxb].
  - rewrite Hb in Hm. injection Hm as <-. simpl in Hq. rewrite list_lookup_fmap in Hq.
    destruct (es !! q) as [e'|] eqn:He'; simpl in Hq; [|done]. injection Hq as <-.
    assert (q ≠ j) as Hqj. { intros ->. rewrite Hj in He'. injection He' as <-. apply Hyc. by left. }
    assert (<[j := zero_direntry]> es !! q = Some e') as He2 by by rewrite list_lookup_insert_ne.
    exists q. split; [done|]. destruct (is_block_empty _) eqn:Hemp.
    + exfalso. unfold is_block_empty in Hemp. rewrite forallb_forall in Hemp.
      specialize (Hemp e' ltac:(by apply list_elem_of_In; eapply list_elem_of_lookup_2)). by apply unused_true in Hemp.
    + eexists. split; [done|]. simpl. by rewrite list_lookup_fmap, He2.
  - destruct (decide (x = p ∧ emptied = true)) as [[-> Hemp]|Hother]; [|by exists q; eauto].
    rewrite Hp in Hm. injection Hm as <-. simpl in Hq. destruct (wf_inode Hwf _ _ Hp) as (Hok & Hle & _).
    pose proof (lookup_lt_Some _ _ _ Hk) as Hlt. rewrite (wf_refs_length Hwf _ _ Hp) in Hlt.
    destruct (inode_drop_ok i k Hok Hle Hlt) as [_ Hrefs].
    assert (y ∈ delete k (inode_refs i)) as [q' Hq']%list_elem_of_lookup.
    { apply list_elem_of_lookup_2 in Hq. rewrite (delete_Permutation _ _ _ Hk) in Hq.
      apply elem_of_cons in Hq as [->|?]; [|done]. by rewrite Hyb in Hemp. }
    exists q'. split; [done|]. eexists. split; [done|]. simpl. by rewrite Hrefs.
Qed.

Lemma node_delete_reachable : all_reachable V → all_reachable V'.
Proof.
  intros Hall y Hy.
  assert (is_Some (V !! y)) as HVy.
  { destruct (V !! y) eqn:HV; [by eexists|]. destruct Hy as [n Hn]. rewrite node_delete_lookup in Hn.
    repeat case_decide; simplify_eq; by destruct_and?; simplify_eq. }
  pose proof (Hall y HVy) as Hpath. clear HVy. revert y Hpath Hy. refine (rtc_ind_r _ _ _ _).
  - intros _. apply rtc_refl.
  - intros x y _ [q Hq] IH Hy. destruct (refers_stays x q y Hq Hy) as [q' Hq']. eapply rtc_r; [apply IH|by exists q'].
    destruct Hq' as (_ & m & Hm & _). by exists m.
Qed.

End delete.

(** After the request [r] every block is in the tree or on the queue, if it was so before. *)
Definition loses_nothing (V : store) (fl : list Z) (r : fs_result) : Prop :=
  gives_back V (res_store r) fl (res_free r) ∧ (all_reachable V → all_reachable (res_store r)).

Lemma failed_loses_nothing V fl e : loses_nothing V fl (failed V fl e).
Proof. split; [apply gives_back_nothing|done]. Qed.

Lemma delete_spec_gives_back V fl user cs name :
  fs_wf V fl → loses_nothing V fl (delete_spec V fl user cs name).
Proof.
  intros Hwf. unfold delete_spec. destruct (parent_spec V user cs) as [e|[p i]] eqn:Hp; [apply failed_loses_nothing|].
  apply (parent_spec_inode Hwf) in Hp as (Hw & Hp & Hd).
  destruct (find_entry V name (inode_refs i) 0) as [q|] eqn:Hq; [|apply failed_loses_nothing].
  assert (child_of V p name (pos_child q)) as Hchild.
  { exists i. split_and!; [done..|]. unfold listing. by rewrite (find_entry_lookup _ _ _ 0), Hq. }
  destruct (find_entry_Some _ _ _ _ _ (Z.le_refl 0) Hq) as (k & b & e & Hk & Hb & Hes & He & Hu & Hc & Hn).
  rewrite Z.add_0_l in Hk. unfold delete_in. rewrite Hk, Nat2Z.id, Hb.
  destruct (wf_dir_ref Hwf _ _ _ Hp Hd ltac:(by eapply list_elem_of_lookup_2)) as [es Hdir].
  unfold dir_entries in Hes. rewrite Hdir in Hes.
  destruct (inode_at V (pos_child q)) as [ci|] eqn:Hci; [|apply failed_loses_nothing].
  apply inode_at_Some in Hci. destruct (negb (owned_by user ci)); [apply failed_loses_nothing|].
  destruct (is_type ci type_dir && _) eqn:Hfull; [apply failed_loses_nothing|].
  assert (ino_type ci = type_file ∨ ino_size ci = 0) as Hempty.
  { destruct (wf_inode Hwf _ _ Hci) as (_ & _ & [?|Ht] & _); [by left|right]. rewrite (proj2 (is_type_true _ _) Ht) in Hfull.
    by apply negb_false_iff, Z.eqb_eq in Hfull. }
  assert (de_inode_block e ≠ p) as Hne.
  { rewrite Hc. intros Heq. rewrite Heq in Hchild. by eapply walk_spec_acyclic. }
  rewrite <-Hc, Hes in *. split; simpl.
  - eexists. split; [done|]. intros x. by apply (freed_blocks_gone Hwf).
  - by eapply (node_delete_reachable Hwf).
Qed.
