(* ===== verification/FsCorrect.v ===== *)
(** * The file system is correct

    The properties of the file system, put together from the layers below:
    the handlers of [filesys/file_system.cpp] run on a disk behave like the
    operations on trees ([FsTree]), keep the invariant, release their locks
    and never crash or wait; the constructor finds the free blocks; and two
    exits of [handle_create] lose a lock or a block. *)
From S2P Require Import Prelude Layout Locks Prog FileSystem FsLocking FsModel FsStore FsPaths.
From S2P Require Import FsRun FsSpec FsHandlers FsDirs FsInvariant FsTree FsBoot FsFree.
Import FileSystem.

Local Open Scope Z_scope.

(** ** The invariant of a running file system *)

Record fs_inv {D} `{Disk D} (d : D) (V : store) (fl : list Z) : Prop := {
  inv_models : models d V;
  inv_wf : fs_wf V fl;
  inv_compact : fs_compact V;
}.

(** ** A file system to try things on

    An in-memory disk with an empty root, a directory [/d] of user [u] and a
    file [/d/f] of one block, and the locks of [LockTable]. *)
Module Demo.

Definition Locks : Type := LockTable.table rwstate.

Definition encode_node (n : node) : bytes :=
  match n with
  | NInode i => encode_inode i
  | NDir es => encode_direntries es
  | NData v => v
  end.

Definition disk_of (V : store) : MemDisk := encode_node <$> V.

Definition root : fs_inode := Inode type_dir (replicate 11 NUL) 0 (replicate 124 0).
Definition store0 : store := {[0 := NInode root]}.
Definition free0 : list Z := [1; 2; 3; 4; 5; 6; 7].
Definition user : bytes := chars "u".

Definition after_create (s : store * list Z) (cs : list bytes) (name : bytes) (ty : ascii)
    : store * list Z :=
  let r := create_spec s.1 s.2 root user cs name ty in (res_store r, res_free r).
Definition after_write (s : store * list Z) (cs : list bytes) (name : bytes) (k : Z) (v : bytes)
    : store * list Z :=
  let r := write_spec s.1 s.2 user cs name k v in (res_store r, res_free r).

Definition block_of (c : ascii) : bytes := replicate 512 c.
Definition fs1 := after_create (store0, free0) [] (chars "d") type_dir.
Definition fs2 := after_create fs1 [chars "d"] (chars "f") type_file.
Definition fs3 := after_write fs2 [chars "d"] (chars "f") 0 (block_of "x").
(** The same with nothing left on the free list. *)
Definition full := (fs3.1, @nil Z).

Definition command (path : string) (k : Z) (ty : ascii) : Command :=
  mkCommand INVALID user (chars path) k ty (block_of "y").

Lemma disk_of_models V fl : fs_wf V fl → models (disk_of V) V.
Proof.
  intros Hwf b n Hb. pose proof (wf_range _ _ Hwf _ _ Hb) as Hr.
  pose proof (wf_node _ _ Hwf _ _ Hb) as Hn. simpl.
  rewrite (proj2 (in_disk_spec b) Hr). unfold disk_of. rewrite lookup_fmap, Hb. simpl.
  destruct n as [i|es|v]; simpl in Hn; eexists; (split; [done|]); simpl.
  - destruct Hn as [Hn _]. rewrite pad_block_id by by apply length_encode_inode.
    by apply decode_encode_inode.
  - rewrite pad_block_id by by apply length_encode_direntries. by apply decode_encode_direntries.
  - by apply pad_block_id.
Qed.

Lemma wf0 : fs_wf store0 free0.
Proof.
  assert (∀ b n, store0 !! b = Some n → b = 0 ∧ n = NInode root) as Hs
    by (unfold store0; intros b n; rewrite lookup_singleton_Some; naive_solver).
  split.
  - intros b n [-> _]%Hs. done.
  - exists root. split; [apply lookup_singleton_eq|done].
  - intros b n [_ ->]%Hs. split_and!; [|done|by right|by exists []].
    split_and!; try done. by apply Forall_replicate.
  - intros b n c [_ ->]%Hs Hc. by apply elem_of_nil in Hc.
  - intros b1 p1 b2 p2 c (_ & n & [_ ->]%Hs & Hp). done.
  - intros b i [_ [= ->]]%Hs _. constructor.
  - by apply (bool_decide_unpack _).
  - intros b Hb. assert (b ≠ 0 ∧ 0 ≤ b < FS_DISKSIZE) as [? ?].
    { unfold FS_DISKSIZE. unfold free0 in Hb. set_unfold. lia. }
    split; [done|]. by apply lookup_singleton_ne.
Qed.

Lemma compact0 : fs_compact store0.
Proof. unfold store0. intros b es. rewrite lookup_singleton_Some. naive_solver. Qed.

Lemma stack_ok : inode_ok root.
Proof. split_and!; try done. by apply Forall_replicate. Qed.

(** The invariant holds of the states above. *)
Lemma after_create_ok s cs name ty :
  fs_wf s.1 s.2 → fs_compact s.1 → good_name name → ty = type_file ∨ ty = type_dir →
  fs_wf (after_create s cs name ty).1 (after_create s cs name ty).2 ∧
  fs_compact (after_create s cs name ty).1.
Proof.
  intros Hwf Hc Hname Hty. split.
  - apply (create_spec_wf Hwf); [apply stack_ok|by apply (bool_decide_unpack _)|done|done|done].
  - by apply create_spec_compact.
Qed.

Lemma fs3_ok : fs_wf fs3.1 fs3.2 ∧ fs_compact fs3.1.
Proof.
  destruct (after_create_ok (store0, free0) [] (chars "d") type_dir wf0 compact0) as [W1 C1];
    [by apply (bool_decide_unpack _)|by right|].
  destruct (after_create_ok fs1 [chars "d"] (chars "f") type_file W1 C1) as [W2 C2];
    [by apply (bool_decide_unpack _)|by left|].
  split; [by apply (write_spec_wf W2)|by apply write_spec_compact].
Qed.

Lemma inv3 : fs_inv (disk_of fs3.1) fs3.1 fs3.2.
Proof. destruct fs3_ok as [W C]. split; [by eapply disk_of_models|done|done]. Qed.

Lemma inv_full : fs_inv (disk_of fs3.1) fs3.1 [].
Proof.
  destruct fs3_ok as [W C]. split; [by eapply disk_of_models| |done].
  assert (∀ l, fs_wf fs3.1 l → fs_wf fs3.1 []) as Hdrop; [|by eapply Hdrop].
  intros l; induction l as [|b l IH]; [done|]. by intros Hl%fs_wf_free_drop%IH.
Qed.

Lemma command_ok path k ty :
  0 ≤ k → cmd_ok (command path k ty).
Proof. intros Hk. split; try done. by apply (bool_decide_unpack _). Qed.

End Demo.


(** ** The requests *)

(** [p] runs from an inode-lock-free state to another one, without crashing or
    waiting, to a disk that holds [V'] and keeps the invariant. *)
Definition serves {D L A} `{Disk D} `{InodeLocksSpec L} (p : prog A) (d : D) (fl : list Z)
    (o : outcome A) (V' : store) (fl' : list Z) : Prop :=
  ∃ d', runs_to (L:=L) p d fl [] o d' fl' [] ∧ fs_inv d' V' fl'.

(** *** Reading writes nothing *)

Lemma never_writes_find_in_entries name es : never_writes (find_in_entries name es).
Proof.
  induction es as [|e es IH]; [done|]. cbn [find_in_entries]. destruct (unused e); [done|].
  apply never_writes_or_undefined. by intros [].
Qed.

Lemma never_writes_find_in_blocks name i n k : never_writes (find_in_blocks name i n k).
Proof.
  revert k; induction n as [|n IH]; intros k; [done|]. cbn [find_in_blocks].
  apply never_writes_or_undefined. intros b. apply never_writes_bind; [done|]. intros es.
  apply never_writes_bind; [apply never_writes_find_in_entries|]. intros r. by destruct (negb _).
Qed.

Lemma never_writes_find_next_inode name b user : never_writes (find_next_inode name b user).
Proof.
  unfold find_next_inode. apply never_writes_bind; [done|]. intros i.
  apply never_writes_bind; [destruct (b =? 0); [done|by destruct (string_ne user (ino_owner i)) eqn:E;
    unfold not_owner; rewrite E]|].
  intros []; [done|]. destruct (negb _); [done|].
  apply never_writes_bind; [apply never_writes_find_in_blocks|]. intros r. by destruct (r =? _).
Qed.

Lemma never_writes_walk names b user : never_writes (walk names b user).
Proof.
  revert b; induction names as [|x [|y names] IH]; intros b; [done..|]. cbn [walk].
  apply never_writes_assert, never_writes_bind; [apply never_writes_find_next_inode|].
  intros c. apply IH.
Qed.

Lemma never_writes_get_parent_dir p : never_writes (Path.get_parent_dir p).
Proof. unfold Path.get_parent_dir. apply never_writes_assert. by case_match. Qed.

Lemma never_writes_get_target p : never_writes (Path.get_target p).
Proof. unfold Path.get_target. apply never_writes_assert. by case_match. Qed.

Lemma never_writes_handle_read cmd : never_writes (handle_read cmd).
Proof.
  unfold handle_read, find_parent_inode. apply never_writes_bind.
  { apply never_writes_bind; [apply never_writes_get_parent_dir|]. intros x. apply never_writes_walk. }
  intros p. apply never_writes_bind; [apply never_writes_get_target|]. intros x.
  apply never_writes_bind; [apply never_writes_find_next_inode|]. intros t.
  do 2 (apply never_writes_bind; [done|intros _]). apply never_writes_bind; [done|]. intros i.
  case_match; [done|]. unfold not_owner. apply never_writes_or_undefined.
  intros []; [done|]. by apply never_writes_or_undefined.
Qed.

Lemma never_writes_bfs fuel used search : never_writes (find_free_blocks fuel used search).
Proof.
  revert used search; induction fuel as [|fuel IH]; intros used [|b search]; try done.
  cbn [find_free_blocks]. apply never_writes_bind; [done|]. intros i. case_match.
  - apply never_writes_bind; [|done]. unfold bfs_file_inode. generalize 0 used.
    induction (Z.to_nat (ino_size i)) as [|n IHn]; intros k u; [done|].
    apply never_writes_or_undefined. intros x. apply IHn.
  - apply never_writes_assert, never_writes_bind; [|by intros []].
    unfold bfs_directory_inode. generalize 0 used search.
    induction (Z.to_nat (ino_size i)) as [|n IHn]; intros k u q; [done|].
    apply never_writes_or_undefined. intros x. apply never_writes_bind; [done|]. intros es.
    destruct (bfs_entries _ _ _). apply IHn.
Qed.

Lemma never_writes_ctor fuel : never_writes (FileSystem_ctor fuel).
Proof. apply never_writes_bind; [apply never_writes_bfs|]. by intros []. Qed.

(** *** Locks after a request *)

Lemma write_spec_locks V fl user cs name k v : res_locks (write_spec V fl user cs name k v) = [].
Proof.
  unfold write_spec. case_match; [done|]. case_match; [|done]. case_match; [done|].
  case_match; [done|]. unfold write_file. case_match; [|by case_match].
  destruct fl; [done|]. by case_match.
Qed.

Lemma create_spec_locks V fl stack user cs name ty :
  fl ≠ [] → res_locks (create_spec V fl stack user cs name ty) = [].
Proof.
  intros Hfl. destruct fl as [|b fl]; [done|]. unfold create_spec. case_match; [done|]. destruct p as [p i]. unfold create_in.
  case_match; [done|]. case_match; [done|]. destruct fl; [done|]. by case_match.
Qed.

(** The locks that a create holds at its end: none, or that of the parent directory. *)
Definition create_keeps (V : store) (fl : list Z) (cs : list bytes) (ty : ascii) (user name : bytes)
    (h : holdings) : Prop :=
  match fl, tree_create (tree V) user cs name ty with
  | [], inr _ => ∃ p, resolve V ROOT_INODE cs = Some p ∧ h = [(p, Upgrade)]
  | _, _ => h = []
  end.

Lemma create_spec_keeps V fl stack user cs name ty :
  fs_wf V fl → create_keeps V fl cs ty user name (res_locks (create_spec V fl stack user cs name ty)).
Proof.
  intros Hwf. unfold create_keeps. destruct fl as [|b fl]; [|by apply create_spec_locks].
  pose proof (tree_parent_spec Hwf user cs) as Hpar. unfold create_spec, tree_create.
  destruct (parent_spec V user cs) as [e|[p i]] eqn:Hps; [by rewrite Hpar|].
  destruct Hpar as (-> & Hr & Hp). simpl. apply (parent_spec_inode Hwf) in Hps as (_ & _ & Ht).
  rewrite (tree_child V p i cs name Hr Hp Ht).
  unfold create_in. destruct (lookup_name name (listing V i)) as [c|] eqn:Hl; simpl; [|by exists p].
  destruct (child_of_inode Hwf p name c ltac:(by exists i)) as [_ [ci Hci]]. unfold entity_of.
  by rewrite (proj2 (inode_at_Some _ _) Hci).
Qed.

Lemma delete_spec_locks V fl user cs name : res_locks (delete_spec V fl user cs name) = [].
Proof.
  unfold delete_spec. case_match; [done|]. destruct p as [p i]. case_match; [|done].
  unfold delete_in. case_match; [|done]. case_match; [|done]. case_match; [done|]. by case_match.
Qed.

Lemma delete_spec_ends V fl user cs name :
  let r := delete_spec V fl user cs name in
  of_sum (res_answer r) = Done () ∨ ∃ e, of_sum (res_answer r) = Exn e ∧ res_store r = V.
Proof.
  simpl. unfold delete_spec. case_match; [by right; eexists|]. destruct p as [p i].
  case_match; [|by right; eexists]. unfold delete_in. case_match; [|by right; eexists].
  case_match; [|by right; eexists]. case_match; [by right; eexists|].
  case_match; [by right; eexists|by left].
Qed.

Lemma does_outcome V r x full nospace :
  does V r x full nospace →
  match x with
  | inl e => of_sum (res_answer r) = Exn e ∧ res_store r = V
  | inr T' => (of_sum (res_answer r) = Done () ∧ ∀ p, tree (res_store r) p = T' p) ∨
      (of_sum (res_answer r) = Exn full ∧ res_store r = V ∧ nospace)
  end.
Proof.
  unfold does. destruct x as [e|T'].
  - by intros [-> ->].
  - intros [[-> ?]|(-> & -> & ?)]; auto.
Qed.

(** How a request may end, told by the tree: with the operation's error, with
    the new tree, or with lack of space. *)
Definition write_answer (V : store) (fl : list Z) (user : bytes) (path : list bytes) (k : Z)
    (v : bytes) (o : outcome unit) (V' : store) : Prop :=
  match tree_write (tree V) user path k v with
  | inl e => o = Exn e ∧ V' = V
  | inr T' => (o = Done () ∧ ∀ p, tree V' p = T' p) ∨
      (o = Exn "Not enough disk space for this write" ∧ V' = V ∧ (fl = [] ∨ k = FS_MAXFILEBLOCKS))
  end.

Definition create_answer (V : store) (fl : list Z) (user : bytes) (cs : list bytes) (name : bytes)
    (ty : ascii) (o : outcome unit) (V' : store) : Prop :=
  match tree_create (tree V) user cs name ty with
  | inl e => o = Exn e ∧ V' = V
  | inr T' => (o = Done () ∧ ∀ p, tree V' p = T' p) ∨
      (o = Exn "Not enough disk space for create" ∧ V' = V ∧
       ((length fl <= 1)%nat ∨ ∃ p i, resolve V ROOT_INODE cs = Some p ∧ V !! p = Some (NInode i) ∧
          ino_size i = FS_MAXFILEBLOCKS))
  end.

(** A delete never lacks anything; if it fails it changes nothing. *)
Definition delete_answer (V : store) (user : bytes) (cs : list bytes) (name : bytes)
    (o : outcome unit) (V' : store) : Prop :=
  (o = Done () ∨ ∃ e, o = Exn e ∧ V' = V) ∧
  ∀ empty : bool, (empty = true ↔ ∀ c, tree V ((cs ++ [name]) ++ [c]) = None) →
  match tree_delete (tree V) user cs name empty with
  | inl e => o = Exn e ∧ V' = V
  | inr T' => o = Done () ∧ ∀ p, tree V' p = T' p
  end.

(** The specified requests answer so. *)
Lemma write_spec_answer V fl user cs name k v :
  fs_wf V fl → 0 ≤ k →
  let r := write_spec V fl user cs name k v in
  write_answer V fl user (cs ++ [name]) k v (of_sum (res_answer r)) (res_store r).
Proof. intros Hwf Hk r. by apply (does_outcome V r), write_spec_tree. Qed.

Lemma create_spec_answer V fl stack user cs name ty :
  fs_wf V fl → inode_ok stack → NUL ∉ user → len user ≤ FS_MAXUSERNAME →
  ty = type_file ∨ ty = type_dir → good_name name →
  let r := create_spec V fl stack user cs name ty in
  create_answer V fl user cs name ty (of_sum (res_answer r)) (res_store r).
Proof.
  intros Hwf Hst Hnul Hlen Hty Hname r.
  pose proof (create_spec_tree V fl stack user cs name ty Hwf Hst Hnul Hlen Hty Hname) as Hdoes.
  apply does_outcome in Hdoes. unfold create_answer. case_match; [done|].
  destruct Hdoes as [?|(? & ? & [->|[[b ->]|?]])]; [by left|right; eauto..].
Qed.

Lemma delete_spec_answer V fl user cs name :
  fs_wf V fl → fs_compact V →
  let r := delete_spec V fl user cs name in
  delete_answer V user cs name (of_sum (res_answer r)) (res_store r).
Proof.
  intros Hwf Hcomp r. split; [apply delete_spec_ends|]. intros empty Hempty.
  pose proof (delete_spec_tree V fl user cs name empty Hwf Hcomp Hempty) as Hdoes.
  apply does_outcome in Hdoes. case_match; [done|]. by destruct Hdoes as [?|(_ & _ & [])].
Qed.

Section correct.
Context {D L : Type} `{DiskSpec D} `{InodeLocksSpec L}.
Context {d : D} {V : store} {fl : list Z} {cmd : Command} {cs : list bytes} {name : bytes}.

Lemma good_names_snoc :
  Forall good_name (cs ++ [name]) → Forall good_name cs ∧ good_name name.
Proof. intros [? [? _]%Forall_cons]%Forall_app. done. Qed.

Lemma handle_read_served :
  fs_inv d V fl → cmd_ok cmd → pathname cmd = path_of (cs ++ [name]) →
  Forall good_name (cs ++ [name]) →
  runs_to (L:=L) (handle_read cmd) d fl []
    (of_sum (tree_read (tree V) (username cmd) (cs ++ [name]) (cmd_block cmd))) d fl [].
Proof.
  intros [Hm Hwf _] Hcmd Hpath [Hcs Hname]%good_names_snoc.
  rewrite <-(read_spec_tree V fl) by (done || by apply cmd_block_nonneg).
  pose proof (handle_read_run Hwf Hcmd Hpath Hcs Hname) as Hr.
  intros l Hl. destruct (Hr d Hm) as (d' & Hrun & _). destruct (Hrun l Hl) as (l' & Hrl & Hl').
  exists l'. split; [|done]. rewrite Hrl.
  pose proof (never_writes_run _ _ _ _ (never_writes_handle_read cmd) Hrl) as Hd. simpl in Hd. by rewrite Hd.
Qed.

Lemma handle_write_served :
  fs_inv d V fl → cmd_ok cmd → pathname cmd = path_of (cs ++ [name]) →
  Forall good_name (cs ++ [name]) →
  ∃ o V' fl', serves (L:=L) (handle_write cmd) d fl o V' fl' ∧
    write_answer V fl (username cmd) (cs ++ [name]) (cmd_block cmd) (cmd_data cmd) o V'.
Proof.
  intros [Hm Hwf Hcomp] Hcmd Hpath [Hcs Hname]%good_names_snoc.
  set (r := write_spec V fl (username cmd) cs name (cmd_block cmd) (cmd_data cmd)).
  destruct (handle_write_run (D:=D) (L:=L) Hwf Hcmd Hpath Hcs Hname d Hm) as (d' & Hrun & Hm').
  fold r in Hrun, Hm'. exists (of_sum (res_answer r)), (res_store r), (res_free r). split.
  - assert (res_locks r = []) as Hl by by apply write_spec_locks.
    rewrite Hl in Hrun. exists d'. split; [done|]. split; [done| |].
    + apply (write_spec_wf Hwf), Hcmd.
    + by apply write_spec_compact.
  - apply write_spec_answer; [done|apply Hcmd].
Qed.

Lemma handle_create_served (stack : fs_inode) :
  fs_inv d V fl → cmd_ok cmd → cmd_type cmd = type_file ∨ cmd_type cmd = type_dir →
  inode_ok stack →
  pathname cmd = path_of (cs ++ [name]) →
  Forall good_name (cs ++ [name]) → fl ≠ [] →
  ∃ o V' fl', serves (L:=L) (handle_create stack cmd) d fl o V' fl' ∧
    create_answer V fl (username cmd) cs name (cmd_type cmd) o V'.
Proof.
  intros [Hm Hwf Hcomp] Hcmd Hty Hst Hpath [Hcs Hname]%good_names_snoc Hfl.
  set (r := create_spec V fl stack (username cmd) cs name (cmd_type cmd)).
  destruct (handle_create_run (D:=D) (L:=L) Hwf Hcmd Hpath Hcs Hname Hst Hty d Hm) as (d' & Hrun & Hm').
  fold r in Hrun, Hm'. exists (of_sum (res_answer r)), (res_store r), (res_free r). split.
  - assert (res_locks r = []) as Hl by by apply create_spec_locks.
    rewrite Hl in Hrun. exists d'. split; [done|]. split; [done| |].
    + by apply (create_spec_wf Hwf); [|apply Hcmd..| |].
    + by apply create_spec_compact.
  - by apply create_spec_answer; [..|apply Hcmd|apply Hcmd| |].
Qed.

(** With an empty free list too: what is held at the end. *)
Lemma handle_create_ends (stack : fs_inode) :
  fs_inv d V fl → cmd_ok cmd → cmd_type cmd = type_file ∨ cmd_type cmd = type_dir →
  inode_ok stack →
  pathname cmd = path_of (cs ++ [name]) →
  Forall good_name (cs ++ [name]) →
  ∃ o d' V' fl' h,
    runs_to (L:=L) (handle_create stack cmd) d fl [] o d' fl' h ∧ fs_inv d' V' fl' ∧
    create_answer V fl (username cmd) cs name (cmd_type cmd) o V' ∧
    create_keeps V fl cs (cmd_type cmd) (username cmd) name h.
Proof.
  intros [Hm Hwf Hcomp] Hcmd Hty Hst Hpath [Hcs Hname]%good_names_snoc.
  set (r := create_spec V fl stack (username cmd) cs name (cmd_type cmd)).
  destruct (handle_create_run (D:=D) (L:=L) Hwf Hcmd Hpath Hcs Hname Hst Hty d Hm) as (d' & Hrun & Hm').
  fold r in Hrun, Hm'. exists (of_sum (res_answer r)), d', (res_store r), (res_free r), (res_locks r).
  split; [done|]. split; [split; [done| |]|split].
  - by apply (create_spec_wf Hwf); [|apply Hcmd..| |].
  - by apply create_spec_compact.
  - by apply create_spec_answer; [..|apply Hcmd|apply Hcmd| |].
  - by apply create_spec_keeps.
Qed.

Lemma handle_delete_served :
  fs_inv d V fl → cmd_ok cmd → pathname cmd = path_of (cs ++ [name]) →
  Forall good_name (cs ++ [name]) →
  ∃ o V' fl', serves (L:=L) (handle_delete cmd) d fl o V' fl' ∧
    delete_answer V (username cmd) cs name o V' ∧
    gives_back V V' fl fl' ∧ (all_reachable V → all_reachable V').
Proof.
  intros [Hm Hwf Hcomp] Hcmd Hpath [Hcs Hname]%good_names_snoc.
  set (r := delete_spec V fl (username cmd) cs name).
  destruct (handle_delete_run (D:=D) (L:=L) Hwf Hcmd Hpath Hcs Hname d Hm) as (d' & Hrun & Hm').
  fold r in Hrun, Hm'. exists (of_sum (res_answer r)), (res_store r), (res_free r). split.
  - assert (res_locks r = []) as Hl by by apply delete_spec_locks.
    rewrite Hl in Hrun. exists d'. split; [done|]. split; [done| |].
    + apply (delete_spec_wf Hwf).
    + by apply delete_spec_compact.
  - split; [by apply delete_spec_answer|]. by apply delete_spec_gives_back.
Qed.

(** (C10) Reading: on any disk that holds a well-formed file system,
    [FileSystem::handle_read] returns the block that the tree of the file
    system has at the path, or throws the error the tree calls for (missing
    directory, file used as directory, foreign owner, block out of range); it
    changes nothing and releases every lock. *)
Theorem handle_read_correct :
  fs_inv d V fl → cmd_ok cmd → pathname cmd = path_of (cs ++ [name]) →
  Forall good_name (cs ++ [name]) →
  runs_to (L:=L) (handle_read cmd) d fl []
    (of_sum (tree_read (tree V) (username cmd) (cs ++ [name]) (cmd_block cmd))) d fl [].
Proof. apply handle_read_served. Qed.

(** (C7) Writing: [FileSystem::handle_write] replaces one block of one file,
    or appends one when the index is the file's size, exactly as [tree_write]
    does; every other path of the tree keeps its contents.  When the tree
    refuses the write the same error is thrown and nothing changes; the only
    other failure is lack of space, with the free list empty or the file at
    its maximal size.  The invariant is kept and every lock released. *)
Theorem handle_write_correct :
  fs_inv d V fl → cmd_ok cmd → pathname cmd = path_of (cs ++ [name]) →
  Forall good_name (cs ++ [name]) →
  ∃ o V' fl', serves (L:=L) (handle_write cmd) d fl o V' fl' ∧
    write_answer V fl (username cmd) (cs ++ [name]) (cmd_block cmd) (cmd_data cmd) o V'.
Proof. apply handle_write_served. Qed.

(** (C8) Creating: [FileSystem::handle_create] adds one path to the tree, a
    new file without blocks or an empty directory owned by the user, or throws
    the error of [tree_create] and changes nothing.  Besides, it can fail for
    lack of space, with at most one block on the free list, or a full parent
    directory; then the tree is unchanged too.  It always ends, in a file
    system in its invariant, and it releases every lock, but at one exit: if
    the free list is empty and the path could otherwise be created, it throws
    and keeps the upgradeable lock of the parent directory. *)
Theorem handle_create_correct (stack : fs_inode) :
  fs_inv d V fl → cmd_ok cmd → cmd_type cmd = type_file ∨ cmd_type cmd = type_dir →
  inode_ok stack →
  pathname cmd = path_of (cs ++ [name]) →
  Forall good_name (cs ++ [name]) →
  ∃ o d' V' fl' h,
    runs_to (L:=L) (handle_create stack cmd) d fl [] o d' fl' h ∧ fs_inv d' V' fl' ∧
    create_answer V fl (username cmd) cs name (cmd_type cmd) o V' ∧
    create_keeps V fl cs (cmd_type cmd) (username cmd) name h.
Proof. apply handle_create_ends. Qed.

(** (C9) Deleting: [FileSystem::handle_delete] removes one path from the tree,
    a file or a directory without children, or throws the error of
    [tree_delete] and changes nothing.  It never fails otherwise, never waits
    for a lock it holds itself, and releases every lock.  It frees what it
    removes: the free list is the old one with exactly the blocks appended that
    have left the file system, and if every block of the file system could be
    reached from the root before, every block that is still in it can be
    reached afterwards; so no block is lost. *)
Theorem handle_delete_correct :
  fs_inv d V fl → cmd_ok cmd → pathname cmd = path_of (cs ++ [name]) →
  Forall good_name (cs ++ [name]) →
  ∃ o V' fl', serves (L:=L) (handle_delete cmd) d fl o V' fl' ∧
    delete_answer V (username cmd) cs name o V' ∧
    gives_back V V' fl fl' ∧ (all_reachable V → all_reachable V').
Proof. apply handle_delete_served. Qed.

Lemma ctor_served (fuel : nat) :
  fs_inv d V [] → all_reachable V → (Z.to_nat FS_DISKSIZE <= fuel)%nat →
  runs_to (L:=L) (FileSystem_ctor fuel) d fl [] (Done (Some ())) d
    (filter (λ b, b ∉ dom V) (seqZ 0 FS_DISKSIZE)) [] ∧
  fs_inv d V (filter (λ b, b ∉ dom V) (seqZ 0 FS_DISKSIZE)).
Proof.
  intros [Hm Hwf Hcomp] Hall Hfuel. split; [|split; [done|by apply (fs_wf_boot Hwf)|done]].
  pose proof (ctor_run (D:=D) (L:=L) Hwf fuel fl [] Hall Hfuel) as Hr.
  intros l Hl. destruct (Hr d Hm) as (d' & Hrun & _). destruct (Hrun l Hl) as (l' & Hrl & Hl').
  exists l'. split; [|done]. rewrite Hrl.
  pose proof (never_writes_run _ _ _ _ (never_writes_ctor fuel) Hrl) as Hd. simpl in Hd. by rewrite Hd.
Qed.

(** (C11) Starting up: on a disk that holds a well-formed tree every block of
    which can be reached from the root, the constructor's breadth-first search
    ends after at most [FS_DISKSIZE] inodes, puts exactly the unused blocks on
    the free list, and leaves a file system in its invariant. *)
Theorem constructor_finds_free_blocks (fuel : nat) :
  fs_inv d V [] → all_reachable V → (Z.to_nat FS_DISKSIZE <= fuel)%nat →
  runs_to (L:=L) (FileSystem_ctor fuel) d fl [] (Done (Some ())) d
    (filter (λ b, b ∉ dom V) (seqZ 0 FS_DISKSIZE)) [] ∧
  fs_inv d V (filter (λ b, b ∉ dom V) (seqZ 0 FS_DISKSIZE)).
Proof. apply ctor_served. Qed.

(** *** Where [handle_create] goes wrong *)

Lemma get_parent_root_waits (c : Command) (d0 : D) (l : L) h fl0 :
  lk_view l h → len h < hold_bound → hold_step LockUpgrade ROOT_INODE h = LkBlocks h →
  ∃ l', run (get_parent_inode_and_upgradeable_lock c []) (St d0 fl0 l false) =
    (Blocked, St d0 fl0 l' false).
Proof.
  intros Hl Hb Hs. destruct (lk_call_blocks LockUpgrade ROOT_INODE l h h Hl Hb Hs) as [l' Hc].
  exists l'. unfold get_parent_inode_and_upgradeable_lock. rewrite run_bind. simpl. by rewrite Hc.
Qed.

(** A request that starts by locking the root directory waits for ever when
    somebody keeps an upgradeable lock on it. *)
Lemma root_request_waits {A} (c : Command) (f : Z → prog A) (d0 : D) (l : L) fl0 :
  lk_view l [(ROOT_INODE, Upgrade)] →
  fst (run (p ← get_parent_inode_and_upgradeable_lock c []; f p) (St d0 fl0 l false)) = Blocked.
Proof.
  intros Hl. destruct (get_parent_root_waits c d0 l _ fl0 Hl) as [l' Hr]; [done|done|].
  by rewrite run_bind, Hr.
Qed.

(** (C15) A code defect: when the free list is empty, [handle_create] throws
    without giving up the upgradeable lock of the parent directory.  The lock
    stays held; in the root directory every later create or delete then waits
    for ever, also those that would free space. *)
Theorem create_on_full_disk_keeps_lock (stack : fs_inode) :
  fs_inv d V [] → cmd_ok cmd → cmd_type cmd = type_file ∨ cmd_type cmd = type_dir →
  inode_ok stack →
  pathname cmd = path_of (cs ++ [name]) →
  Forall good_name (cs ++ [name]) →
  (∃ T, tree_create (tree V) (username cmd) cs name (cmd_type cmd) = inr T) →
  ∃ p d', resolve V ROOT_INODE cs = Some p ∧ fs_inv d' V [] ∧
    runs_to (L:=L) (handle_create stack cmd) d [] [] (Exn "Not enough disk space for create")
      d' [] [(p, Upgrade)] ∧
    (cs = [] → ∀ (l : L) cmd2 name2, lk_view l [(p, Upgrade)] → good_name name2 →
       pathname cmd2 = path_of [name2] →
       fst (run (handle_create stack cmd2) (St d' [] l false)) = Blocked ∧
       fst (run (handle_delete cmd2) (St d' [] l false)) = Blocked).
Proof.
  intros [Hm Hwf Hcomp] Hcmd Hty Hst Hpath [Hcs Hname]%good_names_snoc [T HT].
  pose proof (create_spec_tree V [] stack (username cmd) cs name (cmd_type cmd) Hwf Hst
    (cmd_user_nul _ Hcmd) (cmd_user_len _ Hcmd) Hty Hname) as Hdoes.
  unfold does in Hdoes. rewrite HT in Hdoes.
  destruct (handle_create_run (D:=D) (L:=L) Hwf Hcmd Hpath Hcs Hname Hst Hty d Hm) as (d' & Hrun & Hm').
  pose proof (tree_parent_spec Hwf (username cmd) cs) as Hpar.
  unfold create_spec in *. destruct (parent_spec V (username cmd) cs) as [e|[p i]].
  { by destruct Hdoes as [[? _]|(? & _ & _)]; simpl in *; unfold tree_create in HT; rewrite Hpar in HT. }
  destruct Hpar as (_ & Hr & _). unfold create_in in *.
  destruct (lookup_name name (listing V i)); [by destruct Hdoes as [[? _]|(? & _ & _)]|].
  exists p, d'. split; [done|]. split; [split; done|]. split; [done|].
  intros -> l cmd2 name2 Hl Hn2 Hp2. simpl in Hr. injection Hr as <-.
  assert (Path.get_parent_dir (path_of [name2]) = Ret []) as Hdir
    by exact (get_parent_dir_path [] name2 Hn2).
  assert (Path.get_target (path_of [name2]) = Ret name2) as Htgt
    by exact (get_target_path [] name2 Hn2).
  split.
  - unfold handle_create. rewrite Hp2, Hdir, Htgt, !ret_bind. by apply root_request_waits.
  - unfold handle_delete. rewrite (path_not_root (cs := []) Hp2 ltac:(constructor) Hn2).
    rewrite Hp2, Hdir, Htgt, !ret_bind. by apply root_request_waits.
Qed.

(** A code defect: when one block is free and the parent directory has no
    free entry, [handle_create] takes the block, finds no second one, and
    throws: nothing was created, no lock is held, and the block is neither on
    the free list nor in the file system any more. *)
Theorem create_loses_last_block (stack : fs_inode) (b : Z) :
  fs_inv d V [b] → cmd_ok cmd → cmd_type cmd = type_file ∨ cmd_type cmd = type_dir →
  inode_ok stack →
  pathname cmd = path_of (cs ++ [name]) →
  Forall good_name (cs ++ [name]) →
  (∃ T, tree_create (tree V) (username cmd) cs name (cmd_type cmd) = inr T) →
  (∃ p i, resolve V ROOT_INODE cs = Some p ∧ V !! p = Some (NInode i) ∧
     first_slot V (inode_refs i) = None) →
  V !! b = None ∧
  ∃ d', runs_to (L:=L) (handle_create stack cmd) d [b] []
      (Exn "Not enough disk space for create") d' [] [] ∧ fs_inv d' V [].
Proof.
  intros [Hm Hwf Hcomp] Hcmd Hty Hst Hpath [Hcs Hname]%good_names_snoc [T HT] (p0 & i0 & Hr0 & Hp0 & Hslot).
  destruct (wf_free _ _ Hwf b ltac:(by left)) as [_ Hb]. split; [done|].
  pose proof (create_spec_tree V [b] stack (username cmd) cs name (cmd_type cmd) Hwf Hst
    (cmd_user_nul _ Hcmd) (cmd_user_len _ Hcmd) Hty Hname) as Hdoes.
  unfold does in Hdoes. rewrite HT in Hdoes.
  destruct (handle_create_run (D:=D) (L:=L) Hwf Hcmd Hpath Hcs Hname Hst Hty d Hm) as (d' & Hrun & Hm').
  pose proof (tree_parent_spec Hwf (username cmd) cs) as Hpar.
  unfold create_spec in *. destruct (parent_spec V (username cmd) cs) as [e|[p i]].
  { by destruct Hdoes as [[? _]|(? & _ & _)]; simpl in *; unfold tree_create in HT; rewrite Hpar in HT. }
  destruct Hpar as (_ & Hr & Hp). unfold create_in in *.
  assert (p0 = p) as -> by congruence. assert (i0 = i) as -> by congruence.
  destruct (lookup_name name (listing V i)); [by destruct Hdoes as [[? _]|(? & _ & _)]|].
  rewrite Hslot in *. exists d'. split; [done|]. split; [done|by eapply fs_wf_free_drop|done].
Qed.

End correct.

(** ** Witnesses *)

Module Witness.
Import Demo.

Lemma names_df : Forall good_name ([chars "d"] ++ [chars "f"]).
Proof. repeat constructor; by apply (bool_decide_unpack _). Qed.

Lemma names_dg : Forall good_name ([chars "d"] ++ [chars "g"]).
Proof. repeat constructor; by apply (bool_decide_unpack _). Qed.

(** Reading [/d/f] gives the block that was written. *)
Lemma handle_read_correct_witness :
  runs_to (D:=MemDisk) (L:=Locks) (handle_read (command "/d/f" 0 type_file))
    (disk_of fs3.1) fs3.2 [] (Done (block_of "x")) (disk_of fs3.1) fs3.2 [].
Proof.
  assert (of_sum (tree_read (tree fs3.1) user ([chars "d"] ++ [chars "f"]) 0) = Done (block_of "x"))
    as <- by (vm_compute; reflexivity).
  apply (handle_read_correct (V := fs3.1) (cmd := command "/d/f" 0 type_file)
    (cs := [chars "d"]) (name := chars "f")).
  - exact inv3.
  - by apply command_ok.
  - reflexivity.
  - exact names_df.
Defined.

Lemma handle_write_correct_witness :
  ∃ o V' fl', serves (D:=MemDisk) (L:=Locks) (handle_write (command "/d/f" 1 type_file))
      (disk_of fs3.1) fs3.2 o V' fl' ∧
    write_answer fs3.1 fs3.2 user ([chars "d"] ++ [chars "f"]) 1 (block_of "y") o V'.
Proof.
  apply (handle_write_correct (cmd := command "/d/f" 1 type_file)).
  - exact inv3.
  - by apply command_ok.
  - reflexivity.
  - exact names_df.
Defined.

(** With free blocks, and with none. *)
Lemma handle_create_correct_witness :
  Forall (λ fl, ∃ o d' V' fl' h,
    runs_to (D:=MemDisk) (L:=Locks) (handle_create root (command "/d/g" 0 type_dir))
      (disk_of fs3.1) fl [] o d' fl' h ∧ fs_inv d' V' fl' ∧
    create_answer fs3.1 fl user [chars "d"] (chars "g") type_dir o V' ∧
    create_keeps fs3.1 fl [chars "d"] type_dir user (chars "g") h) [fs3.2; []].
Proof.
  repeat constructor; apply (handle_create_correct (cmd := command "/d/g" 0 type_dir));
    first [exact inv3|exact inv_full|by apply command_ok|by right|exact stack_ok|reflexivity|exact names_dg].
Defined.

Lemma handle_delete_correct_witness :
  ∃ o V' fl', serves (D:=MemDisk) (L:=Locks) (handle_delete (command "/d/f" 0 type_file))
      (disk_of fs3.1) fs3.2 o V' fl' ∧
    delete_answer fs3.1 user [chars "d"] (chars "f") o V' ∧
    gives_back fs3.1 V' fs3.2 fl' ∧ (all_reachable fs3.1 → all_reachable V').
Proof.
  apply (handle_delete_correct (cmd := command "/d/f" 0 type_file)).
  - exact inv3.
  - by apply command_ok.
  - reflexivity.
  - exact names_df.
Defined.

(** Every block of the little file system can be reached. *)
Lemma refers_by (V : store) b p c :
  bool_decide (c ≠ 0 ∧ (V !! b ≫= λ n, node_refs n !! p) = Some c) = true → refers V b p c.
Proof.
  intros [Hc Hp]%bool_decide_eq_true. split; [done|]. destruct (V !! b) as [n|] eqn:Hb; [|done].
  exists n. done.
Qed.

Lemma reachable3 : all_reachable fs3.1.
Proof.
  assert (∀ V x y, (∃ p, refers V x p y) → rtc (λ x y, ∃ p, refers V x p y) 0 x →
    rtc (λ x y, ∃ p, refers V x p y) 0 y) as Hstep by (intros; by eapply rtc_r).
  assert (rtc (λ x y, ∃ p, refers fs3.1 x p y) 0 2) as R2
    by (eapply Hstep; [exists O; apply (refers_by _ 0); vm_compute; reflexivity|constructor]).
  assert (rtc (λ x y, ∃ p, refers fs3.1 x p y) 0 1) as R1
    by (eapply Hstep; [exists O; apply (refers_by _ 2); vm_compute; reflexivity|done]).
  assert (rtc (λ x y, ∃ p, refers fs3.1 x p y) 0 4) as R4
    by (eapply Hstep; [exists O; apply (refers_by _ 1); vm_compute; reflexivity|done]).
  assert (rtc (λ x y, ∃ p, refers fs3.1 x p y) 0 3) as R3
    by (eapply Hstep; [exists O; apply (refers_by _ 4); vm_compute; reflexivity|done]).
  assert (rtc (λ x y, ∃ p, refers fs3.1 x p y) 0 5) as R5
    by (eapply Hstep; [exists O; apply (refers_by _ 3); vm_compute; reflexivity|done]).
  intros b [n Hb]. apply elem_of_map_to_list in Hb.
  assert (b ∈ (map_to_list fs3.1).*1) as Hk by (apply list_elem_of_fmap; by exists (b, n)). clear Hb.
  assert ((map_to_list fs3.1).*1 ≡ₚ [0; 1; 2; 3; 4; 5]) as Hp
    by (apply (bool_decide_unpack _); vm_compute; exact I).
  rewrite Hp in Hk. clear n Hp. rewrite !elem_of_cons in Hk.
  repeat (destruct Hk as [Hk|Hk]; [subst b; done || constructor|]). by apply elem_of_nil in Hk.
Qed.

Lemma constructor_finds_free_blocks_witness :
  runs_to (D:=MemDisk) (L:=Locks) (FileSystem_ctor 5000) (disk_of fs3.1) [] []
    (Done (Some ())) (disk_of fs3.1) (filter (λ b, b ∉ dom fs3.1) (seqZ 0 FS_DISKSIZE)) [] ∧
  fs_inv (disk_of fs3.1) fs3.1 (filter (λ b, b ∉ dom fs3.1) (seqZ 0 FS_DISKSIZE)).
Proof.
  apply constructor_finds_free_blocks.
  - exact inv_full.
  - exact reachable3.
  - apply (bool_decide_unpack _). vm_compute. exact I.
Defined.

Lemma names_g : Forall good_name ([] ++ [chars "g"]).
Proof. repeat constructor; by apply (bool_decide_unpack _). Qed.

(** Creating [/g] on the full disk, then [/h]. *)
Lemma create_on_full_disk_keeps_lock_witness :
  ∃ p d', resolve fs3.1 ROOT_INODE [] = Some p ∧ fs_inv d' fs3.1 [] ∧
    runs_to (D:=MemDisk) (L:=Locks) (handle_create root (command "/g" 0 type_file)) (disk_of fs3.1)
      [] [] (Exn "Not enough disk space for create") d' [] [(p, Upgrade)] ∧
    ([] = @nil bytes → ∀ (l : Locks) cmd2 name2, lk_view l [(p, Upgrade)] → good_name name2 →
       pathname cmd2 = path_of [name2] →
       fst (run (handle_create root cmd2) (St d' [] l false)) = Blocked ∧
       fst (run (handle_delete cmd2) (St d' [] l false)) = Blocked).
Proof.
  apply (create_on_full_disk_keeps_lock (cmd := command "/g" 0 type_file) (cs := [])
    (name := chars "g")).
  - exact inv_full.
  - by apply command_ok.
  - by left.
  - exact stack_ok.
  - reflexivity.
  - exact names_g.
  - eexists. vm_compute. reflexivity.
Defined.

(** A root directory without blocks: the first create needs two. *)
Lemma inv_one : fs_inv (disk_of store0) store0 [1].
Proof.
  split; [by eapply disk_of_models, wf0| |exact compact0].
  destruct wf0 as [R1 R2 R3 R4 R5 R6 _ _]. split; try done.
  - apply NoDup_singleton.
  - intros b ->%list_elem_of_singleton. split; [done|]. by apply lookup_singleton_ne.
Qed.

Lemma create_loses_last_block_witness :
  store0 !! 1 = None ∧
  ∃ d', runs_to (D:=MemDisk) (L:=Locks) (handle_create root (command "/g" 0 type_file))
      (disk_of store0) [1] [] (Exn "Not enough disk space for create") d' [] [] ∧
    fs_inv d' store0 [].
Proof.
  apply (create_loses_last_block (cmd := command "/g" 0 type_file) (cs := []) (name := chars "g")).
  - exact inv_one.
  - by apply command_ok.
  - by left.
  - exact stack_ok.
  - reflexivity.
  - exact names_g.
  - eexists. vm_compute. reflexivity.
  - exists 0, root. split_and!; vm_compute; reflexivity.
Defined.

End Witness.
