(* ===== verification/FsConcurrent.v ===== *)
(** * Requests that run at the same time

    [run] of [filesys/network_server.cpp] starts a thread for every connection,
    so the handlers of [FileSystem] run interleaved, over one disk, one queue of
    free blocks and one [lock_map].  A state ([cstate]) holds these and a
    thread for every request; a turn of a thread ([thread_step]) is one access
    to shared state.  The functions that take an inode lock do so in two turns,
    as the code does: under [lock_map_mutex] they find or create the entry,
    count themselves and copy its [shared_ptr]; then they call the mutex, which
    may make them wait while other threads change the map.

    [respects] is the invariant of all interleavings, from which
    [concurrent_requests_safe] follows: the discipline of every single thread
    ([FsLocking]) and the protocol of the lock table fit together. *)
From S2P Require Import Prelude Layout Locks Prog FileSystem FsLocking FsCorrect.
Import FileSystem LockTable.

Local Open Scope Z_scope.

(** ** The threads *)

(** The file-system part of [NetworkServer::handle_request]: the handler that the
    request names. *)
Definition request_prog (stack : fs_inode) (command : Command) : prog bytes :=
  match command_type command with
  | FS_READBLOCK => handle_read command
  | FS_WRITEBLOCK => (λ _, []) <$> handle_write command
  | FS_CREATE => (λ _, []) <$> handle_create stack command
  | FS_DELETE => (λ _, []) <$> handle_delete command
  | INVALID => Ret []
  end.

(** What is left of the request; the pointer [sm] of a thread that is in the
    middle of a locking function; and the locks that were granted to it, a
    record of the past that no step looks at. *)
Record thread := Thread {
  th_prog : prog bytes;
  th_sm : option nat;
  th_locks : thread_locks;
}.

Definition new_thread (p : prog bytes) : thread := Thread p None no_locks.

(** The functions that call the mutex after they left [lock_map_mutex]. *)
Definition two_phases (op : lock_op) : bool :=
  match op with
  | LockRead | LockUpgrade | UpgradeToWrite => true
  | UnlockRead | UnlockUpgrade | UnlockWrite => false
  end.

(** The holdings of a thread to which [op] is granted. *)
Definition granted_lock (op : lock_op) (b : Z) (h : holdings) : holdings :=
  match hold_step op b h with LkDone h' => h' | _ => h end.

Section concurrent.
Context {D M : Type} `{Disk D} `{BoostSharedMutex M}.

(** [free_block_list_mutex] is known by the thread that owns it. *)
Record cstate := CState {
  cs_disk : D;
  cs_free : list Z;
  cs_table : table M;
  cs_mutex : option nat;
  cs_threads : list thread;
}.

Definition start (d : D) (fl : list Z) : cstate := CState d fl empty_table None [].

(** The first phase: what runs under [lock_map_mutex]. *)
Definition enter (op : lock_op) (b : Z) (t : table M) : option (nat * table M) :=
  let t := match op with UpgradeToWrite => t | _ => register_lock b t end in
  g ← lock_map t !! b; Some (m_ptr g, t).

(** A thread moves on, waits, has ended, or misuses a lock: a failed assertion
    of the lock table, a pointer to nothing, a mutex that was not owned. *)
Inductive turn :=
| Steps (s : cstate)
| Waits
| Halts (o : outcome bytes)
| Misuse.

Definition set_thread (i : nat) (th : thread) (s : cstate) : cstate :=
  CState (cs_disk s) (cs_free s) (cs_table s) (cs_mutex s) (<[i:=th]> (cs_threads s)).

(** Thread [i] goes on with [p], its locks unchanged. *)
Definition goes_on (i : nat) (th : thread) (p : prog bytes) (s : cstate) : cstate :=
  set_thread i (Thread p None (th_locks th)) s.

Definition set_table (t : table M) (s : cstate) : cstate :=
  CState (cs_disk s) (cs_free s) t (cs_mutex s) (cs_threads s).

(** The lock is granted, and the thread goes on with [p]. *)
Definition grants (i : nat) (th : thread) (op : lock_op) (b : Z) (p : prog bytes) (t : table M)
    (s : cstate) : cstate :=
  set_thread i (Thread p None (TL (granted_lock op b (tl_inodes (th_locks th))) (tl_free (th_locks th))))
    (set_table t s).

(** A turn of a thread that is at a locking function. *)
Definition lock_step (i : nat) (th : thread) (op : lock_op) (b : Z) (p : prog bytes)
    (s : cstate) : turn :=
  if two_phases op then
    match th_sm th with
    | None =>
        match enter op b (cs_table s) with
        | None => Misuse
        | Some (sm, t) => Steps (set_thread i (Thread (th_prog th) (Some sm) (th_locks th)) (set_table t s))
        end
    | Some sm =>
        match call_mutex (mutex_op op) sm (cs_table s) with
        | LkDone t => Steps (grants i th op b p t s)
        | LkBlocks _ => Waits
        | LkInvalid => Misuse
        end
    end
  else
    match lk_call op b (cs_table s) with
    | LkDone t => Steps (grants i th op b p t s)
    | LkBlocks _ => Waits
    | LkInvalid => Misuse
    end.

Definition thread_step (i : nat) (th : thread) (s : cstate) : turn :=
  match th_prog th with
  | Ret a => Halts (Done a)
  | Throw e => Halts (Exn e)
  | Fail f => Halts (Crash f)
  | ReadBlock b k =>
      match disk_readblock (cs_disk s) b with
      | Some v => Steps (goes_on i th (k v) s)
      | None => Halts (Crash DiskFailure)
      end
  | WriteBlock b v k =>
      match disk_writeblock (cs_disk s) b v with
      | Some d => Steps (goes_on i th k (CState d (cs_free s) (cs_table s) (cs_mutex s) (cs_threads s)))
      | None => Halts (Crash DiskFailure)
      end
  | InodeLock op b k => lock_step i th op b k s
  | LockFreeMutex k =>
      match cs_mutex s with
      | Some _ => Waits
      | None =>
          Steps (set_thread i (Thread k None (TL (tl_inodes (th_locks th)) true))
            (CState (cs_disk s) (cs_free s) (cs_table s) (Some i) (cs_threads s)))
      end
  | UnlockFreeMutex k =>
      if decide (cs_mutex s = Some i) then
        Steps (set_thread i (Thread k None (TL (tl_inodes (th_locks th)) false))
          (CState (cs_disk s) (cs_free s) (cs_table s) None (cs_threads s)))
      else Misuse
  | GetFree k => Steps (goes_on i th (k (cs_free s)) s)
  | PutFree l k => Steps (goes_on i th k (CState (cs_disk s) l (cs_table s) (cs_mutex s) (cs_threads s)))
  end.

(** What may happen: a request comes in, and [run] starts its thread; or a thread
    gets a turn. *)
Inductive event :=
| Arrives (stack : fs_inode) (command : Command)
| Turn (i : nat).

Definition happens (s : cstate) (e : event) : cstate :=
  match e with
  | Arrives stack command =>
      CState (cs_disk s) (cs_free s) (cs_table s) (cs_mutex s)
        (cs_threads s ++ [new_thread (request_prog stack command)])
  | Turn i =>
      match th ← cs_threads s !! i; Some (thread_step i th s) with
      | Some (Steps s') => s'
      | _ => s
      end
  end.

(** An interleaving of requests. *)
Definition interleaving (es : list event) (s : cstate) : cstate := foldl happens s es.

End concurrent.
Arguments cstate : clear implicits.
Arguments turn : clear implicits.

(** ** The discipline of a request *)

Lemma guarantee_fmap {A B} (f : A → B) (p : prog A) t :
  guarantee balanced_unless_full p t → guarantee balanced_unless_full (f <$> p) t.
Proof.
  intros Hp. unfold fmap, prog_fmap. apply guarantee_bind. eapply guarantee_mono; [exact Hp|].
  intros [a|e|x|] t' Ho; [|destruct Ho as [Ho|[[= ->] Ho]]; [by left|by right]|by left..].
  destruct Ho as [Ho|[[=] _]]. by left.
Qed.

Lemma request_disciplined stack command :
  guarantee balanced_unless_full (request_prog stack command) no_locks.
Proof.
  unfold request_prog. destruct (command_type command).
  - apply balanced_weaken, balanced_read_file.
  - apply guarantee_fmap, balanced_weaken, balanced_write_file.
  - apply guarantee_fmap, balanced_create.
  - apply guarantee_fmap, balanced_weaken, balanced_delete.
  - by left.
Qed.

(** ** The locks of one thread among all *)

Lemma remove_one_app {A} `{EqDecision A} (x : A) l k :
  remove_one x (l ++ k) =
  match remove_one x l with Some l' => Some (l' ++ k) | None => (l ++.) <$> remove_one x k end.
Proof.
  induction l as [|y l IH]; simpl; [by destruct (remove_one x k)|]. case_decide; [done|].
  rewrite IH. destruct (remove_one x l); [done|]. by destruct (remove_one x k).
Qed.

(** What is granted to a thread among others is granted to it alone. *)
Lemma hold_step_frame op b h o h' :
  hold_step op b (h ++ o) = LkDone h' → hold_step op b h ≠ LkInvalid →
  hold_step op b h = LkDone (granted_lock op b h) ∧ h' = granted_lock op b h ++ o.
Proof.
  unfold granted_lock.
  destruct op; simpl; unfold drop_hold; rewrite ?remove_one_app; intros Hs Hv;
    repeat case_match; simplify_eq/=; try done;
    repeat match goal with
    | H : bool_decide _ = true |- _ => apply bool_decide_eq_true in H
    | H : bool_decide _ = false |- _ => apply bool_decide_eq_false in H
    end; exfalso; set_solver.
Qed.

Lemma hold_step_invalid op b h o :
  hold_step op b (h ++ o) = LkInvalid → hold_step op b h = LkInvalid.
Proof.
  destruct op; simpl; unfold drop_hold; rewrite ?remove_one_app; intros Hs;
    repeat case_match; simplify_eq/=; done.
Qed.

(** ** The invariant *)

Definition held (th : thread) : holdings := tl_inodes (th_locks th).

(** The inode whose lock the thread has asked for, if that will be a new one. *)
Definition asked (th : thread) : list Z :=
  match th_prog th, th_sm th with
  | InodeLock op b _, Some _ => if decide (new_holders op = 1%nat) then [b] else []
  | _, _ => []
  end.

Definition held_by (ths : list thread) : holdings := ths ≫= held.
Definition asked_by (ths : list thread) : list Z := ths ≫= asked.

Lemma bind_delete {A B} (f : A → list B) l i x :
  l !! i = Some x → l ≫= f ≡ₚ f x ++ (delete i l ≫= f).
Proof. intros Hi. exact (bind_Permutation f _ _ (delete_Permutation l i x Hi)). Qed.

Lemma delete_list_insert {A} (l : list A) i x : delete i (<[i:=x]> l) = delete i l.
Proof. revert i; induction l as [|y l IH]; intros [|i]; simpl; try done. f_equal. apply IH. Qed.

Lemma bind_insert {A B} (f : A → list B) l i x y :
  l !! i = Some x → <[i:=y]> l ≫= f ≡ₚ f y ++ (delete i l ≫= f).
Proof.
  intros Hi%lookup_lt_Some. rewrite <-(delete_list_insert l i y). apply bind_delete.
  by apply list_lookup_insert_eq.
Qed.

Lemma held_by_elem ths i th x : ths !! i = Some th → x ∈ held th → x ∈ held_by ths.
Proof. intros Hi Hx. apply list_elem_of_bind. eexists. split; [done|]. by eapply list_elem_of_lookup_2. Qed.

Section invariant.
Context {D M : Type} `{DiskSpec D} `{BoostSharedMutexSpec M}.
Implicit Types (s : cstate D M) (t : table M) (th : thread).

(** A thread follows its discipline, and its pointer [sm] is the one in the
    entry of the inode that it wants. *)
Record thread_ok t th : Prop := {
  ok_discipline : guarantee balanced_unless_full (th_prog th) (th_locks th);
  ok_two : (length (held th) <= 2)%nat;
  ok_sm sm : th_sm th = Some sm →
    match th_prog th with
    | InodeLock op b _ => two_phases op = true ∧ m_ptr <$> lock_map t !! b = Some sm
    | _ => False
    end;
}.

Record respects s : Prop := {
  rs_thread i th : cs_threads s !! i = Some th → thread_ok (cs_table s) th;
  rs_mutex i th : cs_threads s !! i = Some th → tl_free (th_locks th) = true ↔ cs_mutex s = Some i;
  rs_owner i : cs_mutex s = Some i → (i < length (cs_threads s))%nat;
  rs_table : shares (cs_table s) (held_by (cs_threads s)) (asked_by (cs_threads s));
}.

(** Entries do not change their mutex. *)
Definition keeps_mutexes t t' : Prop :=
  ∀ b sm, m_ptr <$> lock_map t !! b = Some sm →
    lock_map t' !! b = None ∨ m_ptr <$> lock_map t' !! b = Some sm.

Lemma keeps_same t t' : lock_map t' = lock_map t → keeps_mutexes t t'.
Proof. intros Ht b sm Hb. right. by rewrite Ht. Qed.

Lemma alter_keeps_ptr b n (lm : gmap Z GyattLock) b' :
  m_ptr <$> alter (add_readers n) b lm !! b' = m_ptr <$> lm !! b'.
Proof. rewrite lookup_alter. case_decide; [subst|done]. by destruct (lm !! b'). Qed.

Lemma keeps_register b t : keeps_mutexes t (register_lock b t).
Proof.
  intros b' sm Hb. right. unfold register_lock, ensure_lock. simpl. rewrite alter_keeps_ptr.
  destruct (lock_map t !! b) eqn:Hg; [done|]. simpl. rewrite lookup_insert_ne; [done|].
  intros ->. by rewrite Hg in Hb.
Qed.

Lemma keeps_erase b t : keeps_mutexes t (erase_if_unused b t).
Proof.
  intros b' sm Hb. unfold erase_if_unused. case_match; [|by right]. case_match; [|by right].
  simpl. rewrite lookup_delete. case_decide; [by left|by right].
Qed.

Lemma call_mutex_map op p t t' : call_mutex op p t = LkDone t' → lock_map t' = lock_map t.
Proof. unfold call_mutex. repeat case_match; by intros [= <-]. Qed.

Lemma keeps_release op b t t' : release op b t = LkDone t' → keeps_mutexes t t'.
Proof.
  unfold release. destruct (lock_map t !! b) as [g|] eqn:Hg; [|done].
  destruct (call_mutex op (m_ptr g) t) as [t1| |] eqn:Hc; simpl; [|done..]. intros [= <-] b' sm Hb.
  apply keeps_erase. simpl. by rewrite alter_keeps_ptr, (call_mutex_map _ _ _ _ Hc).
Qed.

(** A discipline at a locking function, read off. *)
Lemma guarantee_lock_inv {A} (Q : outcome A → thread_locks → Prop) op b k tl :
  guarantee Q (InodeLock op b k) tl →
  hold_step op b (tl_inodes tl) ≠ LkInvalid ∧
  ∀ h, hold_step op b (tl_inodes tl) = LkDone h →
    waits_orderly op tl = true ∧ (length h <= 2)%nat ∧ guarantee Q k (TL h (tl_free tl)).
Proof.
  change (guarantee Q (InodeLock op b k) tl) with
    (match hold_step op b (tl_inodes tl) with
     | LkDone h => waits_orderly op tl = true ∧ (length h <= 2)%nat ∧ guarantee Q k (TL h (tl_free tl))
     | LkBlocks _ => Q Blocked tl
     | LkInvalid => False
     end).
  destruct (hold_step op b (tl_inodes tl)); [|done..]. intros Hg. split; [done|]. by intros h [= <-].
Qed.

(** The entry that a thread has a pointer to is in use. *)
Lemma sm_used t th sm op b k :
  thread_ok t th → th_sm th = Some sm → th_prog th = InodeLock op b k →
  (∃ m, (b, m) ∈ held th) ∨ b ∈ asked th.
Proof.
  intros [Hg _ Hok] Hsm Hp. specialize (Hok sm Hsm). rewrite Hp in Hg, Hok. destruct Hok as [Htwo _].
  apply guarantee_lock_inv in Hg as [Hg _]. unfold asked. rewrite Hp, Hsm.
  destruct op; simpl in Htwo; try done; simpl in *; [right; by left| right; by left|].
  left. exists Upgrade. apply remove_one_is_Some. unfold held. by destruct (remove_one _ _).
Qed.

Lemma waiters_elem b w : b ∈ w ↔ (0 < waiters b w)%nat.
Proof.
  induction w as [|c w IH]; [split; [by intros ?%elem_of_nil|unfold waiters; simpl; lia]|].
  rewrite elem_of_cons, waiters_cons, IH. case_decide as Hd; [subst; split; [lia|by left]|].
  split; [intros [->|?]; [done|lia]|right; lia].
Qed.

Lemma used_elem b ths i th :
  ths !! i = Some th → (∃ m, (b, m) ∈ held th) ∨ b ∈ asked th →
  (0 < users b (held_by ths) (asked_by ths))%nat.
Proof.
  intros Hi [[m Hm]|Ha].
  - eapply users_holder, held_by_elem; done.
  - unfold users. enough (0 < waiters b (asked_by ths))%nat by lia.
    apply waiters_elem, list_elem_of_bind. eexists. split; [done|]. by eapply list_elem_of_lookup_2.
Qed.

(** A turn of thread [i] that changes its own part of the state only, the table
    by the protocol, and the owner of the mutex by giving or taking. *)
Lemma update_thread_respects i th th' t' d fl mu' s :
  respects s → cs_threads s !! i = Some th →
  thread_ok t' th' → keeps_mutexes (cs_table s) t' →
  shares t' (held th' ++ held_by (delete i (cs_threads s))) (asked th' ++ asked_by (delete i (cs_threads s))) →
  (tl_free (th_locks th') = true ↔ mu' = Some i) →
  (∀ j, j ≠ i → mu' = Some j ↔ cs_mutex s = Some j) →
  respects (CState d fl t' mu' (<[i:=th']> (cs_threads s))).
Proof.
  intros [Ht Hm Ho Hs] Hi Hok Hk Hs' Hf Hmu.
  assert (shares t' (held_by (<[i:=th']> (cs_threads s))) (asked_by (<[i:=th']> (cs_threads s)))) as Hsh.
  { eapply shares_perm; [exact Hs'|symmetry; by eapply bind_insert..]. }
  split; simpl; [| |intros j|done].
  - intros j tj Hj. apply list_lookup_insert_Some in Hj as Hj'.
    destruct Hj' as [(<- & -> & _)|[Hne Hj']]; [done|]. destruct (Ht j tj Hj') as [Hg Htwo Hsm].
    split; [done..|]. intros sm Htj. pose proof (Hsm sm Htj) as Hw. destruct (th_prog tj) eqn:Hp; try done.
    destruct Hw as [Hph Hw]. split; [done|]. destruct (Hk _ _ Hw) as [Hn|?]; [|done].
    pose proof (used_elem b _ j tj Hj (sm_used _ _ _ _ _ _ (Ht j tj Hj') Htj Hp)) as Hu.
    pose proof (sh_entry _ _ _ Hsh b) as He. rewrite Hn in He. lia.
  - intros j tj Hj. apply list_lookup_insert_Some in Hj as [(<- & -> & _)|[Hne Hj]]; [done|].
    rewrite Hmu by done. by apply Hm.
  - rewrite length_insert. destruct (decide (j = i)) as [->|Hne]; [intros _; by eapply lookup_lt_Some|].
    rewrite Hmu by done. apply Ho.
Qed.

(** The table seen from thread [i]. *)
Lemma shares_thread i th s :
  respects s → cs_threads s !! i = Some th →
  shares (cs_table s) (held th ++ held_by (delete i (cs_threads s)))
    (asked th ++ asked_by (delete i (cs_threads s))).
Proof. intros Hr Hi. eapply shares_perm; [exact (rs_table _ Hr)|by apply bind_delete..]. Qed.

(** A thread that holds on to its locks. *)
Lemma respects_goes_on i th p d fl mu' f s :
  respects s → cs_threads s !! i = Some th → asked th = [] →
  guarantee balanced_unless_full p (TL (held th) f) →
  (f = true ↔ mu' = Some i) → (∀ j, j ≠ i → mu' = Some j ↔ cs_mutex s = Some j) →
  respects (CState d fl (cs_table s) mu' (<[i:=Thread p None (TL (held th) f)]> (cs_threads s))).
Proof.
  intros Hr Hi Ha Hg Hf Hmu. pose proof (shares_thread i th s Hr Hi) as Hs. rewrite Ha in Hs.
  eapply update_thread_respects; [done..| |by apply keeps_same| |done|done].
  - split; [done| |done]. apply (rs_thread _ Hr _ _ Hi).
  - unfold asked. simpl. by destruct p.
Qed.

Lemma respects_granted i th op b k t' s :
  respects s → cs_threads s !! i = Some th → th_prog th = InodeLock op b k →
  hold_step op b (held th) = LkDone (granted_lock op b (held th)) →
  keeps_mutexes (cs_table s) t' →
  shares t' (granted_lock op b (held th) ++ held_by (delete i (cs_threads s))) (asked_by (delete i (cs_threads s))) →
  respects (grants i th op b k t' s).
Proof.
  intros Hr Hi Hp Hst Hk Hs. pose proof (rs_thread _ Hr _ _ Hi) as [Hg _ _]. rewrite Hp in Hg.
  apply guarantee_lock_inv in Hg as [_ Hg]. destruct (Hg _ Hst) as (_ & Htwo & Hgk).
  apply (update_thread_respects i th _ _ _ _ _ s); [done..| |done| | |done].
  - by split.
  - unfold asked. simpl. by destruct k.
  - exact (rs_mutex _ Hr _ _ Hi).
Qed.

Lemma asked_wants th op b k :
  th_prog th = InodeLock op b k →
  asked th = match th_sm th with Some _ => if decide (new_holders op = 1%nat) then [b] else [] | None => [] end.
Proof. unfold asked. by intros ->. Qed.

Lemma held_by_length t ths :
  (∀ i th, ths !! i = Some th → thread_ok t th) → (length (held_by ths) + length (asked_by ths) <= 3 * length ths)%nat.
Proof.
  intros Hok. assert (Forall (thread_ok t) ths) as Hall by by apply Forall_lookup_2. clear Hok.
  induction Hall as [|th ths [_ Htwo _] _ IH]; [done|]. unfold held_by, asked_by in *. rewrite !bind_cons, !length_app. simpl.
  assert (length (asked th) <= 1)%nat by (unfold asked; repeat case_match; simpl; lia). lia.
Qed.

Context {s : cstate D M} {i : nat} {th : thread}.
Context (Hr : respects s) (Hi : cs_threads s !! i = Some th) (Hbound : 3 * len (cs_threads s) < hold_bound).

Lemma thread_bound :
  len (held th ++ held_by (delete i (cs_threads s))) + len (asked th ++ asked_by (delete i (cs_threads s))) < hold_bound.
Proof.
  pose proof (held_by_length _ _ (rs_thread _ Hr)) as Hl.
  assert (length (held_by (cs_threads s)) = length (held th ++ held_by (delete i (cs_threads s)))) as Hh
    by by apply Permutation_length, bind_delete.
  assert (length (asked_by (cs_threads s)) = length (asked th ++ asked_by (delete i (cs_threads s)))) as Ha
    by by apply Permutation_length, bind_delete.
  unfold len in *. lia.
Qed.

(** The first phase succeeds, and the thread waits for its mutex. *)
Lemma enter_respects op b k :
  th_prog th = InodeLock op b k → two_phases op = true → th_sm th = None →
  match enter op b (cs_table s) with
  | Some (sm, t) => respects (set_thread i (Thread (th_prog th) (Some sm) (th_locks th)) (set_table t s))
  | None => False
  end.
Proof.
  intros Hp Htwo Hsm. pose proof (shares_thread i th s Hr Hi) as Hs. pose proof thread_bound as Hl.
  pose proof (rs_thread _ Hr _ _ Hi) as [Hg Hh _]. rewrite (asked_wants _ _ _ _ Hp), Hsm in Hs, Hl.
  assert (∀ t g, lock_map t !! b = Some g → keeps_mutexes (cs_table s) t →
    shares t (held th ++ held_by (delete i (cs_threads s)))
      ((if decide (new_holders op = 1%nat) then [b] else []) ++ asked_by (delete i (cs_threads s))) →
    respects (set_thread i (Thread (th_prog th) (Some (m_ptr g)) (th_locks th)) (set_table t s))) as Hnext.
  { intros t g Hgt Hk Hst. apply (update_thread_respects i th _ _ _ _ _ s); [done..| |done| |exact (rs_mutex _ Hr _ _ Hi)|done].
    - split; [done..|]. intros sm [= <-]. simpl. rewrite Hp. by rewrite Hgt.
    - by rewrite (asked_wants _ op b k). }
  unfold enter. destruct op; simpl in Htwo; try done.
  3: { rewrite Hp in Hg. apply guarantee_lock_inv in Hg as [Hg _]. simpl in Hg.
    destruct (shares_lookup b _ _ _ Hs) as [g Hgb]; [|rewrite Hgb; simpl; apply Hnext; [done|by apply keeps_same|done]].
    apply (users_holder b Upgrade), elem_of_app. left. apply remove_one_is_Some. unfold held. by destruct (remove_one _ _). }
  all: destruct (register_shares b _ _ _ Hs) as (g & Hgb & Hst); [unfold len in *; simpl in *; lia|];
    rewrite Hgb; simpl; apply Hnext; [done|apply keeps_register|done].
Qed.

(** A turn at a locking function keeps the invariant and misuses nothing. *)
Lemma lock_step_respects op b k :
  th_prog th = InodeLock op b k →
  match lock_step i th op b k s with
  | Steps s' => respects s'
  | Waits => ∃ h', hold_step op b (held th ++ held_by (delete i (cs_threads s))) = LkBlocks h'
  | _ => False
  end.
Proof.
  intros Hp. pose proof (shares_thread i th s Hr Hi) as Hs. pose proof thread_bound as Hl.
  pose proof (rs_thread _ Hr _ _ Hi) as [Hg _ Hsm]. rewrite Hp in Hg.
  apply guarantee_lock_inv in Hg as [Hv _]. rewrite (asked_wants _ _ _ _ Hp) in Hs, Hl.
  unfold lock_step. destruct (two_phases op) eqn:Htwo.
  - destruct (th_sm th) as [sm|] eqn:Hth.
    2: { pose proof (enter_respects op b k Hp Htwo Hth) as He. by destruct (enter op b (cs_table s)) as [[??]|]. }
    specialize (Hsm sm eq_refl). rewrite Hp in Hsm. destruct Hsm as (_ & (g & Hgb & ->)%fmap_Some).
    pose proof (call_shares op b g _ _ _ (asked_by (delete i (cs_threads s))) Hs Hgb) as Hc.
    assert (old_holders op = 0%nat) as Hold by by destruct op. rewrite Hold in Hc.
    match type of Hc with ?P → _ => assert P as Hw end.
    { case_decide as Hn; simpl; [rewrite waiters_cons, decide_True by done; lia|]. destruct op; simpl in *; lia. }
    specialize (Hc Hw ltac:(intros; case_decide; simpl; [by rewrite waiters_cons_ne|done])).
    destruct (hold_step op b (held th ++ _)) as [h'|h'|] eqn:Hst.
    + destruct Hc as (t' & -> & Hs' & Hlm). destruct (hold_step_frame _ _ _ _ _ Hst Hv) as [Hst' ->].
      by apply respects_granted; [..|apply keeps_same|].
    + destruct Hc as (t' & ->). by exists h'.
    + by apply hold_step_invalid in Hst.
  - assert (th_sm th = None) as Hth.
    { destruct (th_sm th) as [sm|]; [|done]. specialize (Hsm sm eq_refl). rewrite Hp, Htwo in Hsm. by destruct Hsm. }
    rewrite Hth in Hs, Hl. simpl in Hs, Hl. pose proof (table_call op b _ _ _ Hs Hl) as Hc.
    destruct (hold_step op b (held th ++ _)) as [h'|h'|] eqn:Hst.
    + destruct Hc as (t' & Hc & Hs'). rewrite Hc. destruct (hold_step_frame _ _ _ _ _ Hst Hv) as [Hst' ->].
      apply respects_granted; [done..| |done]. by destruct op; simpl in Hc; try done; eapply keeps_release.
    + destruct Hc as (t' & ->). by exists h'.
    + by apply hold_step_invalid in Hst.
Qed.

(** So does every turn. *)
Lemma thread_step_respects :
  match thread_step i th s with Steps s' => respects s' | Misuse => False | _ => True end.
Proof.
  pose proof (rs_thread _ Hr _ _ Hi) as [Hg _ Hsm]. pose proof (rs_mutex _ Hr _ _ Hi) as Hm.
  assert (∀ p d fl, asked th = [] → guarantee balanced_unless_full p (th_locks th) →
    respects (CState d fl (cs_table s) (cs_mutex s) (<[i:=Thread p None (th_locks th)]> (cs_threads s)))) as Hon.
  { intros p d fl Ha Hp. unfold held in *. destruct (th_locks th) as [h f] eqn:Hth.
    pose proof (respects_goes_on i th p d fl (cs_mutex s) f s Hr Hi Ha) as Hx. unfold held in Hx. rewrite Hth in Hx.
    by apply Hx. }
  unfold thread_step. unfold asked in Hon. destruct (th_prog th) as [a|e|f|b k|b v k|op b k|k|k|k|l k] eqn:Hp; try done.
  - destruct (disk_readblock (cs_disk s) b) as [v|] eqn:Hd; [|done]. apply Hon; [done|]. apply Hg.
    by eapply disk_read_length.
  - destruct (disk_writeblock (cs_disk s) b v) as [d|]; [|done]. apply Hon; [done|]. apply Hg.
  - pose proof (lock_step_respects op b k Hp) as Hst. by destruct (lock_step i th op b k s).
  - destruct (cs_mutex s) as [j|] eqn:Hmu; [done|].
    apply (respects_goes_on i th k _ _ _ true s); [done..|by unfold asked; rewrite Hp|apply Hg|done|].
    intros j Hne. rewrite Hmu. by split; [intros [= ->]|].
  - destruct Hg as [Hf Hg]. apply Hm in Hf as Hmu. rewrite decide_True by done.
    apply (respects_goes_on i th k _ _ _ false s); [done..|by unfold asked; rewrite Hp|apply Hg|done|].
    intros j Hne. rewrite Hmu. split; [done|by intros [= ->]].
  - apply Hon; [done|]. apply Hg.
  - apply Hon; [done|]. apply Hg.
Qed.

End invariant.

(** ** What every interleaving has *)

(** Locks of one inode that two threads can hold. *)
Definition compatible (m1 m2 : lock_mode) : bool :=
  match m1, m2 with
  | Shared, (Shared | Upgrade) | Upgrade, Shared => true
  | _, _ => false
  end.

(** Locks that make a call wait. *)
Definition conflicts (op : lock_op) (m : lock_mode) : bool :=
  match op, m with
  | LockRead, Exclusive | LockUpgrade, (Upgrade | Exclusive) | UpgradeToWrite, Shared => true
  | _, _ => false
  end.

(** Another thread [tj], number [j], holds what [th] waits for. *)
Definition in_the_way (th : thread) (j : nat) (tj : thread) : Prop :=
  match th_prog th with
  | InodeLock op b _ => ∃ m, (b, m) ∈ held tj ∧ conflicts op m = true
  | LockFreeMutex _ => tl_free (th_locks tj) = true
  | _ => False
  end.

(** An access comes with its lock. *)
Definition access_locked (mutex : option nat) (i : nat) (th : thread) : Prop :=
  match th_prog th with
  | ReadBlock _ _ => held th ≠ []
  | WriteBlock _ _ _ => may_write (held th)
  | GetFree _ | PutFree _ _ => mutex = Some i
  | _ => True
  end.

(** The handler has returned or thrown. *)
Definition finished (th : thread) : Prop :=
  match th_prog th with Ret _ | Throw _ => True | _ => False end.

(** A create that found no free block, and left with the lock of its directory [b]. *)
Definition keeps_lock (b : Z) (th : thread) : Prop :=
  th_prog th = Throw "Not enough disk space for create" ∧ th_locks th = TL [(b, Upgrade)] false.

Lemma finished_locks {M} (t : table M) th :
  thread_ok t th → finished th → th_locks th = no_locks ∨ ∃ b, keeps_lock b th.
Proof.
  intros [Hg _ _]. unfold finished, keeps_lock. destruct (th_prog th) as [a|e|f|b k|b v k|op b k|k|k|k|l k]; try done.
  - intros _. left. by destruct Hg as [Hg|[[=] _]].
  - intros _. destruct Hg as [Hg|[[= ->] [b Hb]]]; [by left|right]. by exists b.
Qed.

#[export] Instance finished_dec th : Decision (finished th).
Proof. unfold finished. destruct (th_prog th); apply _. Defined.

Section interleavings.
Context {D M : Type} `{DiskSpec D} `{BoostSharedMutexSpec M}.
Implicit Types (s : cstate D M).

(** No request is being served. *)
Record at_rest s : Prop := {
  ar_table : represents (cs_table s) [];
  ar_mutex : cs_mutex s = None;
  ar_threads : cs_threads s = [];
}.

Lemma start_at_rest (d : D) fl : at_rest (start d fl).
Proof. split; [apply represents_empty|done..]. Qed.

Lemma at_rest_respects s : at_rest s → respects s.
Proof. intros [Ht Hm Hths]. split; rewrite ?Hths, ?Hm; simpl; done. Qed.

Lemma start_respects (d : D) fl : respects (start d fl).
Proof. apply at_rest_respects, start_at_rest. Qed.

Lemma arrives_respects stack command s : respects s → respects (happens s (Arrives stack command)).
Proof.
  intros [Ht Hm Ho Hs]. split; simpl.
  - intros i th [[_ Hi]|[-> <-]]%lookup_snoc_Some; [by eapply Ht|].
    split; [apply request_disciplined|simpl; lia|done].
  - intros i th [[_ Hi]|[-> <-]]%lookup_snoc_Some; [by eapply Hm|]. simpl. split; [done|].
    intros Hl%Ho. lia.
  - intros i Hi%Ho. rewrite length_app. lia.
  - unfold held_by, asked_by in *. rewrite !bind_app, !bind_cons. unfold asked at 2. simpl.
    rewrite !app_nil_r. by destruct (request_prog stack command); rewrite ?app_nil_r.
Qed.

Lemma happens_respects s e :
  respects s → 3 * len (cs_threads s) < hold_bound → respects (happens s e).
Proof.
  intros Hr Hl. destruct e as [stack command|i]; [by apply arrives_respects|]. simpl.
  destruct (cs_threads s !! i) as [th|] eqn:Hi; [|done]. simpl.
  pose proof (thread_step_respects Hr Hi Hl) as Hst. by destruct (thread_step i th s).
Qed.

Lemma thread_step_length i th s s' :
  thread_step i th s = Steps s' → length (cs_threads s') = length (cs_threads s).
Proof.
  unfold thread_step, lock_step. intros Hs. repeat case_match; simplify_eq/=; by rewrite length_insert.
Qed.

Lemma happens_length s e : (length (cs_threads s) <= length (cs_threads (happens s e)))%nat.
Proof.
  destruct e as [stack command|i]; simpl; [rewrite length_app; lia|].
  destruct (cs_threads s !! i) as [th|]; [|done]. simpl. destruct (thread_step i th s) as [s'| | |] eqn:Hst; try done.
  by rewrite (thread_step_length _ _ _ _ Hst).
Qed.

Lemma interleaving_length es s : (length (cs_threads s) <= length (cs_threads (interleaving es s)))%nat.
Proof.
  revert s; induction es as [|e es IH]; intros s; [done|]. simpl.
  etrans; [apply (happens_length s e)|apply IH].
Qed.

Lemma interleaving_respects es s :
  respects s → 3 * len (cs_threads (interleaving es s)) < hold_bound → respects (interleaving es s).
Proof.
  revert s; induction es as [|e es IH]; intros s Hr Hl; [done|]. simpl in *. apply IH; [|done].
  apply happens_respects; [done|]. pose proof (interleaving_length (e :: es) s) as Hle. simpl in Hle.
  unfold len in *. lia.
Qed.

Lemma count_hold_app x h k : count_hold x (h ++ k) = (count_hold x h + count_hold x k)%nat.
Proof. unfold count_hold. by rewrite filter_app, length_app. Qed.

Lemma held_by_inv (ths : list thread) x : x ∈ held_by ths → ∃ j tj, ths !! j = Some tj ∧ x ∈ held tj.
Proof. intros (tj & Hx & [j Hj]%list_elem_of_lookup)%list_elem_of_bind. by exists j, tj. Qed.

Lemma hold_step_blocks op b h h' :
  hold_step op b h = LkBlocks h' → ∃ m, (b, m) ∈ h ∧ conflicts op m = true.
Proof.
  destruct op; simpl; unfold drop_hold; intros Hs; repeat case_match; simplify_eq;
    match goal with H : bool_decide _ = true |- _ => apply bool_decide_eq_true in H end; naive_solver.
Qed.

Lemma locks_compatible s i j ti tj b m1 m2 :
  respects s → i ≠ j → cs_threads s !! i = Some ti → cs_threads s !! j = Some tj →
  (b, m1) ∈ held ti → (b, m2) ∈ held tj → compatible m1 m2 = true.
Proof.
  intros Hr Hne Hi Hj Hm1 Hm2. destruct (sh_exclusion _ _ _ (rs_table _ Hr) b) as [Hone Hno].
  assert ((b, m2) ∈ held_by (delete i (cs_threads s))) as Hrest.
  { apply list_elem_of_bind. exists tj. split; [done|]. apply list_elem_of_lookup.
    destruct (decide (j < i)%nat); [exists j; by rewrite list_lookup_delete_lt|].
    exists (pred j). rewrite list_lookup_delete_ge by lia. by replace (S (pred j)) with j by lia. }
  rewrite !(count_hold_perm _ _ _ (bind_delete held _ _ _ Hi)), !count_hold_app in *.
  apply count_hold_elem in Hm1, Hrest. unfold held_by in Hrest. destruct m1, m2; simpl; try done; lia.
Qed.

Lemma waits_for_thread s i th :
  respects s → cs_threads s !! i = Some th → 3 * len (cs_threads s) < hold_bound →
  thread_step i th s = Waits →
  ∃ j tj, cs_threads s !! j = Some tj ∧ in_the_way th j tj ∧ (¬ finished tj ∨ ∃ b, keeps_lock b tj).
Proof.
  intros Hr Hi Hl Hw.
  assert (∀ j tj, cs_threads s !! j = Some tj → th_locks tj ≠ no_locks → ¬ finished tj ∨ ∃ b, keeps_lock b tj) as Hnf.
  { intros j tj Hj Hlk. destruct (decide (finished tj)) as [Hf|]; [right|by left].
    by destruct (finished_locks (cs_table s) tj (rs_thread _ Hr _ _ Hj) Hf). }
  unfold thread_step in Hw. unfold in_the_way.
  destruct (th_prog th) as [a|e|f|b k|b v k|op b k|k|k|k|l k] eqn:Hp; repeat case_match; try done.
  - pose proof (lock_step_respects Hr Hi Hl op b k Hp) as Hst. rewrite Hw in Hst. destruct Hst as [h' Hst].
    apply hold_step_blocks in Hst as (m & Hm & Hc). rewrite <-(bind_delete held _ _ _ Hi) in Hm.
    apply held_by_inv in Hm as (j & tj & Hj & Hm). exists j, tj. split; [done|]. split; [by exists m|].
    apply (Hnf j); [done|]. intros Hno. unfold held in Hm. rewrite Hno in Hm. by apply elem_of_nil in Hm.
  - match goal with Hmu : cs_mutex s = Some ?j |- _ => rename Hmu into Hmutex;
      destruct (lookup_lt_is_Some_2 _ _ (rs_owner _ Hr j Hmutex)) as [tj Hj]; exists j, tj end.
    apply (rs_mutex _ Hr _ _ Hj) in Hmutex. split; [done|]. split; [done|].
    apply (Hnf _ _ Hj). intros Hno. by rewrite Hno in Hmutex.
Qed.

Lemma accesses_locked s i th :
  respects s → cs_threads s !! i = Some th → access_locked (cs_mutex s) i th.
Proof.
  intros Hr Hi. destruct (rs_thread _ Hr _ _ Hi) as [Hg _ _]. unfold access_locked, held.
  destruct (th_prog th) as [a|e|f|b k|b v k|op b k|k|k|k|l k]; try done; try apply Hg;
    (apply (rs_mutex _ Hr _ _ Hi)); apply Hg.
Qed.

Lemma entry_unused s b :
  respects s →
  lock_map (cs_table s) !! b = None ↔
  ∀ i th, cs_threads s !! i = Some th → b ∉ asked th ∧ ∀ m, (b, m) ∉ held th.
Proof.
  intros Hr. pose proof (sh_entry _ _ _ (rs_table _ Hr) b) as He. split.
  - intros Hn i th Hi. rewrite Hn in He. split; [|intros m]; intros Hx;
      (pose proof (used_elem b _ i th Hi ltac:(eauto)) as Hu; lia).
  - intros Hno. destruct (lock_map (cs_table s) !! b) as [g|]; [|done]. destruct He as (_ & Hu & _). exfalso.
    unfold users in Hu. assert (waiters b (asked_by (cs_threads s)) = 0%nat) as Hw.
    { enough (¬ (0 < waiters b (asked_by (cs_threads s)))%nat) by lia. rewrite <-waiters_elem.
      intros (th & Hc & [i Hi]%list_elem_of_lookup)%list_elem_of_bind. by apply (Hno i th Hi). }
    assert (∀ m, count_hold (b, m) (held_by (cs_threads s)) = 0%nat) as Hh.
    { intros m. apply not_held_count. intros (i & th & Hi & Hx)%held_by_inv. by apply (Hno i th Hi) in Hx. }
    unfold holders in Hu. rewrite Hw, !Hh in Hu. lia.
Qed.

(** What is left when all have finished: the locks that were kept. *)
Lemma all_finished s :
  respects s → (∀ i th, cs_threads s !! i = Some th → finished th) →
  cs_mutex s = None ∧
  ∀ b, lock_map (cs_table s) !! b = None ↔ ∀ i th, cs_threads s !! i = Some th → ¬ keeps_lock b th.
Proof.
  intros Hr Hf. assert (∀ i th, cs_threads s !! i = Some th → th_locks th = no_locks ∨ ∃ b, keeps_lock b th) as Hno
    by (intros i th Hi; eapply finished_locks; [by apply (rs_thread _ Hr i)|by eapply Hf]).
  split.
  - destruct (cs_mutex s) as [i|] eqn:Hm; [|done]. destruct (lookup_lt_is_Some_2 _ _ (rs_owner _ Hr i Hm)) as [th Hi].
    apply (rs_mutex _ Hr _ _ Hi) in Hm. by destruct (Hno i th Hi) as [Hl|(b & _ & Hl)]; rewrite Hl in Hm.
  - intros b. rewrite (entry_unused s b Hr). split; intros Hall i th Hi.
    + intros [_ Hl]. destruct (Hall i th Hi) as [_ Hheld]. apply (Hheld Upgrade). unfold held. rewrite Hl. by left.
    + specialize (Hall i th Hi). pose proof (Hf i th Hi) as Hfin. unfold finished in Hfin. unfold asked, held. split.
      * destruct (th_prog th); try done; by intros ?%elem_of_nil.
      * intros m. destruct (Hno i th Hi) as [Hl|(b' & Hp & Hl)]; rewrite Hl; simpl; [by intros ?%elem_of_nil|].
        intros [= -> ->]%list_elem_of_singleton. by apply Hall.
Qed.


End interleavings.

(** ** Concrete interleavings *)

Module ConcurrentWitness.
Import FsCorrect.Demo.

Definition request (ty : CommandType) (path : string) (t : ascii) : Command :=
  mkCommand ty user (chars path) 0 t (block_of "y").

(** [n] rounds of one turn for each of the first [k] threads. *)
Definition rounds (n k : nat) : list event := concat (replicate n (Turn <$> seq 0 k)).

(** A writer of [/d/f], a reader of it, and somebody who deletes it. *)
Definition busy : list event :=
  [Arrives root (request FS_WRITEBLOCK "/d/f" NUL); Arrives root (request FS_READBLOCK "/d/f" NUL);
   Arrives root (request FS_DELETE "/d/f" NUL)].

Definition after (es : list event) : cstate MemDisk rwstate :=
  interleaving es (start (disk_of fs3.1) fs3.2).

Definition is_waiting (i : nat) (s : cstate MemDisk rwstate) : bool :=
  match cs_threads s !! i with
  | Some th => match thread_step i th s with Waits => true | _ => false end
  | None => false
  end.

Definition ended (s : cstate MemDisk rwstate) : list bool :=
  (λ th, match th_prog th with Ret _ | Throw _ => true | _ => false end) <$> cs_threads s.

Definition busy_state : cstate MemDisk rwstate := after (busy ++ rounds 14 3).

(** In the middle: the reader is reading the file; the writer has its
    upgradeable lock and waits for the reader to leave; and the one who deletes,
    holding the writer lock of [/d], waits for the writer. *)
Example busy_middle :
  let s := busy_state in
  (λ th, (held th, asked th)) <$> cs_threads s =
    [([(3, Upgrade)], []); ([(3, Shared)], []); ([(1, Exclusive)], [3])] ∧
  (λ i, is_waiting i s) <$> [0; 1; 2]%nat = [true; false; true] ∧ ended s = [false; false; false].
Proof. vm_compute. done. Qed.

(** At the end: the old block was read, the file is gone, its blocks are free. *)
Example busy_end :
  let s := after (busy ++ rounds 60 3) in
  (th_prog <$> cs_threads s = [Ret []; Ret (block_of "x"); Ret []]) ∧
  lock_map (cs_table s) = ∅ ∧ cs_free s = [6; 7; 4; 3; 5].
Proof. vm_compute. done. Qed.


(** A create that finds no free block leaves, and the next one waits for the
    lock of the directory that it did not give back, for ever. *)
Example full_disk_blocks :
  let s := interleaving
    ([Arrives root (request FS_CREATE "/d/g" type_file); Arrives root (request FS_CREATE "/d/h" type_file)] ++ rounds 40 2)
    (start (M := rwstate) (disk_of fs3.1) []) in
  ended s = [true; false] ∧ is_waiting 1 s = true ∧ held <$> cs_threads s !! 0%nat = Some [(1, Upgrade)].
Proof. vm_compute. done. Qed.

End ConcurrentWitness.
