(* ===== verification/FsChanges.v ===== *)
(** * What a request leaves alone

    A request that changes the store changes one inode and its blocks, and a
    delete also removes a child of it ([changes]).  For all other inodes, and
    for everybody who follows a path, the store stays what it was: this is what
    requests that run at the same time rely on. *)
From S2P Require Import Prelude Layout Locks FileSystem FsModel FsStore FsSpec FsInvariant FsTree.
Import FileSystem.

Local Open Scope Z_scope.

Definition childless (V : store) (c : Z) : Prop := ∀ name c', ¬ child_of V c name c'.

(** A change of the inode [p] and its blocks; [gone] is a child that it removes. *)
Record changes (p : Z) (gone : option Z) (V V' : store) : Prop := {
  ch_inode b i : b ≠ p → gone ≠ Some b → V !! b = Some (NInode i) →
    V' !! b = Some (NInode i) ∧ ∀ x, x ∈ inode_refs i → V' !! x = V !! x;
  ch_next user b name c : next_spec V user b name = inr c → gone ≠ Some c →
    next_spec V' user b name = inr c;
}.

(** The order of the free blocks does not matter to the invariant. *)
#[export] Instance fs_wf_proper V : Proper ((≡ₚ) ==> iff) (fs_wf V).
Proof. intros fl fl' Hp. split; intros Hwf; by eapply fs_wf_free_perm. Qed.

Lemma fs_wf_free_app V fl fl' : fs_wf V (fl ++ fl') → fs_wf V fl.
Proof.
  intros [? ? ? ? ? ? Hnd Hf]. split; try done.
  - by apply NoDup_app in Hnd as [? _].
  - intros x Hx. apply Hf, elem_of_app. by left.
Qed.

Lemma next_spec_inr V user b name c :
  next_spec V user b name = inr c ↔
  ∃ i, V !! b = Some (NInode i) ∧ ino_type i = type_dir ∧ (b = 0 ∨ owned_by user i = true) ∧
    lookup_name name (listing V i) = Some c.
Proof.
  unfold next_spec. split.
  - destruct (V !! b) as [[i| |]|]; try done. destruct (Z.eqb_spec b 0), (owned_by user i) eqn:Ho; simpl; try done;
      (destruct (is_type i type_dir) eqn:Ht; [|done]); apply is_type_true in Ht;
      (destruct (lookup_name name (listing V i)) eqn:Hl; [|done]); intros [= <-]; exists i; auto.
  - intros (i & -> & Ht & Ho & Hl). rewrite Hl, (proj2 (is_type_true _ _) Ht).
    destruct (Z.eqb_spec b 0); [done|]. destruct Ho as [?| ->]; done.
Qed.

(** Who follows a path finds the same, unless it leads to the child removed. *)
Lemma changes_walk p gone V V' user cs b :
  changes p gone V V' → match gone with Some c => childless V c | None => True end → gone ≠ Some b →
  walk_spec V user ROOT_INODE cs = inr b → walk_spec V' user ROOT_INODE cs = inr b.
Proof.
  intros Hch Hless. revert b. induction cs as [|n cs IH] using rev_ind; intros b Hb Hw; [done|].
  rewrite walk_spec_snoc. rewrite walk_spec_snoc in Hw. destruct (walk_spec V user ROOT_INODE cs) as [|q] eqn:Hq; simpl in Hw; [done|].
  rewrite (IH q); simpl; [by eapply ch_next| |done]. intros ->. simpl in Hless. by eapply Hless, next_spec_child.
Qed.

Section changes.
Context {V : store} {fl : list Z} (Hwf : fs_wf V fl).

(** The blocks of an inode are in the store, and none of them is an inode. *)
Lemma ref_block b i x :
  V !! b = Some (NInode i) → x ∈ inode_refs i → is_Some (V !! x) ∧ ∀ j, V !! x ≠ Some (NInode j).
Proof.
  intros Hb Hx. destruct (wf_inode Hwf _ _ Hb) as (_ & _ & [Ht|Ht] & _).
  - destruct (wf_file_ref Hwf _ _ _ Hb Ht Hx) as [v ->]. eauto.
  - destruct (wf_dir_ref Hwf _ _ _ Hb Ht Hx) as [v ->]. eauto.
Qed.

Lemma ref_not_inode b i x j : V !! b = Some (NInode i) → V !! x = Some (NInode j) → x ∉ inode_refs i.
Proof. intros Hb Hj Hx. by destruct (proj2 (ref_block _ _ _ Hb Hx) j). Qed.

(** The blocks that the change of inode [p] and the removal of [gone] may touch. *)
Definition touched (p : Z) (gone : option Z) (x : Z) : Prop :=
  V !! x = None ∨
  ∃ b i, (b = p ∨ gone = Some b) ∧ V !! b = Some (NInode i) ∧ (x = b ∨ x ∈ inode_refs i).

Lemma changes_intro V' p gone i i' :
  V !! p = Some (NInode i) → V' !! p = Some (NInode i') →
  ino_type i' = ino_type i → ino_owner i' = ino_owner i →
  (∀ x, ¬ touched p gone x → V' !! x = V !! x) →
  (∀ c, gone = Some c → childless V c) →
  (∀ name c, ino_type i = type_dir → lookup_name name (listing V i) = Some c → gone ≠ Some c →
     lookup_name name (listing V' i') = Some c) →
  changes p gone V V'.
Proof.
  intros Hp Hp' Ht Ho Hsame Hless Hlook.
  assert (∀ b j, b ≠ p → gone ≠ Some b → V !! b = Some (NInode j) →
    V' !! b = Some (NInode j) ∧ ∀ x, x ∈ inode_refs j → V' !! x = V !! x) as Hino.
  { intros b j Hbp Hbg Hb. split.
    - rewrite Hsame; [done|]. intros [Hn|(b' & i0 & Hb' & Hi0 & [->|Hx])]; [congruence|naive_solver|].
      by apply (ref_not_inode _ _ _ _ Hi0 Hb).
    - intros x Hx. destruct (ref_block _ _ _ Hb Hx) as [[n Hn] Hno]. apply Hsame.
      intros [?|(b' & i0 & Hb' & Hi0 & [->|Hx'])]; [congruence|by destruct (Hno i0)|].
      assert (b = b') as -> by by eapply dir_block_owner. naive_solver. }
  split; [done|]. intros user b name c (j & Hb & Hd & Hu & Hl)%next_spec_inr Hc. apply next_spec_inr.
  destruct (decide (b = p)) as [->|Hbp].
  - simplify_eq. exists i'. split_and!; [done|congruence| |by apply Hlook].
    unfold owned_by in *. by rewrite Ho.
  - destruct (Hino b j Hbp) as [Hb' Hx]; [|done|].
    + intros Hg. eapply (Hless b Hg). exists j. eauto.
    + exists j. split_and!; [done..|]. rewrite <-Hl. f_equal. apply listing_ext.
      intros x Hin. unfold dir_entries. by rewrite Hx.
Qed.

(** *** The five changes *)

Lemma changes_write t i b v :
  V !! t = Some (NInode i) → ino_type i = type_file → b ∈ inode_refs i →
  changes t None V (node_write V b v).
Proof.
  intros Ht Hty Hb. destruct (ref_block _ _ _ Ht Hb) as [_ Hno].
  apply (changes_intro _ _ _ i i); [done| |done..| |done|].
  - unfold node_write. rewrite lookup_insert_ne; [done|]. intros ->. by destruct (Hno i).
  - intros x Hx. unfold node_write. rewrite lookup_insert_ne; [done|]. intros ->. apply Hx. right.
    exists t, i. split_and!; auto.
  - intros name c Hd. rewrite Hty in Hd. done.
Qed.

Lemma changes_append t i b v :
  V !! t = Some (NInode i) → ino_type i = type_file → V !! b = None →
  changes t None V (node_append V t i b v).
Proof.
  intros Ht Hty Hb. unfold node_append.
  apply (changes_intro _ _ _ i (inode_push i b)); [done|apply lookup_insert_eq|done..| |done|].
  - intros x Hx. rewrite !lookup_insert_ne; [done| |]; intros ->; apply Hx; [by left|].
    right. exists x, i. split_and!; auto.
  - intros name c Hd. rewrite Hty in Hd. done.
Qed.

Lemma changes_create p i nb ni name b es j e0 e rest :
  fl = nb :: rest → node_ok (NInode ni) → inode_refs ni = [] →
  V !! p = Some (NInode i) → ino_type i = type_dir →
  b ∈ inode_refs i → V !! b = Some (NDir es) → es !! j = Some e0 → unused e0 = true →
  direntry_ok e → de_inode_block e = nb → c_str (de_name e) = Some name →
  lookup_name name (listing V i) = None →
  changes p None V (node_create V nb ni b es j e).
Proof.
  intros Hfl Hni Hrefs Hp Ht Hin Hb Hj Hu He Heb Hen Hnone.
  pose proof Hwf as Hwf'. rewrite Hfl in Hwf'.
  destruct (node_create_lookup V nb rest name p i b es j e0 e ni) as [Hp' Hlook]; [done..|].
  apply (changes_intro _ _ _ i i); [done..| |done|].
  - intros x Hx. unfold node_create, set_entry. rewrite !lookup_insert_ne; [done| |]; intros ->; apply Hx.
    + left. apply (wf_free _ _ Hwf'). by left.
    + right. exists p, i. auto.
  - intros name' c _ Hl _. rewrite Hlook, decide_False; [done|]. congruence.
Qed.

Lemma changes_create_grow p i nb b ni name e rest :
  fl = nb :: b :: rest →
  V !! p = Some (NInode i) → ino_type i = type_dir → ino_size i < FS_MAXFILEBLOCKS →
  de_inode_block e = nb → c_str (de_name e) = Some name →
  lookup_name name (listing V i) = None →
  changes p None V (node_create_grow V nb ni p i b e).
Proof.
  intros Hfl Hp Ht Hsz Heb Hen Hnone.
  pose proof Hwf as Hwf'. rewrite Hfl in Hwf'.
  pose proof (node_create_grow_lookup V nb b rest name p i e ni) as Hlook.
  apply (changes_intro _ _ _ i (inode_push i b)); [done|apply lookup_insert_eq|done..| |done|].
  - intros x Hx. unfold node_create_grow. rewrite !lookup_insert_ne; [done| | |]; intros ->; apply Hx.
    + left. apply (wf_free _ _ Hwf'). by left.
    + left. apply (wf_free _ _ Hwf'). by right; left.
    + right. exists x, i. auto.
  - intros name' c _ Hl _. rewrite Hlook, decide_False by done || congruence. done.
Qed.

Lemma changes_delete p i k b es j e name ci :
  V !! p = Some (NInode i) → ino_type i = type_dir → inode_refs i !! k = Some b →
  V !! b = Some (NDir es) → es !! j = Some e → unused e = false → c_str (de_name e) = Some name →
  V !! de_inode_block e = Some (NInode ci) → de_inode_block e ≠ p → childless V (de_inode_block e) →
  changes p (Some (de_inode_block e)) V (node_delete V p i k b es j (de_inode_block e) ci).
Proof.
  intros Hp Ht Hk Hb Hj Hu Hn Hci Hcp Hless. pose proof (list_elem_of_lookup_2 _ _ _ Hk) as Hin.
  destruct (unlink_lookup_name V fl p i k b es j e name) as (i' & Hp1 & Ht1 & Ho1 & Hsub & Hlook); [done..|].
  set (c := de_inode_block e) in *. set (V1 := node_unlink V p i k b es j) in *.
  assert (∀ x, x ∈ child_blocks c ci → x = c ∨ x ∈ inode_refs ci) as Hcb.
  { intros x [->|Hx]%elem_of_cons; [by left|right]. by destruct (is_type ci type_file); [|apply elem_of_nil in Hx]. }
  assert (∀ x, x ≠ c → x ∉ inode_refs ci → node_delete V p i k b es j c ci !! x = V1 !! x) as Hdel.
  { intros x Hx Hx'. unfold node_delete. rewrite lookup_remove_blocks, decide_False; [done|].
    by intros [?|?]%Hcb. }
  assert (∀ x, x ∈ inode_refs i → x ≠ c ∧ x ∉ inode_refs ci) as Hout.
  { intros x Hx. split; [intros ->; by apply (ref_not_inode _ _ _ _ Hp Hci)|].
    intros Hx'. destruct Hcp. symmetry. by eapply dir_block_owner. }
  assert (p ∉ inode_refs ci) as Hpc by by eapply ref_not_inode.
  eapply (changes_intro _ _ _ i i'); [done|by rewrite Hdel by done|congruence|done| | |].
  - intros x Hx. assert (∀ y, touched p (Some c) y → x ≠ y) as Hne by (intros y Hy ->; done).
    rewrite Hdel; [apply unlink_lookup| |]; [apply Hne..|intros Hx'; eapply Hne; [|done]]; right.
    + exists p, i. auto.
    + exists p, i. auto.
    + exists c, ci. auto.
    + exists c, ci. auto.
  - by intros ? [= <-].
  - intros name' c' _ Hl Hc'.
    assert (listing (node_delete V p i k b es j c ci) i' = listing V1 i') as ->.
    { apply listing_ext. intros x Hx%Hsub. unfold dir_entries. destruct (Hout x Hx). by rewrite Hdel. }
    rewrite Hlook, decide_False; [done|]. intros ->. apply Hc'. f_equal.
    assert (child_of V p name c') as H1 by by exists i.
    assert (∃ fl', fs_wf V1 fl') as [fl' Hwf1].
    { eexists. by eapply (fs_wf_node_unlink Hwf). }
    destruct (listing_set_entry V fl p i b es j e zero_direntry Hwf Hp Hin Hb Hj) as (rest & H2 & _).
    rewrite (lookup_name_perm _ _ _ (wf_names _ _ Hwf p i Hp Ht) H2), lookup_name_cons in Hl.
    rewrite (entry_named_new name name e c), bool_decide_eq_true_2 in Hl by (done || by apply unused_false).
    by injection Hl.
Qed.

End changes.
