(* ===== verification/FsRely.v ===== *)
(** * Reasoning about one request among others

    A request that runs at the same time as others is followed through a
    [world]: the disk, the store it holds ([FsModel]), and the queue of free
    blocks.  Between two of its accesses the others may change the world as
    long as they respect what this thread owns ([own]): its locks, the blocks
    that it has taken from the queue and not yet put anywhere, and the blocks
    that it has cut off from the store and not yet given back.

    Every request takes effect at one moment.  [pending] is a program before
    that moment, [settled] is one behind it, whose answer is fixed; the moment
    is either a write of the disk, which changes the store as the request says
    ([commits]), or any other moment at which the answer is that of the store
    and the store does not change. *)
From S2P Require Import Prelude Layout Locks Prog FileSystem FsModel FsStore FsRun FsChanges.
Import FileSystem.

Local Open Scope Z_scope.

(** ** Worlds and what a thread owns *)

Record world (D : Type) := World {
  w_disk : D;
  w_store : store;
  w_free : list Z;
}.
Arguments World {D} _ _ _.
Arguments w_disk {D} _.
Arguments w_store {D} _.
Arguments w_free {D} _.

Record own := Own {
  o_locks : thread_locks;
  o_taken : list Z;
  (** A block that was cut off, with the inode it belonged to. *)
  o_loose : list (Z * Z);
}.

Definition o_held (r : own) : holdings := tl_inodes (o_locks r).
Definition o_blocks (r : own) : list Z := o_taken r ++ (snd <$> o_loose r).

Definition with_locks (tl : thread_locks) (r : own) : own := Own tl (o_taken r) (o_loose r).

Section rely.
Context {D : Type} `{DiskSpec D}.
Implicit Types (w : world D) (r : own).

Definition world_ok r w : Prop :=
  models (w_disk w) (w_store w) ∧ ∃ rest, fs_wf (w_store w) (w_free w ++ o_blocks r ++ rest).

(** What others leave alone: the queue under its mutex, the blocks taken, and
    the inodes under a lock with their blocks and their paths. *)
Record rely r w w' : Prop := {
  rl_free : tl_free (o_locks r) = true → w_free w' = w_free w;
  rl_taken b : b ∈ o_taken r → disk_readblock (w_disk w') b = disk_readblock (w_disk w) b;
  rl_disk b m v : (b, m) ∈ o_held r → disk_readblock (w_disk w) b = Some v →
    disk_readblock (w_disk w') b = Some v ∧
    ∀ x, x ∈ inode_refs (decode_inode v) → disk_readblock (w_disk w') x = disk_readblock (w_disk w) x;
  rl_inode b m i : (b, m) ∈ o_held r → w_store w !! b = Some (NInode i) →
    w_store w' !! b = Some (NInode i) ∧ ∀ x, x ∈ inode_refs i → w_store w' !! x = w_store w !! x;
  rl_path b m user cs : (b, m) ∈ o_held r →
    walk_spec (w_store w) user ROOT_INODE cs = inr b → walk_spec (w_store w') user ROOT_INODE cs = inr b;
}.

(** The same for a request that has taken effect: the inodes that it still
    reads may have been cut off meanwhile, but are still on the disk. *)
Record rely_settled r w w' : Prop := {
  rs_free : tl_free (o_locks r) = true → w_free w' = w_free w;
  rs_disk b v : (b, Shared) ∈ o_held r → disk_readblock (w_disk w) b = Some v →
    disk_readblock (w_disk w') b = Some v ∧
    ∀ x, x ∈ inode_refs (decode_inode v) → disk_readblock (w_disk w') x = disk_readblock (w_disk w) x;
}.

Lemma rely_refl r w : rely r w w.
Proof. by split. Qed.

Lemma rely_trans r w1 w2 w3 : rely r w1 w2 → rely r w2 w3 → rely r w1 w3.
Proof.
  intros [F1 T1 D1 I1 P1] [F2 T2 D2 I2 P2]. split.
  - intros Hf. by rewrite F2, F1.
  - intros b Hb. by rewrite T2, T1.
  - intros b m v Hb Hv. destruct (D1 b m v Hb Hv) as [Hv1 Hx1]. destruct (D2 b m v Hb Hv1) as [Hv2 Hx2].
    split; [done|]. intros x Hx. by rewrite Hx2, Hx1.
  - intros b m i Hb Hi. destruct (I1 b m i Hb Hi) as [Hi1 Hx1]. destruct (I2 b m i Hb Hi1) as [Hi2 Hx2].
    split; [done|]. intros x Hx. by rewrite Hx2, Hx1.
  - eauto.
Qed.

Lemma settled_refl r w : rely_settled r w w.
Proof. by split. Qed.

Lemma settled_trans r w1 w2 w3 :
  rely_settled r w1 w2 → rely_settled r w2 w3 → rely_settled r w1 w3.
Proof.
  intros [F1 D1] [F2 D2]. split.
  - intros Hf. by rewrite F2, F1.
  - intros b v Hb Hv. destruct (D1 b v Hb Hv) as [Hv1 Hx1]. destruct (D2 b v Hb Hv1) as [Hv2 Hx2].
    split; [done|]. intros x Hx. by rewrite Hx2, Hx1.
Qed.

(** ** After the moment of effect *)

(** Locks are given back, and no other is waited for but the one of an inode
    that was cut off, until its readers have left. *)
Definition leaves (op : lock_op) (b : Z) r : Prop :=
  match op with
  | LockRead | LockUpgrade => False
  | UpgradeToWrite => (b, b) ∈ o_loose r
  | UnlockRead | UnlockUpgrade | UnlockWrite => True
  end.

Lemma leaves_no_new op b r : leaves op b r → LockTable.new_holders op = 0%nat.
Proof. by destruct op. Qed.

Fixpoint settled {A} (Q : outcome A → own → world D → Prop) (p : prog A) r w : Prop :=
  ∀ w', rely_settled r w w' →
  match p with
  | Ret a => Q (Done a) r w'
  | Throw e => Q (Exn e) r w'
  | Fail _ => False
  | ReadBlock b k => ∃ v, disk_readblock (w_disk w') b = Some v ∧ settled Q (k v) r w'
  | WriteBlock _ _ _ => False
  | InodeLock op b k =>
      leaves op b r ∧
      ∃ h, hold_step op b (o_held r) = LkDone h ∧
        settled Q k (with_locks (TL h (tl_free (o_locks r))) r) w'
  | LockFreeMutex k => settled Q k (with_locks (TL (o_held r) true) r) w'
  | UnlockFreeMutex k => settled Q k (with_locks (TL (o_held r) false) r) w'
  | GetFree k => settled Q (k (w_free w')) r w'
  | PutFree l k =>
      (** A block is given back whose inode is locked against readers. *)
      ∃ o x loose, l = w_free w' ++ [x] ∧ (o, Exclusive) ∈ o_held r ∧ o_loose r ≡ₚ (o, x) :: loose ∧
        settled Q k (Own (o_locks r) (o_taken r) loose) (World (w_disk w') (w_store w') l)
  end.

(** ** Before it *)

(** Inodes that the thread reads cannot be removed now: the root, a directory
    that is not empty, a child of a locked directory. *)
Definition protected r w : Prop :=
  ∀ b, (b, Shared) ∈ o_held r →
    b = ROOT_INODE ∨ (∃ name c, child_of (w_store w) b name c) ∨
    ∃ p m name, (p, m) ∈ o_held r ∧ child_of (w_store w) p name b.

(** Inodes that a path leads to. *)
Definition on_path (b : Z) w : Prop := ∃ user cs, walk_spec (w_store w) user ROOT_INODE cs = inr b.

(** Locks are taken downwards, from the root, one below another; who waits for
    the readers of an inode has no other. *)
Definition downwards (op : lock_op) (b : Z) r w : Prop :=
  match op with
  | LockRead | LockUpgrade =>
      (o_held r = [] ∧ b = ROOT_INODE) ∨
      ∃ p m name, o_held r = [(p, m)] ∧ on_path p w ∧ child_of (w_store w) p name b
  | UpgradeToWrite => o_held r = [(b, Upgrade)] ∧ on_path b w
  | UnlockRead | UnlockUpgrade | UnlockWrite => True
  end.

Lemma downwards_new op b r w :
  downwards op b r w → LockTable.new_holders op = 1%nat →
  b = ROOT_INODE ∨ ∃ p name, child_of (w_store w) p name b.
Proof. destruct op; simpl; try done; naive_solver. Qed.

(** The write of block [b] by which the store becomes [V']: the block is one of
    an inode under a writer lock, or that inode; a child that goes is under an
    upgradeable lock, has no children itself, and its blocks become loose. *)
Definition commits (b : Z) (V' : store) (r' : own) r w : Prop :=
  ∃ p i gone, (p, Exclusive) ∈ o_held r ∧ w_store w !! p = Some (NInode i) ∧ (b = p ∨ b ∈ inode_refs i) ∧
    changes p gone (w_store w) V' ∧ o_locks r' = o_locks r ∧ o_loose r ⊆ o_loose r' ∧
    (∀ rest, fs_wf (w_store w) (w_free w ++ o_blocks r ++ rest) → fs_wf V' (w_free w ++ o_blocks r' ++ rest)) ∧
    match gone with
    | None => True
    | Some c => ∃ name ci, child_of (w_store w) p name c ∧ childless (w_store w) c ∧
        (c, Upgrade) ∈ o_held r ∧ w_store w !! c = Some (NInode ci) ∧
        ∀ x, x ∈ c :: inode_refs ci → (c, x) ∈ o_loose r'
    end.

(** The answers of the request: from a store and free blocks, to a store. *)
Context (Sp : store → list Z → string + bytes → store → Prop).

(** The free blocks as the request sees them: those it has taken come first. *)
Definition available r w : list Z := o_taken r ++ w_free w.

Fixpoint pending {A} (Q : outcome A → own → world D → Prop)
    (QS : string + bytes → outcome A → own → world D → Prop) (p : prog A) r w : Prop :=
  ∀ w', rely r w w' → world_ok r w' →
  (∃ a, Sp (w_store w') (available r w') a (w_store w') ∧ settled (QS a) p r w') ∨
  match p with
  | Ret a => Q (Done a) r w'
  | Throw e => Q (Exn e) r w'
  | Fail _ => False
  | ReadBlock b k =>
      protected r w' ∧ ∃ v, disk_readblock (w_disk w') b = Some v ∧ pending Q QS (k v) r w'
  | WriteBlock b v k =>
      protected r w' ∧ (len v = FS_BLOCKSIZE ∧ 0 ≤ b < FS_DISKSIZE) ∧
      ∀ d, disk_writeblock (w_disk w') b v = Some d →
        (b ∈ o_taken r ∧ pending Q QS k r (World d (w_store w') (w_free w'))) ∨
        ∃ a V' r', (commits b V' r' r w' ∧ ∀ x, (x, Shared) ∉ o_held r) ∧ models d V' ∧
          Sp (w_store w') (available r w') a V' ∧ settled (QS a) k r' (World d V' (w_free w'))
  | InodeLock op b k =>
      protected r w' ∧ downwards op b r w' ∧
      ∃ h, hold_step op b (o_held r) = LkDone h ∧
        pending Q QS k (with_locks (TL h (tl_free (o_locks r))) r) w'
  | LockFreeMutex k => protected r w' ∧ pending Q QS k (with_locks (TL (o_held r) true) r) w'
  | UnlockFreeMutex k => protected r w' ∧ pending Q QS k (with_locks (TL (o_held r) false) r) w'
  | GetFree k => protected r w' ∧ pending Q QS (k (w_free w')) r w'
  | PutFree l k =>
      (** A block is taken. *)
      protected r w' ∧ ∃ b, w_free w' = b :: l ∧
        pending Q QS k (Own (o_locks r) (o_taken r ++ [b]) (o_loose r)) (World (w_disk w') (w_store w') l)
  end.

(** ** Rules *)

Lemma settled_here {A} (Q : outcome A → own → world D → Prop) p r w :
  (∀ w', rely_settled r w w' → settled Q p r w') → settled Q p r w.
Proof. intros Hp. destruct p; intros w' Hw; exact (Hp w' Hw w' (settled_refl _ _)). Qed.

Lemma settled_rely {A} (Q : outcome A → own → world D → Prop) p r w w' :
  settled Q p r w → rely_settled r w w' → settled Q p r w'.
Proof. intros Hp Hw. destruct p; intros w2 Hw2; exact (Hp w2 (settled_trans _ _ _ _ Hw Hw2)). Qed.

Lemma pending_here {A} (Q : outcome A → own → world D → Prop) QS p r w :
  (∀ w', rely r w w' → world_ok r w' →
    (∃ a, Sp (w_store w') (available r w') a (w_store w') ∧ settled (QS a) p r w') ∨
    pending Q QS p r w') →
  pending Q QS p r w.
Proof.
  intros Hp. destruct p; intros w' Hw Hok;
    (destruct (Hp w' Hw Hok) as [Hl|Hp']; [by left|exact (Hp' w' (rely_refl _ _) Hok)]).
Qed.

Lemma pending_rely {A} (Q : outcome A → own → world D → Prop) QS p r w w' :
  pending Q QS p r w → rely r w w' → pending Q QS p r w'.
Proof. intros Hp Hw. destruct p; intros w2 Hw2; exact (Hp w2 (rely_trans _ _ _ _ Hw Hw2)). Qed.

(** Going through the accesses of a program one by one: what is behind the
    next one has been dealt with by [IH], or by [Hset] behind the effect. *)
Local Ltac settled_access IH Hp :=
  first
    [ exact Hp
    | by apply IH
    | let v := fresh in let Hv := fresh in let Hk := fresh in
      destruct Hp as (v & Hv & Hk); exists v; split; [exact Hv|]; by apply IH
    | let Hn := fresh in let h := fresh in let Hh := fresh in let Hk := fresh in
      destruct Hp as (Hn & h & Hh & Hk); split; [exact Hn|]; exists h; split; [exact Hh|]; by apply IH
    | let o := fresh in let x := fresh in let ls := fresh in
      let Hl := fresh in let Ho := fresh in let Hx := fresh in let Hk := fresh in
      destruct Hp as (o & x & ls & Hl & Ho & Hx & Hk); exists o, x, ls; do 3 (split; [done|]); by apply IH ].

Local Ltac pending_access IH Hset Hp :=
  first
    [ exact Hp
    | let Hpr := fresh in let Hk := fresh in
      destruct Hp as [Hpr Hk]; split; [exact Hpr|];
      first
        [ settled_access IH Hk
        | let Hv := fresh in let Hw := fresh in let d := fresh in let Hd := fresh in
          destruct Hk as [Hv Hw]; split; [exact Hv|]; intros d Hd;
          let Hb := fresh in let a := fresh in let V' := fresh in let r' := fresh in
          let Hc := fresh in let Hm := fresh in let HS := fresh in let Hn := fresh in
          destruct (Hw d Hd) as [[Hb Hn]|(a & V' & r' & Hc & Hm & HS & Hn)];
            [left; split; [exact Hb|by apply IH]
            |right; exists a, V', r'; do 3 (split; [done|]); by apply Hset] ] ].

(** Composition. *)
Lemma settled_bind {A B} (Q : outcome B → own → world D → Prop) (p : prog A) (f : A → prog B) r w :
  settled (λ o r' w', match o with
                      | Done a => settled Q (f a) r' w'
                      | Exn e => Q (Exn e) r' w'
                      | _ => False
                      end) p r w →
  settled Q (p ≫= f) r w.
Proof.
  revert r w; induction p as [a|e|x|b k IH|b v k IH|op b k IH|k IH|k IH|k IH|l k IH]; intros r w Hp;
    [apply settled_here; exact Hp|..]; try exact Hp; intros w' Hw; specialize (Hp w' Hw); settled_access IH Hp.
Qed.

Lemma pending_bind {A B} (Q : outcome B → own → world D → Prop) QS (p : prog A) (f : A → prog B) r w :
  pending (λ o r' w', match o with
                      | Done a => pending Q QS (f a) r' w'
                      | Exn e => Q (Exn e) r' w'
                      | _ => False
                      end)
    (λ ans o r' w', match o with
                    | Done a => settled (QS ans) (f a) r' w'
                    | Exn e => QS ans (Exn e) r' w'
                    | _ => False
                    end) p r w →
  pending Q QS (p ≫= f) r w.
Proof.
  revert r w; induction p as [a|e|x|b k IH|b v k IH|op b k IH|k IH|k IH|k IH|l k IH]; intros r w Hp.
  1: { apply pending_here. intros w' Hw Hok. destruct (Hp w' Hw Hok) as [(ans & HS & Hd)|Hp']; [|by right].
    left. exists ans. split; [done|]. by apply settled_bind in Hd. }
  all: intros w' Hw Hok;
    (destruct (Hp w' Hw Hok) as [(ans & HS & Hd)|Hp'];
      [left; exists ans; split; [done|by apply settled_bind in Hd]|right]).
  all: pending_access IH (@settled_bind A B) Hp'.
Qed.

Lemma settled_mono {A} (Q Q' : outcome A → own → world D → Prop) p r w :
  settled Q p r w → (∀ o r' w', Q o r' w' → Q' o r' w') → settled Q' p r w.
Proof.
  intros Hp HQ. revert r w Hp. induction p as [a|e|x|b k IH|b v k IH|op b k IH|k IH|k IH|k IH|l k IH];
    intros r w Hp w' Hw; specialize (Hp w' Hw); first [by apply HQ|settled_access IH Hp].
Qed.

Lemma pending_mono {A} (Q Q' : outcome A → own → world D → Prop) QS QS' p r w :
  pending Q QS p r w → (∀ o r' w', Q o r' w' → Q' o r' w') →
  (∀ a o r' w', QS a o r' w' → QS' a o r' w') → pending Q' QS' p r w.
Proof.
  intros Hp HQ HQS. revert r w Hp. induction p as [a|e|x|b k IH|b v k IH|op b k IH|k IH|k IH|k IH|l k IH];
    intros r w Hp w' Hw Hok;
    (destruct (Hp w' Hw Hok) as [(ans & HS & Hd)|Hp'];
      [left; exists ans; split; [done|eapply settled_mono; [exact Hd|apply HQS]]|right]);
    first [by apply HQ|pending_access IH (λ a p r w Hp, settled_mono (QS a) (QS' a) p r w Hp (HQS a)) Hp'].
Qed.

(** What a program that has not taken effect yet can do about a delete. *)
Lemma pending_protected {A} QS (p : prog A) r w :
  pending (λ _ _ _, False) QS p r w → world_ok r w →
  (∃ a, Sp (w_store w) (available r w) a (w_store w) ∧ settled (QS a) p r w) ∨ protected r w.
Proof.
  intros Hp Hok. destruct p; destruct (Hp w (rely_refl _ _) Hok) as [Hl|Hp']; try (by left); try done;
    right; apply Hp'.
Qed.

(** Re-association. *)
Lemma settled_assoc {A B C} (Q : outcome C → own → world D → Prop) (p : prog A)
    (f : A → prog B) (g : B → prog C) r w :
  settled Q (p ≫= λ a, f a ≫= g) r w → settled Q ((p ≫= f) ≫= g) r w.
Proof.
  revert r w; induction p as [a|e|x|b k IH|b v k IH|op b k IH|k IH|k IH|k IH|l k IH]; intros r w Hp; try exact Hp;
    intros w' Hw; specialize (Hp w' Hw); settled_access IH Hp.
Qed.

Lemma pending_assoc {A B C} (Q : outcome C → own → world D → Prop) QS (p : prog A)
    (f : A → prog B) (g : B → prog C) r w :
  pending Q QS (p ≫= λ a, f a ≫= g) r w → pending Q QS ((p ≫= f) ≫= g) r w.
Proof.
  revert r w; induction p as [a|e|x|b k IH|b v k IH|op b k IH|k IH|k IH|k IH|l k IH]; intros r w Hp; try exact Hp;
    match goal with |- pending _ _ ((?p ≫= _) ≫= _) _ _ => pose proof (λ Q, settled_assoc Q p f g) as Hset end;
    intros w' Hw Hok; (destruct (Hp w' Hw Hok) as [(ans & HS & Hd)|Hp'];
      [left; exists ans; split; [done|by apply Hset]|right]);
    pending_access IH (@settled_assoc A B C) Hp'.
Qed.

(** ** Programs that read *)

(** [p] becomes [q] by reads whose results are those of [rd]. *)
Inductive reads_to {A} (rd : Z → option bytes) : prog A → prog A → Prop :=
| reads_done p : reads_to rd p p
| reads_block b k v q : rd b = Some v → reads_to rd (k v) q → reads_to rd (ReadBlock b k) q.

Lemma reads_trans {A} rd (p q s : prog A) : reads_to rd p q → reads_to rd q s → reads_to rd p s.
Proof. induction 1; [done|]. intros. econstructor; eauto. Qed.

Lemma reads_bind {A B} rd (p q : prog A) (f : A → prog B) :
  reads_to rd p q → reads_to rd (p ≫= f) (q ≫= f).
Proof. induction 1 as [|b k v q Hb _ IH]; [constructor|]. by apply (reads_block rd b _ v). Qed.

Lemma settled_reads {A} (Q : outcome A → own → world D → Prop) rd p q r w :
  reads_to rd p q →
  (∀ w' b v, rely_settled r w w' → rd b = Some v → disk_readblock (w_disk w') b = Some v) →
  settled Q q r w → settled Q p r w.
Proof.
  intros Hp. revert w. induction Hp as [p|b k v q Hb _ IH]; intros w Hrd Hq; [done|].
  intros w' Hw. exists v. split; [by apply Hrd|]. apply IH; [|by eapply settled_rely].
  intros w2 b2 v2 Hw2. apply Hrd. by eapply settled_trans.
Qed.

Lemma pending_reads {A} (Q : outcome A → own → world D → Prop) QS rd p q r w :
  reads_to rd p q →
  (∀ w', rely r w w' → world_ok r w' →
    protected r w' ∧ ∀ b v, rd b = Some v → disk_readblock (w_disk w') b = Some v) →
  pending Q QS q r w → pending Q QS p r w.
Proof.
  intros Hp. revert w. induction Hp as [p|b k v q Hb _ IH]; intros w Hrd Hq; [done|].
  intros w' Hw Hok. right. destruct (Hrd w' Hw Hok) as [Hpr Hr]. split; [done|]. exists v.
  split; [by apply Hr|]. apply IH; [|by eapply pending_rely].
  intros w2 Hw2 Hok2. apply Hrd; [by eapply rely_trans|done].
Qed.

End rely.

Arguments settled : simpl never.
Arguments pending : simpl never.
