(* ===== verification/FsSteps.v ===== *)
(** * The steps of a request among others

    The parts that the handlers share, followed by [FsRely]: accesses, reading
    an inode with its blocks, one step of a path, and the walk to a parent
    directory.  A walk that cannot go on takes effect where it stands: the
    answer is the error that the whole path has in the store of that moment. *)
From S2P Require Import Prelude Layout Locks Prog FileSystem FsModel FsStore FsPaths FsRun FsSpec FsHandlers FsDirs FsRely.
Import Path FileSystem.

Local Open Scope Z_scope.

Section steps.
Context {D : Type} `{DiskSpec D}.
Implicit Types (w : world D) (r : own).

(** ** Single accesses *)

Lemma hold_step_shared op b h h' x :
  hold_step op b h = LkDone h' → LockTable.new_holders op = 0%nat → (x, Shared) ∈ h' → (x, Shared) ∈ h.
Proof.
  destruct op; simpl; unfold drop_hold; intros Hs Hn Hx; try done; repeat case_match; simplify_eq;
    match goal with H : remove_one _ _ = Some _ |- _ => apply remove_one_perm in H; rewrite H end; set_solver.
Qed.

Lemma rely_settled_weaken r r' w w' :
  rely_settled r w w' → (∀ x, (x, Shared) ∈ o_held r' → (x, Shared) ∈ o_held r) →
  (tl_free (o_locks r') = true → tl_free (o_locks r) = true) → rely_settled r' w w'.
Proof. intros [Hf Hd] Hs Hm. split; eauto. Qed.

Lemma settled_lock {A} (Q : outcome A → own → world D → Prop) op b (f : unit → prog A) r w h :
  leaves op b r → hold_step op b (o_held r) = LkDone h →
  settled Q (f ()) (with_locks (TL h (tl_free (o_locks r))) r) w →
  settled Q (inode_lock op b ≫= f) r w.
Proof.
  intros Hn Hh Hf w' Hw. split; [done|]. exists h. split; [done|]. eapply settled_rely; [exact Hf|].
  eapply rely_settled_weaken; [done| |done]. intros x Hx. eapply hold_step_shared; [done|by eapply leaves_no_new|done].
Qed.

Lemma settled_last_lock (Q : outcome unit → own → world D → Prop) op b r w h :
  leaves op b r → hold_step op b (o_held r) = LkDone h →
  settled Q (Ret ()) (with_locks (TL h (tl_free (o_locks r))) r) w →
  settled Q (inode_lock op b) r w.
Proof. intros. by eapply (settled_lock Q op b Ret). Qed.

(** Giving up a lock and throwing, wherever the exception goes. *)
Lemma settled_unlock_throw {A} (Q : outcome A → own → world D → Prop) op b e r w h :
  leaves op b r → hold_step op b (o_held r) = LkDone h →
  (∀ r' w', Q (Exn e) r' w') → settled Q (_ ← inode_lock op b; Throw e) r w.
Proof. intros Hn Hh Hq. eapply settled_lock; [done..|]. intros w' _. apply Hq. Qed.

Lemma settled_unlock_throw_bind {A B} (Q : outcome B → own → world D → Prop) (f : A → prog B) op b e r w h :
  leaves op b r → hold_step op b (o_held r) = LkDone h →
  (∀ r' w', Q (Exn e) r' w') → settled Q ((_ ← inode_lock op b; Throw e) ≫= f) r w.
Proof. intros Hn Hh Hq. apply settled_assoc. eapply settled_lock; [done..|]. intros w' _. apply Hq. Qed.

Lemma pending_lock {A} Sp (Q : outcome A → own → world D → Prop) QS op b (f : unit → prog A) r w :
  (∀ w', rely r w w' → world_ok r w' →
    protected r w' ∧ downwards op b r w' ∧
    ∃ h, hold_step op b (o_held r) = LkDone h ∧
      pending Sp Q QS (f ()) (with_locks (TL h (tl_free (o_locks r))) r) w') →
  pending Sp Q QS (inode_lock op b ≫= f) r w.
Proof. intros Hf w' Hw Hok. right. by apply Hf. Qed.

(** ** Reading an inode and its blocks *)

(** What the disk says of an inode [i] in block [b] and of its blocks. *)
Definition footprint (d : D) (b : Z) (i : fs_inode) (x : Z) : option bytes :=
  if decide (x = b ∨ x ∈ inode_refs i) then disk_readblock d x else None.

Lemma footprint_Some d b i x v : footprint d b i x = Some v → disk_readblock d x = Some v.
Proof. unfold footprint. by case_decide. Qed.

Lemma models_inode d V b i :
  models d V → V !! b = Some (NInode i) → ∃ v, disk_readblock d b = Some v ∧ decode_inode v = i.
Proof. intros Hm Hb. exact (Hm _ _ Hb). Qed.

(** It stays the same for who has the inode locked. *)
Lemma footprint_settled r w w' b i x v :
  models (w_disk w) (w_store w) → w_store w !! b = Some (NInode i) → (b, Shared) ∈ o_held r →
  rely_settled r w w' → footprint (w_disk w) b i x = Some v → disk_readblock (w_disk w') x = Some v.
Proof.
  intros Hm Hb Hl Hw. destruct (models_inode _ _ _ _ Hm Hb) as (u & Hu & <-).
  destruct (rs_disk _ _ _ Hw _ _ Hl Hu) as [Hu' Hx]. unfold footprint.
  case_decide as Hin; [|done]. destruct Hin as [->|Hin]; [congruence|]. by rewrite Hx.
Qed.

Lemma footprint_rely r w w' b m i x v :
  models (w_disk w) (w_store w) → w_store w !! b = Some (NInode i) → (b, m) ∈ o_held r →
  rely r w w' → footprint (w_disk w) b i x = Some v → disk_readblock (w_disk w') x = Some v.
Proof.
  intros Hm Hb Hl Hw. destruct (models_inode _ _ _ _ Hm Hb) as (u & Hu & <-).
  destruct (rl_disk _ _ _ Hw _ _ _ Hl Hu) as [Hu' Hx]. unfold footprint.
  case_decide as Hin; [|done]. destruct Hin as [->|Hin]; [congruence|]. by rewrite Hx.
Qed.

Section reads.
Context {d : D} {V : store} {fl : list Z} (Hm : models d V) (Hwf : fs_wf V fl).
Context {b : Z} {i : fs_inode} (Hb : V !! b = Some (NInode i)).
Abbreviation reads_to := (reads_to (footprint d b i)).

Lemma footprint_node x n :
  x = b ∨ x ∈ inode_refs i → V !! x = Some n → ∃ v, footprint d b i x = Some v ∧ holds_node v n.
Proof.
  intros Hx Hn. destruct (Hm _ _ Hn) as (v & Hv & Hh). exists v. split; [|done].
  unfold footprint. by rewrite decide_True.
Qed.

Lemma reads_inode {A} (f : fs_inode → prog A) : reads_to (read_inode b ≫= f) (f i).
Proof.
  destruct (footprint_node b (NInode i)) as (v & Hv & Hi); [by left|done|].
  apply (reads_block _ b _ v); [done|]. rewrite <-Hi. constructor.
Qed.

Lemma reads_direntries {A} x es (f : list fs_direntry → prog A) :
  x ∈ inode_refs i → V !! x = Some (NDir es) → reads_to (read_direntries x ≫= f) (f es).
Proof.
  intros Hx Hes. destruct (footprint_node x (NDir es)) as (v & Hv & Hi); [by right|done|].
  apply (reads_block _ x _ v); [done|]. simpl in Hi. rewrite <-Hi. constructor.
Qed.

Lemma reads_data {A} x v (f : bytes → prog A) :
  x ∈ inode_refs i → V !! x = Some (NData v) → reads_to (disk_read x ≫= f) (f v).
Proof.
  intros Hx Hes. destruct (footprint_node x (NData v)) as (v' & Hv & Hi); [by right|done|].
  simpl in Hi. subst v'. apply (reads_block _ x _ v); [done|]. constructor.
Qed.

Lemma reads_find_in_blocks name n k :
  ino_type i = type_dir → good_name name → (n + k = Z.to_nat (ino_size i))%nat →
  reads_to (find_in_blocks name i n (Z.of_nat k))
    (Ret (default UNDEFINED_BLOCK (lookup_name name (mjoin (dir_entries V <$> drop k (inode_refs i)))))).
Proof.
  intros Ht Hname. pose proof (wf_refs_length Hwf _ _ Hb) as Hlen.
  revert k; induction n as [|n IH]; intros k Hk.
  - rewrite drop_ge by lia. constructor.
  - destruct (lookup_lt_is_Some_2 (inode_refs i) k ltac:(lia)) as [db Hdb].
    assert (db ∈ inode_refs i) as Hin by by eapply list_elem_of_lookup_2.
    destruct (wf_dir_ref Hwf b i db Hb Ht Hin) as [es Hes].
    simpl. rewrite (inode_block_at_ref _ _ _ Hdb), ret_bind.
    eapply reads_trans; [by apply reads_direntries|].
    rewrite find_in_entries_lookup, ret_bind by (done || apply (wf_node _ _ Hwf _ _ Hes)).
    rewrite (drop_S _ _ _ Hdb). simpl. rewrite lookup_name_app.
    unfold dir_entries at 1. rewrite Hes.
    destruct (lookup_name name es) as [c|] eqn:Hc; simpl.
    + rewrite (proj2 (Z.eqb_neq _ _)); [constructor|].
      apply lookup_name_Some in Hc as (j & e & Hj & <- & Hc & _).
      destruct (wf_entry_inode Hwf _ _ _ _ Hes Hj) as [_ [ci Hci]]; [by apply unused_false|].
      pose proof (wf_range _ _ Hwf _ _ Hci). unfold UNDEFINED_BLOCK. lia.
    + replace (Z.of_nat k + 1) with (Z.of_nat (S k)) by lia. apply IH. lia.
Qed.

(** One step of a path. *)
Lemma reads_find_next_inode name user :
  good_name name →
  reads_to (find_next_inode name b user)
    (match next_spec V user b name with
     | inl e => _ ← inode_lock UnlockRead b; Throw e
     | inr c => Ret c
     end).
Proof.
  intros Hname. unfold next_spec, find_next_inode. rewrite Hb.
  eapply reads_trans; [apply reads_inode|].
  assert ((if b =? 0 then Ret false else not_owner user i) =
    Ret (negb (b =? 0) && negb (owned_by user i))) as ->.
  { destruct (b =? 0); [done|]. by eapply not_owner_spec. }
  rewrite ret_bind. destruct (negb (b =? 0) && negb (owned_by user i)); [constructor|].
  destruct (is_type i type_dir) eqn:Ht; simpl; [|constructor]. apply is_type_true in Ht.
  eapply reads_trans; [apply reads_bind, (reads_find_in_blocks name (Z.to_nat (ino_size i)) 0); [done..|lia]|].
  rewrite drop_0, ret_bind. fold (listing V i).
  destruct (lookup_name name (listing V i)) as [c|] eqn:Hc; simpl.
  - destruct (lookup_name_in_disk Hwf _ _ _ _ Hb Ht Hc) as (Hrng & _).
    rewrite (proj2 (Z.eqb_neq _ _)) by (unfold UNDEFINED_BLOCK; lia). constructor.
  - constructor.
Qed.

(** The scans of a directory. *)
Lemma reads_create_scan p name n k slot :
  ino_type i = type_dir → good_name name → (n + k = Z.to_nat (ino_size i))%nat →
  reads_to (create_scan_blocks p name i n (Z.of_nat k) slot)
    (match lookup_name name (mjoin (dir_entries V <$> drop k (inode_refs i))) with
     | Some _ => _ ← inode_lock UnlockUpgrade p; Throw "Path already exists"
     | None => Ret (match slot with
                    | Some s => Some s
                    | None => first_slot V (drop k (inode_refs i))
                    end)
     end).
Proof.
  intros Ht Hname. pose proof (wf_refs_length Hwf _ _ Hb) as Hlen.
  revert k slot; induction n as [|n IH]; intros k slot Hk.
  - rewrite drop_ge by lia. simpl. destruct slot; constructor.
  - destruct (lookup_lt_is_Some_2 (inode_refs i) k ltac:(lia)) as [db Hdb].
    assert (db ∈ inode_refs i) as Hin by by eapply list_elem_of_lookup_2.
    destruct (wf_dir_ref Hwf b i db Hb Ht Hin) as [es Hes].
    cbn [create_scan_blocks]. rewrite (inode_block_at_ref _ _ _ Hdb), ret_bind.
    eapply reads_trans; [by apply reads_direntries|].
    rewrite create_scan_entries_eq by (done || apply (wf_node _ _ Hwf _ _ Hes)).
    rewrite (drop_S _ _ _ Hdb), fmap_cons. simpl. rewrite lookup_name_app.
    assert (dir_entries V db = es) as -> by (unfold dir_entries; by rewrite Hes).
    destruct (lookup_name name es) as [c|] eqn:Hc; [constructor|].
    rewrite ret_bind. replace (Z.of_nat k + 1) with (Z.of_nat (S k)) by lia.
    eapply reads_trans; [apply IH; lia|]. case_match; [constructor|].
    destruct slot; [constructor|]. by destruct (first_unused es); constructor.
Qed.

Lemma reads_delete_scan name n k :
  ino_type i = type_dir → good_name name → (n + k = Z.to_nat (ino_size i))%nat →
  reads_to (delete_scan_blocks name i n (Z.of_nat k))
    (Ret (find_entry V name (drop k (inode_refs i)) (Z.of_nat k))).
Proof.
  intros Ht Hname. pose proof (wf_refs_length Hwf _ _ Hb) as Hlen.
  revert k; induction n as [|n IH]; intros k Hk.
  - rewrite drop_ge by lia. constructor.
  - destruct (lookup_lt_is_Some_2 (inode_refs i) k ltac:(lia)) as [db Hdb].
    assert (db ∈ inode_refs i) as Hin by by eapply list_elem_of_lookup_2.
    destruct (wf_dir_ref Hwf b i db Hb Ht Hin) as [es Hes].
    cbn [delete_scan_blocks]. rewrite (inode_block_at_ref _ _ _ Hdb), ret_bind.
    eapply reads_trans; [by apply reads_direntries|].
    rewrite delete_scan_entries_eq, ret_bind by (done || apply (wf_node _ _ Hwf _ _ Hes)).
    rewrite (drop_S _ _ _ Hdb). cbn [find_entry].
    assert (dir_entries V db = es) as -> by (unfold dir_entries; by rewrite Hes).
    destruct (list_find _ es) as [[j e]|]; simpl; [constructor|].
    replace (Z.of_nat k + 1) with (Z.of_nat (S k)) by lia. apply IH. lia.
Qed.

End reads.
(** ** What stays true of a locked inode *)

Lemma rely_listing r w w' b m i :
  rely r w w' → (b, m) ∈ o_held r → w_store w !! b = Some (NInode i) →
  listing (w_store w') i = listing (w_store w) i.
Proof.
  intros Hw Hl Hb. destruct (rl_inode _ _ _ Hw _ _ _ Hl Hb) as [_ Hx]. apply listing_ext.
  intros x Hin. unfold dir_entries. by rewrite Hx.
Qed.

Lemma rely_next r w w' b m i user name :
  rely r w w' → (b, m) ∈ o_held r → w_store w !! b = Some (NInode i) →
  next_spec (w_store w') user b name = next_spec (w_store w) user b name.
Proof.
  intros Hw Hl Hb. unfold next_spec. destruct (rl_inode _ _ _ Hw _ _ _ Hl Hb) as [Hb' _].
  by rewrite Hb, Hb', (rely_listing _ _ _ _ _ _ Hw Hl Hb).
Qed.

Lemma rely_child r w w' b m name c :
  rely r w w' → (b, m) ∈ o_held r → child_of (w_store w) b name c → child_of (w_store w') b name c.
Proof.
  intros Hw Hl (i & Hb & Ht & Hn). exists i. rewrite (rely_listing _ _ _ _ _ _ Hw Hl Hb).
  split; [|done]. by apply (rl_inode _ _ _ Hw b m).
Qed.

Lemma world_models r w : world_ok r w → models (w_disk w) (w_store w).
Proof. by intros [? _]. Qed.

Lemma world_wf r w : world_ok r w → ∃ fl, fs_wf (w_store w) fl.
Proof. intros [_ [rest Hwf]]. eauto. Qed.

Lemma path_inode r w user cs p :
  world_ok r w → walk_spec (w_store w) user ROOT_INODE cs = inr p →
  ∃ i, w_store w !! p = Some (NInode i).
Proof. intros [fl Hwf]%world_wf. by apply (walk_spec_inode Hwf). Qed.

Lemma walk_spec_app V user b cs cs' :
  walk_spec V user b (cs ++ cs') = sum_bind (walk_spec V user b cs) (λ p, walk_spec V user p cs').
Proof.
  revert b; induction cs as [|c cs IH]; intros b; simpl; [done|].
  destruct (next_spec V user b c); simpl; [done|apply IH].
Qed.

Lemma walk_error V user pre name rest b e :
  walk_spec V user ROOT_INODE pre = inr b → next_spec V user b name = inl e →
  walk_spec V user ROOT_INODE (pre ++ name :: rest) = inl e.
Proof. intros Hp Hn. rewrite walk_spec_app, Hp. simpl. by rewrite Hn. Qed.

Definition reader (b : Z) : own := Own (TL [(b, Shared)] false) [] [].

(** The walk to the directory [full] of a request that fails as the path fails. *)
Section walk.
Context {A : Type} (Sp : store → list Z → string + bytes → store → Prop).
Context (Q : outcome A → own → world D → Prop) (QS : string + bytes → outcome A → own → world D → Prop).
Context (user : bytes) (full : list bytes).
Hypothesis Habort : ∀ V fl e, walk_spec V user ROOT_INODE full = inl e → Sp V fl (inl e) V.
Hypothesis Hfails : ∀ e r w, QS (inl e) (Exn e) r w.
Abbreviation pending := (pending Sp Q QS).

Lemma settled_next_error (f : Z → prog A) name b e i w :
  world_ok (reader b) w → w_store w !! b = Some (NInode i) → good_name name →
  next_spec (w_store w) user b name = inl e →
  settled (QS (inl e)) (find_next_inode name b user ≫= f) (reader b) w.
Proof.
  intros Hok Hb Hname Hn. pose proof (world_models _ _ Hok) as Hm. destruct (world_wf _ _ Hok) as [fl Hwf].
  pose proof (reads_find_next_inode Hm Hwf Hb name user Hname) as Hr. rewrite Hn in Hr.
  eapply settled_reads; [by apply reads_bind| |].
  - intros w' x v Hw. apply (footprint_settled (reader b) w); [done|done|by left|done].
  - eapply settled_unlock_throw_bind; [done|apply hold_drop_head|apply Hfails].
Qed.

Lemma pending_next (f : Z → prog A) pre name rest b w :
  full = pre ++ name :: rest → good_name name →
  walk_spec (w_store w) user ROOT_INODE pre = inr b →
  (∀ w' c, world_ok (reader b) w' → walk_spec (w_store w') user ROOT_INODE pre = inr b →
     next_spec (w_store w') user b name = inr c → pending (f c) (reader b) w') →
  pending (find_next_inode name b user ≫= f) (reader b) w.
Proof.
  intros Hfull Hname Hpath Hf. apply pending_here. intros w' Hw Hok.
  assert ((b, Shared) ∈ o_held (reader b)) as Hl by by left.
  pose proof (rl_path _ _ _ Hw _ _ _ _ Hl Hpath) as Hpath'.
  destruct (path_inode _ _ _ _ _ Hok Hpath') as [i Hb].
  destruct (next_spec (w_store w') user b name) as [e|c] eqn:Hn.
  { left. exists (inl e). split; [|by eapply settled_next_error].
    apply Habort. rewrite Hfull. by eapply walk_error. }
  right. pose proof (world_models _ _ Hok) as Hm. destruct (world_wf _ _ Hok) as [fl Hwf].
  pose proof (reads_find_next_inode Hm Hwf Hb name user Hname) as Hr. rewrite Hn in Hr.
  eapply pending_reads; [by apply reads_bind| |rewrite ret_bind; by apply Hf].
  intros w2 Hw2 Hok2. split; [|intros x v; by apply (footprint_rely _ _ _ _ _ _ _ _ Hm Hb Hl Hw2)].
  intros b' Hb'%list_elem_of_singleton. injection Hb' as ->. right. left. exists name, c.
  eapply rely_child; [exact Hw2|done|]. by eapply next_spec_child.
Qed.

(** From a locked directory to its child. *)
Lemma pending_hand_over (f : unit → unit → prog A) op m user' pre name b c w :
  (op, m) ∈ [(LockRead, Shared); (LockUpgrade, Upgrade)] →
  walk_spec (w_store w) user' ROOT_INODE pre = inr b → next_spec (w_store w) user' b name = inr c →
  (∀ w', world_ok (reader b) w' → walk_spec (w_store w') user' ROOT_INODE (pre ++ [name]) = inr c →
     pending (f () ()) (Own (TL [(c, m)] false) [] []) w') →
  pending (u ← inode_lock op c; v ← inode_lock UnlockRead b; f u v) (reader b) w.
Proof.
  intros Hop Hpath Hn Hf. assert ((b, Shared) ∈ o_held (reader b)) as Hl by by left.
  assert (∃ i, w_store w !! b = Some (NInode i)) as [i Hb].
  { apply next_spec_child in Hn as (i & Hi & _). by exists i. }
  apply pending_lock. intros w' Hw Hok.
  assert (next_spec (w_store w') user' b name = inr c) as Hn' by by rewrite (rely_next _ _ _ _ _ _ _ _ Hw Hl Hb).
  pose proof (next_spec_child _ _ _ _ Hn') as Hc.
  assert (protected (reader b) w') as Hpr.
  { intros b' Hb'%list_elem_of_singleton. injection Hb' as ->. right. left. eauto. }
  split; [done|]. split.
  { assert (downwards LockRead c (reader b) w') as Hdn.
    { right. exists b, Shared, name. split; [done|]. split; [|done]. exists user', pre.
      by apply (rl_path _ _ _ Hw b Shared). }
    rewrite !elem_of_cons, elem_of_nil in Hop. by destruct Hop as [[= -> ->]|[[= -> ->]|[]]]. }
  set (r2 := Own (TL [(c, m); (b, Shared)] false) [] []).
  assert (hold_step op c (o_held (reader b)) = LkDone (o_held r2)) as Hh.
  { rewrite !elem_of_cons, elem_of_nil in Hop. unfold o_held. destruct Hop as [[= -> ->]|[[= -> ->]|[]]]; simpl;
      rewrite bool_decide_eq_false_2; (done || rewrite !elem_of_cons, !elem_of_nil; naive_solver). }
  exists (o_held r2). split; [done|]. apply pending_lock. intros w2 Hw2 Hok2.
  assert ((b, Shared) ∈ o_held r2) as Hl2 by by right; left.
  assert (child_of (w_store w2) b name c) as Hc2 by by eapply (rely_child r2).
  assert (w_store w' !! b = Some (NInode i)) as Hbw' by by apply (rl_inode _ _ _ Hw b Shared).
  split; [|split; [done|]].
  - intros b' Hb'. change (o_held (with_locks _ _)) with (o_held r2) in *.
    apply elem_of_cons in Hb' as [Hb'|Hb']; [|apply list_elem_of_singleton in Hb'].
    + injection Hb' as -> _. right. right. by exists b, Shared, name.
    + injection Hb' as ->. right. left. eauto.
  - exists [(c, m)]. split.
    + simpl. unfold drop_hold. simpl. rewrite !elem_of_cons, elem_of_nil in Hop.
      case_decide; [by simplify_eq|]. by rewrite decide_True.
    + apply Hf; [done|]. rewrite walk_spec_snoc, (rl_path r2 _ _ Hw2 b Shared user' pre).
      * simpl. by rewrite (rely_next r2 _ _ _ _ _ _ _ Hw2 Hl2 Hbw').
      * by right; left.
      * by apply (rl_path _ _ _ Hw b Shared).
Qed.

Lemma pending_walk (f : Z → prog A) x pre cs rest b w :
  full = pre ++ cs ++ rest → Forall good_name cs → (until_nul x = [] → b = ROOT_INODE) →
  walk_spec (w_store w) user ROOT_INODE pre = inr b →
  (∀ w' p, world_ok (reader p) w' → walk_spec (w_store w') user ROOT_INODE (pre ++ cs) = inr p →
     pending (f p) (reader p) w') →
  world_ok (reader b) w →
  pending (walk (x :: cs) b user ≫= f) (reader b) w.
Proof.
  revert x pre b w; induction cs as [|c cs IH]; intros x pre b w Hfull Hcs Hx Hpath Hf Hok.
  { rewrite app_nil_r in Hf. by apply Hf. }
  apply Forall_cons in Hcs as [Hc Hcs]. cbn [walk]. rewrite assert_bind
    by (case_bool_decide; [by rewrite (proj2 (Z.eqb_eq _ _)) by auto|done]).
  apply pending_assoc. apply (pending_next _ pre c (cs ++ rest)); [done..|]. clear w Hpath Hok.
  intros w b' Hok Hpath Hn.
  apply (pending_hand_over (λ _ _, walk (c :: cs) b' user ≫= f) LockRead Shared user pre c); [set_solver|done..|].
  intros w' Hok' Hpath'. apply (IH c (pre ++ [c])); [by rewrite <-(assoc_L (++))|done| |done| |done].
  - intros Hc0. destruct Hc as (Hne & _ & Hnul & _). by rewrite until_nul_id in Hc0.
  - intros w2 p Hok2. rewrite <-(assoc_L (++)). by apply Hf.
Qed.

Definition idle : own := Own (TL [] false) [] [].

Lemma pending_find_parent (f : Z → prog A) cs c rest w :
  full = cs ++ rest → Forall good_name cs → good_name c →
  (∀ w' p, world_ok (reader p) w' → walk_spec (w_store w') user ROOT_INODE cs = inr p →
     pending (f p) (reader p) w') →
  pending (find_parent_inode (path_of (cs ++ [c])) user ≫= f) idle w.
Proof.
  intros Hfull Hcs Hc Hf. unfold find_parent_inode. rewrite get_parent_dir_path, ret_bind by done.
  apply pending_assoc, pending_lock. intros w' Hw Hok.
  split; [by intros b Hb%elem_of_nil|]. split; [by left|]. exists [(ROOT_INODE, Shared)].
  split; [done|]. rewrite getlines_path by done.
  assert (world_ok (reader ROOT_INODE) w') as Hok' by done.
  destruct cs as [|c' cs]; [by apply Hf|]. by apply (pending_walk f [] [] (c' :: cs) rest).
Qed.

(** The first three steps of a request on an existing target. *)
Lemma pending_find_target (f : Z → Z → prog A) cs c w :
  full = cs ++ [c] → Forall good_name cs → good_name c →
  (∀ w' p t, world_ok (reader p) w' → walk_spec (w_store w') user ROOT_INODE cs = inr p →
     next_spec (w_store w') user p c = inr t → pending (f p t) (reader p) w') →
  pending (p ← find_parent_inode (path_of (cs ++ [c])) user;
           x ← get_target (path_of (cs ++ [c]));
           t ← find_next_inode x p user;
           f p t) idle w.
Proof.
  intros Hfull Hcs Hc Hf. apply (pending_find_parent _ _ _ [c]); [done..|]. intros w' p Hok Hp.
  rewrite get_target_path, ret_bind by done. apply (pending_next _ cs c []); [done..|].
  intros w2 t Hok2 Hp2 Ht. by apply Hf.
Qed.

End walk.
End steps.
