(* ===== verification/FsEffects.v ===== *)
(** * When the requests take effect

    Every handler, run among others, takes effect at one moment ([FsRely]), and
    the answer it gives and the change it makes then are those of [FsSpec]. *)
From S2P Require Import Prelude Layout Locks Prog FileSystem FsModel FsStore FsPaths FsRun FsSpec FsHandlers FsDirs.
From S2P Require Import FsInvariant FsTree FsChanges FsRely FsSteps.
Import Path FileSystem.

Local Open Scope Z_scope.

(** What a request may answer, and the store it leaves. *)
Definition answered (f : store → list Z → fs_result) (V : store) (fl : list Z)
    (a : string + bytes) (V' : store) : Prop :=
  V' = res_store (f V fl) ∧ a = sum_bind (res_answer (f V fl)) (λ _, inr []).

(** How a handler ends that has this answer. *)
Definition ends {D} (a : string + bytes) (o : outcome unit) (_ : own) (_ : world D) : Prop :=
  match a with
  | inl e => o = Exn e
  | inr v => v = [] ∧ o = Done ()
  end.

Section effects.
Context {D : Type} `{DiskSpec D}.
Implicit Types (w : world D) (r : own).

(** ** Steps before the effect *)

(** No inode is locked for reading only. *)
Definition quiet r : Prop := ∀ b, (b, Shared) ∉ o_held r.

Lemma quiet_protected r w : quiet r → protected r w.
Proof. intros Hq b Hb. by destruct (Hq b). Qed.

Definition with_mutex (f : bool) r : own := with_locks (TL (o_held r) f) r.
Definition take_block (b : Z) r : own := Own (o_locks r) (o_taken r ++ [b]) (o_loose r).

(** The path [cs] leads to the inode [i] in block [b], whose blocks are still
    those of [V0]. *)
Record located (V0 : store) (user : bytes) (cs : list bytes) (b : Z) (i : fs_inode) (V : store) : Prop := {
  loc_path : walk_spec V user ROOT_INODE cs = inr b;
  loc_inode : V !! b = Some (NInode i);
  loc_blocks x : x ∈ inode_refs i → V !! x = V0 !! x;
}.

Lemma located_rely V0 user cs b i m r w w' :
  (b, m) ∈ o_held r → rely r w w' →
  located V0 user cs b i (w_store w) → located V0 user cs b i (w_store w').
Proof.
  intros Hb Hw [Hp Hi Hx]. destruct (rl_inode _ _ _ Hw b m i Hb Hi) as [Hi' Hx'].
  split; [by eapply rl_path|done|]. intros x Hin. by rewrite Hx', Hx.
Qed.

Lemma settled_unlock_mutex_throw {A} (Q : outcome A → own → world D → Prop) op b e r w h :
  leaves op b r → hold_step op b (o_held r) = LkDone h →
  (∀ r' w', Q (Exn e) r' w') → settled Q (InodeLock op b (UnlockFreeMutex (Throw e))) r w.
Proof.
  intros Hn Hh HQ. apply (settled_lock Q op b (λ _, UnlockFreeMutex (Throw e)) r w h Hn Hh).
  intros w1 _ w2 _. apply HQ.
Qed.

(** What the disk holds after the last write of several. *)
Lemma models_prepared (d : D) V b v n :
  models d V → disk_readblock d b = Some v → holds_node v n → models d (<[b := n]> V).
Proof. intros Hm Hb Hn x m Hx. rewrite lookup_insert in Hx. case_decide; simplify_eq; eauto. Qed.

Lemma models_written (d d' : D) V b v n :
  models d V → disk_writeblock d b v = Some d' → len v = FS_BLOCKSIZE → holds_node v n →
  models d' (<[b := n]> V).
Proof.
  intros Hm Hd Hv Hn x m Hx. erewrite disk_read_write by done. rewrite lookup_insert in Hx.
  case_decide; simplify_eq; eauto.
Qed.

Section pending.
Context {A : Type} (Sp : store → list Z → string + bytes → store → Prop).
Context (Q : outcome A → own → world D → Prop) (QS : string + bytes → outcome A → own → world D → Prop).
Abbreviation pending := (pending Sp Q QS).

(** Taking effect without changing anything. *)
Lemma pending_effect p r w :
  (∀ w', rely r w w' → world_ok r w' →
    ∃ a, Sp (w_store w') (available r w') a (w_store w') ∧ settled (QS a) p r w') →
  pending p r w.
Proof. intros Hp. apply pending_here. intros w' Hw Hok. left. by apply Hp. Qed.

Lemma pending_now p r w :
  (∀ w', rely r w w' → world_ok r w' → pending p r w') → pending p r w.
Proof. intros Hp. apply pending_here. intros w' Hw Hok. right. by apply Hp. Qed.

Lemma pending_locked_reads b m i p q r w :
  quiet r → world_ok r w → (b, m) ∈ o_held r → w_store w !! b = Some (NInode i) →
  reads_to (footprint (w_disk w) b i) p q → pending q r w → pending p r w.
Proof.
  intros Hq Hok Hb Hi Hr. apply pending_reads with (rd := footprint (w_disk w) b i); [done|].
  intros w' Hw _. split; [by apply quiet_protected|]. intros x v.
  apply (footprint_rely _ _ _ _ m _ _ _ (world_models _ _ Hok) Hi Hb Hw).
Qed.

Lemma pending_lock_mutex p r w :
  quiet r → (∀ w', rely r w w' → pending p (with_mutex true r) w') → pending (LockFreeMutex p) r w.
Proof. intros Hq Hp w' Hw Hok. right. split; [by apply quiet_protected|auto]. Qed.

Lemma pending_unlock_mutex p r w :
  quiet r → (∀ w', rely r w w' → pending p (with_mutex false r) w') → pending (UnlockFreeMutex p) r w.
Proof. intros Hq Hp w' Hw Hok. right. split; [by apply quiet_protected|auto]. Qed.

(** Under the mutex the queue stays as it is. *)
Lemma pending_get_free k r w :
  quiet r → tl_free (o_locks r) = true →
  (∀ w', rely r w w' → pending (k (w_free w)) r w') → pending (GetFree k) r w.
Proof.
  intros Hq Hm Hk w' Hw Hok. right. split; [by apply quiet_protected|].
  rewrite (rl_free _ _ _ Hw Hm). auto.
Qed.

Lemma pending_pop b l k r w :
  quiet r → tl_free (o_locks r) = true → w_free w = b :: l →
  (∀ w', rely r w w' → pending k (take_block b r) (World (w_disk w') (w_store w') l)) →
  pending (PutFree l k) r w.
Proof.
  intros Hq Hm Hl Hk w' Hw Hok. right. split; [by apply quiet_protected|]. exists b.
  rewrite (rl_free _ _ _ Hw Hm). auto.
Qed.

(** Preparing a block that nobody else knows. *)
Lemma pending_prepare b v (f : unit → prog A) r w :
  quiet r → b ∈ o_taken r → len v = FS_BLOCKSIZE →
  (∀ w' w2, rely r w w' → w_store w2 = w_store w' → w_free w2 = w_free w' →
     disk_readblock (w_disk w2) b = Some v →
     (∀ x, x ≠ b → disk_readblock (w_disk w2) x = disk_readblock (w_disk w') x) →
     pending (f ()) r w2) →
  pending (disk_write b v ≫= f) r w.
Proof.
  intros Hq Hb Hv Hf w' Hw Hok. right. split; [by apply quiet_protected|]. split.
  { split; [done|]. destruct Hok as [_ [rest Hwf]]. apply (wf_free _ _ Hwf). unfold o_blocks. set_solver. }
  intros d Hd. left. split; [done|].
  assert (∀ x, disk_readblock d x = if decide (b = x) then Some v else disk_readblock (w_disk w') x) as Hx
    by (intros x; by apply disk_read_write).
  apply (Hf w'); [done..| |]; simpl; [by rewrite Hx, decide_True|].
  intros x Hne. by rewrite Hx, decide_False.
Qed.

(** The write by which the request takes effect. *)
Lemma pending_commit b v (f : unit → prog A) r w :
  quiet r → len v = FS_BLOCKSIZE → 0 ≤ b < FS_DISKSIZE →
  (∀ w' d, rely r w w' → world_ok r w' → disk_writeblock (w_disk w') b v = Some d →
     ∃ a V' r', commits b V' r' r w' ∧ models d V' ∧ Sp (w_store w') (available r w') a V' ∧
       settled (QS a) (f ()) r' (World d V' (w_free w'))) →
  pending (disk_write b v ≫= f) r w.
Proof.
  intros Hq Hv Hb Hf w' Hw Hok. right. split; [by apply quiet_protected|]. split; [done|].
  intros d Hd. right. destruct (Hf w' d Hw Hok Hd) as (a & V' & r' & Hc & Hrest). by exists a, V', r'.
Qed.

(** A section under the mutex that sees the queue [l]. *)
Inductive sees (l : list Z) : prog A → prog A → Prop :=
| sees_here p : sees l p p
| sees_get k q : sees l (k l) q → sees l (GetFree k) q.

Lemma pending_sees p q r w :
  sees (w_free w) p q → quiet r → tl_free (o_locks r) = true →
  (∀ w', rely r w w' → pending q r w') → pending p r w.
Proof.
  intros Hs Hq Hm Hp. remember (w_free w) as l eqn:Hl. revert w Hl Hp.
  induction Hs as [p|k q Hs IH]; intros w -> Hp; [apply Hp, rely_refl|].
  apply pending_get_free; [done..|]. intros w' Hw. apply IH; [by rewrite (rl_free _ _ _ Hw)|].
  intros w2 Hw2. apply Hp. by eapply rely_trans.
Qed.

(** It ends without a block, or takes one; [P] is what the locks preserve. *)
Lemma pending_take (P : store → Prop) p r w :
  (∀ r' w1 w2, rely r' w1 w2 → o_held r' = o_held r → P (w_store w1) → P (w_store w2)) →
  quiet r → tl_free (o_locks r) = false → P (w_store w) →
  (∀ l,
    (∃ q, sees l p q ∧
      ∀ w', P (w_store w') → w_free w' = l → pending q (with_mutex true r) w') ∨
    (∃ b l' q, l = b :: l' ∧ sees l p (PutFree l' (UnlockFreeMutex q)) ∧
      ∀ w', P (w_store w') → pending q (take_block b r) w')) →
  pending (LockFreeMutex p) r w.
Proof.
  intros Hst Hq Hm HP Hp. apply pending_lock_mutex; [done|]. intros w1 Hw1.
  apply (Hst r _ _ Hw1 eq_refl) in HP. set (rm := with_mutex true r).
  destruct (Hp (w_free w1)) as [(q & Hs & Hk)|(b & l & q & Hl & Hs & Hk)]; (eapply pending_sees; [done..|]);
    intros w2 Hw2; apply (Hst rm _ _ Hw2 eq_refl) in HP.
  - apply Hk; [done|]. by rewrite (rl_free _ _ _ Hw2).
  - apply (pending_pop b); [done|done|by rewrite (rl_free _ _ _ Hw2)|]. intros w3 Hw3.
    apply (Hst rm _ _ Hw3 eq_refl) in HP. apply pending_unlock_mutex; [done|]. intros w4 Hw4.
    apply (Hst (take_block b rm) _ _ Hw4 eq_refl) in HP.
    assert (with_mutex false (take_block b rm) = take_block b r) as ->; [|by apply Hk].
    unfold with_mutex, take_block, with_locks, rm. simpl. f_equal. destruct r as [[h f] tk ls]. simpl in *. by rewrite Hm.
Qed.

(** A thread with the upgradeable lock of an inode and [taken] blocks. *)
Definition upgrader (b : Z) (taken : list Z) : own := Own (TL [(b, Upgrade)] false) taken [].

Lemma upgrader_quiet b taken : quiet (upgrader b taken).
Proof. intros x. simpl. set_solver. Qed.

Lemma upgrader_located V0 user cs b i taken r' w1 w2 :
  rely r' w1 w2 → o_held r' = o_held (upgrader b taken) →
  located V0 user cs b i (w_store w1) → located V0 user cs b i (w_store w2).
Proof. intros Hw Hh. apply (located_rely _ _ _ _ _ Upgrade r'); [|done]. rewrite Hh. by left. Qed.

(** Growing a file by a block of the queue, or finding none. *)
Lemma pending_grow_file V0 user cs t i (f : fs_inode → prog A) w :
  0 ≤ ino_size i ≤ FS_MAXFILEBLOCKS → located V0 user cs t i (w_store w) →
  (∀ V fl, located V0 user cs t i V → fl = [] ∨ ino_size i = FS_MAXFILEBLOCKS →
     Sp V fl (inl "Not enough disk space for this write"%string) V) →
  (∀ e r2 w2, QS (inl e) (Exn e) r2 w2) →
  (∀ w' b, located V0 user cs t i (w_store w') → ino_size i < FS_MAXFILEBLOCKS →
     pending (f (inode_push i b)) (upgrader t [b]) w') →
  pending (grow_file t i ≫= f) (upgrader t []) w.
Proof.
  intros Hsz Hl Hfull HQ Hf. apply (pending_take (located V0 user cs t i));
    [exact (upgrader_located V0 user cs t i [])|apply upgrader_quiet|done..|]. intros l.
  destruct (match l with [] => true | _ => ino_size i =? FS_MAXFILEBLOCKS end) eqn:Hno.
  - left. exists (InodeLock UnlockUpgrade t (UnlockFreeMutex (Throw "Not enough disk space for this write"))).
    split; [apply sees_get; destruct l; simpl; rewrite ?Hno; constructor|].
    intros w1 Hl1 Hl'. apply pending_effect. intros w2 Hw2 _. eexists.
    change (available _ w2) with (w_free w2). split.
    + apply Hfull; [by apply (upgrader_located V0 user cs t i [] _ _ _ Hw2 eq_refl)|].
      rewrite (rl_free _ _ _ Hw2 eq_refl), Hl'.
      destruct l; [by left|right; by apply Z.eqb_eq].
    + eapply settled_unlock_mutex_throw; [done|apply hold_drop_head|done].
  - right. destruct l as [|b l]; [done|]. exists b, l, (f (inode_push i b)). split; [done|].
    apply Z.eqb_neq in Hno as Hne. split; [|intros w1 Hl1; apply Hf; [done|lia]].
    apply sees_get. simpl. rewrite Hno. do 2 (apply sees_get; simpl).
    rewrite inode_set_block_ok by lia. simpl. rewrite inode_set_size_push by lia. constructor.
Qed.

(** Taking a block for a new inode. *)
Lemma pending_pop_free V0 user cs p i (f : Z → prog A) w :
  located V0 user cs p i (w_store w) →
  (∀ V, located V0 user cs p i V → Sp V [] (inl "Not enough disk space for create"%string) V) →
  (∀ e r2 w2, QS (inl e) (Exn e) r2 w2) →
  (∀ w' b, located V0 user cs p i (w_store w') → pending (f b) (upgrader p [b]) w') →
  pending (pop_free_or_throw ≫= f) (upgrader p []) w.
Proof.
  intros Hl Hfull HQ Hf. apply (pending_take (located V0 user cs p i));
    [exact (upgrader_located V0 user cs p i [])|apply upgrader_quiet|done..|]. intros [|b l].
  - left. exists (UnlockFreeMutex (Throw "Not enough disk space for create")).
    split; [apply sees_get; constructor|]. intros w1 Hl1 Hl'. apply pending_effect. intros w2 Hw2 _.
    eexists. change (available _ w2) with (w_free w2).
    split; [|intros w3 _ w4 _; apply HQ]. rewrite (rl_free _ _ _ Hw2 eq_refl), Hl'.
    apply Hfull. by apply (upgrader_located V0 user cs p i [] _ _ _ Hw2 eq_refl).
  - right. exists b, l, (f b). split; [done|]. split; [|intros; by apply Hf].
    do 3 (apply sees_get; simpl). constructor.
Qed.

(** Growing a directory, which needs a second block. *)
Lemma pending_grow_directory V0 user cs p i nb (f : Z * fs_inode → prog A) w :
  0 ≤ ino_size i ≤ FS_MAXFILEBLOCKS → located V0 user cs p i (w_store w) →
  (∀ V fl, located V0 user cs p i V → fl = [] ∨ ino_size i = FS_MAXFILEBLOCKS →
     Sp V (nb :: fl) (inl "Not enough disk space for create"%string) V) →
  (∀ e r2 w2, QS (inl e) (Exn e) r2 w2) →
  (∀ w' b, located V0 user cs p i (w_store w') → ino_size i < FS_MAXFILEBLOCKS →
     pending (f (b, inode_with i (ino_size i) (<[Z.to_nat (ino_size i) := b]> (ino_blocks i))))
       (upgrader p [nb; b]) w') →
  pending (grow_directory p i ≫= f) (upgrader p [nb]) w.
Proof.
  intros Hsz Hl Hfull HQ Hf. apply (pending_take (located V0 user cs p i));
    [exact (upgrader_located V0 user cs p i [nb])|apply upgrader_quiet|done..|]. intros l.
  destruct (match l with [] => true | _ => ino_size i =? FS_MAXFILEBLOCKS end) eqn:Hno.
  - left. exists (InodeLock UnlockUpgrade p (UnlockFreeMutex (Throw "Not enough disk space for create"))).
    split; [apply sees_get; destruct l; simpl; rewrite ?Hno; constructor|].
    intros w1 Hl1 Hl'. apply pending_effect. intros w2 Hw2 _. eexists.
    change (available _ w2) with (nb :: w_free w2). split.
    + apply Hfull; [by apply (upgrader_located V0 user cs p i [nb] _ _ _ Hw2 eq_refl)|].
      rewrite (rl_free _ _ _ Hw2 eq_refl), Hl'. destruct l; [by left|right; by apply Z.eqb_eq].
    + eapply settled_unlock_mutex_throw; [done|apply hold_drop_head|done].
  - right. destruct l as [|b l]; [done|]. eexists b, l, _. split; [done|].
    apply Z.eqb_neq in Hno as Hne. split; [|intros w1 Hl1; apply Hf; [done|lia]].
    apply sees_get. simpl. rewrite Hno. apply sees_get. simpl. rewrite inode_set_block_ok by lia. simpl.
    apply sees_get. constructor.
Qed.

End pending.

(** ** Around the effect *)

Lemma answered_failed_free f V fl fl' h e :
  f V fl = FsResult (inl e) V fl' h → answered f V fl (inl e) V.
Proof. intros Hf. unfold answered. by rewrite Hf. Qed.

Lemma answered_failed f V fl e : f V fl = failed V fl e → answered f V fl (inl e) V.
Proof. apply answered_failed_free. Qed.

(** A request that fails here gives up its lock and throws. *)
Lemma pending_fails {A} V0 user f t i cs' e w (k : A → prog unit) :
  located V0 user cs' t i (w_store w) →
  (∀ V fl, located V0 user cs' t i V → f V fl = failed V fl e) →
  pending (answered f) (λ _ _ _, False) ends ((_ ← inode_lock UnlockUpgrade t; Throw e) ≫= k) (upgrader t []) w.
Proof.
  intros Hl Hf. apply pending_effect. intros w' Hw _. exists (inl e). split.
  - apply answered_failed, Hf. by apply (upgrader_located V0 user cs' t i [] _ _ _ Hw eq_refl).
  - eapply settled_unlock_throw_bind; [done|apply hold_drop_head|done].
Qed.

Definition writer (b : Z) (taken : list Z) : own := Own (TL [(b, Exclusive)] false) taken [].

Lemma writer_quiet b taken : quiet (writer b taken).
Proof. intros x. simpl. set_solver. Qed.

Lemma pending_to_writer {A} Sp (Q : outcome A → own → world D → Prop) QS V0 user cs' b i taken (f : unit → prog A) w :
  located V0 user cs' b i (w_store w) →
  (∀ w', rely (upgrader b taken) w w' → pending Sp Q QS (f ()) (writer b taken) w') →
  pending Sp Q QS (inode_lock UpgradeToWrite b ≫= f) (upgrader b taken) w.
Proof.
  intros Hl Hf. apply pending_lock. intros w' Hw Hok.
  apply (upgrader_located V0 user cs' b i taken _ _ _ Hw eq_refl) in Hl.
  split; [apply quiet_protected, upgrader_quiet|]. split; [split; [done|]; eexists _, _; apply Hl|].
  exists [(b, Exclusive)]. split; [apply hold_write; set_solver|by apply Hf].
Qed.

Lemma writer_located V0 user cs' b i taken w1 w2 :
  rely (writer b taken) w1 w2 → located V0 user cs' b i (w_store w1) → located V0 user cs' b i (w_store w2).
Proof. apply (located_rely _ _ _ _ _ Exclusive). by left. Qed.

Lemma settled_unlock_write b taken w :
  settled (ends (inr [])) (inode_lock UnlockWrite b) (writer b taken) w.
Proof. eapply settled_last_lock; [done|apply hold_drop_head|]. by intros w' _. Qed.

(** ** Reading *)

Section requests.
Context {cmd : Command} {cs : list bytes} {name : bytes}.
Hypotheses (Hcmd : cmd_ok cmd) (Hpath : pathname cmd = path_of (cs ++ [name]))
  (Hcs : Forall good_name cs) (Hname : good_name name).
Abbreviation user := (username cmd).

Lemma target_spec_walk V : target_spec V user cs name = walk_spec V user ROOT_INODE (cs ++ [name]).
Proof. unfold target_spec. by rewrite walk_spec_snoc. Qed.

Definition read_effect (V : store) (_ : list Z) (a : string + bytes) (V' : store) : Prop :=
  V' = V ∧ a = read_spec V user cs name (cmd_block cmd).

(** The answer is that of the moment at which the reader has the file locked;
    reading it takes longer. *)
Lemma read_settled t i w :
  world_ok (reader t) w → w_store w !! t = Some (NInode i) →
  settled (λ o _ _, o = of_sum
    (if negb (is_type i type_file) || (ino_size i <=? cmd_block cmd)
     then inl "Provided file is not a valid file"%string
     else if negb (owned_by user i) then inl "User is not owner of file"%string
     else match file_block (w_store w) i (cmd_block cmd) with Some v => inr v | None => inl ""%string end))
    (target_inode ← read_inode t;
     if negb (is_type target_inode type_file) || (ino_size target_inode <=? cmd_block cmd) then
       _ ← inode_lock UnlockRead t; Throw "Provided file is not a valid file"
     else
       denied ← not_owner user target_inode;
       if (denied : bool) then _ ← inode_lock UnlockRead t; Throw "User is not owner of file"
       else
         b ← inode_block_at target_inode (cmd_block cmd);
         data_read ← disk_read b;
         _ ← inode_lock UnlockRead t;
         Ret data_read) (reader t) w.
Proof.
  intros Hok Ht. pose proof (world_models _ _ Hok) as Hm. destruct (world_wf _ _ Hok) as [fl Hwf].
  assert (∀ w' x v, rely_settled (reader t) w w' → footprint (w_disk w) t i x = Some v →
    disk_readblock (w_disk w') x = Some v) as Hfoot.
  { intros w' x v Hw. apply (footprint_settled (reader t) w); [done|done|by left|done]. }
  eapply settled_reads; [apply (reads_inode Hm Ht)|done|].
  destruct (negb (is_type i type_file) || (ino_size i <=? cmd_block cmd)) eqn:Hbad.
  { eapply settled_unlock_throw; [done|apply hold_drop_head|done]. }
  apply orb_false_iff in Hbad as [Hf%negb_false_iff%is_type_true Hk%Z.leb_gt].
  rewrite (not_owner_spec Hwf _ t), ret_bind by done.
  destruct (negb (owned_by user i)); [eapply settled_unlock_throw; [done|apply hold_drop_head|done]|].
  pose proof (cmd_block_nonneg _ Hcmd) as H0k.
  destruct (file_block_read Hwf t i (cmd_block cmd)) as (b & v & Hb & Hv & -> & ->); [done|done|lia|].
  rewrite ret_bind. apply list_elem_of_lookup_2 in Hb.
  eapply settled_reads; [apply (reads_data Hm (b := t) (i := i)); done|done|].
  eapply settled_lock; [done|apply hold_drop_head|]. by intros w' _.
Qed.

Lemma handle_read_effect w :
  pending read_effect (λ _ _ _, False) (λ a o _ _, o = of_sum a) (handle_read cmd) idle w.
Proof.
  unfold handle_read. rewrite Hpath.
  assert (∀ V fl e, walk_spec V user ROOT_INODE (cs ++ [name]) = inl e → read_effect V fl (inl e) V) as Habort.
  { intros V fl e He. split; [done|]. unfold read_spec. by rewrite target_spec_walk, He. }
  eapply (pending_find_target _ _ _ user (cs ++ [name])); [done..|]. intros w1 p t _ Hp Ht.
  eapply (pending_hand_over _ _ _ _ LockRead Shared); [set_solver|done..|]. intros w2 _ Ht2.
  apply pending_effect. intros w' Hw Hok. change (Own _ _ _) with (reader t) in *.
  assert (walk_spec (w_store w') user ROOT_INODE (cs ++ [name]) = inr t) as Ht'
    by by (eapply rl_path; [done|left|]).
  destruct (path_inode _ _ _ _ _ Hok Ht') as [i Hi]. eexists. split.
  - split; [done|]. unfold read_spec. rewrite target_spec_walk, Ht'. simpl. unfold inode_at. by rewrite Hi.
  - by apply read_settled.
Qed.

(** ** Writing *)

Definition write_effect : store → list Z → string + bytes → store → Prop :=
  answered (λ V fl, write_spec V fl user cs name (cmd_block cmd) (cmd_data cmd)).

Lemma write_spec_at V0 V fl t i :
  located V0 user (cs ++ [name]) t i V →
  write_spec V fl user cs name (cmd_block cmd) (cmd_data cmd) =
    if negb (is_type i type_file) || (ino_size i <? cmd_block cmd)
    then failed V fl "Provided block is not writable"
    else if negb (owned_by user i) then failed V fl "User is not owner of file"
    else write_file V fl t i (cmd_block cmd) (cmd_data cmd).
Proof. intros [Hw Hi _]. unfold write_spec, inode_at. by rewrite target_spec_walk, Hw, Hi. Qed.

(** Overwriting a block. *)
Lemma overwrite_effect V0 t i w :
  located V0 user (cs ++ [name]) t i (w_store w) → ino_type i = type_file → owned_by user i = true →
  cmd_block cmd < ino_size i → world_ok (upgrader t []) w →
  pending write_effect (λ _ _ _, False) ends
    (b ← inode_block_at i (cmd_block cmd);
     _ ← (_ ← inode_lock UpgradeToWrite t; disk_write b (cmd_data cmd));
     inode_lock UnlockWrite t) (upgrader t []) w.
Proof.
  intros Hl Hty Ho Hk Hok. pose proof (cmd_block_nonneg _ Hcmd) as Hk0.
  destruct (world_wf _ _ Hok) as [fl Hwf].
  destruct (file_block_read Hwf t i (cmd_block cmd)) as (b & v & Hb & Hv & Hat & _); [apply Hl|done|done|].
  rewrite Hat, ret_bind. apply pending_assoc. eapply pending_to_writer; [exact Hl|]. intros w1 Hw1.
  apply (upgrader_located V0 user _ t i [] _ _ _ Hw1 eq_refl) in Hl.
  apply pending_commit; [apply writer_quiet|apply Hcmd|by eapply wf_range|]. intros w2 d Hw2 Hok2 Hd.
  apply (writer_located _ _ _ _ _ _ _ _ Hw2) in Hl. destruct (world_wf _ _ Hok2) as [fl2 Hwf2].
  destruct (file_block_read Hwf2 t i (cmd_block cmd)) as (b' & v2 & Hb' & Hv2 & _); [apply Hl|done|done|].
  assert (b' = b) as -> by congruence. pose proof (list_elem_of_lookup_2 _ _ _ Hb) as Hin.
  exists (inr []), (node_write (w_store w2) b (cmd_data cmd)), (writer t []). split_and!.
  - exists t, i, None. split_and!; [by left|apply Hl|by right|apply (changes_write Hwf2 t i); [apply Hl|done..]|done|done| |done].
    intros rest Hrest. eapply fs_wf_write_data; [done|done|apply Hcmd].
  - by eapply models_written; [apply (world_models _ _ Hok2)|done|apply Hcmd|].
  - unfold write_effect, answered. rewrite (write_spec_at V0 _ _ t i Hl).
    rewrite (proj2 (is_type_true _ _) Hty), Ho, (proj2 (Z.ltb_ge _ _)) by lia. simpl.
    unfold write_file. rewrite (proj2 (Z.eqb_neq _ _)) by lia. by rewrite Hb.
  - apply settled_unlock_write.
Qed.

(** Adding one. *)
Lemma append_effect V0 t i w :
  located V0 user (cs ++ [name]) t i (w_store w) → ino_type i = type_file → owned_by user i = true →
  cmd_block cmd = ino_size i → world_ok (upgrader t []) w →
  pending write_effect (λ _ _ _, False) ends
    (target_inode ← grow_file t i;
     b ← inode_block_at target_inode (cmd_block cmd);
     _ ← (_ ← disk_write b (cmd_data cmd);
          _ ← inode_lock UpgradeToWrite t;
          write_inode t target_inode);
     inode_lock UnlockWrite t) (upgrader t []) w.
Proof.
  intros Hl Hty Ho Hk Hok. destruct (world_wf _ _ Hok) as [fl Hwf].
  pose proof (wf_size Hwf t i (loc_inode _ _ _ _ _ _ Hl)) as Hsz. destruct (wf_inode Hwf _ _ (loc_inode _ _ _ _ _ _ Hl)) as (Hiok & _).
  pose proof (wf_range _ _ Hwf _ _ (loc_inode _ _ _ _ _ _ Hl)) as Htr.
  assert (∀ V fl, located V0 user (cs ++ [name]) t i V →
    write_spec V fl user cs name (cmd_block cmd) (cmd_data cmd) = write_file V fl t i (cmd_block cmd) (cmd_data cmd)) as Hspec.
  { intros V fl' Hl'. rewrite (write_spec_at V0 _ _ t i Hl'), (proj2 (is_type_true _ _) Hty), Ho.
    by rewrite (proj2 (Z.ltb_ge _ _)) by lia. }
  apply (pending_grow_file _ _ _ V0 user (cs ++ [name])); [done|done| |done|].
  { intros V fl' Hl' Hfull. apply answered_failed. rewrite Hspec by done. unfold write_file.
    rewrite (proj2 (Z.eqb_eq _ _) Hk). destruct fl' as [|b fl']; [done|]. destruct Hfull as [|Hf]; [done|].
    by rewrite (proj2 (Z.eqb_eq _ _) Hf). }
  clear w Hl Hok fl Hwf. intros w b Hl Hlt. rewrite Hk, inode_push_at, ret_bind by done.
  apply pending_assoc, pending_prepare; [apply upgrader_quiet|by left|apply Hcmd|].
  intros w1 w2 Hw1 Hst _ Hb _. apply (upgrader_located V0 user _ t i [b] _ _ _ Hw1 eq_refl) in Hl.
  rewrite <-Hst in Hl. apply pending_assoc. eapply pending_to_writer; [exact Hl|]. intros w3 Hw3.
  apply (upgrader_located V0 user _ t i [b] _ _ _ Hw3 eq_refl) in Hl.
  rewrite <-(rl_taken _ _ _ Hw3 b ltac:(by left)) in Hb.
  assert (∀ x, is_u32 x → inode_ok (inode_push i x)) as Hpush by (intros; by apply inode_push_ok).
  apply pending_now. intros w4 Hw4 Hok4. apply (writer_located _ _ _ _ _ _ _ _ Hw4) in Hl.
  rewrite <-(rl_taken _ _ _ Hw4 b ltac:(by left)) in Hb.
  destruct Hok4 as [_ [rest Hwf]].
  assert (is_u32 b) as Hu. { destruct (wf_free _ _ Hwf b) as [? _]; [set_solver|]. unfold is_u32, FS_DISKSIZE in *. lia. }
  clear Hwf rest. apply pending_commit; [apply writer_quiet|by apply length_encode_inode, Hpush|done|].
  intros w5 d Hw5 Hok5 Hd. apply (writer_located _ _ _ _ _ _ _ _ Hw5) in Hl.
  rewrite <-(rl_taken _ _ _ Hw5 b ltac:(by left)) in Hb. pose proof Hok5 as [Hm [rest Hwf]].
  destruct (wf_free _ _ Hwf b) as [_ HbN]; [set_solver|].
  exists (inr []), (node_append (w_store w5) t i b (cmd_data cmd)), (writer t []). split_and!.
  - exists t, i, None. split_and!; [by left|apply Hl|by left|by apply (changes_append Hwf); [apply Hl|..]|done|done| |done].
    intros rest' Hrest. apply node_append_wf; [|apply Hl|done|done|apply Hcmd].
    eapply fs_wf_free_perm; [exact Hrest|]. simpl. by rewrite <-Permutation_middle.
  - unfold node_append. eapply models_written; [by eapply models_prepared|done| |].
    + by apply length_encode_inode, Hpush.
    + by apply decode_encode_inode, Hpush.
  - unfold write_effect, answered. rewrite Hspec by done. unfold write_file, available. simpl.
    by rewrite (proj2 (Z.eqb_eq _ _) Hk), (proj2 (Z.eqb_neq _ _)) by lia.
  - apply settled_unlock_write.
Qed.

Lemma handle_write_effect w :
  pending write_effect (λ _ _ _, False) ends (handle_write cmd) idle w.
Proof.
  unfold handle_write. rewrite Hpath.
  assert (∀ V fl e, walk_spec V user ROOT_INODE (cs ++ [name]) = inl e → write_effect V fl (inl e) V) as Habort.
  { intros V fl e He. apply answered_failed. unfold write_spec. by rewrite target_spec_walk, He. }
  eapply (pending_find_target _ _ _ user (cs ++ [name])); [done..|]. intros w1 p t _ Hp Ht.
  eapply (pending_hand_over _ _ _ _ LockUpgrade Upgrade); [set_solver|done..|]. intros w2 _ Ht2.
  change (Own _ _ _) with (upgrader t []). apply pending_now. intros w3 Hw3 Hok3.
  assert (walk_spec (w_store w3) user ROOT_INODE (cs ++ [name]) = inr t) as Ht3
    by by (eapply rl_path; [done|left|]).
  destruct (path_inode _ _ _ _ _ Hok3 Ht3) as [i Hi].
  set (V0 := w_store w3). assert (located V0 user (cs ++ [name]) t i (w_store w3)) as Hl by done.
  pose proof Hok3 as [Hm [rest Hwf]].
  eapply pending_locked_reads; [apply upgrader_quiet|done|by left|done|apply (reads_inode Hm Hi)|].
  destruct (negb (is_type i type_file) || (ino_size i <? cmd_block cmd)) eqn:Hbad.
  { apply (pending_fails V0 user _ t i (cs ++ [name]) _ _ Ret Hl). intros V fl HV.
    by rewrite (write_spec_at V0 _ _ t i HV), Hbad. }
  rewrite (not_owner_spec Hwf _ t), ret_bind by done.
  destruct (owned_by user i) eqn:Ho; simpl negb; cbv iota.
  2: { apply (pending_fails V0 user _ t i (cs ++ [name]) _ _ Ret Hl). intros V fl HV.
    by rewrite (write_spec_at V0 _ _ t i HV), Hbad, Ho. }
  apply orb_false_iff in Hbad as [Hf%negb_false_iff%is_type_true Hk%Z.ltb_ge].
  destruct (Z.eqb_spec (cmd_block cmd) (ino_size i)) as [Heq|Hne]; simpl negb; cbv iota zeta.
  - by apply (append_effect V0).
  - rewrite ret_bind. apply (overwrite_effect V0); [done..|lia|done].
Qed.

End requests.
End effects.
