(* ===== verification/FsDirEffects.v ===== *)
(** * When requests that change a directory take effect

    [handle_create] and [handle_delete] run among others ([FsEffects] is about
    the other two).  Both lock the parent directory for upgrading, look through
    it, and take effect when they write it. *)
From S2P Require Import Prelude Layout Locks Prog FileSystem FsModel FsStore FsPaths FsRun FsSpec FsHandlers FsDirs.
From S2P Require Import FsInvariant FsTree FsChanges FsRely FsSteps FsEffects.
Import Path FileSystem.

Local Open Scope Z_scope.

(** What the locks keep of a directory. *)
Lemma located_entries V0 user cs p i V x :
  located V0 user cs p i V → x ∈ inode_refs i → dir_entries V x = dir_entries V0 x.
Proof. intros Hl Hx. unfold dir_entries. by rewrite (loc_blocks _ _ _ _ _ _ Hl). Qed.

Lemma located_listing V0 user cs p i V : located V0 user cs p i V → listing V i = listing V0 i.
Proof. intros Hl. apply listing_ext. intros x. by apply (located_entries _ _ _ _ _ _ _ Hl). Qed.

Lemma first_slot_ext V V' bs :
  (∀ x, x ∈ bs → dir_entries V x = dir_entries V' x) → first_slot V bs = first_slot V' bs.
Proof.
  intros Hx. induction bs as [|b bs IH]; [done|]. simpl. rewrite Hx by left. rewrite IH; [done|].
  intros x Hin. apply Hx. by right.
Qed.

Lemma find_entry_ext V V' name bs k :
  (∀ x, x ∈ bs → dir_entries V x = dir_entries V' x) → find_entry V name bs k = find_entry V' name bs k.
Proof.
  intros Hx. revert k. induction bs as [|b bs IH]; intros k; [done|]. simpl. rewrite Hx by left.
  rewrite IH; [done|]. intros x Hin. apply Hx. by right.
Qed.

Section effects.
Context {D : Type} `{DiskSpec D}.
Implicit Types (w : world D) (r : own).
Context {cmd : Command} {cs : list bytes} {name : bytes}.
Hypotheses (Hcmd : cmd_ok cmd) (Hpath : pathname cmd = path_of (cs ++ [name]))
  (Hcs : Forall good_name cs) (Hname : good_name name).
Abbreviation user := (username cmd).

(** ** The parent directory *)

(** The directory may be changed by the user. *)
Definition parent_allows (i : fs_inode) : bool :=
  match cs with [] => true | _ => is_type i type_dir && owned_by user i end.

Lemma parent_spec_at V0 V p i :
  located V0 user cs p i V →
  parent_spec V user cs =
    if parent_allows i then inr (p, i)
    else inl "Expected a directory, but got a file or user is not owner lol"%string.
Proof.
  intros [Hw Hi _]. unfold parent_spec, inode_at, parent_allows. rewrite Hw. simpl. rewrite Hi.
  destruct cs; [done|]. by destruct (is_type i type_dir), (owned_by user i).
Qed.

Section parent.
Context {A : Type} (Sp : store → list Z → string + bytes → store → Prop).
Context (Q : outcome A → own → world D → Prop) (QS : string + bytes → outcome A → own → world D → Prop).
Hypothesis Habort : ∀ V fl e, parent_spec V user cs = inl e → Sp V fl (inl e) V.
Hypothesis Hfails : ∀ e r w, QS (inl e) (Exn e) r w.
Abbreviation pending := (pending Sp Q QS).

Lemma pending_get_parent (f : Z → prog A) w :
  (∀ w' p, world_ok (upgrader p []) w' → walk_spec (w_store w') user ROOT_INODE cs = inr p →
     pending (f p) (upgrader p []) w') →
  pending (get_parent_inode_and_upgradeable_lock cmd (path_of cs) ≫= f) idle w.
Proof.
  intros Hf. destruct cs as [|g gs _] using rev_ind.
  { apply (pending_lock Sp Q QS LockUpgrade ROOT_INODE (λ _, f ROOT_INODE)). intros w' Hw Hok. split; [by intros b Hb%elem_of_nil|]. split; [by left|].
    exists [(ROOT_INODE, Upgrade)]. split; [done|]. by apply Hf. }
  apply Forall_app in Hcs as [Hgs [Hg _]%Forall_cons].
  unfold get_parent_inode_and_upgradeable_lock.
  destruct (path_of (gs ++ [g])) as [|x xs] eqn:Hx; [by apply path_of_nil, app_nil in Hx as []|].
  rewrite <-Hx.
  assert (∀ V fl e, walk_spec V user ROOT_INODE (gs ++ [g]) = inl e → Sp V fl (inl e) V) as Habort'.
  { intros V fl e He. apply Habort. unfold parent_spec. by rewrite He. }
  apply pending_bind. eapply (pending_find_target _ _ _ user (gs ++ [g])); [done..|]. intros w1 q t _ Hq Ht.
  eapply (pending_hand_over _ _ _ (λ _ _, Ret t) LockUpgrade Upgrade); [set_solver|done..|]. intros w2 Hok2 Ht2.
  intros w3 Hw3 Hok3. right. apply Hf; [done|]. eapply rl_path; [done|left|done].
Qed.

Lemma pending_open_parent (f : Z → fs_inode → prog A) w :
  (∀ w' p i, located (w_store w') user cs p i (w_store w') → world_ok (upgrader p []) w' →
     ino_type i = type_dir → parent_allows i = true → pending (f p i) (upgrader p []) w') →
  pending (p ← get_parent_inode_and_upgradeable_lock cmd (path_of cs);
           i ← read_inode p;
           _ ← validate_parent_inode cmd (path_of cs) i p;
           f p i) idle w.
Proof.
  intros Hf. apply pending_get_parent. intros w1 p Hok1 Hp1.
  apply pending_now. intros w2 Hw2 Hok2.
  assert (walk_spec (w_store w2) user ROOT_INODE cs = inr p) as Hp by (eapply rl_path; [done|by left|done]).
  destruct (path_inode _ _ _ _ _ Hok2 Hp) as [i Hi]. pose proof Hok2 as [Hm [rest Hwf]].
  assert (located (w_store w2) user cs p i (w_store w2)) as Hl by done.
  eapply pending_locked_reads; [apply upgrader_quiet|done|by left|done|apply (reads_inode Hm Hi)|].
  rewrite (validate_parent_eq Hwf) by done. pose proof (parent_spec_at _ _ _ _ Hl) as Hspec.
  assert (match cs with [] => false | _ => negb (is_type i type_dir) || negb (owned_by user i) end =
    negb (parent_allows i)) as ->.
  { unfold parent_allows. destruct cs; [done|]. by rewrite negb_andb. }
  destruct (parent_allows i) eqn:Hall; simpl negb; cbv iota.
  - rewrite ret_bind. apply Hf; [done|done| |done].
    unfold parent_allows in Hall. destruct cs as [|c cs'].
    + simpl in Hp. injection Hp as <-. destruct (wf_root _ _ Hwf) as (i' & Hi' & ?).
      change 0 with ROOT_INODE in Hi'. congruence.
    + apply andb_true_iff in Hall as [Hd _]. by apply is_type_true.
  - apply pending_effect. intros w3 Hw3 _. eexists. split.
    + apply Habort. rewrite (parent_spec_at (w_store w2) _ p i); [by rewrite Hall|].
      by apply (upgrader_located _ _ _ _ _ [] _ _ _ Hw3 eq_refl).
    + eapply settled_unlock_throw_bind; [done|apply hold_drop_head|done].
Qed.

End parent.

(** ** Creating *)

Section create.
Context {stack : fs_inode} (Hstack : inode_ok stack)
  (Htype : cmd_type cmd = type_file ∨ cmd_type cmd = type_dir).
Abbreviation ni := (new_inode stack user (cmd_type cmd)).

Definition create_effect : store → list Z → string + bytes → store → Prop :=
  answered (λ V fl, create_spec V fl stack user cs name (cmd_type cmd)).

Abbreviation pending := (pending create_effect (λ _ _ _, False) ends).

(** What the request found in the directory, and what holds while it works. *)
Context {V0 : store} {p : Z} {i : fs_inode}.
Hypotheses (Hall : parent_allows i = true) (Ht : ino_type i = type_dir)
  (Hnone : lookup_name name (listing V0 i) = None).
Abbreviation here := (located V0 user cs p i).

Lemma create_spec_at V fl :
  here V → create_spec V fl stack user cs name (cmd_type cmd) =
  match fl with
  | [] => FsResult (inl "Not enough disk space for create"%string) V [] [(p, Upgrade)]
  | nb :: fl' =>
      match first_slot V0 (inode_refs i) with
      | Some s =>
          FsResult (inr ())
            (node_create V nb ni (slot_block s) (slot_entries s) (slot_index s)
               (new_entry (default zero_direntry (slot_entries s !! slot_index s)) nb name)) fl' []
      | None =>
          match fl' with
          | [] => failed V fl' "Not enough disk space for create"
          | b :: fl'' =>
              if ino_size i =? FS_MAXFILEBLOCKS then failed V fl' "Not enough disk space for create"
              else FsResult (inr ())
                     (node_create_grow V nb ni p i b (new_entry zero_direntry nb name)) fl'' []
          end
      end
  end.
Proof.
  intros Hl. unfold create_spec. rewrite (parent_spec_at _ _ _ _ Hl), Hall. unfold create_in.
  rewrite (located_listing _ _ _ _ _ _ Hl), Hnone. destruct fl as [|nb fl]; [done|].
  by rewrite (first_slot_ext V V0) by (intros x; apply (located_entries _ _ _ _ _ _ _ Hl)).
Qed.

Lemma slot_in_store V fl s :
  fs_wf V fl → here V → first_slot V0 (inode_refs i) = Some s →
  slot_block s ∈ inode_refs i ∧ V !! slot_block s = Some (NDir (slot_entries s)) ∧
  direntries_ok (slot_entries s) ∧
  ∃ e, slot_entries s !! slot_index s = Some e ∧ unused e = true ∧ direntry_ok e.
Proof.
  intros Hwf Hl Hs. rewrite <-(first_slot_ext V V0) in Hs
    by (intros x; apply (located_entries _ _ _ _ _ _ _ Hl)).
  apply first_slot_Some in Hs as (Hin & Hes & e & He & Hu). split; [done|].
  destruct (wf_dir_ref Hwf _ _ _ (loc_inode _ _ _ _ _ _ Hl) Ht Hin) as [es Hb].
  unfold dir_entries in Hes. rewrite Hb in Hes. subst es.
  pose proof (wf_node _ _ Hwf _ _ Hb) as [Hlen Hok]. split; [done|]. split; [done|].
  exists e. split; [done|]. split; [done|]. by eapply Forall_lookup_1.
Qed.

Lemma taken_free b taken w :
  world_ok (writer p taken) w ∨ world_ok (upgrader p taken) w → b ∈ taken →
  is_u32 b ∧ w_store w !! b = None.
Proof.
  intros Hok Hb. assert (∃ rest, fs_wf (w_store w) (w_free w ++ (taken ++ []) ++ rest)) as [rest Hwf]
    by by destruct Hok as [[_ [rest Hwf]]|[_ [rest Hwf]]]; exists rest.
  destruct (wf_free _ _ Hwf b) as [Hr Hn]; [set_solver|]. split; [|done]. unfold is_u32, FS_DISKSIZE in *. lia.
Qed.

(** The new entry goes into a free slot. *)
Lemma create_slot_effect nb s w :
  here (w_store w) → first_slot V0 (inode_refs i) = Some s → world_ok (upgrader p [nb]) w →
  pending
    (updated ← set_direntry (slot_entries s) (slot_index s) nb name;
     new_inode ← make_inode stack cmd;
     _ ← write_inode nb new_inode;
     _ ← inode_lock UpgradeToWrite p;
     _ ← write_direntries (slot_block s) updated;
     inode_lock UnlockWrite p) (upgrader p [nb]) w.
Proof.
  intros Hl Hs Hok. destruct (taken_free nb [nb] w) as [Hnb _]; [by right|by left|].
  destruct (world_wf _ _ Hok) as [fl Hwf].
  destruct (slot_in_store _ _ _ Hwf Hl Hs) as (_ & Hsb & [Hlen Hes] & e & He & _ & Heok).
  pose proof (wf_range _ _ Hwf _ _ Hsb) as Hsr.
  destruct (new_entry_ok e nb name Heok Hname Hnb) as (Hnok & Hncs & _).
  destruct (ni_ok Hcmd Hstack Htype) as [Hni Hrefs]. set (e' := new_entry e nb name) in *.
  assert (direntries_ok (<[slot_index s := e']> (slot_entries s))) as Hup
    by (split; [unfold len; by rewrite length_insert|by apply Forall_insert]).
  rewrite (set_direntry_ok _ _ _ _ _ He), ret_bind, (make_inode_run Hcmd Hstack Htype), ret_bind by done.
  apply pending_prepare; [apply upgrader_quiet|by left|by apply length_encode_inode, Hni|].
  intros w1 w2 Hw1 Hst _ Hb _. apply (upgrader_located _ _ _ _ _ _ _ _ _ Hw1 eq_refl) in Hl.
  rewrite <-Hst in Hl. eapply pending_to_writer; [exact Hl|]. intros w3 Hw3.
  apply (upgrader_located _ _ _ _ _ _ _ _ _ Hw3 eq_refl) in Hl.
  rewrite <-(rl_taken _ _ _ Hw3 nb ltac:(by left)) in Hb.
  apply pending_commit; [apply writer_quiet|by apply length_encode_direntries|done|].
  intros w4 d Hw4 Hok4 Hd. apply (writer_located _ _ _ _ _ _ _ _ Hw4) in Hl.
  rewrite <-(rl_taken _ _ _ Hw4 nb ltac:(by left)) in Hb. clear fl Hwf. pose proof Hok4 as [Hm [rest Hwf]].
  apply (fs_wf_free_perm _ _ (nb :: w_free w4 ++ rest)) in Hwf; [|simpl; by rewrite <-Permutation_middle].
  destruct (slot_in_store _ _ _ Hwf Hl Hs) as (Hin & Hdir & _ & e0 & He0 & Hu & _). simplify_eq.
  pose proof (loc_inode _ _ _ _ _ _ Hl) as Hp.
  assert (lookup_name name (listing (w_store w4) i) = None) as Hfree by by rewrite (located_listing _ _ _ _ _ _ Hl).
  exists (inr []), (node_create (w_store w4) nb ni (slot_block s) (slot_entries s) (slot_index s) e'), (writer p []).
  split_and!.
  - exists p, i, None. split_and!; [by left|done|by right| |done|done| |done].
    + eapply (changes_create Hwf p i nb ni name); done.
    + intros rest' Hrest. eapply fs_wf_node_create; [|done..|].
      * eapply fs_wf_free_perm; [exact Hrest|]. simpl. by rewrite <-Permutation_middle.
      * rewrite Hncs. by apply lookup_name_None.
  - unfold node_create, set_entry. eapply models_written; [eapply models_prepared; [done|done|]|done| |].
    + by apply decode_encode_inode, Hni.
    + by apply length_encode_direntries.
    + by apply decode_encode_direntries.
  - unfold create_effect, answered, available. rewrite create_spec_at by done. simpl. by rewrite Hs, He.
  - apply settled_unlock_write.
Qed.

(** There is none, and the directory gets a new block. *)
Abbreviation grown nb := (<[0%nat := new_entry zero_direntry nb name]> zero_direntries).

Lemma grown_ok nb :
  is_u32 nb →
  direntries_ok (grown nb) ∧ direntry_ok (new_entry zero_direntry nb name) ∧
  c_str (de_name (new_entry zero_direntry nb name)) = Some name ∧
  set_direntry zero_direntries 0 nb name = Ret (grown nb).
Proof.
  intros Hnb. assert (direntry_ok zero_direntry) as Hz0 by done.
  destruct (new_entry_ok zero_direntry nb name Hz0 Hname Hnb) as (Hok & Hcs0 & _).
  split_and!; [|done|done|by apply set_direntry_ok].
  split; [unfold len; by rewrite length_insert|]. apply Forall_insert; [apply zero_direntries_ok|done].
Qed.

(** The write of the inode is the effect. *)
Lemma create_grow_commits nb b w :
  here (w_store w) → is_u32 nb → 0 ≤ ino_size i < FS_MAXFILEBLOCKS → world_ok (writer p [nb; b]) w →
  commits p (node_create_grow (w_store w) nb ni p i b (new_entry zero_direntry nb name)) (writer p [])
    (writer p [nb; b]) w.
Proof.
  intros Hl Hnb Hsz [_ [rest Hwf]]. destruct (grown_ok nb Hnb) as (_ & Hnok & Hncs & _).
  destruct (ni_ok Hcmd Hstack Htype) as [Hni Hrefs].
  assert (∀ l, w_free w ++ o_blocks (writer p [nb; b]) ++ l ≡ₚ nb :: b :: w_free w ++ l) as Hperm.
  { intros l. simpl. by rewrite <-!Permutation_middle. }
  apply (fs_wf_free_perm _ _ _ Hwf) in Hperm as Hwf'. pose proof (loc_inode _ _ _ _ _ _ Hl) as Hp.
  assert (lookup_name name (listing (w_store w) i) = None) as Hfree by by rewrite (located_listing _ _ _ _ _ _ Hl).
  exists p, i, None. split_and!; [by left|done|by left| |done|done| |done].
  - eapply (changes_create_grow Hwf' p i nb b ni name); (done || lia).
  - intros rest' Hrest. eapply fs_wf_node_create_grow; [|done..| | | |]; try (done || lia).
    + by eapply fs_wf_free_perm.
    + rewrite Hncs. by apply lookup_name_None.
Qed.

(** The two new blocks are written, then the inode of the directory. *)
Lemma create_grow_write nb b w :
  here (w_store w) → first_slot V0 (inode_refs i) = None → is_u32 nb →
  0 ≤ ino_size i < FS_MAXFILEBLOCKS → inode_ok i → 0 ≤ p < FS_DISKSIZE →
  pending
    (_ ← write_inode nb ni;
     _ ← write_direntries b (grown nb);
     _ ← inode_lock UpgradeToWrite p;
     _ ← write_inode p (inode_push i b);
     inode_lock UnlockWrite p) (upgrader p [nb; b]) w.
Proof.
  intros Hl Hs Hnb Hsz Hiok Hpr. destruct (grown_ok nb Hnb) as (Hup & Hnok & Hncs & _).
  destruct (ni_ok Hcmd Hstack Htype) as [Hni Hrefs]. set (e' := new_entry zero_direntry nb name) in *.
  apply pending_prepare; [apply upgrader_quiet|by left|by apply length_encode_inode, Hni|].
  intros w1 w2 Hw1 Hst _ Hb1 _. apply (upgrader_located _ _ _ _ _ _ _ _ _ Hw1 eq_refl) in Hl.
  rewrite <-Hst in Hl. clear w w1 Hw1 Hst.
  apply pending_now. intros w3 Hw3 Hok3. apply (upgrader_located _ _ _ _ _ _ _ _ _ Hw3 eq_refl) in Hl.
  rewrite <-(rl_taken _ _ _ Hw3 nb ltac:(by left)) in Hb1.
  destruct (taken_free b [nb; b] w3) as [Hbu _]; [by right|by right; left|].
  assert (nb ≠ b) as Hne.
  { destruct Hok3 as [_ [rest Hwf]]. pose proof (wf_free_nodup _ _ Hwf) as Hnd. intros ->. simpl in Hnd.
    apply NoDup_app in Hnd as (_ & _ & [Hn _]%NoDup_cons). apply Hn. by left. }
  apply pending_prepare; [apply upgrader_quiet|by right; left|by apply length_encode_direntries|].
  intros w4 w5 Hw4 Hst _ Hb2 Hother. apply (upgrader_located _ _ _ _ _ _ _ _ _ Hw4 eq_refl) in Hl.
  rewrite <-Hst in Hl. rewrite <-(rl_taken _ _ _ Hw4 nb ltac:(by left)), <-Hother in Hb1 by done.
  eapply pending_to_writer; [exact Hl|]. intros w6 Hw6. apply (upgrader_located _ _ _ _ _ _ _ _ _ Hw6 eq_refl) in Hl.
  rewrite <-(rl_taken _ _ _ Hw6 nb ltac:(by left)) in Hb1.
  rewrite <-(rl_taken _ _ _ Hw6 b ltac:(by right; left)) in Hb2.
  assert (inode_ok (inode_push i b)) as Hpush by (apply inode_push_ok; (done || lia)).
  apply pending_commit; [apply writer_quiet|by apply length_encode_inode|done|].
  intros w7 d Hw7 Hok7 Hd. apply (writer_located _ _ _ _ _ _ _ _ Hw7) in Hl.
  rewrite <-(rl_taken _ _ _ Hw7 nb ltac:(by left)) in Hb1.
  rewrite <-(rl_taken _ _ _ Hw7 b ltac:(by right; left)) in Hb2.
  exists (inr []), (node_create_grow (w_store w7) nb ni p i b e'), (writer p []). split_and!.
  - apply create_grow_commits; done || lia.
  - unfold node_create_grow. pose proof (world_models _ _ Hok7) as Hm.
    eapply models_written; [eapply models_prepared; [eapply models_prepared; [done|exact Hb1|]|exact Hb2|]|done| |].
    + by apply decode_encode_inode, Hni.
    + by apply decode_encode_direntries.
    + by apply length_encode_inode.
    + by apply decode_encode_inode.
  - unfold create_effect, answered, available. rewrite create_spec_at by done. simpl.
    by rewrite Hs, (proj2 (Z.eqb_neq _ _)) by lia.
  - apply settled_unlock_write.
Qed.

Lemma create_grow_effect nb w :
  here (w_store w) → first_slot V0 (inode_refs i) = None → world_ok (upgrader p [nb]) w →
  pending
    (updated ← set_direntry zero_direntries 0 nb name;
     new_inode ← make_inode stack cmd;
     '(new_direntry_block, parent_inode) ← grow_directory p i;
     _ ← write_inode nb new_inode;
     let parent_inode := inode_set_size parent_inode (ino_size parent_inode + 1) in
     _ ← write_direntries new_direntry_block updated;
     _ ← inode_lock UpgradeToWrite p;
     _ ← write_inode p parent_inode;
     inode_lock UnlockWrite p) (upgrader p [nb]) w.
Proof.
  intros Hl Hs Hok. destruct (taken_free nb [nb] w) as [Hnb _]; [by right|by left|].
  destruct (world_wf _ _ Hok) as [fl Hwf]. pose proof (wf_size Hwf p i (loc_inode _ _ _ _ _ _ Hl)) as Hsz.
  pose proof (wf_range _ _ Hwf _ _ (loc_inode _ _ _ _ _ _ Hl)) as Hpr.
  destruct (wf_inode Hwf _ _ (loc_inode _ _ _ _ _ _ Hl)) as (Hiok & _).
  destruct (grown_ok nb Hnb) as (_ & _ & _ & ->).
  rewrite ret_bind, (make_inode_run Hcmd Hstack Htype), ret_bind.
  apply (pending_grow_directory _ _ _ V0 user cs); [done|done| |done|].
  { intros V fl' HV Hfull. eapply answered_failed_free. rewrite create_spec_at by done. rewrite Hs.
    destruct fl' as [|b fl']; [done|]. destruct Hfull as [|Hf]; [done|]. by rewrite (proj2 (Z.eqb_eq _ _) Hf). }
  clear w fl Hl Hok Hwf. intros w b Hl Hlt. cbn iota beta zeta.
  change (ino_size (inode_with i (ino_size i) _)) with (ino_size i). rewrite inode_set_size_push by lia.
  apply create_grow_write; done || lia.
Qed.

End create.

Lemma handle_create_effect stack w :
  inode_ok stack → cmd_type cmd = type_file ∨ cmd_type cmd = type_dir →
  pending (create_effect (stack := stack)) (λ _ _ _, False) ends (handle_create stack cmd) idle w.
Proof.
  intros Hstack Htype. unfold handle_create. rewrite Hpath, get_parent_dir_path, get_target_path, !ret_bind by done.
  apply pending_open_parent; [|done|].
  { intros V fl e He. apply answered_failed. unfold create_spec. by rewrite He. }
  clear w. intros w p i Hl Hok Ht Hall. set (V0 := w_store w) in Hl at 1. pose proof Hok as [Hm [rest Hwf]].
  pose proof (loc_inode _ _ _ _ _ _ Hl) as Hp.
  eapply pending_locked_reads; [apply upgrader_quiet|done|by left|exact Hp| |].
  { apply reads_bind, (reads_create_scan Hm Hwf Hp p name (Z.to_nat (ino_size i)) 0); [done|done|lia]. }
  rewrite drop_0. fold (listing (w_store w) i). fold V0.
  destruct (lookup_name name (listing V0 i)) as [c|] eqn:Hnone.
  { apply (pending_fails V0 user _ p i cs _ _ _ Hl). intros V fl HV. unfold create_spec.
    rewrite (parent_spec_at _ _ _ _ HV), Hall. unfold create_in.
    by rewrite (located_listing _ _ _ _ _ _ HV), Hnone. }
  rewrite ret_bind.
  apply (pending_pop_free _ _ _ V0 user cs p i); [done| |done|].
  { intros V HV. eapply answered_failed_free. by rewrite (create_spec_at Hall Hnone (p := p)). }
  clear Hm Hok Hwf rest. intros w1 nb Hl1. apply pending_now. intros w2 Hw2 Hok2.
  apply (upgrader_located _ _ _ _ _ _ _ _ _ Hw2 eq_refl) in Hl1.
  destruct (first_slot V0 (inode_refs i)) as [s|] eqn:Hs.
  - by apply (create_slot_effect Hstack Htype Hall Ht Hnone nb s).
  - by apply (create_grow_effect Hstack Htype Hall Ht Hnone nb).
Qed.

(** ** Giving blocks back *)

Lemma settled_push_free {A} (Q : outcome A → own → world D → Prop) (f : unit → prog A) r w o x loose :
  tl_free (o_locks r) = false → (o, Exclusive) ∈ o_held r → o_loose r ≡ₚ (o, x) :: loose →
  (∀ w', settled Q (f ()) (Own (o_locks r) (o_taken r) loose) w') →
  settled Q (push_free x ≫= f) r w.
Proof.
  intros Hf Ho Hx Hk w1 _ w2 _ w3 Hw3. exists o, x, loose. rewrite (rs_free _ _ _ Hw3 eq_refl).
  split_and!; [done..|]. intros w4 _. destruct r as [[h m] tk ls]. simpl in *. subst m. apply Hk.
Qed.

Lemma settled_free_blocks {A} (Q : outcome A → own → world D → Prop) (f : unit → prog A) ci n k r w o loose :
  length (inode_refs ci) = Z.to_nat (ino_size ci) → (n + k = Z.to_nat (ino_size ci))%nat →
  tl_free (o_locks r) = false → (o, Exclusive) ∈ o_held r →
  o_loose r ≡ₚ ((o,.) <$> drop k (inode_refs ci)) ++ loose →
  (∀ w' loose', loose' ≡ₚ loose → settled Q (f ()) (Own (o_locks r) (o_taken r) loose') w') →
  settled Q (free_file_blocks ci n (Z.of_nat k) ≫= f) r w.
Proof.
  intros Hlen Hn Hf Ho. revert k r w Hn Hf Ho; induction n as [|n IH]; intros k r w Hn Hf Ho Hx Hk.
  - rewrite drop_ge in Hx by lia. destruct r as [tl tk ls]. by apply Hk.
  - destruct (lookup_lt_is_Some_2 (inode_refs ci) k ltac:(lia)) as [b Hb].
    cbn [free_file_blocks]. rewrite (inode_block_at_ref _ _ _ Hb), ret_bind.
    rewrite (drop_S _ _ _ Hb) in Hx. apply settled_assoc.
    apply (settled_push_free _ _ _ _ o b (((o,.) <$> drop (S k) (inode_refs ci)) ++ loose)); [done..|]. intros w'.
    replace (Z.of_nat k + 1) with (Z.of_nat (S k)) by lia. apply IH; (lia || done).
Qed.

(** ** Deleting *)

Section delete.

Definition delete_effect : store → list Z → string + bytes → store → Prop :=
  answered (λ V fl, delete_spec V fl user cs name).

Abbreviation pending := (pending delete_effect (λ _ _ _, False) ends).

Context {V0 : store} {p : Z} {i : fs_inode} {q : entry_pos}.
Hypotheses (Hall : parent_allows i = true) (Ht : ino_type i = type_dir)
  (Hq : find_entry V0 name (inode_refs i) 0 = Some q).
Abbreviation here := (located V0 user cs p i).
Abbreviation c := (pos_child q).

Lemma delete_spec_at V fl : here V → delete_spec V fl user cs name = delete_in V fl user p i q.
Proof.
  intros Hl. unfold delete_spec. rewrite (parent_spec_at _ _ _ _ Hl), Hall.
  rewrite (find_entry_ext V V0) by (intros x; apply (located_entries _ _ _ _ _ _ _ Hl)). by rewrite Hq.
Qed.

(** The entry, and the child that it names. *)
Record entry_found V (k : nat) (b : Z) (e : fs_direntry) (ci : fs_inode) : Prop := {
  ef_index : pos_block q = Z.of_nat k;
  ef_ref : inode_refs i !! k = Some b;
  ef_block : V !! b = Some (NDir (pos_entries q));
  ef_entry : pos_entries q !! pos_entry q = Some e;
  ef_used : unused e = false;
  ef_name : c_str (de_name e) = Some name;
  ef_child : de_inode_block e = c;
  ef_child_of : child_of V p name c;
  ef_inode : V !! c = Some (NInode ci);
  ef_other : c ≠ p;
}.

Lemma entry_in_store V fl : fs_wf V fl → here V → ∃ k b e ci, entry_found V k b e ci.
Proof.
  intros Hwf Hl. pose proof Hq as Hf.
  rewrite <-(find_entry_ext V V0) in Hf by (intros x; apply (located_entries _ _ _ _ _ _ _ Hl)).
  pose proof (loc_inode _ _ _ _ _ _ Hl) as Hp.
  assert (child_of V p name c) as Hchild.
  { exists i. split_and!; [done..|]. unfold listing. by rewrite (find_entry_lookup _ _ _ 0), Hf. }
  destruct (find_entry_Some _ _ _ _ _ (Z.le_refl 0) Hf) as (k & b & e & Hk & Hb & Hes & He & Hu & Hc & Hn).
  destruct (wf_dir_ref Hwf _ _ _ Hp Ht ltac:(by eapply list_elem_of_lookup_2)) as [es Hdir].
  destruct (child_of_inode Hwf _ _ _ Hchild) as [_ [ci Hci]].
  exists k, b, e, ci. split; try done.
  - rewrite Hdir. do 2 f_equal. rewrite Hes. unfold dir_entries. by rewrite Hdir.
  - intros Heq. rewrite Heq in Hchild. by eapply (walk_spec_acyclic Hwf), Hchild; apply Hl.
Qed.

Lemma entry_found_same V V' k b e ci k' b' e' ci' :
  entry_found V k b e ci → entry_found V' k' b' e' ci' → k' = k ∧ b' = b ∧ e' = e.
Proof.
  intros [H1 H2 _ H3 _ _ _ _ _ _] [H1' H2' _ H3' _ _ _ _ _ _]. assert (k' = k) as -> by lia. split; [done|].
  split; congruence.
Qed.

(** The thread has locked the child, too. *)
Definition deleter (m : lock_mode) (loose : list (Z * Z)) : own :=
  Own (TL [(c, m); (p, Exclusive)] false) [] loose.

Lemma deleter_quiet : quiet (deleter Upgrade []).
Proof. intros x. unfold o_held. simpl. rewrite !elem_of_cons, elem_of_nil. naive_solver. Qed.

Lemma deleter_located w1 w2 :
  rely (deleter Upgrade []) w1 w2 → here (w_store w1) → here (w_store w2).
Proof. apply (located_rely _ _ _ _ _ Exclusive). by right; left. Qed.

(** The child may not be deleted. *)
Lemma pending_check_fails {A} e ci w (k : A → prog unit) :
  here (w_store w) → w_store w !! c = Some (NInode ci) →
  (∀ V fl, here V → V !! c = Some (NInode ci) → delete_spec V fl user cs name = failed V fl e) →
  pending ((_ ← inode_lock UnlockWrite p; _ ← inode_lock UnlockUpgrade c; Throw e) ≫= k) (deleter Upgrade []) w.
Proof.
  intros Hl Hci Hf. apply pending_effect. intros w' Hw _. exists (inl e). split.
  - apply answered_failed, Hf; [by eapply deleter_located|].
    apply (rl_inode _ _ _ Hw c Upgrade); [by left|done].
  - eapply (settled_lock _ UnlockWrite p (λ _, InodeLock UnlockUpgrade c (Throw e))); [done|apply hold_drop_second|].
    eapply (settled_lock _ UnlockUpgrade c (λ _, Throw e)); [done|apply hold_drop_head|]. by intros w2 _.
Qed.

(** The child and its blocks go back to the queue. *)
Lemma delete_settled ci loose w :
  length (inode_refs ci) = Z.to_nat (ino_size ci) → c ≠ p → loose ≡ₚ (c,.) <$> child_blocks c ci →
  settled (ends (inr []))
    (_ ← inode_lock UpgradeToWrite c;
     _ ← inode_lock UnlockWrite p;
     _ ← push_free c;
     _ ← (if is_type ci type_file then free_file_blocks ci (Z.to_nat (ino_size ci)) 0 else Ret ());
     inode_lock UnlockWrite c) (deleter Upgrade loose) w.
Proof.
  intros Hlen Hne Hx. eapply settled_lock; [|apply hold_write; set_solver|].
  { simpl. rewrite Hx. by left. }
  eapply settled_lock; [done|apply hold_drop_second|]. unfold child_blocks in Hx. simpl in Hx.
  eapply (settled_push_free _ _ _ _ c); [done|by left|done|]. intros w1.
  assert (∀ ls w', settled (ends (inr [])) (inode_lock UnlockWrite c) (Own (TL [(c, Exclusive)] false) [] ls) w') as Hend.
  { intros ls w'. eapply settled_last_lock; [done|apply hold_drop_head|]. by intros w2 _. }
  destruct (is_type ci type_file).
  - eapply (settled_free_blocks _ _ ci _ 0 _ _ c []); [done|lia|done|by left|by rewrite app_nil_r|].
    intros w2 ls _. apply Hend.
  - apply Hend.
Qed.

(** The blocks that are cut off, each with the inode it belonged to. *)
Definition cut_off (b : Z) (ci : fs_inode) : list (Z * Z) :=
  (if is_block_empty (<[pos_entry q := zero_direntry]> (pos_entries q)) then [(p, b)] else []) ++
  ((c,.) <$> child_blocks c ci).

Definition without_entry (V : store) (k : nat) (b : Z) (ci : fs_inode) : store :=
  node_delete V p i k b (pos_entries q) (pos_entry q) c ci.

Lemma cut_off_blocks b ci : snd <$> cut_off b ci = freed_blocks b (pos_entries q) (pos_entry q) c ci.
Proof.
  unfold cut_off, freed_blocks. rewrite fmap_app, <-list_fmap_compose. f_equal; [by case_match|].
  by rewrite list_fmap_id.
Qed.

Lemma child_empty V fl k b e ci :
  fs_wf V fl → entry_found V k b e ci → is_type ci type_dir && negb (ino_size ci =? 0) = false →
  childless V c ∧ child_blocks c ci = c :: inode_refs ci.
Proof.
  intros Hwf [_ _ _ _ _ _ _ _ Hci _] Hempty.
  assert (ino_type ci = type_dir → inode_refs ci = []) as Hdir.
  { intros Hd. rewrite (proj2 (is_type_true _ _) Hd) in Hempty. apply negb_false_iff, Z.eqb_eq in Hempty.
    unfold inode_refs. by rewrite Hempty. }
  split.
  - intros name' c' (i' & Hi' & Hd & Hn). simplify_eq. unfold listing in Hn. by rewrite Hdir in Hn.
  - unfold child_blocks. destruct (wf_inode Hwf _ _ Hci) as (_ & _ & [Hf|Hd] & _).
    + by rewrite (proj2 (is_type_true _ _) Hf).
    + rewrite Hdir by done. by destruct (is_type ci type_file).
Qed.

Lemma delete_commits w k b e ci x :
  here (w_store w) → world_ok (deleter Upgrade []) w → entry_found (w_store w) k b e ci →
  is_type ci type_dir && negb (ino_size ci =? 0) = false → x = p ∨ x = b →
  commits x (without_entry (w_store w) k b ci) (deleter Upgrade (cut_off b ci)) (deleter Upgrade []) w.
Proof.
  intros Hl Hok Hef Hempty Hx. destruct Hok as [_ [rest Hwf]].
  destruct (child_empty _ _ _ _ _ _ Hwf Hef Hempty) as [Hless Hblocks].
  pose proof (loc_inode _ _ _ _ _ _ Hl) as Hp. destruct Hef as [Hk Hb Hdir He Hu Hn Hec Hchild Hci Hcp].
  exists p, i, (Some c). unfold without_entry. split_and!; [by right; left|done| | |done|apply list_subseteq_nil| |].
  - destruct Hx as [->| ->]; [by left|right]. by eapply list_elem_of_lookup_2.
  - rewrite <-Hec in *. by eapply (changes_delete Hwf).
  - intros rest' Hrest. unfold o_blocks. simpl. rewrite cut_off_blocks.
    rewrite <-Hec in *. eapply fs_wf_free_perm; [by eapply (fs_wf_node_delete Hrest)|]. simpl. solve_Permutation.
  - exists name, ci. split_and!; [done..|by left|done|]. intros y Hy. unfold cut_off. apply elem_of_app. right.
    apply list_elem_of_fmap. exists y. split; [done|]. by rewrite Hblocks.
Qed.

Lemma delete_answered V fl k b e ci :
  here V → entry_found V k b e ci → owned_by user ci = true →
  is_type ci type_dir && negb (ino_size ci =? 0) = false →
  delete_effect V fl (inr []) (without_entry V k b ci).
Proof.
  intros Hl [Hk Hb _ _ _ _ _ _ Hci _] Ho Hempty. unfold delete_effect, answered.
  rewrite delete_spec_at by done. unfold delete_in, inode_at. by rewrite Hci, Hk, Nat2Z.id, Hb, Ho, Hempty.
Qed.

Lemma models_forget (d : D) V bs : models d V → models d (remove_blocks bs V).
Proof. intros Hm x n Hx. rewrite lookup_remove_blocks in Hx. case_decide; [done|]. by apply Hm. Qed.

Lemma entry_stays w w' k b e ci :
  here (w_store w) → entry_found (w_store w) k b e ci →
  rely (deleter Upgrade []) w w' → world_ok (deleter Upgrade []) w' →
  here (w_store w') ∧ entry_found (w_store w') k b e ci.
Proof.
  intros Hl Hef Hw Hok. pose proof (deleter_located _ _ Hw Hl) as Hl'. split; [done|].
  destruct (world_wf _ _ Hok) as [fl Hwf]. destruct (entry_in_store _ _ Hwf Hl') as (k' & b' & e' & ci' & Hef').
  destruct (entry_found_same _ _ _ _ _ _ _ _ _ _ Hef Hef') as (-> & -> & ->).
  destruct (rl_inode _ _ _ Hw c Upgrade ci) as [Hci _]; [by left|apply Hef|].
  pose proof (ef_inode _ _ _ _ _ Hef'). by assert (ci' = ci) as -> by congruence.
Qed.

(** The write of the directory takes the entry, its block if that is empty
    now, and the child out of the file system. *)
Lemma pending_remove x v n k b e ci (f : unit → prog unit) w :
  here (w_store w) → entry_found (w_store w) k b e ci →
  owned_by user ci = true → is_type ci type_dir && negb (ino_size ci =? 0) = false →
  x = p ∨ x = b → 0 ≤ x < FS_DISKSIZE → len v = FS_BLOCKSIZE → holds_node v n →
  (∀ V, ∃ bs, without_entry V k b ci = remove_blocks bs (<[x := n]> V)) →
  (∀ w', settled (ends (inr [])) (f ()) (deleter Upgrade (cut_off b ci)) w') →
  pending (disk_write x v ≫= f) (deleter Upgrade []) w.
Proof.
  intros Hl Hef Ho Hempty Hx Hr Hv Hn Heq Hset. apply pending_commit; [apply deleter_quiet|done|done|].
  intros w' d Hw Hok Hd. destruct (entry_stays _ _ _ _ _ _ Hl Hef Hw Hok) as [Hl' Hef'].
  exists (inr []), (without_entry (w_store w') k b ci), (deleter Upgrade (cut_off b ci)). split_and!.
  - by eapply delete_commits.
  - destruct (Heq (w_store w')) as [bs ->]. apply models_forget.
    eapply models_written; [apply (world_models _ _ Hok)|done..].
  - by eapply delete_answered.
  - apply Hset.
Qed.

Lemma remove_blocks_app bs bs' V : remove_blocks bs' (remove_blocks bs V) = remove_blocks (bs ++ bs') V.
Proof. unfold remove_blocks. by rewrite foldl_app. Qed.

Lemma remove_effect ci w :
  here (w_store w) → w_store w !! c = Some (NInode ci) → world_ok (deleter Upgrade []) w →
  owned_by user ci = true → is_type ci type_dir && negb (ino_size ci =? 0) = false →
  pending
    (_ ← remove_entry p i q;
     _ ← inode_lock UpgradeToWrite c;
     _ ← inode_lock UnlockWrite p;
     _ ← push_free c;
     _ ← (if is_type ci type_file then free_file_blocks ci (Z.to_nat (ino_size ci)) 0 else Ret ());
     inode_lock UnlockWrite c) (deleter Upgrade []) w.
Proof.
  intros Hl Hci Hok Ho Hempty. destruct (world_wf _ _ Hok) as [fl Hwf].
  destruct (entry_in_store _ _ Hwf Hl) as (k & b & e & ci' & Hef).
  pose proof Hef as [Hk Hb Hdir He _ _ _ _ Hci' Hcp]. assert (ci' = ci) as -> by congruence. clear Hci'.
  pose proof (wf_refs_length Hwf _ _ Hci) as Hclen.
  destruct (wf_inode Hwf _ _ (loc_inode _ _ _ _ _ _ Hl)) as (Hiok & Hle & _).
  assert (∀ ls w', ls ≡ₚ (c,.) <$> child_blocks c ci → settled (ends (inr []))
    (_ ← inode_lock UpgradeToWrite c; _ ← inode_lock UnlockWrite p; _ ← push_free c;
     _ ← (if is_type ci type_file then free_file_blocks ci (Z.to_nat (ino_size ci)) 0 else Ret ());
     inode_lock UnlockWrite c) (deleter Upgrade ls) w') as Hset by (intros; by apply delete_settled).
  unfold remove_entry. rewrite Hk, (inode_block_at_ref _ _ _ Hb), !ret_bind.
  destruct (is_block_empty _) eqn:Hemp; [apply pending_assoc|].
  - pose proof (lookup_lt_Some _ _ _ Hb) as Hlt. rewrite (wf_refs_length Hwf _ _ (loc_inode _ _ _ _ _ _ Hl)) in Hlt.
    destruct (shift_blocks_drop i k Hiok Hle Hlt) as (i' & -> & Hi'). rewrite ret_bind, Hi'.
    destruct (inode_drop_ok i k Hiok Hle Hlt) as [Hdok _].
    apply pending_assoc. apply (pending_remove p _ (NInode (inode_drop i k)) k b e ci); [done..|by left|by eapply wf_range, Hl| | | |].
    + by apply length_encode_inode.
    + by apply decode_encode_inode.
    + intros V. eexists. unfold without_entry, node_delete, node_unlink. by rewrite Hemp, remove_blocks_app.
    + intros w'. apply (settled_push_free _ _ _ _ p b ((c,.) <$> child_blocks c ci)); [done|by right; left| |].
      * unfold cut_off. by rewrite Hemp.
      * intros w2. by apply Hset.
  - pose proof (wf_node _ _ Hwf _ _ Hdir) as [Hlen Hes].
    assert (direntries_ok (<[pos_entry q := zero_direntry]> (pos_entries q))) as Hup
      by (split; [unfold len; by rewrite length_insert|by apply Forall_insert]).
    apply (pending_remove b _ (NDir (<[pos_entry q := zero_direntry]> (pos_entries q))) k b e ci); [done..|by right|by eapply wf_range| | | |].
    + by apply length_encode_direntries.
    + by apply decode_encode_direntries.
    + intros V. eexists. unfold without_entry, node_delete, node_unlink. by rewrite Hemp.
    + intros w'. apply Hset. unfold cut_off. by rewrite Hemp.
Qed.

(** From the entry on. *)
Lemma delete_in_effect w :
  here (w_store w) →
  pending
    (_ ← inode_lock UpgradeToWrite p;
     _ ← inode_lock LockUpgrade c;
     child_inode ← read_inode c;
     _ ← check_child cmd p c child_inode;
     _ ← remove_entry p i q;
     _ ← inode_lock UpgradeToWrite c;
     _ ← inode_lock UnlockWrite p;
     _ ← push_free c;
     _ ← (if is_type child_inode type_file
          then free_file_blocks child_inode (Z.to_nat (ino_size child_inode)) 0
          else Ret ());
     inode_lock UnlockWrite c) (upgrader p []) w.
Proof.
  intros Hl. eapply pending_to_writer; [exact Hl|]. intros w1 Hw1.
  apply (upgrader_located _ _ _ _ _ _ _ _ _ Hw1 eq_refl) in Hl.
  apply pending_lock. intros w2 Hw2 Hok2. apply (writer_located _ _ _ _ _ _ _ _ Hw2) in Hl.
  destruct (world_wf _ _ Hok2) as [fl Hwf]. destruct (entry_in_store _ _ Hwf Hl) as (k & b & e & ci & Hef).
  split; [apply quiet_protected, writer_quiet|].
  split; [right; exists p, Exclusive, name; split_and!; [done|eexists _, _; apply Hl|apply Hef]|].
  exists [(c, Upgrade); (p, Exclusive)]. split.
  { apply hold_upgrade; simpl; rewrite list_elem_of_singleton; [|done]. intros [= Heq].
    by destruct (ef_other _ _ _ _ _ Hef). }
  change (with_locks _ _) with (deleter Upgrade []). apply pending_now. intros w3 Hw3 Hok3.
  destruct (entry_stays _ _ _ _ _ _ Hl Hef Hw3 Hok3) as [Hl3 Hef3]. clear fl Hwf.
  destruct (world_wf _ _ Hok3) as [fl Hwf]. pose proof (ef_inode _ _ _ _ _ Hef3) as Hci.
  eapply pending_locked_reads; [apply deleter_quiet|done|by left|exact Hci|apply (reads_inode (world_models _ _ Hok3) Hci)|].
  assert (∀ V fl', here V → V !! c = Some (NInode ci) → delete_spec V fl' user cs name =
    if negb (owned_by user ci) then failed V fl' "User is not owner of the target"
    else if is_type ci type_dir && negb (ino_size ci =? 0) then failed V fl' "Directory not empty"
    else FsResult (inr ()) (without_entry V k b ci)
           (fl' ++ freed_blocks b (pos_entries q) (pos_entry q) c ci) []) as Hspec.
  { intros V fl' HV HVc. rewrite delete_spec_at by done. unfold delete_in, inode_at.
    by rewrite HVc, (ef_index _ _ _ _ _ Hef3), Nat2Z.id, (ef_ref _ _ _ _ _ Hef3). }
  unfold check_child. rewrite (not_owner_spec Hwf _ c), ret_bind by done.
  destruct (owned_by user ci) eqn:Ho; simpl negb in *; cbv iota in *.
  2: { apply (pending_check_fails _ ci); [done..|]. intros V fl' HV HVc. by apply Hspec. }
  destruct (is_type ci type_dir && negb (ino_size ci =? 0)) eqn:Hempty.
  { apply (pending_check_fails _ ci); [done..|]. intros V fl' HV HVc. by apply Hspec. }
  rewrite ret_bind. by apply remove_effect.
Qed.

End delete.

Lemma handle_delete_effect w :
  pending delete_effect (λ _ _ _, False) ends (handle_delete cmd) idle w.
Proof.
  unfold handle_delete. rewrite (path_not_root Hpath Hcs Hname).
  rewrite Hpath, get_parent_dir_path, get_target_path, !ret_bind by done.
  apply pending_open_parent; [|done|].
  { intros V fl e He. apply answered_failed. unfold delete_spec. by rewrite He. }
  clear w. intros w p i Hl Hok Ht Hall. set (V0 := w_store w) in Hl at 1. pose proof Hok as [Hm [rest Hwf]].
  pose proof (loc_inode _ _ _ _ _ _ Hl) as Hp.
  eapply pending_locked_reads; [apply upgrader_quiet|done|by left|exact Hp| |].
  { apply reads_bind, (reads_delete_scan Hm Hwf Hp name (Z.to_nat (ino_size i)) 0); [done|done|lia]. }
  rewrite drop_0, ret_bind. fold V0. change (Z.of_nat 0) with 0.
  destruct (find_entry V0 name (inode_refs i) 0) as [q|] eqn:Hq.
  - by apply (delete_in_effect Hall Ht Hq).
  - apply (pending_fails V0 user _ p i cs _ _ Ret Hl). intros V fl HV. unfold delete_spec.
    rewrite (parent_spec_at _ _ _ _ HV), Hall.
    rewrite (find_entry_ext V V0) by (intros x; apply (located_entries _ _ _ _ _ _ _ HV)). by rewrite Hq.
Qed.

End effects.
