(* ===== verification/FsPool.v ===== *)
(** * The threads of requests and an atomic file system

    [FsConcurrent] interleaves the threads of requests access by access.  The
    atomic file system ([atomic_fs]) holds a store and serves a request in one
    step ([takes_effect]).  The invariant [pool_inv] relates the two: every
    thread has a [ghost], what it owns and the answer it gives once it has
    taken effect, and its program is [pending] before that moment and [settled]
    behind it ([FsRely]).  What follows are the steps of one thread: what they
    leave alone keeps all others pending or settled. *)
From S2P Require Import Prelude Layout Locks Prog FileSystem FsModel FsStore FsPaths FsRun FsSpec.
From S2P Require Import FsInvariant FsTree FsCorrect FsConcurrent FsChanges FsRely FsSteps FsEffects FsDirEffects.
Import FileSystem LockTable.

Local Open Scope Z_scope.

(** ** The atomic file system *)

(** A request, and its answer when it has one. *)
Record atomic_fs := AtomicFs {
  at_store : store;
  at_requests : list (Command * option (outcome bytes));
}.

(** What the request [command] may answer on a store with free blocks [fl], and
    the store it leaves: the relations of the requests served alone. *)
Definition effect (command : Command) (V : store) (fl : list Z) (o : outcome bytes) (V' : store) : Prop :=
  match command_type command with
  | INVALID => o = Done [] ∧ V' = V
  | ty =>
      ∃ cs name, pathname command = path_of (cs ++ [name]) ∧ Forall good_name (cs ++ [name]) ∧
      match ty with
      | FS_READBLOCK =>
          o = of_sum (tree_read (tree V) (username command) (cs ++ [name]) (cmd_block command)) ∧ V' = V
      | _ =>
          ∃ x : string + unit, o = of_sum (sum_bind x (λ _, inr [])) ∧
          match ty with
          | FS_WRITEBLOCK =>
              write_answer V fl (username command) (cs ++ [name]) (cmd_block command) (cmd_data command) (of_sum x) V'
          | FS_CREATE => create_answer V fl (username command) cs name (cmd_type command) (of_sum x) V'
          | _ => delete_answer V (username command) cs name (of_sum x) V'
          end
      end
  end.

(** A request that has no answer yet takes effect; the free blocks that it sees
    are those of the queue and the ones it took before. *)
Inductive takes_effect (queue : list Z) (a : atomic_fs) : atomic_fs → Prop :=
| takes_effect_at i command taken o V' :
    at_requests a !! i = Some (command, None) →
    effect command (at_store a) (taken ++ queue) o V' →
    takes_effect queue a (AtomicFs V' (<[i := (command, Some o)]> (at_requests a))).

(** A request comes in. *)
Definition arrives (e : event) (a : atomic_fs) : atomic_fs :=
  match e with
  | Arrives _ command => AtomicFs (at_store a) (at_requests a ++ [(command, None)])
  | Turn _ => a
  end.

(** How a thread has ended. *)
Definition result_of (th : thread) : option (outcome bytes) :=
  match th_prog th with
  | Ret a => Some (Done a)
  | Throw e => Some (Exn e)
  | Fail f => Some (Crash f)
  | _ => None
  end.

(** ** The requests *)

(** What [parse_message] and [run] guarantee of a request. *)
Record request_ok (stack : fs_inode) (command : Command) (cs : list bytes) (name : bytes) : Prop := {
  rq_command : cmd_ok command;
  rq_path : pathname command = path_of (cs ++ [name]);
  rq_names : Forall good_name (cs ++ [name]);
  rq_stack : inode_ok stack;
  rq_type : cmd_type command = type_file ∨ cmd_type command = type_dir ∨ command_type command ≠ FS_CREATE;
}.

Record request := Request {
  req_stack : fs_inode;
  req_command : Command;
  req_dirs : list bytes;
  req_name : bytes;
}.

Definition req_ok (q : request) : Prop :=
  request_ok (req_stack q) (req_command q) (req_dirs q) (req_name q).

(** Its effect on a store, told by [FsSpec]. *)
Definition spec_effect (q : request) : store → list Z → string + bytes → store → Prop :=
  let command := req_command q in
  match command_type command with
  | FS_READBLOCK => read_effect (cmd := command) (cs := req_dirs q) (name := req_name q)
  | FS_WRITEBLOCK => write_effect (cmd := command) (cs := req_dirs q) (name := req_name q)
  | FS_CREATE => create_effect (cmd := command) (cs := req_dirs q) (name := req_name q) (stack := req_stack q)
  | FS_DELETE => delete_effect (cmd := command) (cs := req_dirs q) (name := req_name q)
  | INVALID => λ V _ a V', V' = V ∧ a = inr []
  end.

(** A thread that ends, with the answer [a]. *)
Definition answers {D} (a : string + bytes) (o : outcome bytes) (_ : own) (_ : world D) : Prop := o = of_sum a.

(** A program of the request [q] that has not taken effect. *)
Abbreviation unsettled q := (pending (spec_effect q) (λ _ _ _, False) answers).

Section pool.
Context {D M : Type} `{DiskSpec D} `{BoostSharedMutexSpec M}.
Implicit Types (s : cstate D M) (w : world D) (th : thread).

Lemma pending_no_data {Sp} (p : prog unit) w :
  pending Sp (λ _ _ _, False) ends p idle w →
  pending Sp (λ _ _ _, False) answers ((λ _, []) <$> p) idle w.
Proof.
  intros Hp. apply pending_bind. eapply pending_mono; [exact Hp|done|].
  intros [e|v] o r' w'; [by intros ->|]. intros [-> ->] w2 _. done.
Qed.

Lemma request_pending q w :
  req_ok q → unsettled q (request_prog (req_stack q) (req_command q)) idle w.
Proof.
  intros [Hcmd Hpath [Hcs [Hname _]%Forall_cons]%Forall_app Hst Hty]. unfold request_prog, spec_effect.
  destruct (command_type (req_command q)) eqn:Hc.
  - by apply handle_read_effect.
  - by apply pending_no_data, handle_write_effect.
  - apply pending_no_data, handle_create_effect; try done. naive_solver.
  - by apply pending_no_data, handle_delete_effect.
  - intros w' _ _. left. exists (inr []). split; [done|]. by intros w2 _.
Qed.

(** The specified effect is the effect of the atomic file system. *)
Lemma spec_effect_atomic q V fl a V' :
  req_ok q → fs_wf V fl → fs_compact V → spec_effect q V fl a V' →
  effect (req_command q) V fl (of_sum a) V' ∧ fs_compact V'.
Proof.
  intros [Hcmd Hpath Hnames Hst Hty] Hwf Hcomp. pose proof Hnames as [Hcs [Hname _]%Forall_cons]%Forall_app.
  pose proof (cmd_block_nonneg _ Hcmd) as Hk.
  unfold spec_effect, effect. destruct (command_type (req_command q)) eqn:Hc.
  - intros [-> ->]. split; [|done]. exists (req_dirs q), (req_name q). split_and!; [done..| |done].
    by rewrite (read_spec_tree V fl).
  - intros [-> ->]. split; [|by apply write_spec_compact]. exists (req_dirs q), (req_name q).
    split_and!; [done..|]. eexists. split; [done|]. by apply write_spec_answer.
  - intros [-> ->]. split; [|by apply create_spec_compact]. exists (req_dirs q), (req_name q).
    split_and!; [done..|]. eexists. split; [done|].
    apply create_spec_answer; try done; [apply Hcmd..|naive_solver].
  - intros [-> ->]. split; [|by eapply delete_spec_compact]. exists (req_dirs q), (req_name q).
    split_and!; [done..|]. eexists. split; [done|]. by eapply delete_spec_answer.
  - intros [-> ->]. done.
Qed.

(** ** What a thread owns, and where it is *)

Record ghost := Ghost {
  g_request : request;
  g_taken : list Z;
  g_loose : list (Z * Z);
  g_answer : option (string + bytes);
}.

Definition own_of th (g : ghost) : own := Own (th_locks th) (g_taken g) (g_loose g).

Definition world_of s (V : store) : world D := World (cs_disk s) V (cs_free s).

Definition is_inode (V : store) (b : Z) : Prop := ∃ i, V !! b = Some (NInode i).

(** An inode that was cut off and is on the disk still. *)
Definition is_cut_off (loose : list (Z * Z)) w (b : Z) : Prop :=
  ∃ v, disk_readblock (w_disk w) b = Some v ∧
    ∀ x, x ∈ b :: inode_refs (decode_inode v) → (b, x) ∈ loose.

(** The program of a thread before and after it took effect, and the inodes that
    it has locked. *)
Definition follows (loose : list (Z * Z)) w th (g : ghost) : Prop :=
  match g_answer g with
  | None =>
      unsettled (g_request g) (th_prog th) (own_of th g) w ∧
      ∀ b m, (b, m) ∈ held th → is_inode (w_store w) b
  | Some a =>
      settled (answers a) (th_prog th) (own_of th g) w ∧
      ∀ b, (b, Shared) ∈ held th → is_inode (w_store w) b ∨ is_cut_off loose w b
  end.

Definition taken_by (gs : list ghost) : list Z := gs ≫= g_taken.
Definition loose_by (gs : list ghost) : list (Z * Z) := gs ≫= g_loose.

Record pool_inv s (V : store) (gs : list ghost) : Prop := {
  pi_respects : respects s;
  pi_models : models (cs_disk s) V;
  pi_wf : fs_wf V (cs_free s ++ taken_by gs ++ (snd <$> loose_by gs));
  pi_compact : fs_compact V;
  pi_length : length gs = length (cs_threads s);
  pi_request i g : gs !! i = Some g → req_ok (g_request g);
  pi_thread i th g : cs_threads s !! i = Some th → gs !! i = Some g →
    follows (loose_by gs) (world_of s V) th g;
}.

(** The atomic file system that the pool stands for. *)
Definition atomic_of (V : store) (gs : list ghost) : atomic_fs :=
  AtomicFs V ((λ g, (req_command (g_request g), of_sum <$> g_answer g)) <$> gs).

Definition with_answer (a : string + bytes) (g : ghost) : ghost :=
  Ghost (g_request g) (g_taken g) (g_loose g) (Some a).

Lemma hold_step_new op b h h' x m :
  hold_step op b h = LkDone h' → (x, m) ∈ h' →
  (∃ m', (x, m') ∈ h) ∨ (new_holders op = 1%nat ∧ x = b).
Proof.
  assert (∀ m0 h0, remove_one (b, m0) h = Some h0 → (b, m0) ∈ h ∧ ∀ y, y ∈ h0 → y ∈ h) as Hrem.
  { intros m0 h0 Hp%remove_one_perm. split; [rewrite Hp; by left|]. intros y Hy. rewrite Hp. by right. }
  intros Hs Hx. destruct op; simpl in Hs; unfold drop_hold in Hs; repeat case_match; simplify_eq;
    try (apply elem_of_cons in Hx as [[= -> ->]|Hx]); eauto;
    match goal with Hr : remove_one _ _ = Some _ |- _ => destruct (Hrem _ _ Hr); eauto end.
Qed.

Lemma bind_insert_same {A B} (f : A → list B) l i x y :
  l !! i = Some x → f y = f x → <[i:=y]> l ≫= f = l ≫= f.
Proof.
  revert i; induction l as [|z l IH]; intros [|i] Hi Hf; simplify_eq/=; [by rewrite Hf|]. f_equal. by apply IH.
Qed.

Section step.
Context {s : cstate D M} {V : store} {gs : list ghost} (Hinv : pool_inv s V gs).
Context {i : nat} {th : thread} {g : ghost} (Hi : cs_threads s !! i = Some th) (Hg : gs !! i = Some g).

Lemma pool_world_ok : world_ok (own_of th g) (world_of s V).
Proof.
  split; [apply Hinv|]. exists (taken_by (delete i gs) ++ (snd <$> loose_by (delete i gs))).
  eapply fs_wf_free_perm; [apply (pi_wf _ _ _ Hinv)|]. unfold taken_by, loose_by, o_blocks. simpl.
  rewrite (bind_delete g_taken gs i g Hg), (bind_delete g_loose gs i g Hg), fmap_app. solve_Permutation.
Qed.

(** The state after a step of thread [i]: what changed for it, and for others. *)
Lemma pool_update th' g' s' V' :
  respects s' → cs_threads s' = <[i:=th']> (cs_threads s) → g_request g' = g_request g →
  models (cs_disk s') V' → fs_compact V' →
  fs_wf V' (cs_free s' ++ taken_by (<[i:=g']> gs) ++ (snd <$> loose_by (<[i:=g']> gs))) →
  follows (loose_by (<[i:=g']> gs)) (world_of s' V') th' g' →
  (∀ j tj gj, j ≠ i → cs_threads s !! j = Some tj → gs !! j = Some gj →
    follows (loose_by gs) (world_of s V) tj gj → follows (loose_by (<[i:=g']> gs)) (world_of s' V') tj gj) →
  pool_inv s' V' (<[i:=g']> gs).
Proof.
  intros Hr Hths Hreq Hm Hc Hwf Hf Hothers. split; try done.
  - rewrite Hths, !length_insert. apply Hinv.
  - intros j gj [(<- & -> & _)|[_ Hj]]%list_lookup_insert_Some; [rewrite Hreq|]; by eapply (pi_request _ _ _ Hinv).
  - intros j tj gj. rewrite Hths. intros Htj Hgj.
    apply list_lookup_insert_Some in Htj as [(<- & -> & _)|[Hne Htj]].
    + by rewrite list_lookup_insert_eq in Hgj by (by eapply lookup_lt_Some); simplify_eq.
    + rewrite list_lookup_insert_ne in Hgj by done. eapply Hothers; [done..|]. by eapply (pi_thread _ _ _ Hinv).
Qed.

(** A step that others do not see. *)
Lemma pool_silent th' g' s' :
  respects s' → cs_threads s' = <[i:=th']> (cs_threads s) → world_of s' V = world_of s V →
  g_request g' = g_request g → g_taken g' = g_taken g → g_loose g' = g_loose g →
  follows (loose_by gs) (world_of s V) th' g' → pool_inv s' V (<[i:=g']> gs).
Proof.
  intros Hr Hths Hw Hreq Htk Hls Hf. injection Hw as Hd Hfr.
  assert (taken_by (<[i:=g']> gs) = taken_by gs) as Ht by by eapply bind_insert_same.
  assert (loose_by (<[i:=g']> gs) = loose_by gs) as Hl by by eapply bind_insert_same.
  apply (pool_update th'); rewrite ?Ht, ?Hl, ?Hd, ?Hfr; try done; try apply Hinv.
  - unfold world_of. by rewrite Hd, Hfr.
  - intros j tj gj _ _ _. unfold world_of. by rewrite Hd, Hfr.
Qed.

(** The atomic file system, at the effect of thread [i] and without one. *)
Lemma atomic_effect a V' g' :
  g_answer g = None → spec_effect (g_request g) V (g_taken g ++ cs_free s) a V' →
  g_request g' = g_request g → g_answer g' = Some a →
  takes_effect (cs_free s) (atomic_of V gs) (atomic_of V' (<[i:=g']> gs)).
Proof.
  intros Hg0 HS Hreq Ha. unfold atomic_of. rewrite list_fmap_insert, Hreq, Ha. simpl.
  destruct pool_world_ok as [_ [rest Hwf]].
  eapply (takes_effect_at _ (AtomicFs V _) i _ (g_taken g)); simpl.
  - rewrite list_lookup_fmap, Hg. simpl. by rewrite Hg0.
  - eapply spec_effect_atomic; [by eapply (pi_request _ _ _ Hinv)| |apply Hinv|exact HS].
    apply (fs_wf_free_app _ _ ((snd <$> g_loose g) ++ rest)).
    eapply fs_wf_free_perm; [exact Hwf|]. simpl. unfold o_blocks. simpl. solve_Permutation.
Qed.

Lemma atomic_same g' :
  g_request g' = g_request g → g_answer g' = g_answer g → atomic_of V (<[i:=g']> gs) = atomic_of V gs.
Proof.
  intros Hreq Ha. unfold atomic_of. rewrite list_fmap_insert, Hreq, Ha. f_equal.
  apply list_insert_id. by rewrite list_lookup_fmap, Hg.
Qed.

(** Taking effect in between. *)
Lemma pool_effect a :
  g_answer g = None → spec_effect (g_request g) V (g_taken g ++ cs_free s) a V →
  settled (answers a) (th_prog th) (own_of th g) (world_of s V) →
  pool_inv s V (<[i:=with_answer a g]> gs) ∧
  takes_effect (cs_free s) (atomic_of V gs) (atomic_of V (<[i:=with_answer a g]> gs)).
Proof.
  intros Hg0 HS Hset. split.
  - apply (pool_silent th); try done; [apply Hinv|by rewrite list_insert_id|].
    pose proof (pi_thread _ _ _ Hinv _ _ _ Hi Hg) as Hf. unfold follows in *. rewrite Hg0 in Hf. simpl.
    split; [done|]. intros b Hb. left. by eapply Hf.
  - by eapply atomic_effect.
Qed.

(** *** What the step of one thread leaves to the others *)

Lemma follows_rely loose loose' w w' tj gj :
  follows loose w tj gj →
  (g_answer gj = None → rely (own_of tj gj) w w') →
  (g_answer gj ≠ None → rely_settled (own_of tj gj) w w' ∧
     ∀ b, (b, Shared) ∈ held tj → is_inode (w_store w) b ∨ is_cut_off loose w b →
       is_inode (w_store w') b ∨ is_cut_off loose' w' b) →
  follows loose' w' tj gj.
Proof.
  unfold follows. destruct (g_answer gj) as [a|]; intros [Hp Hl] Hr Hs.
  - destruct Hs as [Hs Hc]; [done|]. split; [by eapply settled_rely|]. eauto.
  - specialize (Hr eq_refl). split; [by eapply pending_rely|]. intros b m Hb.
    destruct (Hl b m Hb) as [ib Hib]. exists ib. by apply (rl_inode _ _ _ Hr b m).
Qed.

Lemma no_conflict j tj b m1 m2 :
  j ≠ i → cs_threads s !! j = Some tj → (b, m1) ∈ held th → (b, m2) ∈ held tj → compatible m1 m2 = true.
Proof. intros Hne Hj. eapply (locks_compatible s i j); [apply Hinv|done..]. Qed.

Lemma exclusive_not_shared b : (b, Exclusive) ∈ held th → (b, Shared) ∉ held_by (cs_threads s).
Proof.
  intros Hx Hs. destruct (sh_exclusion _ _ _ (rs_table _ (pi_respects _ _ _ Hinv)) b) as [_ Hno].
  apply count_hold_elem in Hs. rewrite Hno in Hs; [lia|]. by eapply count_hold_elem, held_by_elem.
Qed.

Lemma free_blocks_apart x : x ∈ taken_by gs ++ (snd <$> loose_by gs) → V !! x = None.
Proof. intros Hx. apply (wf_free _ _ (pi_wf _ _ _ Hinv)). set_solver. Qed.

(** The block [x] is written, which is taken by the thread or belongs to an inode
    that it has locked for writing. *)
Definition may_be_written (x : Z) : Prop :=
  x ∈ g_taken g ∨
  ∃ p ip, (p, Exclusive) ∈ held th ∧ V !! p = Some (NInode ip) ∧ (x = p ∨ x ∈ inode_refs ip).

Lemma taken_elem x : x ∈ g_taken g → x ∈ taken_by gs.
Proof. intros Hx. apply list_elem_of_bind. exists g. split; [done|by eapply list_elem_of_lookup_2]. Qed.

Lemma written_not_inode x b m j tj v :
  may_be_written x → j ≠ i → cs_threads s !! j = Some tj → (b, m) ∈ held tj → is_inode V b →
  disk_readblock (cs_disk s) b = Some v → x ∉ b :: inode_refs (decode_inode v).
Proof.
  intros Hx Hne Hj Hb [ib Hib] Hv. pose proof (pi_wf _ _ _ Hinv) as Hwf.
  destruct (pi_models _ _ _ Hinv _ _ Hib) as (v' & Hv' & Hd). simpl in Hd. simplify_eq.
  intros Hin. assert (is_Some (V !! x)) as [n Hn].
  { apply elem_of_cons in Hin as [->|Hin]; [by rewrite Hib|]. by destruct (ref_block Hwf _ _ _ Hib Hin). }
  destruct Hx as [Hx|(p & ip & Hp & Hip & Hx)].
  { rewrite free_blocks_apart in Hn; [done|]. apply elem_of_app. left. by apply taken_elem. }
  assert (p ≠ b) as Hpb by (intros ->; by pose proof (no_conflict _ _ _ _ _ Hne Hj Hp Hb)).
  apply elem_of_cons in Hin. destruct Hin as [->|Hin], Hx as [->|Hx]; [done|..].
  - by apply (ref_not_inode Hwf _ _ _ _ Hip Hib).
  - by apply (ref_not_inode Hwf _ _ _ _ Hib Hip).
  - apply Hpb. by eapply dir_block_owner.
Qed.

Lemma written_not_cut_off x b v :
  may_be_written x → is_cut_off (loose_by gs) (world_of s V) b →
  disk_readblock (cs_disk s) b = Some v → x ∉ b :: inode_refs (decode_inode v).
Proof.
  intros Hx (v' & Hv' & Hl) Hv Hin. simpl in Hv'. simplify_eq.
  assert (x ∈ snd <$> loose_by gs) as Hloose by (apply list_elem_of_fmap; exists (b, x); auto).
  pose proof (pi_wf _ _ _ Hinv) as Hwf. destruct Hx as [Hx%taken_elem|(p & ip & _ & Hip & Hx)].
  - pose proof (wf_free_nodup _ _ Hwf) as Hnd. apply NoDup_app in Hnd as (_ & _ & Hnd).
    apply NoDup_app in Hnd as (_ & Hnd & _). by eapply Hnd.
  - assert (V !! x = None) as Hn by (apply free_blocks_apart, elem_of_app; by right).
    destruct Hx as [->|Hx]; [congruence|]. destruct (ref_block Hwf _ _ _ Hip Hx) as [[n ?] _]. congruence.
Qed.

(** A write of such a block [x], and the store it makes. *)
Section write.
Context {x : Z} {d' : D} (Hx : may_be_written x)
  (Hd : ∀ y, y ≠ x → disk_readblock d' y = disk_readblock (cs_disk s) y).
Context {j : nat} {tj : thread} {gj : ghost} (Hne : j ≠ i) (Hj : cs_threads s !! j = Some tj)
  (Hgj : gs !! j = Some gj).

Lemma locked_on_disk b m v :
  (b, m) ∈ held tj → is_inode V b ∨ is_cut_off (loose_by gs) (world_of s V) b →
  disk_readblock (cs_disk s) b = Some v →
  disk_readblock d' b = Some v ∧
  ∀ y, y ∈ inode_refs (decode_inode v) → disk_readblock d' y = disk_readblock (cs_disk s) y.
Proof.
  intros Hb Hlive Hv. assert (x ∉ b :: inode_refs (decode_inode v)) as Hn
    by (destruct Hlive; [by eapply written_not_inode|by eapply written_not_cut_off]).
  apply not_elem_of_cons in Hn as [Hxb Hn]. split; [by rewrite Hd|]. intros y Hy. apply Hd. by intros ->.
Qed.

Lemma settled_on_disk V' :
  (∀ b, (b, Shared) ∈ held tj → is_inode V b ∨ is_cut_off (loose_by gs) (world_of s V) b) →
  rely_settled (own_of tj gj) (world_of s V) (World d' V' (cs_free s)).
Proof. intros Hl. split; [done|]. intros b v Hb Hv. by eapply locked_on_disk; [exact Hb|apply Hl|]. Qed.

Lemma others_taken y : y ∈ g_taken gj → disk_readblock d' y = disk_readblock (cs_disk s) y.
Proof.
  intros Hy. apply Hd. intros ->. pose proof (pi_wf _ _ _ Hinv) as Hwf.
  assert (x ∈ taken_by (delete i gs)) as Hrest.
  { apply list_elem_of_bind. exists gj. split; [done|]. apply list_elem_of_lookup.
    destruct (decide (j < i)%nat); [exists j; by rewrite list_lookup_delete_lt|].
    exists (pred j). rewrite list_lookup_delete_ge by lia. by replace (S (pred j)) with j by lia. }
  assert (x ∈ taken_by gs) as Hin.
  { unfold taken_by. rewrite (bind_delete _ _ _ _ Hg). apply elem_of_app. by right. }
  destruct Hx as [Hx'|(p & ip & _ & Hip & Hx')].
  - pose proof (wf_free_nodup _ _ Hwf) as Hnd. apply NoDup_app in Hnd as (_ & _ & Hnd).
    apply NoDup_app in Hnd as (Hnd & _). unfold taken_by in Hnd. rewrite (bind_delete _ _ _ _ Hg) in Hnd.
    apply NoDup_app in Hnd as (_ & Hnd & _). by eapply Hnd.
  - assert (V !! x = None) as Hn by (apply free_blocks_apart, elem_of_app; by left).
    destruct Hx' as [->|Hx']; [congruence|]. destruct (ref_block Hwf _ _ _ Hip Hx') as [[n ?] _]. congruence.
Qed.

(** A block that only this thread knows. *)
Lemma others_prepare :
  follows (loose_by gs) (world_of s V) tj gj → follows (loose_by gs) (World d' V (cs_free s)) tj gj.
Proof.
  intros Hf. eapply follows_rely; [exact Hf|..]; unfold follows in Hf; destruct (g_answer gj); try done;
    destruct Hf as [_ Hl]; intros _.
  - split; try done; simpl; [apply others_taken|]. intros b m v Hb. eapply locked_on_disk; [exact Hb|]. left. by eapply Hl.
  - split; [by apply settled_on_disk|]. intros b Hb Hlive. simpl in *.
    destruct Hlive as [|(v & Hv & Hall)]; [by left|right]. exists v. split; [|done].
    eapply locked_on_disk; [exact Hb| |done]. right. by exists v.
Qed.

(** A write by which the store becomes [V']. *)
Lemma others_commit p gone V' loose' ip :
  (p, Exclusive) ∈ held th → V !! p = Some (NInode ip) → changes p gone V V' →
  (∀ y, y ∈ loose_by gs → y ∈ loose') →
  match gone with
  | None => True
  | Some c => childless V c ∧ (∃ ci, V !! c = Some (NInode ci) ∧ ∀ y, y ∈ c :: inode_refs ci → (c, y) ∈ loose') ∧
      (g_answer gj = None → ∀ m, (c, m) ∉ held tj)
  end →
  follows (loose_by gs) (world_of s V) tj gj → follows loose' (World d' V' (cs_free s)) tj gj.
Proof.
  intros Hp Hip Hch Hloose Hgone Hf.
  assert (∀ b m, (b, m) ∈ held tj → b ≠ p) as Hnp by (intros b m Hb ->; by pose proof (no_conflict _ _ _ _ _ Hne Hj Hp Hb)).
  eapply follows_rely; [exact Hf|..]; unfold follows in Hf; destruct (g_answer gj); try done;
    destruct Hf as [_ Hl]; intros _.
  - assert (∀ b m, (b, m) ∈ held tj → gone ≠ Some b) as Hng.
    { intros b m Hb ->. destruct Hgone as (_ & _ & Hno). by eapply Hno. }
    split; simpl; [done|apply others_taken| | |].
    + intros b m v Hb. eapply locked_on_disk; [exact Hb|]. left. by eapply Hl.
    + intros b m ib Hb Hib. by eapply (ch_inode _ _ _ _ Hch); [by eapply Hnp|by eapply Hng|].
    + intros b m user cs Hb. eapply changes_walk; [done| |by eapply Hng]. by destruct gone; [apply Hgone|].
  - split; [by apply settled_on_disk|]. intros b Hb Hlive. simpl in *. destruct Hlive as [[ib Hib]|(v & Hv & Hall)].
    + destruct (decide (gone = Some b)) as [->|Hnb].
      * right. destruct Hgone as (_ & (ci & Hci & Hall) & _). simplify_eq.
        destruct (pi_models _ _ _ Hinv _ _ Hci) as (v & Hv & Hdec). simpl in Hdec. subst ci.
        exists v. split; [|done]. eapply locked_on_disk; [exact Hb| |done]. left. by eexists.
      * left. exists ib. by eapply (ch_inode _ _ _ _ Hch); [by eapply Hnp|..].
    + right. exists v. split; [|by auto]. eapply locked_on_disk; [exact Hb| |done]. right. by exists v.
Qed.

End write.

(** A change of the queue under its mutex. *)
Lemma others_queue j tj gj l loose' :
  j ≠ i → cs_threads s !! j = Some tj → cs_mutex s = Some i →
  (∀ b y, (b, Shared) ∈ held tj → (b, y) ∈ loose_by gs → (b, y) ∈ loose') →
  follows (loose_by gs) (world_of s V) tj gj → follows loose' (World (cs_disk s) V l) tj gj.
Proof.
  intros Hne Hj Hmu Hloose Hf.
  assert (tl_free (th_locks tj) ≠ true) as Hno.
  { intros Hfree. apply (rs_mutex _ (pi_respects _ _ _ Hinv) _ _ Hj) in Hfree. congruence. }
  eapply follows_rely; [exact Hf|..]; intros _.
  - by split; try done; intros Hfree.
  - split; [by split; try done; intros Hfree|]. intros b Hb [|(v & Hv & Hall)]; [by left|right].
    exists v. split; [done|]. intros y Hy. auto.
Qed.

(** *** The steps of a thread *)

(** A turn that neither writes nor changes the queue. *)
Definition moves_on th' : Prop :=
  (th_prog th' = th_prog th ∧ th_locks th' = th_locks th) ∨
  match th_prog th with
  | ReadBlock b k =>
      ∃ v, disk_readblock (cs_disk s) b = Some v ∧ th_prog th' = k v ∧ th_locks th' = th_locks th
  | InodeLock op b k =>
      th_prog th' = k ∧ th_locks th' = TL (granted_lock op b (held th)) (tl_free (th_locks th))
  | LockFreeMutex k => th_prog th' = k ∧ th_locks th' = TL (held th) true
  | UnlockFreeMutex k => th_prog th' = k ∧ th_locks th' = TL (held th) false
  | GetFree k => th_prog th' = k (cs_free s) ∧ th_locks th' = th_locks th
  | _ => False
  end.

Lemma thread_step_cases s' :
  thread_step i th s = Steps s' →
  match th_prog th with
  | WriteBlock b v k =>
      ∃ d, disk_writeblock (cs_disk s) b v = Some d ∧ cs_disk s' = d ∧ cs_free s' = cs_free s ∧
        cs_threads s' = <[i := Thread k None (th_locks th)]> (cs_threads s)
  | PutFree l k =>
      cs_disk s' = cs_disk s ∧ cs_free s' = l ∧
      cs_threads s' = <[i := Thread k None (th_locks th)]> (cs_threads s)
  | _ => ∃ th', moves_on th' ∧ cs_disk s' = cs_disk s ∧ cs_free s' = cs_free s ∧
      cs_threads s' = <[i := th']> (cs_threads s)
  end.
Proof.
  unfold thread_step, lock_step, moves_on. destruct (th_prog th) eqn:Hp; intros Hst; repeat case_match; simplify_eq/=;
    try (by eauto 10); (eexists (Thread _ _ _); split; [|split_and!; reflexivity]); simpl; eauto 10.
Qed.

Lemma settled_moves_on a th' :
  settled (answers a) (th_prog th) (own_of th g) (world_of s V) → moves_on th' →
  settled (answers a) (th_prog th') (own_of th' g) (world_of s V) ∧
  ∀ b, (b, Shared) ∈ held th' → (b, Shared) ∈ held th.
Proof.
  unfold own_of, held. intros Hs [[-> ->]|Hm]; [done|].
  destruct (th_prog th) as [?|?|?|b k|?|op b k|k|k|k|?]; try done; specialize (Hs _ (settled_refl _ _)).
  - destruct Hm as (v & Hv & -> & ->). destruct Hs as (v' & Hv' & Hs). simpl in Hv'. by simplify_eq.
  - destruct Hm as [-> ->]. destruct Hs as (Hn & h & Hh & Hs). unfold granted_lock, held in *.
    unfold o_held in Hh. simpl in Hh. rewrite Hh. split; [done|]. intros x. by eapply hold_step_shared, leaves_no_new.
  - by destruct Hm as [-> ->].
  - by destruct Hm as [-> ->].
  - by destruct Hm as [-> ->].
Qed.

Lemma world_of_same s' : cs_disk s' = cs_disk s → cs_free s' = cs_free s → world_of s' V = world_of s V.
Proof. unfold world_of. by intros -> ->. Qed.

Lemma loose_by_insert g' : loose_by (<[i := g']> gs) ≡ₚ g_loose g' ++ loose_by (delete i gs).
Proof. by eapply bind_insert. Qed.
Lemma loose_by_delete : loose_by gs ≡ₚ g_loose g ++ loose_by (delete i gs).
Proof. by apply bind_delete. Qed.
Lemma taken_by_insert g' : taken_by (<[i := g']> gs) ≡ₚ g_taken g' ++ taken_by (delete i gs).
Proof. by eapply bind_insert. Qed.
Lemma taken_by_delete : taken_by gs ≡ₚ g_taken g ++ taken_by (delete i gs).
Proof. by apply bind_delete. Qed.

(** A step behind the moment of effect. *)
Lemma step_settled s' a :
  g_answer g = Some a → respects s' → thread_step i th s = Steps s' →
  ∃ g', pool_inv s' V (<[i := g']> gs) ∧ g_request g' = g_request g ∧ g_answer g' = Some a.
Proof.
  intros Ha Hr Hst. pose proof (pi_thread _ _ _ Hinv _ _ _ Hi Hg) as Hf. unfold follows in Hf. rewrite Ha in Hf.
  destruct Hf as [Hset Hshared]. pose proof (thread_step_cases _ Hst) as Hc.
  pose proof (settled_moves_on a) as Hmove.
  assert ((∃ th', moves_on th' ∧ cs_disk s' = cs_disk s ∧ cs_free s' = cs_free s ∧
    cs_threads s' = <[i := th']> (cs_threads s)) → pool_inv s' V (<[i := g]> gs)) as Hsilent.
  { intros (th' & Hm & Hd & Hfr & Hths). destruct (Hmove th' Hset Hm) as [Hset' Hsh'].
    apply (pool_silent th'); try done; [by apply world_of_same|]. unfold follows. rewrite Ha. auto. }
  destruct (th_prog th) as [?|?|?|b k|b v k|op b k|k|k|k|l k] eqn:Hp; try (by exists g; auto).
  - by destruct (Hset _ (settled_refl _ _)).
  - destruct Hc as (Hd & Hfr & Hths).
    destruct (Hset _ (settled_refl _ _)) as (o & x & loose & Hl & Ho & Hx & Hk). simpl in *.
    exists (Ghost (g_request g) (g_taken g) loose (Some a)). split; [|done].
    assert (cs_mutex s = Some i) as Hmu.
    { pose proof (accesses_locked s i th (pi_respects _ _ _ Hinv) Hi) as Hacc. unfold access_locked in Hacc. by rewrite Hp in Hacc. }
    assert (∀ h b y, (b, Shared) ∈ h → h ⊆ held_by (cs_threads s) → (b, y) ∈ loose_by gs →
      (b, y) ∈ loose_by (<[i:=Ghost (g_request g) (g_taken g) loose (Some a)]> gs)) as Hloose.
    { intros h b y Hb Hh Hy. rewrite loose_by_insert. rewrite loose_by_delete, Hx in Hy. simpl in *.
      apply elem_of_cons in Hy as [[= -> ->]|Hy]; [|done]. exfalso. by apply (exclusive_not_shared o); [|apply Hh]. }
    apply (pool_update (Thread k None (th_locks th))); simpl; try done.
    + rewrite Hd. apply Hinv.
    + apply Hinv.
    + pose proof (pi_wf _ _ _ Hinv) as Hwf. rewrite taken_by_delete, loose_by_delete, Hx in Hwf.
      rewrite Hfr, taken_by_insert, loose_by_insert, Hl, !fmap_app. simpl.
      eapply fs_wf_free_perm; [exact Hwf|]. simpl. rewrite fmap_app. solve_Permutation.
    + unfold world_of, follows. simpl. rewrite Hd, Hfr. split; [done|]. intros b Hb.
      destruct (Hshared b Hb) as [|(v & Hv & Hall)]; [by left|right]. exists v. split; [done|]. intros y Hy.
      apply (Hloose (held th)); [done| |by apply Hall]. intros z Hz. by eapply held_by_elem.
    + intros j tj gj Hne Htj Hgj Hf. unfold world_of. rewrite Hd, Hfr. eapply others_queue; [done..| |done].
      intros b y Hb Hy. apply (Hloose (held tj)); [done| |done]. intros z Hz. by eapply held_by_elem.
Qed.

(** A step before it: silent, or one that changes the queue or the disk. *)
Lemma pending_moves_on th' :
  unsettled (g_request g) (th_prog th) (own_of th g) (world_of s V) → moves_on th' →
  (∀ b m, (b, m) ∈ held th → is_inode V b) →
  (∃ a, spec_effect (g_request g) V (g_taken g ++ cs_free s) a V ∧
     settled (answers a) (th_prog th) (own_of th g) (world_of s V)) ∨
  (unsettled (g_request g) (th_prog th') (own_of th' g) (world_of s V) ∧
   ∀ b m, (b, m) ∈ held th' → is_inode V b).
Proof.
  pose proof pool_world_ok as Hok. unfold own_of, held in *. intros Hs [[-> ->]|Hm] Hheld; [by right|].
  destruct (th_prog th) as [?|?|?|b k|?|op b k|k|k|k|?]; try done;
    (destruct (Hs _ (rely_refl _ _) Hok) as [Hl|Hs']; [by left|right]).
  - destruct Hm as (v & Hv & -> & ->). destruct Hs' as (_ & v' & Hv' & Hs'). simpl in Hv'. by simplify_eq.
  - destruct Hm as [-> ->]. destruct Hs' as (_ & Hdn & h & Hh & Hs'). unfold granted_lock, held in *.
    unfold o_held in Hh. simpl in Hh. rewrite Hh. split; [done|]. intros x m Hx.
    destruct (hold_step_new _ _ _ _ _ _ Hh Hx) as [(m' & Hm')|[Hn ->]]; [by eapply Hheld|].
    pose proof (pi_wf _ _ _ Hinv) as Hwf.
    destruct (downwards_new _ _ _ _ Hdn Hn) as [->|(p & nm & Hc)].
    + destruct (wf_root _ _ Hwf) as (ir & Hir & _). by exists ir.
    + by destruct (child_of_inode Hwf _ _ _ Hc) as [_ ?].
  - by destruct Hm as [-> ->], Hs'.
  - by destruct Hm as [-> ->], Hs'.
  - by destruct Hm as [-> ->], Hs'.
Qed.

(** The result of a step: the thread goes on, or has taken effect. *)
Definition step_result s' : Prop :=
  ∃ V' g', pool_inv s' V' (<[i := g']> gs) ∧ g_request g' = g_request g ∧
    ((V' = V ∧ g_answer g' = None) ∨
     ∃ a, spec_effect (g_request g) V (g_taken g ++ cs_free s) a V' ∧ g_answer g' = Some a).

Lemma respects_mutex : (∃ l k, th_prog th = PutFree l k) → cs_mutex s = Some i.
Proof.
  intros (l & k & Hp). pose proof (accesses_locked s i th (pi_respects _ _ _ Hinv) Hi) as Hacc.
  unfold access_locked in Hacc. by rewrite Hp in Hacc.
Qed.

Lemma step_pop s' b l k :
  th_prog th = PutFree l k → g_answer g = None → cs_free s = b :: l →
  unsettled (g_request g) k (Own (th_locks th) (g_taken g ++ [b]) (g_loose g)) (World (cs_disk s) V l) →
  (∀ b m, (b, m) ∈ held th → is_inode V b) →
  respects s' → cs_disk s' = cs_disk s → cs_free s' = l →
  cs_threads s' = <[i := Thread k None (th_locks th)]> (cs_threads s) → step_result s'.
Proof.
  intros Hp Hg0 Hl Hk Hheld Hr Hd Hfr Hths.
  exists V, (Ghost (g_request g) (g_taken g ++ [b]) (g_loose g) None). split; [|split; [done|by left]].
  assert (∀ g', g_loose g' = g_loose g → loose_by (<[i:=g']> gs) = loose_by gs) as Hls
    by (intros; by eapply bind_insert_same).
  apply (pool_update (Thread k None (th_locks th))); simpl; try done; rewrite ?Hls by done.
  - rewrite Hd. apply Hinv.
  - apply Hinv.
  - pose proof (pi_wf _ _ _ Hinv) as Hwf. rewrite taken_by_delete, Hl in Hwf.
    rewrite Hfr, taken_by_insert. simpl. eapply fs_wf_free_perm; [exact Hwf|]. simpl. solve_Permutation.
  - unfold world_of, follows. simpl. by rewrite Hd, Hfr.
  - intros j tj gj Hne Htj Hgj Hf. unfold world_of. rewrite Hd, Hfr.
    eapply others_queue; [done..|apply respects_mutex; eauto|done|done].
Qed.

Lemma step_prepare s' b v k d :
  th_prog th = WriteBlock b v k → g_answer g = None → b ∈ g_taken g → len v = FS_BLOCKSIZE →
  disk_writeblock (cs_disk s) b v = Some d →
  unsettled (g_request g) k (own_of th g) (World d V (cs_free s)) →
  (∀ b m, (b, m) ∈ held th → is_inode V b) →
  respects s' → cs_disk s' = d → cs_free s' = cs_free s →
  cs_threads s' = <[i := Thread k None (th_locks th)]> (cs_threads s) → step_result s'.
Proof.
  intros Hp Hg0 Hb Hv Hwr Hk Hheld Hr Hd Hfr Hths. exists V, g. split; [|split; [done|by left]].
  assert (∀ y, y ≠ b → disk_readblock d y = disk_readblock (cs_disk s) y) as Hother.
  { intros y Hy. erewrite disk_read_write by done. by rewrite decide_False. }
  assert (V !! b = None) as HbN by (apply free_blocks_apart, elem_of_app; left; by apply taken_elem).
  assert (loose_by (<[i:=g]> gs) = loose_by gs ∧ taken_by (<[i:=g]> gs) = taken_by gs) as [Hls Htk]
    by (by rewrite list_insert_id).
  apply (pool_update (Thread k None (th_locks th))); simpl; try done; rewrite ?Hls, ?Htk; try apply Hinv.
  - rewrite Hd. intros y n Hy. rewrite Hother by congruence. by apply Hinv.
  - rewrite Hfr. apply Hinv.
  - unfold world_of, follows. rewrite Hg0, Hd, Hfr. done.
  - intros j tj gj Hne Htj Hgj Hf. unfold world_of. rewrite Hd, Hfr. by eapply others_prepare; [left|..].
Qed.

Lemma step_commit s' b v k d a V' r' :
  th_prog th = WriteBlock b v k → g_answer g = None → len v = FS_BLOCKSIZE →
  disk_writeblock (cs_disk s) b v = Some d →
  commits b V' r' (own_of th g) (world_of s V) → (∀ x, (x, Shared) ∉ held th) →
  models d V' → spec_effect (g_request g) V (g_taken g ++ cs_free s) a V' →
  settled (answers a) k r' (World d V' (cs_free s)) →
  (∀ j tj gj, j ≠ i → cs_threads s !! j = Some tj → gs !! j = Some gj → g_answer gj = None →
     protected (own_of tj gj) (world_of s V)) →
  respects s' → cs_disk s' = d → cs_free s' = cs_free s →
  cs_threads s' = <[i := Thread k None (th_locks th)]> (cs_threads s) → step_result s'.
Proof.
  intros Hp Hg0 Hv Hwr (p & ip & gone & Hpx & Hip & Hbp & Hch & Hlk & Hls & Hwf' & Hgone) Hquiet Hm HS Hk Hprot Hr Hd Hfr Hths.
  simpl in *. set (g' := Ghost (g_request g) (o_taken r') (o_loose r') (Some a)).
  assert (may_be_written b) as Hmay by (right; by exists p, ip).
  exists V', g'. split; [|split; [done|right; by exists a]].
  assert (∀ y, y ≠ b → disk_readblock d y = disk_readblock (cs_disk s) y) as Hother.
  { intros y Hy. erewrite disk_read_write by done. by rewrite decide_False. }
  pose proof (pi_wf _ _ _ Hinv) as Hwf. rewrite taken_by_delete, loose_by_delete, fmap_app in Hwf.
  apply (pool_update (Thread k None (th_locks th))); simpl; try done.
  - by rewrite Hd.
  - eapply spec_effect_atomic; [by eapply (pi_request _ _ _ Hinv)| |apply Hinv|exact HS].
    destruct pool_world_ok as [_ [rest Hwf1]]. apply (fs_wf_free_app _ _ ((snd <$> g_loose g) ++ rest)).
    eapply fs_wf_free_perm; [exact Hwf1|]. simpl. unfold o_blocks. simpl. solve_Permutation.
  - rewrite Hfr, taken_by_insert, loose_by_insert, fmap_app. simpl.
    eapply fs_wf_free_perm; [apply (Hwf' (taken_by (delete i gs) ++ (snd <$> loose_by (delete i gs))))|].
    + eapply fs_wf_free_perm; [exact Hwf|]. unfold o_blocks. simpl. solve_Permutation.
    + unfold o_blocks. solve_Permutation.
  - unfold world_of, follows. simpl. rewrite Hd, Hfr. split; [|intros x Hx; by destruct (Hquiet x)].
    destruct r' as [tl tk ls]. simpl in Hlk. by subst tl.
  - intros j tj gj Hne Htj Hgj Hf. unfold world_of. rewrite Hd, Hfr.
    eapply (others_commit Hmay Hother Hne Htj Hgj p gone); [done..| | |done].
    + intros y Hy. rewrite loose_by_insert. rewrite loose_by_delete in Hy. set_solver.
    + destruct gone as [c|]; [|done]. destruct Hgone as (nm & ci & Hc & Hless & Hcu & Hci & Hall).
      split; [done|]. split.
      * exists ci. split; [done|]. intros y Hy. rewrite loose_by_insert. apply elem_of_app. left. by apply Hall.
      * intros Hgj0 m Hcm. pose proof (no_conflict _ _ _ _ _ Hne Htj Hcu Hcm) as Hcomp. destruct m; try done.
        destruct (Hprot j tj gj Hne Htj Hgj Hgj0 c Hcm) as [->|[(nm' & c' & Hc')|(p' & m' & nm' & Hp' & Hc')]].
        -- by destruct (child_of_inode (pi_wf _ _ _ Hinv) _ _ _ Hc) as [].
        -- by eapply Hless.
        -- destruct (child_of_parent (pi_wf _ _ _ Hinv) _ _ _ _ _ Hc Hc') as [<- _].
           by pose proof (no_conflict _ _ _ _ _ Hne Htj Hpx Hp').
Qed.

(** The step of a thread that has not taken effect: it may do so before. *)
Lemma step_pending s' :
  g_answer g = None → respects s' → thread_step i th s = Steps s' →
  (∀ j tj gj, j ≠ i → cs_threads s !! j = Some tj → gs !! j = Some gj → g_answer gj = None →
     protected (own_of tj gj) (world_of s V)) →
  (∃ a, spec_effect (g_request g) V (g_taken g ++ cs_free s) a V ∧
     settled (answers a) (th_prog th) (own_of th g) (world_of s V)) ∨
  step_result s'.
Proof.
  intros Hg0 Hr Hst Hprot. pose proof (pi_thread _ _ _ Hinv _ _ _ Hi Hg) as Hf. unfold follows in Hf. rewrite Hg0 in Hf.
  destruct Hf as [Hpen Hheld]. pose proof (thread_step_cases _ Hst) as Hc.
  assert ((∃ th', moves_on th' ∧ cs_disk s' = cs_disk s ∧ cs_free s' = cs_free s ∧
    cs_threads s' = <[i := th']> (cs_threads s)) →
    (∃ a, spec_effect (g_request g) V (g_taken g ++ cs_free s) a V ∧
       settled (answers a) (th_prog th) (own_of th g) (world_of s V)) ∨ step_result s') as Hsilent.
  { intros (th' & Hm & Hd & Hfr & Hths).
    destruct (pending_moves_on th' Hpen Hm Hheld) as [Hl|[Hpen' Hheld']]; [by left|right].
    exists V, g. split; [|split; [done|by left]]. apply (pool_silent th'); try done; [by apply world_of_same|].
    unfold follows. rewrite Hg0. auto. }
  destruct (th_prog th) as [?|?|?|b k|b v k|op b k|k|k|k|l k] eqn:Hp; try (by apply Hsilent); clear Hsilent;
    (destruct (Hpen _ (rely_refl _ _) pool_world_ok) as [Hl|Hright]; [by left|right]).
  - destruct Hc as (d & Hwr & Hd & Hfr & Hths). destruct Hright as (_ & [Hv _] & Hk).
    destruct (Hk d Hwr) as [[Hb Hk']|(a & V' & r' & [Hcm Hq] & Hm & HS & Hk')]; [by eapply step_prepare|].
    by eapply step_commit.
  - destruct Hc as (Hd & Hfr & Hths). destruct Hright as (_ & b & Hb & Hk). by eapply step_pop.
Qed.

End step.

End pool.
