(* ===== verification/FsLinear.v ===== *)
(** * Requests that run at the same time take effect one after the other

    [FsConcurrent] interleaves the threads of requests access by access.  Every
    interleaving is matched by the atomic file system of [FsPool], which holds a
    store and serves every request at one moment between its arrival and its
    end, as if it were alone ([linearizes]): the requests are linearizable, and
    none of them crashes. *)
From S2P Require Import Prelude Layout Locks Prog FileSystem FsModel FsStore FsInvariant FsTree FsCorrect FsConcurrent.
From S2P Require Import FsChanges FsRely FsEffects FsPool.
Import FileSystem LockTable.

Local Open Scope Z_scope.

Section linear.
Context {D M : Type} `{DiskSpec D} `{BoostSharedMutexSpec M}.
Implicit Types (s : cstate D M) (w : world D) (th : thread).

(** ** The steps of the pool *)

(** Threads that can take effect do so, until the others have [P]. *)
Lemma settle_threads (P : nat → thread → ghost → Prop) s V gs n :
  pool_inv s V gs →
  (∀ j tj gj, cs_threads s !! j = Some tj → g_answer gj = None → req_ok (g_request gj) →
     world_ok (own_of tj gj) (world_of s V) →
     unsettled (g_request gj) (th_prog tj) (own_of tj gj) (world_of s V) →
     (∃ a, spec_effect (g_request gj) V (g_taken gj ++ cs_free s) a V ∧
        settled (answers a) (th_prog tj) (own_of tj gj) (world_of s V)) ∨ P j tj gj) →
  ∃ gs', pool_inv s V gs' ∧ rtc (takes_effect (cs_free s)) (atomic_of V gs) (atomic_of V gs') ∧
    ∀ j tj gj, (j < n)%nat → cs_threads s !! j = Some tj → gs' !! j = Some gj → g_answer gj = None → P j tj gj.
Proof.
  intros Hinv HP. induction n as [|n (gs' & Hinv' & Hrun & Hdone)]; [exists gs; split_and!; [done|done|lia]|].
  assert ((∀ tj gj, cs_threads s !! n = Some tj → gs' !! n = Some gj → g_answer gj = None → P n tj gj) →
    ∀ j tj gj, (j < S n)%nat → cs_threads s !! j = Some tj → gs' !! j = Some gj → g_answer gj = None → P j tj gj) as Hsame.
  { intros Hn j tj gj Hj. destruct (decide (j = n)) as [->|]; [apply Hn|]. apply Hdone. lia. }
  destruct (cs_threads s !! n) as [tn|] eqn:Hn; [|exists gs'; split_and!; [done..|by apply Hsame]].
  destruct (gs' !! n) as [gn|] eqn:Hgn; [|exists gs'; split_and!; [done..|by apply Hsame]].
  destruct (g_answer gn) as [a|] eqn:Ha; [exists gs'; split_and!; [done..|apply Hsame; naive_solver]|].
  pose proof (pi_thread _ _ _ Hinv' _ _ _ Hn Hgn) as Hf. unfold follows in Hf. rewrite Ha in Hf.
  destruct (HP n tn gn) as [(a & HS & Hset)|Hpn]; [done|done|by eapply (pi_request _ _ _ Hinv')|
    by eapply pool_world_ok|apply Hf| |exists gs'; split_and!; [done..|apply Hsame; naive_solver]].
  destruct (pool_effect Hinv' Hn Hgn a Ha HS Hset) as [Hinv2 Heff].
  exists (<[n := with_answer a gn]> gs'). split_and!; [done|by eapply rtc_r|].
  intros j tj gj Hj Htj Hgj Hno. apply list_lookup_insert_Some in Hgj as [(<- & <- & _)|[Hne Hgj]]; [done|].
  apply Hdone; [lia|done..].
Qed.

(** A turn of a thread. *)
Lemma turn_simulated s s' V gs i th :
  pool_inv s V gs → cs_threads s !! i = Some th → thread_step i th s = Steps s' → respects s' →
  ∃ V' gs', pool_inv s' V' gs' ∧ rtc (takes_effect (cs_free s)) (atomic_of V gs) (atomic_of V' gs').
Proof.
  intros Hinv Hi Hst Hr.
  assert (∀ gs1 g a, pool_inv s V gs1 → gs1 !! i = Some g → g_answer g = Some a →
    ∃ V' gs', pool_inv s' V' gs' ∧ atomic_of V' gs' = atomic_of V gs1) as Hsettled.
  { intros gs1 g a Hinv1 Hg Ha. destruct (step_settled Hinv1 Hi Hg s' a Ha Hr Hst) as (g' & Hinv' & Hreq & Ha').
    exists V, (<[i:=g']> gs1). split; [done|]. eapply atomic_same; [done|done|congruence]. }
  destruct (settle_threads (λ j tj gj, j ≠ i → protected (own_of tj gj) (world_of s V)) s V gs (length (cs_threads s)))
    as (gs1 & Hinv1 & Hrun & Hprot); [done| |].
  { intros j tj gj Hj Ha Hreq Hok Hp. destruct (pending_protected _ _ _ _ _ Hp Hok) as [?|?]; auto. }
  destruct (lookup_lt_is_Some_2 gs1 i) as [g Hg].
  { rewrite (pi_length _ _ _ Hinv1). by eapply lookup_lt_Some. }
  destruct (g_answer g) as [a|] eqn:Ha.
  { destruct (Hsettled gs1 g a) as (V' & gs' & ? & Heq); [done..|]. exists V', gs'. by rewrite Heq. }
  destruct (step_pending Hinv1 Hi Hg s' Ha Hr Hst) as [(a & HS & Hset)|(V' & g' & Hinv' & Hreq & Hor)].
  { intros j tj gj Hne Htj Hgj Hno. eapply Hprot; [by eapply lookup_lt_Some|done..]. }
  - destruct (pool_effect Hinv1 Hi Hg a Ha HS Hset) as [Hinv2 Heff].
    destruct (Hsettled (<[i := with_answer a g]> gs1) (with_answer a g) a) as (V' & gs' & ? & Heq); [done| |done|].
    { apply list_lookup_insert_eq. by eapply lookup_lt_Some. }
    exists V', gs'. split; [done|]. rewrite Heq. by eapply rtc_r.
  - exists V', (<[i:=g']> gs1). split; [done|]. destruct Hor as [[-> Ha']|(a & HS & Ha')].
    + erewrite atomic_same; [done..|congruence].
    + eapply rtc_r; [done|]. by eapply atomic_effect.
Qed.

(** A request comes in. *)
Lemma arrival_simulated s V gs stack command cs name :
  pool_inv s V gs → request_ok stack command cs name →
  pool_inv (happens s (Arrives stack command)) V (gs ++ [Ghost (Request stack command cs name) [] [] None]) ∧
  atomic_of V (gs ++ [Ghost (Request stack command cs name) [] [] None]) =
    arrives (Arrives stack command) (atomic_of V gs).
Proof.
  intros Hinv Hreq. set (g := Ghost (Request stack command cs name) [] [] None).
  assert (loose_by (gs ++ [g]) = loose_by gs ∧ taken_by (gs ++ [g]) = taken_by gs) as [Hls Htk].
  { unfold loose_by, taken_by. rewrite !bind_app. simpl. by rewrite !app_nil_r. }
  split; [|unfold atomic_of; simpl; by rewrite fmap_app].
  split; rewrite ?Hls, ?Htk; try apply Hinv.
  - by apply arrives_respects, Hinv.
  - simpl. rewrite !length_app, (pi_length _ _ _ Hinv). done.
  - intros i gi [[_ Hi]|[_ <-]]%lookup_snoc_Some; [by eapply (pi_request _ _ _ Hinv)|done].
  - intros i th gi [[Hlt Hi]|[-> <-]]%lookup_snoc_Some Hgi.
    + rewrite lookup_app_l in Hgi by (by rewrite (pi_length _ _ _ Hinv)). by eapply (pi_thread _ _ _ Hinv).
    + rewrite <-(pi_length _ _ _ Hinv), list_lookup_middle in Hgi by done. simplify_eq.
      split; [by apply (request_pending (Request stack command cs name))|]. by intros b m ?%elem_of_nil.
Qed.

(** Threads that have ended, have answered. *)
Definition all_answered s (a : atomic_fs) : Prop :=
  ∀ i th o, cs_threads s !! i = Some th → result_of th = Some o →
    ∃ command, at_requests a !! i = Some (command, Some o).

Lemma ended_answered s V gs :
  pool_inv s V gs →
  ∃ gs', pool_inv s V gs' ∧ rtc (takes_effect (cs_free s)) (atomic_of V gs) (atomic_of V gs') ∧
    all_answered s (atomic_of V gs').
Proof.
  intros Hinv. destruct (settle_threads (λ _ tj _, result_of tj = None) s V gs (length (cs_threads s)))
    as (gs' & Hinv' & Hrun & Hdone); [done| |].
  { intros j tj gj _ _ _ Hok Hp. unfold result_of. destruct (th_prog tj); auto;
      (destruct (Hp _ (rely_refl _ _) Hok) as [Hl|[]]; by left). }
  exists gs'. split_and!; [done..|]. intros i th o Hi Hend.
  destruct (lookup_lt_is_Some_2 gs' i) as [g Hg].
  { rewrite (pi_length _ _ _ Hinv'). by eapply lookup_lt_Some. }
  exists (req_command (g_request g)). unfold atomic_of. simpl. rewrite list_lookup_fmap, Hg. simpl. do 2 f_equal.
  pose proof (pi_thread _ _ _ Hinv' _ _ _ Hi Hg) as Hf. unfold follows in Hf.
  destruct (g_answer g) as [a|] eqn:Ha.
  - destruct Hf as [Hset _]. unfold result_of in Hend. simpl.
    destruct (th_prog th) eqn:Hp; simplify_eq; pose proof (Hset _ (settled_refl _ _)) as Ho; by try rewrite Ho.
  - rewrite (Hdone i th g) in Hend; [done|by eapply lookup_lt_Some|done..].
Qed.

(** ** Linearizability *)

(** The atomic file system serves the requests of an interleaving: every event
    has effects of requests that came in before and have not been answered, and
    a request whose thread has ended has been answered so. *)
Inductive linearizes (s0 : cstate D M) (V0 : store) : list event → atomic_fs → Prop :=
| linearizes_start : linearizes s0 V0 [] (AtomicFs V0 [])
| linearizes_event es e a a' :
    linearizes s0 V0 es a →
    rtc (λ x y, takes_effect (cs_free (interleaving es s0)) x y ∨
                takes_effect (cs_free (interleaving (es ++ [e]) s0)) x y) (arrives e a) a' →
    all_answered (interleaving (es ++ [e]) s0) a' →
    linearizes s0 V0 (es ++ [e]) a'.

Lemma happens_simulated s V gs e :
  pool_inv s V gs → respects (happens s e) →
  (∀ stack command, e = Arrives stack command → ∃ cs name, request_ok stack command cs name) →
  ∃ V' gs', pool_inv (happens s e) V' gs' ∧
    rtc (takes_effect (cs_free s)) (arrives e (atomic_of V gs)) (atomic_of V' gs').
Proof.
  intros Hinv Hr Hreq. destruct e as [stack command|i].
  - destruct (Hreq stack command eq_refl) as (cs & name & Hok).
    destruct (arrival_simulated s V gs stack command cs name Hinv Hok) as [Hinv' Heq].
    eexists _, _. split; [exact Hinv'|]. by rewrite Heq.
  - simpl in *. destruct (cs_threads s !! i) as [th|] eqn:Hi; simpl in *; [|by eexists _, _].
    destruct (thread_step i th s) as [s'| | |] eqn:Hst; try (by eexists _, _).
    by eapply turn_simulated.
Qed.

Lemma interleaving_linearizes s0 V es :
  at_rest s0 → fs_inv (cs_disk s0) V (cs_free s0) →
  (∀ stack command, Arrives stack command ∈ es → ∃ cs name, request_ok stack command cs name) →
  3 * len (cs_threads (interleaving es s0)) < hold_bound →
  ∃ V' gs, pool_inv (interleaving es s0) V' gs ∧ linearizes s0 V es (atomic_of V' gs).
Proof.
  intros Hrest [Hm Hwf Hcomp]. induction es as [|e es IH] using rev_ind; intros Hreq Hl.
  - exists V, []. split; [|constructor]. pose proof (ar_threads _ Hrest) as Hths.
    split; simpl; rewrite ?Hths; try done; [by apply at_rest_respects|]. by rewrite app_nil_r.
  - unfold interleaving in Hl |- *. rewrite foldl_app in Hl |- *. simpl in *.
    destruct IH as (V1 & gs1 & Hinv1 & Hlin).
    { intros stack command Hin. apply Hreq, elem_of_app. by left. }
    { pose proof (happens_length (foldl happens s0 es) e). unfold interleaving, len in *. lia. }
    assert (respects (happens (interleaving es s0) e)) as Hr.
    { apply happens_respects; [apply Hinv1|].
      pose proof (happens_length (foldl happens s0 es) e). unfold interleaving, len in *. lia. }
    destruct (happens_simulated _ V1 gs1 e Hinv1 Hr) as (V2 & gs2 & Hinv2 & Hrun2).
    { intros stack command ->. apply Hreq, elem_of_app. right. by left. }
    destruct (ended_answered _ _ _ Hinv2) as (gs3 & Hinv3 & Hrun3 & Hans).
    exists V2, gs3. split; [done|]. eapply linearizes_event; [done| |].
    + unfold interleaving at 2. rewrite foldl_app. simpl. etrans.
      * eapply rtc_subrel; [|exact Hrun2]. by left.
      * eapply rtc_subrel; [|exact Hrun3]. by right.
    + unfold interleaving. by rewrite foldl_app.
Qed.

(** No thread of the pool crashes. *)
Lemma pool_no_crash s V gs i th f :
  pool_inv s V gs → cs_threads s !! i = Some th → thread_step i th s ≠ Halts (Crash f).
Proof.
  intros Hinv Hi. destruct (lookup_lt_is_Some_2 gs i) as [g Hg].
  { rewrite (pi_length _ _ _ Hinv). by eapply lookup_lt_Some. }
  pose proof (pi_thread _ _ _ Hinv _ _ _ Hi Hg) as Hf. unfold follows in Hf.
  assert (∀ Sp p r w, settled (answers Sp) p r w → match p with
    | Fail _ => False
    | ReadBlock b _ => is_Some (disk_readblock (w_disk w) b)
    | WriteBlock _ _ _ => False
    | _ => True end) as Hset.
  { intros Sp p r w Hp. destruct p; try done; pose proof (Hp _ (settled_refl _ _)) as Hp'; [done|naive_solver|done]. }
  assert (match th_prog th with
    | Fail _ => False
    | ReadBlock b _ => is_Some (disk_readblock (cs_disk s) b)
    | WriteBlock b v _ => len v = FS_BLOCKSIZE ∧ 0 ≤ b < FS_DISKSIZE
    | _ => True end) as Hsafe.
  { destruct (g_answer g) as [a|].
    - destruct Hf as [Hs%Hset _]. by destruct (th_prog th).
    - destruct Hf as [Hp _]. pose proof (pool_world_ok Hinv Hg (th := th)) as Hok.
      destruct (th_prog th); try done;
        (destruct (Hp _ (rely_refl _ _) Hok) as [(a & _ & Hs%Hset)|Hright]; [done|]); naive_solver. }
  clear Hf Hset. unfold thread_step, lock_step. intros Hst. destruct (th_prog th); repeat case_match; try done.
  destruct Hsafe as [Hv Hb]. destruct (proj2 (disk_write_dom (cs_disk s) b v Hv) Hb) as [d' Hd']. congruence.
Qed.

(** (C5) Linearizability: whatever well-formed requests come in at a file system
    in its invariant, and however the turns of their threads interleave (with
    fewer than a third of 2^32 requests), the requests are served
    as if each ran alone at one moment between its arrival and its end.  At that
    moment it changes the store and answers as the sequential
    theorems about its handler say: reads return the block of the tree, writes,
    creates and deletes change one file or one path of the tree or give its
    error, and only a write or create may fail for lack of space, when at most
    one block is left in the queue or the file or directory is full.  The disk
    always holds the store of these effects, in the invariant, with the queue
    of free blocks, and no request crashes. *)
Theorem concurrent_requests_linearizable (d : D) (V : store) (fl : list Z) (es : list event) s :
  interleaving es (start d fl) = s → fs_inv d V fl →
  (∀ stack command, Arrives stack command ∈ es → ∃ cs name, request_ok stack command cs name) →
  3 * len (cs_threads s) < hold_bound →
  (∃ a, linearizes (start d fl) V es a ∧ fs_inv (cs_disk s) (at_store a) (cs_free s)) ∧
  ∀ i th f, cs_threads s !! i = Some th → thread_step i th s ≠ Halts (Crash f).
Proof.
  intros <- Hinv Hreq Hl. destruct (interleaving_linearizes (start d fl) V es (start_at_rest d fl) Hinv Hreq Hl) as (V' & gs & Hpool & Hlin).
  split; [|intros i th f; by apply (pool_no_crash _ V' gs)]. exists (atomic_of V' gs). split; [done|].
  split; [apply Hpool| |apply Hpool]. eapply fs_wf_free_app, (pi_wf _ _ _ Hpool).
Qed.

End linear.

(** ** Concrete interleavings *)

Module LinearWitness.
Import FsCorrect.Demo ConcurrentWitness.

Lemma df_names : Forall good_name ([chars "d"] ++ [chars "f"]).
Proof. repeat constructor; by apply (bool_decide_unpack _). Qed.

Lemma request_df_ok ty t :
  ty ≠ FS_CREATE → request_ok root (request ty "/d/f" t) [chars "d"] (chars "f").
Proof.
  intros Hty. split; [|done|exact df_names|exact stack_ok|by right; right].
  split; try done. by apply (bool_decide_unpack _).
Qed.

Lemma busy_requests es stack command :
  Arrives stack command ∈ busy ++ rounds es 3 → ∃ cs name, request_ok stack command cs name.
Proof.
  intros [Hin|Hin]%elem_of_app.
  - exists [chars "d"], (chars "f"). unfold busy in Hin. rewrite !elem_of_cons, elem_of_nil in Hin.
    destruct Hin as [[= -> ->]|[[= -> ->]|[[= -> ->]|[]]]]; by apply request_df_ok.
  - exfalso. unfold rounds in Hin. apply list_elem_of_In, in_concat in Hin as (l & Hl & Hin).
    apply list_elem_of_In, elem_of_replicate in Hl as [-> _]. apply list_elem_of_In, list_elem_of_fmap in Hin as (i & [=] & _).
Qed.

(** The writer, the reader and the one who deletes, to the end: the answers of
    the threads are those of an atomic file system. *)
Lemma concurrent_requests_linearizable_witness :
  let s := after (busy ++ rounds 60 3) in
  result_of <$> cs_threads s = [Some (Done []); Some (Done (block_of "x")); Some (Done [])] ∧
  (∃ a, linearizes (start (disk_of fs3.1) fs3.2) fs3.1 (busy ++ rounds 60 3) a ∧
     fs_inv (cs_disk s) (at_store a) (cs_free s)) ∧
  ∀ i th f, cs_threads s !! i = Some th → thread_step i th s ≠ Halts (Crash f).
Proof.
  split; [vm_compute; reflexivity|].
  refine (concurrent_requests_linearizable (disk_of fs3.1) fs3.1 fs3.2 (busy ++ rounds 60 3) _ eq_refl inv3 _ _).
  - apply busy_requests.
  - vm_compute. reflexivity.
Defined.

End LinearWitness.
