(* ===== verification/FsLive.v ===== *)
(** * Requests that run at the same time come to an end

    A request waits only for locks further down in the tree, or for the readers
    of an inode it is about to change, who wait further down; so there is no
    circle of requests that wait for each other, and as long as some request has
    not ended, one can go on.  None goes on for ever, since programs are finite
    trees of accesses.  The exception is a create that finds no free block and
    leaves without giving back its lock. *)
From S2P Require Import Prelude Layout Locks Prog FileSystem FsModel FsStore FsSpec FsLocking FsInvariant FsCorrect.
From S2P Require Import FsConcurrent FsChanges FsRely FsSteps FsEffects FsPool FsLinear.
Import FileSystem LockTable.

Local Open Scope Z_scope.

(** ** Nobody goes on for ever *)

(** The programs that may be left after one access. *)
Inductive next_prog {A} : prog A → prog A → Prop :=
| next_read b k v : next_prog (k v) (ReadBlock b k)
| next_write b v k : next_prog k (WriteBlock b v k)
| next_lock op b k : next_prog k (InodeLock op b k)
| next_lock_mutex k : next_prog k (LockFreeMutex k)
| next_unlock_mutex k : next_prog k (UnlockFreeMutex k)
| next_get k l : next_prog (k l) (GetFree k)
| next_put l k : next_prog k (PutFree l k).

Lemma next_prog_wf {A} (p : prog A) : Acc next_prog p.
Proof.
  induction p as [a|e|f|b k IH|b v k IH|op b k IH|k IH|k IH|k IH|l k IH]; constructor; intros q Hq;
    inversion Hq; subst; auto.
Qed.

(** A thread moves on by an access, or gets a pointer to the mutex it wants. *)
Definition thread_lt (th' th : thread) : Prop :=
  next_prog (th_prog th') (th_prog th) ∨
  (th_prog th' = th_prog th ∧ th_sm th = None ∧ is_Some (th_sm th')).

Lemma thread_lt_wf th : Acc thread_lt th.
Proof.
  destruct th as [p sm tl]. revert sm tl. induction (next_prog_wf p) as [p _ IH].
  assert (∀ x tl, Acc thread_lt (Thread p (Some x) tl)) as Hsome.
  { intros x tl. constructor. intros [p' sm' tl'] [Hn|(_ & [=] & _)]. by apply IH. }
  intros [x|] tl; [done|]. constructor. intros [p' sm' tl'] [Hn|(Hp & _ & x & Hx)]; simpl in *; [by apply IH|].
  subst. apply Hsome.
Qed.

(** One element of a list gets smaller. *)
Definition list_lt {A} (R : A → A → Prop) (l' l : list A) : Prop :=
  ∃ i x y, l !! i = Some x ∧ R y x ∧ l' = <[i := y]> l.

Lemma list_lt_wf {A} (R : A → A → Prop) l : (∀ x, Acc R x) → Acc (list_lt R) l.
Proof.
  intros HR. induction l as [|x l IHl]; [constructor; by intros l' (i & x & y & ? & _)|].
  revert l IHl. induction (HR x) as [x _ IHx]. intros l Hl. pose proof Hl as Hl0. induction Hl as [l _ IHl].
  constructor. intros l' ([|i] & x' & y & Hi & Hy & ->); simplify_eq/=; [by apply IHx|].
  apply IHl; [by exists i, x', y|]. eapply Acc_inv; [exact Hl0|]. by exists i, x', y.
Qed.

(** ** The order of waiting *)

(** How far below the root an inode is. *)
Inductive at_depth (V : store) : Z → nat → Prop :=
| depth_root : at_depth V ROOT_INODE 0
| depth_child p n name c : at_depth V p n → child_of V p name c → at_depth V c (S n).

Lemma walk_depth V user cs b : walk_spec V user ROOT_INODE cs = inr b → at_depth V b (length cs).
Proof.
  revert b. induction cs as [|c cs IH] using rev_ind; intros b; [intros [= <-]; constructor|].
  rewrite walk_spec_snoc, length_app, Nat.add_comm. destruct (walk_spec V user ROOT_INODE cs) as [|p]; [done|].
  intros Hn. eapply depth_child; [by apply IH|by eapply next_spec_child].
Qed.

Lemma at_depth_unique V fl b n n' : fs_wf V fl → at_depth V b n → at_depth V b n' → n = n'.
Proof.
  intros Hwf Hn. revert n'. induction Hn as [|p n name c _ IH Hc]; intros n' Hn'.
  - inversion Hn' as [|p' m name' c' _ Hc']; [done|]. subst. by destruct (child_of_inode Hwf _ _ _ Hc').
  - inversion Hn' as [|p' m name' c' Hm Hc']; subst; [by destruct (child_of_inode Hwf _ _ _ Hc)|].
    destruct (child_of_parent Hwf _ _ _ _ _ Hc Hc') as [<- _]. f_equal. by apply IH.
Qed.

(** Where a thread waits: for the readers of an inode, or below the one inode
    that it has locked. *)
Definition rank (V : store) (th : thread) (n : nat) : Prop :=
  match th_prog th with
  | InodeLock (LockRead | LockUpgrade) b _ =>
      (held th = [] ∧ b = ROOT_INODE ∧ n = 0%nat) ∨
      ∃ p m d, held th = [(p, m)] ∧ at_depth V p d ∧ at_depth V b (S d) ∧ n = (2 * d + 2)%nat
  | InodeLock UpgradeToWrite b _ => ∃ d, held th = [(b, Upgrade)] ∧ at_depth V b d ∧ n = (2 * d + 1)%nat
  | _ => False
  end.

Section rank.
Context {V : store} {fl : list Z} (Hwf : fs_wf V fl).

Lemma rank_unique th n n' : rank V th n → rank V th n' → n = n'.
Proof.
  unfold rank. destruct (th_prog th) as [| | | | |[] b k| | | |]; try done.
  1,2: intros [(Hh & -> & ->)|(p & m & d & Hh & Hd & _ & ->)] [(Hh' & _ & ->)|(p' & m' & d' & Hh' & Hd' & _ & ->)];
    rewrite Hh in Hh'; simplify_eq; [done|]; by rewrite (at_depth_unique _ _ _ _ _ Hwf Hd Hd').
  intros (d & _ & Hd & ->) (d' & _ & Hd' & ->). by rewrite (at_depth_unique _ _ _ _ _ Hwf Hd Hd').
Qed.

(** What a waiting thread has locked is where it waits, or above. *)
Lemma rank_held th n b m d :
  rank V th n → (b, m) ∈ held th → at_depth V b d →
  n = (2 * d + 2)%nat ∨ (m = Upgrade ∧ n = (2 * d + 1)%nat).
Proof.
  unfold rank. destruct (th_prog th) as [| | | | |[] b' k| | | |]; try done.
  1,2: intros [(-> & _ & _)|(p & m' & d' & -> & Hd' & _ & ->)] Hm Hd;
    [by apply elem_of_nil in Hm|apply list_elem_of_singleton in Hm; simplify_eq; left];
    by rewrite (at_depth_unique _ _ _ _ _ Hwf Hd Hd').
  intros (d' & -> & Hd' & ->) Hm%list_elem_of_singleton Hd. simplify_eq. right. split; [done|].
  by rewrite (at_depth_unique _ _ _ _ _ Hwf Hd Hd').
Qed.

(** Who waits is in front of whom it waits for. *)
Lemma rank_lt ti tj n n' op b k m :
  rank V ti n → rank V tj n' → th_prog ti = InodeLock op b k →
  (b, m) ∈ held tj → conflicts op m = true → (n < n')%nat.
Proof.
  intros Hi Hj Hp Hm Hc. unfold rank in Hi. rewrite Hp in Hi. destruct op; try done.
  1,2: destruct Hi as [(_ & -> & ->)|(p & m' & d & _ & _ & Hd & ->)];
    [pose proof (rank_held _ _ _ _ _ Hj Hm (depth_root V))|pose proof (rank_held _ _ _ _ _ Hj Hm Hd)]; lia.
  destruct Hi as (d & _ & Hd & ->). destruct (rank_held _ _ _ _ _ Hj Hm Hd) as [->|[-> _]]; [lia|done].
Qed.

Lemma rank_bound ths :
  Forall (λ th, (∃ n, rank V th n) ∨ ∀ n, ¬ rank V th n) ths →
  ∃ B, ∀ th n, th ∈ ths → rank V th n → (n <= B)%nat.
Proof.
  induction 1 as [|th ths Hth _ [B HB]]; [exists 0%nat; by intros th n ?%elem_of_nil|].
  destruct Hth as [[n Hn]|Hno].
  - exists (n `max` B)%nat. intros th' n' [->|Hin]%elem_of_cons Hn'; [|specialize (HB th' n' Hin Hn'); lia].
    rewrite (rank_unique _ _ _ Hn Hn'). lia.
  - exists B. intros th' n' [->|Hin]%elem_of_cons Hn'; [by destruct (Hno n')|by eapply HB].
Qed.

End rank.

(** ** Nobody waits for ever *)

Definition has_ended (th : thread) : Prop := is_Some (result_of th).

Section waiting.
Context {D M : Type} `{DiskSpec D} `{BoostSharedMutexSpec M}.
Context {s : cstate D M} {V : store} {gs : list ghost} (Hinv : pool_inv s V gs).
Context (Hbound : 3 * len (cs_threads s) < hold_bound).

(** Suppose that nobody moves, and that who has ended has given back its locks. *)
Hypothesis Hstuck : ∀ i th, cs_threads s !! i = Some th → has_ended th ∨ thread_step i th s = Waits.
Hypothesis Hkept : ∀ i th, cs_threads s !! i = Some th → has_ended th → th_locks th = no_locks.

Lemma has_ghost j tj : cs_threads s !! j = Some tj → ∃ gj, gs !! j = Some gj.
Proof. intros Hj. apply lookup_lt_is_Some_2. rewrite (pi_length _ _ _ Hinv). by eapply lookup_lt_Some. Qed.

(** What an unfinished thread is: it has taken effect, or could, or it keeps to
    the order of the tree. *)
Lemma thread_cases j tj gj :
  cs_threads s !! j = Some tj → gs !! j = Some gj →
  (∃ a, settled (answers a) (th_prog tj) (own_of tj gj) (world_of s V)) ∨
  (g_answer gj = None ∧
   match th_prog tj with
   | InodeLock op b _ =>
       downwards op b (own_of tj gj) (world_of s V) ∧ ∃ h, hold_step op b (held tj) = LkDone h
   | _ => True
   end).
Proof.
  intros Hj Hg. pose proof (pi_thread _ _ _ Hinv _ _ _ Hj Hg) as Hf. unfold follows in Hf.
  destruct (g_answer gj) as [a|] eqn:Ha; [left; by exists a; apply Hf|]. destruct Hf as [Hp _].
  pose proof (pool_world_ok Hinv Hg (th := tj)) as Hok.
  destruct (th_prog tj) as [| | | | |op b k| | | |] eqn:Hprog; try by right.
  destruct (Hp _ (rely_refl _ _) Hok) as [(a & _ & Hs)|(_ & Hd & h & Hh & _)]; [left; eauto|right; eauto].
Qed.

Lemma settled_lock_now {A} (Q : outcome A → own → world D → Prop) op b k r w :
  settled Q (InodeLock op b k) r w → leaves op b r ∧ ∃ h, hold_step op b (o_held r) = LkDone h.
Proof. intros Hs. destruct (Hs _ (settled_refl _ _)) as (Hl & h & Hh & _). eauto. Qed.

(** A thread is not in its own way. *)
Lemma lock_done j tj op b k :
  cs_threads s !! j = Some tj → th_prog tj = InodeLock op b k → ∃ h, hold_step op b (held tj) = LkDone h.
Proof.
  intros Hj Hp. destruct (has_ghost j tj Hj) as [gj Hg].
  destruct (thread_cases j tj gj Hj Hg) as [[a Hs]|[_ Hc]]; rewrite Hp in *; [|by destruct Hc].
  by apply settled_lock_now in Hs as [_ Hs].
Qed.

Lemma lock_orderly j tj op b k :
  cs_threads s !! j = Some tj → th_prog tj = InodeLock op b k → waits_orderly op (th_locks tj) = true.
Proof.
  intros Hj Hp. destruct (lock_done j tj op b k Hj Hp) as [h Hh].
  destruct (rs_thread _ (pi_respects _ _ _ Hinv) _ _ Hj) as [Hg _ _]. rewrite Hp in Hg.
  apply guarantee_lock_inv in Hg as [_ Hg]. by apply (Hg h).
Qed.

(** The owner of the mutex of the free list goes on. *)
Lemma no_owner j tj : cs_threads s !! j = Some tj → tl_free (th_locks tj) = false.
Proof.
  intros Hj. destruct (tl_free (th_locks tj)) eqn:Hfree; [|done]. exfalso.
  pose proof (pi_respects _ _ _ Hinv) as Hr.
  destruct (Hstuck j tj Hj) as [He|Hw]; [by rewrite (Hkept j tj Hj He) in Hfree|].
  destruct (waits_for_thread s j tj Hr Hj Hbound Hw) as (k & tk & _ & Hway & _). unfold in_the_way in Hway.
  destruct (rs_thread _ Hr _ _ Hj) as [Hg _ _].
  destruct (th_prog tj) as [| | | | |op b p|p| | |] eqn:Hp; try done.
  - destruct Hway as (m & _ & Hc). pose proof (lock_orderly j tj op b p Hj Hp) as Ho.
    destruct op; simpl in *; try done; by rewrite Hfree in Ho.
  - destruct Hg as [Hg _]. congruence.
Qed.

(** So everybody who waits, waits for an inode that an unfinished thread has locked. *)
Lemma waits_for_inode i th :
  cs_threads s !! i = Some th → ¬ has_ended th →
  ∃ op b k j tj m, th_prog th = InodeLock op b k ∧ cs_threads s !! j = Some tj ∧ ¬ has_ended tj ∧
    (b, m) ∈ held tj ∧ conflicts op m = true.
Proof.
  intros Hi Hne. destruct (Hstuck i th Hi) as [?|Hw]; [done|].
  destruct (waits_for_thread s i th (pi_respects _ _ _ Hinv) Hi Hbound Hw) as (j & tj & Hj & Hway & _).
  unfold in_the_way in Hway. destruct (th_prog th) as [| | | | |op b k|p| | |] eqn:Hp; try done.
  - destruct Hway as (m & Hm & Hc). exists op, b, k, j, tj, m. split_and!; [done..| |done|done].
    intros He. unfold held in Hm. rewrite (Hkept j tj Hj He) in Hm. by apply elem_of_nil in Hm.
  - pose proof (no_owner j tj Hj). congruence.
Qed.

(** Readers of an inode do not wait for readers. *)
Lemma reader_asks_new j tj op b k x :
  cs_threads s !! j = Some tj → th_prog tj = InodeLock op b k → (x, Shared) ∈ held tj → op ≠ UpgradeToWrite.
Proof.
  intros Hj Hp Hx ->. pose proof (lock_orderly j tj _ b k Hj Hp) as Ho. simpl in Ho.
  apply andb_true_iff in Ho as [_ Ho]. rewrite forallb_forall in Ho. by specialize (Ho _ (proj1 (list_elem_of_In _ _) Hx)).
Qed.

(** Nobody waits who has taken effect, or could. *)
Lemma settled_not_waiting i th g a :
  cs_threads s !! i = Some th → gs !! i = Some g → ¬ has_ended th →
  ¬ settled (answers a) (th_prog th) (own_of th g) (world_of s V).
Proof.
  intros Hi Hg Hne Hs. destruct (waits_for_inode i th Hi Hne) as (op & b & k & j & tj & m & Hp & Hj & Hnej & Hm & Hc).
  rewrite Hp in Hs. apply settled_lock_now in Hs as [Hl _].
  destruct op; try done. destruct m; try done. simpl in Hl.
  assert (V !! b = None) as Hb.
  { apply (free_blocks_apart Hinv Hi Hg), elem_of_app. right. apply list_elem_of_fmap. exists (b, b). split; [done|].
    apply list_elem_of_bind. exists g. split; [done|]. by eapply list_elem_of_lookup_2. }
  destruct (waits_for_inode j tj Hj Hnej) as (op' & b' & k' & _ & _ & m' & Hp' & _ & _ & _ & Hc').
  pose proof (reader_asks_new j tj op' b' k' b Hj Hp' Hm) as Hop.
  destruct (has_ghost j tj Hj) as [gj Hgj]. pose proof (pi_thread _ _ _ Hinv _ _ _ Hj Hgj) as Hf. unfold follows in Hf.
  destruct (g_answer gj) as [aj|].
  - destruct Hf as [Hf _]. rewrite Hp' in Hf. apply settled_lock_now in Hf as [Hl' _].
    by destruct op'.
  - destruct Hf as [_ Hf]. destruct (Hf b Shared Hm) as [ib Hib]. simpl in Hib. congruence.
Qed.

Lemma unfinished_rank i th : cs_threads s !! i = Some th → ¬ has_ended th → ∃ n, rank V th n.
Proof.
  intros Hi Hne. destruct (has_ghost i th Hi) as [g Hg].
  destruct (waits_for_inode i th Hi Hne) as (op & b & k & _ & _ & m & Hp & _ & _ & _ & Hc).
  destruct (thread_cases i th g Hi Hg) as [[a Hs]|[_ Hd]]; [by destruct (settled_not_waiting i th g a Hi Hg Hne)|].
  rewrite Hp in Hd. destruct Hd as [Hd _]. unfold rank. rewrite Hp. unfold downwards, o_held in Hd. simpl in Hd.
  destruct op; try done.
  1,2: destruct Hd as [[Hh ->]|(p & m' & nm & Hh & (user & cs & Hw) & Hch)];
    [exists 0%nat; by left|apply walk_depth in Hw; exists (2 * length cs + 2)%nat; right];
    exists p, m', (length cs); split_and!; [done..|by apply (depth_child V p _ nm)|done].
  destruct Hd as [Hh (user & cs & Hw)]. apply walk_depth in Hw. eauto.
Qed.

Lemma ended_no_rank th n : has_ended th → ¬ rank V th n.
Proof. intros [o Ho] Hr. unfold result_of, rank in *. by destruct (th_prog th). Qed.

Lemma has_ended_dec th : Decision (has_ended th).
Proof. unfold has_ended. apply _. Qed.

Lemma all_ended i th : cs_threads s !! i = Some th → has_ended th.
Proof.
  intros Hi. destruct (has_ended_dec th) as [?|Hne]; [done|]. exfalso. pose proof (pi_wf _ _ _ Hinv) as Hwf.
  assert (∀ k, ∃ j tj n, cs_threads s !! j = Some tj ∧ ¬ has_ended tj ∧ rank V tj n ∧ (k <= n)%nat) as Hhigh.
  { intros k; induction k as [|k (j & tj & n & Hj & Hnej & Hn & Hle)].
    - destruct (unfinished_rank i th Hi Hne) as [n Hn]. exists i, th, n. split_and!; [done..|lia].
    - destruct (waits_for_inode j tj Hj Hnej) as (op & b & p & j' & tj' & m & Hp & Hj' & Hne' & Hm & Hc).
      destruct (unfinished_rank j' tj' Hj' Hne') as [n' Hn']. exists j', tj', n'. split_and!; [done..|].
      pose proof (rank_lt Hwf _ _ _ _ _ _ _ _ Hn Hn' Hp Hm Hc). lia. }
  destruct (rank_bound Hwf (cs_threads s)) as [B HB].
  { apply Forall_forall. intros tj [j Hj]%list_elem_of_lookup. destruct (has_ended_dec tj) as [He|Hne'].
    - right. intros n. by apply ended_no_rank.
    - left. by eapply unfinished_rank. }
  destruct (Hhigh (S B)) as (j & tj & n & Hj & _ & Hn & Hle).
  pose proof (HB tj n (list_elem_of_lookup_2 _ _ _ Hj) Hn). lia.
Qed.

End waiting.

(** ** Every request is answered *)

Section live.
Context {D M : Type} `{DiskSpec D} `{BoostSharedMutexSpec M}.
Implicit Types (s : cstate D M) (th : thread).

(** Thread [i] can go on. *)
Definition can_move s (i : nat) : Prop :=
  ∃ th s', cs_threads s !! i = Some th ∧ thread_step i th s = Steps s'.

#[local] Instance can_move_dec s i : Decision (can_move s i).
Proof.
  unfold can_move. destruct (cs_threads s !! i) as [th|] eqn:Hi; [|right; by intros (th & s' & Hi' & _)].
  destruct (thread_step i th s) as [s'| |o|] eqn:Hst; [left; by exists th, s'|right..];
    intros (th' & s' & [= <-] & Hst'); congruence.
Defined.

(** A create that found no free block left with the lock of its directory. *)
Definition kept_lock s : Prop :=
  ∃ i th b, cs_threads s !! i = Some th ∧
    result_of th = Some (Exn "Not enough disk space for create"%string) ∧ held th = [(b, Upgrade)].

Definition all_ended_or_kept s : Prop :=
  (∀ i th, cs_threads s !! i = Some th → has_ended th) ∨ kept_lock s.

Lemma ended_locks s i th :
  respects s → cs_threads s !! i = Some th → has_ended th → (∀ f, result_of th ≠ Some (Crash f)) →
  th_locks th = no_locks ∨ kept_lock s.
Proof.
  intros Hr Hi [o Ho] Hcr. destruct (rs_thread _ Hr _ _ Hi) as [Hg _ _]. unfold result_of in *.
  destruct (th_prog th) as [a|e|f| | | | | | |] eqn:Hp; simplify_eq/=; [| |by destruct (Hcr f)].
  - destruct Hg as [Hg|[[=] _]]. by left.
  - destruct Hg as [Hg|[[= ->] [b Hb]]]; [by left|right]. exists i, th, b. unfold result_of, held. by rewrite Hp, Hb.
Qed.

Lemma ended_locks_all s :
  respects s → (∀ i th f, cs_threads s !! i = Some th → result_of th ≠ Some (Crash f)) →
  (∀ i th, cs_threads s !! i = Some th → has_ended th → th_locks th = no_locks) ∨ kept_lock s.
Proof.
  intros Hr Hcr.
  assert (Forall (λ th, (has_ended th → th_locks th = no_locks) ∨ kept_lock s) (cs_threads s)) as Hall.
  { apply Forall_forall. intros th [i Hi]%list_elem_of_lookup.
    destruct (decide (is_Some (result_of th))) as [He|Hne]; [|by left].
    destruct (ended_locks s i th Hr Hi He (λ f, Hcr i th f Hi)); auto. }
  assert (∀ ths, Forall (λ th, (has_ended th → th_locks th = no_locks) ∨ kept_lock s) ths →
    Forall (λ th, has_ended th → th_locks th = no_locks) ths ∨ kept_lock s) as Hor.
  { induction 1 as [|th ths [Hth|?] _ [IH|?]]; auto. }
  destruct (Hor _ Hall) as [Hno|]; [left|by right]. intros i th Hi. by apply (Forall_lookup_1 _ _ _ _ Hno Hi).
Qed.

(** No deadlock. *)
Lemma pool_progress s V gs :
  pool_inv s V gs → 3 * len (cs_threads s) < hold_bound →
  (∃ i, can_move s i) ∨ all_ended_or_kept s.
Proof.
  intros Hinv Hl. pose proof (pi_respects _ _ _ Hinv) as Hr. pose proof (pool_no_crash s V gs) as Hcr.
  destruct (decide (Exists (can_move s) (seq 0 (length (cs_threads s))))) as [Hm|Hno].
  { left. apply Exists_exists in Hm as (i & _ & Hm). eauto. }
  right. rewrite Exists_exists in Hno.
  destruct (ended_locks_all s Hr) as [Hkept|]; [|left|by right].
  { intros i th f Hi Ho. apply (Hcr i th f Hinv Hi). unfold result_of, thread_step in *.
    by destruct (th_prog th); simplify_eq. }
  apply (all_ended Hinv Hl); [|done]. intros i th Hi. pose proof (thread_step_respects Hr Hi Hl) as Hst.
  destruct (thread_step i th s) as [s'| |o|] eqn:Hx; [|by right| |done].
  - destruct Hno. exists i. split; [|by exists th, s']. apply elem_of_seq. apply lookup_lt_Some in Hi. lia.
  - left. unfold has_ended, result_of. unfold thread_step, lock_step in Hx.
    destruct (th_prog th) eqn:Hp; repeat case_match; simplify_eq; eauto;
      destruct (Hcr i th DiskFailure Hinv Hi); unfold thread_step; rewrite Hp; by case_match.
Qed.

(** Every run of turns ends. *)
Definition moves_to s s' : Prop := ∃ i th, cs_threads s !! i = Some th ∧ thread_step i th s = Steps s'.

Lemma thread_step_lt i th s s' :
  cs_threads s !! i = Some th → thread_step i th s = Steps s' → list_lt thread_lt (cs_threads s') (cs_threads s).
Proof.
  intros Hi Hst. exists i, th. unfold thread_step, lock_step in Hst. unfold thread_lt.
  destruct (th_prog th) eqn:Hp; repeat case_match; simplify_eq/=;
    (eexists; split; [done|]; split; [|done]; simpl; rewrite ?Hp); try (left; by constructor); right; eauto.
Qed.

Lemma moves_wf s : Acc (λ s2 s1, moves_to s1 s2) s.
Proof.
  remember (cs_threads s) as ths eqn:Hths. revert s Hths.
  induction (list_lt_wf thread_lt ths thread_lt_wf) as [ths _ IH]. intros s ->. constructor.
  intros s' (i & th & Hi & Hst). by eapply IH; [eapply thread_step_lt|].
Qed.

Lemma turns_length ts s : length (cs_threads (interleaving (Turn <$> ts) s)) = length (cs_threads s).
Proof.
  revert s. induction ts as [|i ts IH]; intros s; [done|]. simpl. rewrite IH.
  destruct (cs_threads s !! i) as [th|]; [|done]. simpl. destruct (thread_step i th s) as [s'| | |] eqn:Hst; try done.
  by eapply thread_step_length.
Qed.

(** Requests that come in at a file system in its invariant. *)
Section requests.
Context {s0 : cstate D M} {V : store} (Hrest : at_rest s0) (Hinv : fs_inv (cs_disk s0) V (cs_free s0)).

Definition well_formed_requests (es : list event) : Prop :=
  ∀ stack command, Arrives stack command ∈ es → ∃ cs name, request_ok stack command cs name.

Lemma turns_well_formed es ts : well_formed_requests es → well_formed_requests (es ++ (Turn <$> ts)).
Proof.
  intros Hreq stack command [Hin|(i & [=] & _)%list_elem_of_fmap]%elem_of_app. by eapply Hreq.
Qed.

Lemma interleaving_progress es :
  well_formed_requests es → 3 * len (cs_threads (interleaving es s0)) < hold_bound →
  (∃ i, can_move (interleaving es s0) i) ∨
  all_ended_or_kept (interleaving es s0).
Proof.
  intros Hreq Hl. destruct (interleaving_linearizes s0 V es Hrest Hinv Hreq Hl) as (V' & gs & Hpool & _).
  by eapply pool_progress.
Qed.

Lemma interleaving_turns es ts :
  interleaving (Turn <$> ts) (interleaving es s0) = interleaving (es ++ (Turn <$> ts)) s0.
Proof. unfold interleaving. by rewrite foldl_app. Qed.

Lemma run_to_the_end es :
  well_formed_requests es → 3 * len (cs_threads (interleaving es s0)) < hold_bound →
  ∃ ts, all_ended_or_kept (interleaving (Turn <$> ts) (interleaving es s0)).
Proof.
  remember (interleaving es s0) as s eqn:Hs. intros Hreq Hl. revert es Hs Hreq Hl.
  induction (moves_wf s) as [s _ IH]. intros es -> Hreq Hl.
  destruct (interleaving_progress es Hreq Hl) as [(i & th & s' & Hi & Hst)|]; [|by exists []].
  assert (interleaving (es ++ (Turn <$> [i])) s0 = s') as Hs'.
  { rewrite <-interleaving_turns. simpl. rewrite Hi. simpl. by rewrite Hst. }
  destruct (IH s') with (es := es ++ (Turn <$> [i])) as [ts Hts]; [by exists i, th|done|by apply turns_well_formed| |].
  - unfold len in *. by rewrite (thread_step_length _ _ _ _ Hst).
  - exists (i :: ts). simpl. rewrite Hi. simpl. by rewrite Hst.
Qed.

End requests.

(** (C6) Every request is answered: whatever well-formed requests come in at a
    file system in its invariant, and however the turns of their threads have
    interleaved so far (with fewer than a third of 2^32 requests),
    they are not deadlocked: some thread can go on, or all have ended; no run
    of turns goes on for ever; and the threads can take turns until all have
    ended.  The one exception is a create that found no free block and kept the
    lock of its directory, for which others may then wait for ever. *)
Theorem concurrent_requests_answered (d : D) (V : store) (fl : list Z) (es : list event) s :
  interleaving es (start d fl) = s → fs_inv d V fl → well_formed_requests es →
  3 * len (cs_threads s) < hold_bound →
  ((∃ i, can_move s i) ∨ all_ended_or_kept s) ∧
  Acc (λ s2 s1, moves_to s1 s2) s ∧
  ∃ ts, all_ended_or_kept (interleaving (Turn <$> ts) s).
Proof.
  intros <- Hinv Hreq Hl. pose proof (start_at_rest (M := M) d fl) as Hrest.
  split; [by eapply interleaving_progress|]. split; [apply moves_wf|by eapply run_to_the_end].
Qed.

End live.

(** ** A concrete interleaving *)

Module LiveWitness.
Import FsCorrect.Demo ConcurrentWitness LinearWitness.

(** In the middle, where two of the three threads wait. *)
Lemma concurrent_requests_answered_witness :
  (λ i, is_waiting i busy_state) <$> [0; 1; 2]%nat = [true; false; true] ∧
  ((∃ i, can_move busy_state i) ∨ all_ended_or_kept busy_state) ∧
  Acc (λ s2 s1, moves_to s1 s2) busy_state ∧
  ∃ ts, all_ended_or_kept (interleaving (Turn <$> ts) busy_state).
Proof.
  split; [vm_compute; reflexivity|].
  refine (concurrent_requests_answered (disk_of fs3.1) fs3.1 fs3.2 (busy ++ rounds 14 3) busy_state eq_refl inv3 _ _).
  - exact (busy_requests 14).
  - vm_compute. reflexivity.
Defined.

(** A state in which a lock was kept. *)
Example full_disk_keeps :
  kept_lock (interleaving
    ([Arrives root (request FS_CREATE "/d/g" type_file)] ++ rounds 40 1) (start (M := rwstate) (disk_of fs3.1) [])).
Proof. eexists 0%nat, _, 1. split; [vm_compute; reflexivity|]. by split. Qed.

End LiveWitness.
