(* ===== verification/Request.v ===== *)
(** * Parsing requests

    [NetworkServer::parse_command], [parse_message] and [is_valid_pathname] of
    [filesys/network_server.cpp], on the C++ input stream they read the
    request from, with [std::stoul] and its wrap-around. *)
From S2P Require Import Prelude Layout Prog FileSystem FsModel FsPaths FsSpec.
Import Path FileSystem.

Local Open Scope Z_scope.

(** [13 (max command) + max username + max pathname + 3 + 3 + 1] *)
Definition MAX_MESSAGE_SIZE : Z := FS_MAXUSERNAME + FS_MAXPATHNAME + 20.

(** ** Streams *)

(** [std::isspace] in the C locale: tab, newline, vertical tab, form feed,
    carriage return, space. *)
Definition is_space (c : ascii) : bool :=
  let z := Z_of_ascii c in ((9 <=? z) && (z <=? 13)) || (z =? 32).

Fixpoint skip_space (s : bytes) : bytes :=
  match s with
  | [] => []
  | c :: s' => if is_space c then skip_space s' else s
  end.

(** The characters up to the next white space, and the rest. *)
Fixpoint span_word (s : bytes) : bytes * bytes :=
  match s with
  | [] => ([], [])
  | c :: s' =>
      if is_space c then ([], s)
      else let '(w, r) := span_word s' in (c :: w, r)
  end.

(** [iss >> word] on an empty string [word]: it stays empty when the stream
    has no more words (the stream has then failed, and so do later reads). *)
Definition read_word (s : bytes) : bytes * bytes := span_word (skip_space s).

(** [iss >> c]: [None] when the stream has failed, which leaves [c] alone. *)
Definition read_char (s : bytes) : option ascii * bytes :=
  match skip_space s with
  | [] => (None, [])
  | c :: s' => (Some c, s')
  end.

(** ** [std::stoul] *)

Definition is_digit (c : ascii) : bool := let z := Z_of_ascii c in (48 <=? z) && (z <=? 57).

Fixpoint span_digits (s : bytes) : bytes :=
  match s with
  | [] => []
  | c :: s' => if is_digit c then c :: span_digits s' else []
  end.

Definition digits_value (ds : bytes) : Z :=
  foldl (λ n c, 10 * n + (Z_of_ascii c - 48)) 0 ds.

Definition ULONG_MAX : Z := 2 ^ 64 - 1.

(** [strtoul] in base 10 reads white space, a sign, digits, and ignores what
    follows; a minus sign negates modulo [2^64].  [stoul] throws when there is
    no digit or the value is out of range. *)
Definition stoul (s : bytes) : prog Z :=
  let s := skip_space s in
  let '(neg, s) := match s with
                   | c :: s' => if Ascii.eqb c "-"%char then (true, s')
                                else if Ascii.eqb c "+"%char then (false, s') else (false, s)
                   | [] => (false, [])
                   end in
  match span_digits s with
  | [] => Throw "stoul"
  | ds =>
      let v := digits_value ds in
      if ULONG_MAX <? v then Throw "stoul"
      else Ret (if neg : bool then (- v) `mod` 2 ^ 64 else v)
  end.

(** ** Signed numbers *)

Definition INT_MAX : Z := 2 ^ 31 - 1.
Definition is_int (z : Z) : bool := (- 2 ^ 31 <=? z) && (z <=? INT_MAX).

(** An optional sign, and what follows it. *)
Definition read_sign (s : bytes) : bool * bytes :=
  match s with
  | c :: s' => if Ascii.eqb c "-" then (true, s') else if Ascii.eqb c "+" then (false, s') else (false, s)
  | [] => (false, [])
  end.

(** The number that [strtol] reads in base 10; [None] without a digit. *)
Definition read_integer (s : bytes) : option Z :=
  let '(negative, s) := read_sign (skip_space s) in
  match span_digits s with
  | [] => None
  | ds => Some (if negative then - digits_value ds else digits_value ds)
  end.

(** [std::stoi]: [std::invalid_argument] is [None], [std::out_of_range] [Some None]. *)
Definition stoi (s : bytes) : option (option Z) :=
  n ← read_integer s; Some (if is_int n then Some n else None).

(** [atoi]: 0 without a number; a number out of range is undefined ([None]). *)
Definition atoi (s : bytes) : option Z :=
  match read_integer s with
  | None => Some 0
  | Some n => if is_int n then Some n else None
  end.

(** ** [NetworkServer] *)

Definition parse_command (command_str : bytes) : CommandType :=
  if decide (command_str = chars "FS_READBLOCK") then FS_READBLOCK
  else if decide (command_str = chars "FS_WRITEBLOCK") then FS_WRITEBLOCK
  else if decide (command_str = chars "FS_CREATE") then FS_CREATE
  else if decide (command_str = chars "FS_DELETE") then FS_DELETE
  else INVALID.

(** [for (i = 0; i < size - 1; ++i)]: two slashes in a row or white space,
    where the last character is not looked at by itself. *)
Fixpoint bad_inside (s : bytes) : bool :=
  match s with
  | x :: ((y :: _) as s') =>
      (Ascii.eqb x slash && Ascii.eqb y slash) || is_space x || bad_inside s'
  | _ => false
  end.

Definition bad_component (component : bytes) : bool :=
  bool_decide (component = []) || (FS_MAXFILENAME <? len component).

Definition is_valid_pathname (pathname : bytes) : prog bool :=
  _ ← assert_ (negb (bool_decide (pathname = [])));
  Ret (
    if FS_MAXPATHNAME <? len pathname then false
    else if negb (bool_decide (head pathname = Some slash)) then false
    else if bool_decide (last pathname = Some slash) then false
    else if bad_inside pathname then false
    else negb (existsb bad_component (getlines slash (tail pathname)))).

(** Throwing unless [c]. *)
Definition require (c : bool) (error : string) : prog unit :=
  if c then Ret () else Throw error.

Definition with_block (c : Command) (b : Z) : Command :=
  mkCommand (command_type c) (username c) (pathname c) b (cmd_type c) (cmd_data c).

Definition with_type (c : Command) (t : ascii) : Command :=
  mkCommand (command_type c) (username c) (pathname c) (cmd_block c) t (cmd_data c).

(** The block number of a read or write request. *)
Definition parse_block (s : bytes) : prog (Z * bytes) :=
  let '(block_str, s) := read_word s in
  _ ← require (negb (bool_decide (block_str = []))) "Error: Block number is empty";
  _ ← require (negb ((1 <? len block_str) && bool_decide (head block_str = Some "0"%char)))
        "Error: Block number has a leading zero";
  v ← stoul block_str;
  let b := wrap32 v in
  _ ← require (b <? FS_MAXFILEBLOCKS) "Error: Block number exceeds FS_MAXFILEBLOCKS";
  Ret (b, s).

(** [stack] is the uninitialised [Command command] the fields are read into. *)
Definition parse_message (stack : Command) (request_str : bytes) : prog Command :=
  let '(command_str, s) := read_word request_str in
  let '(user, s) := read_word s in
  let '(path, s) := read_word s in
  _ ← assert_ (negb (bool_decide (command_str = [])));
  _ ← require (negb (bool_decide (user = []))) "Error: Username is empty";
  _ ← require (len user <=? FS_MAXUSERNAME) "Error: Username too long";
  _ ← require (negb (bool_decide (path = []))) "Error: Pathname is empty";
  valid ← is_valid_pathname path;
  _ ← require valid "Error: Pathname is invalid";
  let ty := parse_command command_str in
  let command := mkCommand ty user path (cmd_block stack) (cmd_type stack) (cmd_data stack) in
  '(command, s) ←
    (if bool_decide (ty = FS_READBLOCK) || bool_decide (ty = FS_WRITEBLOCK)
     then '(b, s) ← parse_block s; Ret (with_block command b, s)
     else Ret (command, s));
  '(command, s) ←
    (if bool_decide (ty = FS_CREATE)
     then
       let '(t, s) := read_char s in
       let command := match t with Some t => with_type command t | None => command end in
       _ ← require (Ascii.eqb (cmd_type command) type_file || Ascii.eqb (cmd_type command) type_dir)
             "Error: Command type is not 'f' or 'd'";
       Ret (command, s)
     else Ret (command, s));
  let '(temp, _) := read_word s in
  _ ← require (bool_decide (temp = [])) "Error: Request contains too many arguments";
  Ret command.

(** ** Valid paths *)

(** A word of the stream: not empty, no white space. *)
Definition is_word (w : bytes) : Prop := w ≠ [] ∧ Forall (λ c, is_space c = false) w.

Lemma getlines_no_delim d s c : c ∈ getlines d s → d ∉ c.
Proof.
  revert c; induction s as [|x s IH]; intros c; simpl; [by intros ?%elem_of_nil|].
  destruct (Ascii.eqb_spec x d) as [->|Hx].
  - intros [->|?]%elem_of_cons; [by intros ?%elem_of_nil|by apply IH].
  - destruct (getlines d s) as [|t ts].
    + intros ->%list_elem_of_singleton. by intros ->%list_elem_of_singleton.
    + intros [->|Hc]%elem_of_cons; [|apply IH; by right].
      intros [->|Ht]%elem_of_cons; [done|]. by eapply (IH t); [left|].
Qed.

Lemma getlines_nil d s : getlines d s = [] → s = [].
Proof. destruct s as [|x s]; simpl; [done|]. case_match; [done|]. by case_match. Qed.

(** Gluing the pieces together again. *)
Lemma path_of_getlines t :
  t ≠ [] → last t ≠ Some slash → path_of (getlines slash t) = slash :: t.
Proof.
  induction t as [|c t IH]; [done|]. intros _ Hlast. simpl.
  destruct (decide (t = [])) as [->|Ht].
  - simpl. destruct (Ascii.eqb_spec c slash) as [->|]; [done|]. done.
  - rewrite last_cons in Hlast. destruct (last t) as [x|] eqn:Hx; [|by apply last_None in Hx].
    specialize (IH Ht ltac:(congruence)). destruct (Ascii.eqb_spec c slash) as [->|Hc].
    + by rewrite path_of_cons, IH.
    + destruct (getlines slash t) as [|u us] eqn:Hg; [by apply getlines_nil in Hg|].
      rewrite path_of_cons in *. injection IH as IH. simpl. by rewrite IH.
Qed.

Lemma bad_inside_cons x s :
  bad_inside (x :: s) =
  match s with
  | [] => false
  | y :: _ => (Ascii.eqb x slash && Ascii.eqb y slash) || is_space x || bad_inside s
  end.
Proof. by destruct s. Qed.

Lemma bad_inside_component c s :
  c ≠ [] → slash ∉ c → Forall (λ c, is_space c = false) c →
  bad_inside (c ++ s) = match s with [] => false | _ => bad_inside s end.
Proof.
  induction c as [|x c IH]; [done|]. intros _ [Hx Hc]%not_elem_of_cons [Hsx Hsc]%Forall_cons.
  simpl app. rewrite bad_inside_cons.
  destruct (decide (c = [])) as [->|Hne].
  - simpl. destruct s as [|y s']; [done|]. by rewrite (proj2 (Ascii.eqb_neq _ _)), Hsx by done.
  - specialize (IH Hne Hc Hsc). destruct (c ++ s) as [|y r] eqn:Hr; [by destruct c|].
    by rewrite (proj2 (Ascii.eqb_neq _ _)), Hsx, IH by done.
Qed.

Lemma bad_inside_path cs :
  Forall good_name cs → Forall (Forall (λ c, is_space c = false)) cs → bad_inside (path_of cs) = false.
Proof.
  induction cs as [|c cs IH]; [done|]. intros [Hc Hcs]%Forall_cons [Sc Scs]%Forall_cons.
  destruct Hc as (Hne & Hslash & _). rewrite path_of_cons, bad_inside_cons.
  destruct c as [|x c]; [done|]. simpl app. cbv iota.
  rewrite andb_comm, (proj2 (Ascii.eqb_neq x slash)) by (by intros ->; apply Hslash; left).
  change (is_space slash) with false. rewrite !orb_false_l.
  rewrite (app_comm_cons c _ x), bad_inside_component by done.
  destruct (path_of cs) eqn:Hp; [done|]. by apply IH.
Qed.

Lemma no_space_path cs :
  Forall (λ c, is_space c = false) (path_of cs) ↔ Forall (Forall (λ c, is_space c = false)) cs.
Proof.
  induction cs as [|c cs IH]; [done|]. rewrite path_of_cons, !Forall_cons, Forall_app, IH.
  intuition.
Qed.

Lemma nul_path cs : NUL ∉ path_of cs ↔ Forall (λ c, NUL ∉ c) cs.
Proof.
  induction cs as [|c cs IH]; [split; [done|by intros _ ?%elem_of_nil]|].
  rewrite path_of_cons, not_elem_of_cons, not_elem_of_app, Forall_cons, IH. intuition done.
Qed.

Lemma good_components t :
  NUL ∉ t → t ≠ [] → last t ≠ Some slash →
  existsb bad_component (getlines slash t) = negb (bool_decide (Forall good_name (getlines slash t))).
Proof.
  intros Hnul Ht Hl. pose proof (path_of_getlines t Ht Hl) as Hp.
  assert (Forall (λ c, NUL ∉ c) (getlines slash t)) as Hn.
  { apply nul_path. rewrite Hp. by intros [?|?]%elem_of_cons. }
  pose proof (getlines_no_delim slash t) as Hd. revert Hn Hd. generalize (getlines slash t).
  induction l as [|c cs IH]; [done|]. intros [Hc Hcs]%Forall_cons Hd. simpl.
  rewrite IH by (done || intros x Hx; apply Hd; by right).
  specialize (Hd c ltac:(by left)). unfold bad_component.
  destruct (decide (good_name c)) as [Hg|Hg].
  - rewrite bool_decide_eq_false_2 by apply Hg. pose proof Hg as (_ & _ & _ & Hlen).
    rewrite (proj2 (Z.ltb_ge _ _)) by done. simpl. f_equal. apply bool_decide_ext.
    rewrite Forall_cons. tauto.
  - rewrite (bool_decide_eq_false_2 (Forall good_name (c :: cs))) by (by intros [? _]%Forall_cons).
    simpl. apply orb_true_iff. left. destruct (bool_decide (c = [])) eqn:Hc0; [done|].
    apply bool_decide_eq_false in Hc0. apply Z.ltb_lt. unfold good_name in Hg.
    apply Z.nle_gt. intros Hlen. by apply Hg.
Qed.

(** What [is_valid_pathname] accepts, of words without NUL. *)
Lemma is_valid_pathname_spec p :
  is_word p → NUL ∉ p →
  is_valid_pathname p = Ret (bool_decide (len p ≤ FS_MAXPATHNAME) &&
    bool_decide (head p = Some slash) && bool_decide (Forall good_name (getlines slash (tail p))) &&
    negb (bool_decide (last p = Some slash))).
Proof.
  intros [Hne Hsp] Hnul. unfold is_valid_pathname.
  rewrite assert_bind by (by rewrite bool_decide_eq_false_2). f_equal.
  destruct (Z.ltb_spec FS_MAXPATHNAME (len p)).
  { by rewrite (bool_decide_eq_false_2 (len p ≤ _)) by lia. }
  rewrite (bool_decide_eq_true_2 (len p ≤ _)) by lia. simpl.
  destruct (bool_decide (head p = Some slash)) eqn:Hh; simpl; [|done].
  apply bool_decide_eq_true in Hh. destruct p as [|x t]; [done|]. simpl in Hh. injection Hh as ->. simpl tail.
  destruct (bool_decide (last (slash :: t) = Some slash)) eqn:Hl; cbn [negb].
  { by rewrite andb_false_r. }
  rewrite andb_true_r. apply bool_decide_eq_false in Hl.
  assert (t ≠ []) as Ht by (by intros ->).
  assert (last t ≠ Some slash) as Hlt by (rewrite last_cons in Hl; by destruct (last t)).
  pose proof (path_of_getlines t Ht Hlt) as Hpath.
  rewrite good_components by (done || by apply not_elem_of_cons in Hnul as [_ ?]).
  rewrite negb_involutive. destruct (bool_decide (Forall good_name (getlines slash t))) eqn:Hg.
  - apply bool_decide_eq_true in Hg. rewrite <-Hpath, bad_inside_path; [done|done|].
    apply no_space_path. by rewrite Hpath.
  - by case_match.
Qed.

(** A path is valid when it consists of good components, at least one. *)
Lemma valid_path p :
  is_word p → NUL ∉ p →
  is_valid_pathname p = Ret true ↔
  len p ≤ FS_MAXPATHNAME ∧ ∃ cs name, p = path_of (cs ++ [name]) ∧ Forall good_name (cs ++ [name]).
Proof.
  intros Hw Hnul. rewrite is_valid_pathname_spec by done. split.
  - intros [= Hv]. rewrite !andb_true_iff, negb_true_iff, !bool_decide_eq_true, bool_decide_eq_false in Hv.
    destruct Hv as (((Hlen & Hh) & Hg) & Hl). split; [done|].
    destruct p as [|x t]; [done|]. simpl in Hh. injection Hh as ->. simpl in Hg.
    assert (t ≠ []) as Ht by (by intros ->).
    assert (last t ≠ Some slash) as Hlt by (rewrite last_cons in Hl; by destruct (last t)).
    pose proof (path_of_getlines t Ht Hlt) as Hpath.
    destruct (getlines slash t) as [|c cs _] using rev_ind; [by destruct t|]. eauto.
  - intros (Hlen & cs & name & -> & Hg). f_equal.
    rewrite !andb_true_iff, negb_true_iff, !bool_decide_eq_true, bool_decide_eq_false.
    pose proof (getlines_path _ Hg) as Hgl. pose proof (path_ok_snoc cs name) as Hok.
    apply Forall_app in Hg as Hg'. destruct Hg' as [_ [Hname _]%Forall_cons]. specialize (Hok Hname).
    destruct (path_of (cs ++ [name])) as [|x t] eqn:Hp; [by apply path_of_nil, app_nil in Hp as []|].
    destruct (cs ++ [name]) as [|c0 cs0] eqn:Hcs; [by apply app_nil in Hcs as []|].
    rewrite path_of_cons in Hp. injection Hp as <- Hp. simpl in Hgl. injection Hgl as Ht.
    split_and!; [done|done|by rewrite <-Ht in Hg|].
    unfold path_ok in Hok. destruct (last (slash :: t)) as [y|]; [|done].
    apply negb_true_iff, Ascii.eqb_neq in Hok. congruence.
Qed.

(** ** Words *)

(** The characters of a word and of the rest come from the stream. *)
Lemma skip_space_elem c s : c ∈ skip_space s → c ∈ s.
Proof.
  induction s as [|x s IH]; simpl; [done|]. destruct (is_space x); [|done]. intros ?. right. auto.
Qed.

Lemma span_word_spec s :
  s = (span_word s).1 ++ (span_word s).2 ∧ Forall (λ c, is_space c = false) (span_word s).1.
Proof.
  induction s as [|c s [IH1 IH2]]; [done|]. simpl. destruct (is_space c) eqn:Hc; [done|].
  destruct (span_word s) as [w r]. simpl in *. split; [by rewrite <-IH1|by constructor].
Qed.

Lemma read_word_spec s w r :
  read_word s = (w, r) → (w ≠ [] → is_word w) ∧ (∀ c, c ∈ w ∨ c ∈ r → c ∈ s).
Proof.
  unfold read_word. intros Hs. pose proof (span_word_spec (skip_space s)) as [He Hw].
  rewrite Hs in He, Hw. simpl in *. split; [done|].
  intros c Hc. apply skip_space_elem. rewrite He. by apply elem_of_app.
Qed.

Lemma read_word_app w s :
  is_word w → read_word (w ++ s) =
    match s with
    | [] => (w, [])
    | c :: _ => if is_space c then (w, s) else read_word (w ++ s)
    end.
Proof.
  intros [Hne Hw]. destruct s as [|c s]; [|destruct (is_space c) eqn:Hc; [|done]]; unfold read_word.
  - rewrite app_nil_r. assert (skip_space w = w) as ->.
    { destruct w as [|x w]; [done|]. apply Forall_cons in Hw as [Hx _]. simpl. by rewrite Hx. }
    clear Hne. induction Hw as [|x w Hx _ IH]; [done|]. simpl. by rewrite Hx, IH.
  - assert (skip_space (w ++ c :: s) = w ++ c :: s) as ->.
    { destruct w as [|x w]; [done|]. apply Forall_cons in Hw as [Hx _]. simpl. by rewrite Hx. }
    clear Hne. induction Hw as [|x w Hx _ IH]; simpl; [by rewrite Hc|]. by rewrite Hx, IH.
Qed.

Lemma read_word_skip c s : is_space c = true → read_word (c :: s) = read_word s.
Proof. intros Hc. unfold read_word. simpl. by rewrite Hc. Qed.

(** ** What [parse_message] guarantees *)

(** The uninitialised object is some object. *)
Definition stack_command_ok (stack : Command) : Prop :=
  0 ≤ cmd_block stack ∧ len (cmd_data stack) = FS_BLOCKSIZE.

Lemma require_bind_ret {A} c e (f : unit → prog A) a :
  (require c e ≫= f) = Ret a → c = true ∧ f () = Ret a.
Proof. destruct c; [|done]. done. Qed.

Lemma bind_ret_inv {A B} (p : prog A) (f : A → prog B) b :
  p ≫= f = Ret b → ∃ a, p = Ret a ∧ f a = Ret b.
Proof. destruct p; try done. intros Hf. by exists a. Qed.

Lemma parse_block_sound s b r : parse_block s = Ret (b, r) → 0 ≤ b < FS_MAXFILEBLOCKS.
Proof.
  unfold parse_block. destruct (read_word s) as [w s'].
  intros (_ & (_ & (v & _ & Hv)%bind_ret_inv)%require_bind_ret)%require_bind_ret.
  apply require_bind_ret in Hv as [Hb [= <- <-]]. apply Z.ltb_lt in Hb.
  split; [apply wrap32_u32|done].
Qed.

Lemma parse_message_inv stack r cmd :
  parse_message stack r = Ret cmd →
  ∃ w1 s1 w2 s2 w3 s3, read_word r = (w1, s1) ∧ read_word s1 = (w2, s2) ∧ read_word s2 = (w3, s3) ∧
    w2 ≠ [] ∧ len w2 ≤ FS_MAXUSERNAME ∧ w3 ≠ [] ∧ is_valid_pathname w3 = Ret true ∧
    command_type cmd = parse_command w1 ∧ username cmd = w2 ∧ pathname cmd = w3 ∧
    cmd_data cmd = cmd_data stack ∧
    (if bool_decide (parse_command w1 = FS_READBLOCK) || bool_decide (parse_command w1 = FS_WRITEBLOCK)
     then 0 ≤ cmd_block cmd < FS_MAXFILEBLOCKS else cmd_block cmd = cmd_block stack) ∧
    (parse_command w1 = FS_CREATE → cmd_type cmd = type_file ∨ cmd_type cmd = type_dir).
Proof.
  unfold parse_message. destruct (read_word r) as [w1 s1] eqn:E1.
  destruct (read_word s1) as [w2 s2] eqn:E2. destruct (read_word s2) as [w3 s3] eqn:E3.
  intros (_ & _ & H)%bind_ret_inv. apply require_bind_ret in H as [H2 H].
  apply require_bind_ret in H as [Hl H]. apply require_bind_ret in H as [H3 H].
  apply bind_ret_inv in H as (valid & Hv & H). apply require_bind_ret in H as [-> H].
  apply negb_true_iff, bool_decide_eq_false in H2, H3. apply Z.leb_le in Hl.
  set (ty := parse_command w1) in *.
  set (c0 := mkCommand ty w2 w3 (cmd_block stack) (cmd_type stack) (cmd_data stack)) in *.
  apply bind_ret_inv in H as ([c1 s4] & Hb & H). apply bind_ret_inv in H as ([c2 s5] & Ht & H).
  destruct (read_word s5) as [w6 s6]. apply require_bind_ret in H as [_ [= <-]].
  assert (command_type c1 = ty ∧ username c1 = w2 ∧ pathname c1 = w3 ∧ cmd_data c1 = cmd_data stack ∧
    (if bool_decide (ty = FS_READBLOCK) || bool_decide (ty = FS_WRITEBLOCK)
     then 0 ≤ cmd_block c1 < FS_MAXFILEBLOCKS else cmd_block c1 = cmd_block stack)) as (P1 & P2 & P3 & P4 & P5).
  { destruct (bool_decide (ty = FS_READBLOCK) || bool_decide (ty = FS_WRITEBLOCK)).
    - apply bind_ret_inv in Hb as ([b s'] & Hb & [= <- <-]). apply parse_block_sound in Hb. done.
    - injection Hb as <- <-. done. }
  exists w1, s1, w2, s2, w3, s3. do 7 (split; [done|]).
  destruct (decide (ty = FS_CREATE)) as [Hc|Hc].
  - rewrite bool_decide_eq_true_2 in Ht by done. destruct (read_char s4) as [t s'].
    apply require_bind_ret in Ht as [Hty [= <- <-]].
    apply orb_true_iff in Hty as [Hty%Ascii.eqb_eq|Hty%Ascii.eqb_eq];
      destruct t as [t|]; simpl in *; split_and!; auto.
  - rewrite bool_decide_eq_false_2 in Ht by done. injection Ht as <- <-. split_and!; try done.
Qed.

(** A parsed request meets what the handlers ask for. *)
Lemma parse_message_sound stack r cmd :
  stack_command_ok stack → NUL ∉ r → parse_message stack r = Ret cmd →
  cmd_ok cmd ∧ len (pathname cmd) ≤ FS_MAXPATHNAME ∧
  (∃ cs name, pathname cmd = path_of (cs ++ [name]) ∧ Forall good_name (cs ++ [name])) ∧
  (command_type cmd = FS_CREATE → cmd_type cmd = type_file ∨ cmd_type cmd = type_dir) ∧
  (command_type cmd = FS_READBLOCK ∨ command_type cmd = FS_WRITEBLOCK →
     cmd_block cmd < FS_MAXFILEBLOCKS).
Proof.
  intros [Hb0 Hd] Hnul (w1 & s1 & w2 & s2 & w3 & s3 & E1 & E2 & E3 & H2 & Hl & H3 & Hv & Hty & Hu & Hp &
    Hdata & Hblk & Hct)%parse_message_inv.
  destruct (read_word_spec _ _ _ E1) as [_ I1]. destruct (read_word_spec _ _ _ E2) as [_ I2].
  destruct (read_word_spec _ _ _ E3) as [W3 I3].
  assert (NUL ∉ w2 ∧ (NUL ∉ w3)) as [N2 N3] by (split; intros Hn; apply Hnul; auto 10).
  apply (valid_path _ (W3 H3) N3) in Hv as (Hpl & cs & name & Hpath & Hg).
  assert (0 ≤ cmd_block cmd) as Hb by (case_match; [lia|congruence]).
  split; [split; [by rewrite Hu|by rewrite Hu|done|by rewrite Hdata]|].
  rewrite Hp. split; [done|]. split; [eauto|]. rewrite Hty. split; [done|].
  intros [Ht|Ht]; rewrite Ht in Hblk; simpl in Hblk; lia.
Qed.

(** A request never makes the parser fail. *)
Definition parses {A} (p : prog A) : Prop := (∃ a, p = Ret a) ∨ (∃ e, p = Throw e).

Lemma parses_bind {A B} (p : prog A) (f : A → prog B) :
  parses p → (∀ a, parses (f a)) → parses (p ≫= f).
Proof. intros [[a ->]|[e ->]] Hf; [apply Hf|right; by exists e]. Qed.

Lemma parses_require c e : parses (require c e).
Proof. destruct c; [by left; eexists|by right; eexists]. Qed.

Lemma parses_stoul s : parses (stoul s).
Proof.
  unfold stoul. destruct (match skip_space s with [] => _ | _ => _ end) as [neg s'].
  destruct (span_digits s'); [by right; eexists|]. case_match; [by right; eexists|by left; eexists].
Qed.

Lemma parse_message_parses stack r :
  (read_word r).1 ≠ [] → parses (parse_message stack r).
Proof.
  unfold parse_message. destruct (read_word r) as [w1 s1] eqn:E1. simpl. intros Hne.
  destruct (read_word s1) as [w2 s2]. destruct (read_word s2) as [w3 s3].
  rewrite assert_bind by by rewrite bool_decide_eq_false_2.
  do 2 (apply parses_bind; [apply parses_require|]; intros []).
  destruct (decide (w3 = [])) as [->|Hw3]; [by right; eexists|].
  apply parses_bind; [apply parses_require|]; intros [].
  apply parses_bind.
  { unfold is_valid_pathname. rewrite assert_bind by (by rewrite bool_decide_eq_false_2). left. by eexists. }
  intros v. apply parses_bind; [apply parses_require|]; intros []. apply parses_bind.
  { case_match; [|by left; eexists]. apply parses_bind; [|intros []; by left; eexists].
    unfold parse_block. destruct (read_word s3) as [w4 s4].
    do 2 (apply parses_bind; [apply parses_require|]; intros []).
    apply parses_bind; [apply parses_stoul|]. intros z. apply parses_bind; [apply parses_require|].
    intros []. by left; eexists. }
  intros [c1 s4]. apply parses_bind.
  { case_match; [|by left; eexists]. destruct (read_char s4) as [t s5].
    apply parses_bind; [apply parses_require|]. intros []. by left; eexists. }
  intros [c2 s5]. destruct (read_word s5) as [w6 s6]. apply parses_bind; [apply parses_require|].
  intros []. by left; eexists.
Qed.

(** ** Printing requests *)

Definition digit (z : Z) : ascii := ascii_of_Z (48 + z).

(** [n] in decimal, for [n < 10 ^ fuel]. *)
Fixpoint decimal (fuel : nat) (n : Z) : bytes :=
  match fuel with
  | O => []
  | S fuel => if n <? 10 then [digit n] else decimal fuel (n / 10) ++ [digit (n mod 10)]
  end.

Definition decimal_fuel : nat := 20.

Definition space : ascii := " "%char.

Definition command_word (ty : CommandType) : bytes :=
  match ty with
  | FS_READBLOCK => chars "FS_READBLOCK"
  | FS_WRITEBLOCK => chars "FS_WRITEBLOCK"
  | FS_CREATE => chars "FS_CREATE"
  | FS_DELETE => chars "FS_DELETE"
  | INVALID => chars "INVALID"
  end.

(** The request a client sends, as the protocol writes it. *)
Definition print_request (c : Command) : bytes :=
  command_word (command_type c) ++ space :: username c ++ space :: pathname c ++
    match command_type c with
    | FS_READBLOCK | FS_WRITEBLOCK => space :: decimal decimal_fuel (cmd_block c)
    | FS_CREATE => [space; cmd_type c]
    | _ => []
    end.

(** Requests the protocol allows. *)
Record request_ok (c : Command) : Prop := {
  rq_type : command_type c ≠ INVALID;
  rq_user : is_word (username c);
  rq_user_len : len (username c) ≤ FS_MAXUSERNAME;
  rq_user_nul : NUL ∉ username c;
  rq_path : ∃ cs name, pathname c = path_of (cs ++ [name]) ∧ Forall good_name (cs ++ [name]) ∧
    Forall (Forall (λ c, is_space c = false)) (cs ++ [name]);
  rq_path_len : len (pathname c) ≤ FS_MAXPATHNAME;
  rq_block : command_type c = FS_READBLOCK ∨ command_type c = FS_WRITEBLOCK →
    0 ≤ cmd_block c < FS_MAXFILEBLOCKS;
  rq_create : command_type c = FS_CREATE → cmd_type c = type_file ∨ cmd_type c = type_dir;
}.

Lemma Z_of_digit z : 0 ≤ z < 10 → Z_of_ascii (digit z) = 48 + z.
Proof. intros Hz. unfold digit. rewrite Z_of_ascii_of_Z, Z.mod_small; lia. Qed.

Lemma is_digit_digit z : 0 ≤ z < 10 → is_digit (digit z) = true.
Proof. intros Hz. unfold is_digit. rewrite Z_of_digit by done. apply andb_true_iff. lia. Qed.

Lemma digits_value_snoc ds c : digits_value (ds ++ [c]) = 10 * digits_value ds + (Z_of_ascii c - 48).
Proof. unfold digits_value. by rewrite foldl_app. Qed.

Lemma decimal_spec fuel n :
  0 ≤ n < 10 ^ Z.of_nat fuel → (0 < fuel)%nat →
  decimal fuel n ≠ [] ∧ Forall (λ c, is_digit c = true) (decimal fuel n) ∧
  digits_value (decimal fuel n) = n ∧ (head (decimal fuel n) = Some (digit 0) → n = 0).
Proof.
  revert n; induction fuel as [|fuel IH]; intros n Hn Hf; [lia|]. cbn [decimal].
  destruct (Z.ltb_spec n 10).
  - split_and!; [done|constructor; [apply is_digit_digit; lia|constructor]| |].
    + unfold digits_value. simpl. rewrite Z_of_digit; lia.
    + intros [= Hd]. apply (f_equal Z_of_ascii) in Hd. rewrite !Z_of_digit in Hd by lia. lia.
  - assert (0 < fuel)%nat as Hf' by (destruct fuel; [simpl in *; lia|lia]).
    rewrite Nat2Z.inj_succ, Z.pow_succ_r in Hn by lia.
    destruct (IH (n / 10)) as (Hne & Hall & Hv & Hh); [|done|].
    { split; [apply Z.div_pos; lia|]. apply Z.div_lt_upper_bound; lia. }
    pose proof (Z.mod_pos_bound n 10 ltac:(lia)). split_and!.
    + by destruct (decimal fuel (n / 10)).
    + apply Forall_app. split; [done|]. constructor; [by apply is_digit_digit|constructor].
    + rewrite digits_value_snoc, Hv, Z_of_digit by done. pose proof (Z.div_mod n 10 ltac:(lia)). lia.
    + intros Hd. assert (n / 10 = 0) as Hz by (apply Hh; by destruct (decimal fuel (n / 10))).
      apply Z.div_small_iff in Hz; lia.
Qed.

Lemma digit_not_space c : is_digit c = true → is_space c = false.
Proof.
  unfold is_digit, is_space. rewrite andb_true_iff. intros [? ?]. apply orb_false_iff.
  rewrite andb_false_iff. lia.
Qed.

Lemma span_digits_all ds : Forall (λ c, is_digit c = true) ds → span_digits ds = ds.
Proof. induction 1 as [|c ds Hc _ IH]; simpl; [done|]. by rewrite Hc, IH. Qed.

(** [stoul] on digits. *)
Lemma stoul_digits ds :
  ds ≠ [] → Forall (λ c, is_digit c = true) ds → digits_value ds ≤ ULONG_MAX →
  stoul ds = Ret (digits_value ds).
Proof.
  intros Hne Hall Hv. unfold stoul. destruct ds as [|c ds]; [done|].
  pose proof Hall as [Hc _]%Forall_cons.
  assert (skip_space (c :: ds) = c :: ds) as -> by (simpl; by rewrite digit_not_space).
  assert (Ascii.eqb c "-"%char = false) as -> by (apply Ascii.eqb_neq; by intros ->).
  assert (Ascii.eqb c "+"%char = false) as -> by (apply Ascii.eqb_neq; by intros ->).
  rewrite span_digits_all by done. by rewrite (proj2 (Z.ltb_ge _ _)) by lia.
Qed.

Lemma decimal_fuel_enough n : 0 ≤ n ≤ ULONG_MAX → 0 ≤ n < 10 ^ Z.of_nat decimal_fuel.
Proof.
  change (10 ^ Z.of_nat decimal_fuel) with 100000000000000000000.
  change ULONG_MAX with 18446744073709551615. lia.
Qed.

(** A decimal block number, with what wraps around the 32-bit block. *)
Lemma parse_block_digits ds s :
  ds ≠ [] → Forall (λ c, is_digit c = true) ds → digits_value ds ≤ ULONG_MAX →
  (head ds = Some "0"%char → length ds = 1%nat) → wrap32 (digits_value ds) < FS_MAXFILEBLOCKS →
  match s with [] => True | c :: _ => is_space c = true end →
  parse_block (space :: ds ++ s) = Ret (wrap32 (digits_value ds), s).
Proof.
  intros Hne Hall Hv H0 Hw Hs. unfold parse_block. rewrite read_word_skip by done.
  rewrite read_word_app; [|split; [done|eapply Forall_impl; [done|apply digit_not_space]]].
  assert (match s with [] => (ds, []) | c :: _ => if is_space c then (ds, s) else read_word (ds ++ s) end
    = (ds, s)) as -> by (destruct s; [done|by rewrite Hs]).
  cbv beta iota zeta. rewrite (bool_decide_eq_false_2 (ds = [])) by done. cbn [negb require]. rewrite ret_bind.
  assert ((1 <? len ds) && bool_decide (head ds = Some "0"%char) = false) as ->.
  { apply andb_false_iff. destruct (decide (head ds = Some "0"%char)) as [Hz|Hz].
    - left. apply Z.ltb_ge. unfold len. rewrite (H0 Hz). done.
    - right. by apply bool_decide_eq_false_2. }
  cbn [negb require]. rewrite ret_bind, stoul_digits, ret_bind by done.
  by rewrite (proj2 (Z.ltb_lt _ _) Hw).
Qed.

Lemma parse_block_decimal n s :
  0 ≤ n ≤ ULONG_MAX → wrap32 n < FS_MAXFILEBLOCKS →
  match s with [] => True | c :: _ => is_space c = true end →
  parse_block (space :: decimal decimal_fuel n ++ s) = Ret (wrap32 n, s).
Proof.
  intros Hn Hw Hs. destruct (decimal_spec decimal_fuel n) as (Hne & Hall & Hv & Hh);
    [by apply decimal_fuel_enough|unfold decimal_fuel; lia|].
  rewrite parse_block_digits; [by rewrite Hv|done|done|by rewrite Hv; apply Hn| |by rewrite Hv|done].
  intros H0. by rewrite (Hh H0).
Qed.

(** ** Round trip *)

(** What arrives of a command: the fields its request does not carry have
    whatever was on the stack. *)
Definition received (stack c : Command) : Command :=
  mkCommand (command_type c) (username c) (pathname c)
    (if bool_decide (command_type c = FS_READBLOCK) || bool_decide (command_type c = FS_WRITEBLOCK)
     then cmd_block c else cmd_block stack)
    (if bool_decide (command_type c = FS_CREATE) then cmd_type c else cmd_type stack)
    (cmd_data stack).

Lemma read_word_space w s :
  is_word w → read_word (w ++ space :: s) = (w, space :: s).
Proof. intros Hw. by rewrite read_word_app. Qed.

Lemma read_word_end w : is_word w → read_word w = (w, []).
Proof. intros Hw. pose proof (read_word_app w [] Hw) as Hr. by rewrite app_nil_r in Hr. Qed.

Lemma command_word_spec ty :
  ty ≠ INVALID → is_word (command_word ty) ∧ parse_command (command_word ty) = ty.
Proof.
  intros Hty. unfold is_word. destruct ty; [..|done];
    (split; [split; [discriminate|repeat constructor]|reflexivity]).
Qed.

(** The first three words of a request, and the rest. *)
Lemma parse_message_words stack ty user path rest :
  ty ≠ INVALID → is_word user → len user ≤ FS_MAXUSERNAME → NUL ∉ user →
  is_word path → NUL ∉ path → len path ≤ FS_MAXPATHNAME →
  (∃ cs name, path = path_of (cs ++ [name]) ∧ Forall good_name (cs ++ [name])) →
  match rest with [] => True | c :: _ => is_space c = true end →
  parse_message stack (command_word ty ++ space :: user ++ space :: path ++ rest) =
  let command := mkCommand ty user path (cmd_block stack) (cmd_type stack) (cmd_data stack) in
  '(command, s) ←
    (if bool_decide (ty = FS_READBLOCK) || bool_decide (ty = FS_WRITEBLOCK)
     then '(b, s) ← parse_block rest; Ret (with_block command b, s)
     else Ret (command, rest));
  '(command, s) ←
    (if bool_decide (ty = FS_CREATE)
     then
       let '(t, s) := read_char s in
       let command := match t with Some t => with_type command t | None => command end in
       _ ← require (Ascii.eqb (cmd_type command) type_file || Ascii.eqb (cmd_type command) type_dir)
             "Error: Command type is not 'f' or 'd'";
       Ret (command, s)
     else Ret (command, s));
  let '(temp, _) := read_word s in
  _ ← require (bool_decide (temp = [])) "Error: Request contains too many arguments";
  Ret command.
Proof.
  intros Hty Hu Hul Hun Hp Hpn Hpl Hpath Hrest. destruct (command_word_spec ty Hty) as [Hw Hpc].
  unfold parse_message. rewrite read_word_space, read_word_skip, read_word_space, read_word_skip by done.
  assert (read_word (path ++ rest) = (path, rest)) as ->.
  { rewrite read_word_app by done. destruct rest; [done|by rewrite Hrest]. }
  destruct Hw as [Hwne _]. pose proof Hu as [Hune _]. pose proof Hp as [Hpne _].
  rewrite assert_bind by (by rewrite bool_decide_eq_false_2).
  rewrite (bool_decide_eq_false_2 (user = [])), (bool_decide_eq_false_2 (path = [])) by done.
  rewrite (proj2 (Z.leb_le (len user) _)) by done. cbn [negb require]. rewrite !ret_bind.
  rewrite (proj2 (valid_path path Hp Hpn)) by done. rewrite !ret_bind. cbn [require]. rewrite ret_bind.
  by rewrite Hpc.
Qed.

(** Decide which command a request has. *)
Ltac decide_types :=
  repeat match goal with
  | |- context [bool_decide (@eq CommandType ?x ?y)] =>
      let b := eval vm_compute in (bool_decide (x = y)) in
      change (bool_decide (x = y)) with b
  end; cbn [orb].

Lemma request_ok_path c : request_ok c → is_word (pathname c) ∧ NUL ∉ pathname c.
Proof.
  intros []. destruct rq_path0 as (cs & name & -> & Hg & Hs). split; [split|].
  - intros Hp. apply path_of_nil, app_nil in Hp as [_ [=]].
  - by apply no_space_path.
  - by apply path_of_no_nul.
Qed.

Lemma parse_print stack c : request_ok c → parse_message stack (print_request c) = Ret (received stack c).
Proof.
  intros Hok. destruct (request_ok_path c Hok) as [Hpw Hpn].
  destruct Hok as [Hty Hu Hul Hun (cs & name & Hpath & Hg & _) Hpl Hb Hct].
  unfold print_request. rewrite parse_message_words; try done; [|by eauto|by destruct (command_type c)].
  unfold received. destruct (command_type c) eqn:Ht; [..|done]; decide_types.
  - specialize (Hb ltac:(by left)). unfold FS_MAXFILEBLOCKS in Hb.
    assert (wrap32 (cmd_block c) = cmd_block c) as Hw by (apply wrap32_small; unfold is_u32; lia).
    pose proof (parse_block_decimal (cmd_block c) []) as Hpb. rewrite app_nil_r, Hw in Hpb.
    by rewrite Hpb by (unfold ULONG_MAX, FS_MAXFILEBLOCKS; lia || done).
  - specialize (Hb ltac:(by right)). unfold FS_MAXFILEBLOCKS in Hb.
    assert (wrap32 (cmd_block c) = cmd_block c) as Hw by (apply wrap32_small; unfold is_u32; lia).
    pose proof (parse_block_decimal (cmd_block c) []) as Hpb. rewrite app_nil_r, Hw in Hpb.
    by rewrite Hpb by (unfold ULONG_MAX, FS_MAXFILEBLOCKS; lia || done).
  - by destruct (Hct eq_refl) as [-> | ->].
  - done.
Qed.

(** The request fits the server's buffer. *)
Lemma decimal_length n : 0 ≤ n < FS_MAXFILEBLOCKS → len (decimal decimal_fuel n) ≤ 3.
Proof.
  assert (Forall (λ n, len (decimal decimal_fuel n) ≤ 3) (seqZ 0 FS_MAXFILEBLOCKS)) as Hall
    by (apply (bool_decide_unpack _); vm_compute; exact I).
  intros Hn. rewrite Forall_forall in Hall. apply Hall, elem_of_seqZ. lia.
Qed.

Lemma print_request_fits c : request_ok c → len (print_request c) ≤ MAX_MESSAGE_SIZE ∧ NUL ∉ print_request c.
Proof.
  intros Hok. destruct (request_ok_path c Hok) as [_ Hpn].
  destruct Hok as [Hty Hu Hul Hun _ Hpl Hb Hct]. split.
  - unfold print_request, MAX_MESSAGE_SIZE, FS_MAXUSERNAME, FS_MAXPATHNAME, len in *.
    rewrite !length_app. cbn [length]. rewrite !length_app. cbn [length]. rewrite length_app.
    pose proof (decimal_length (cmd_block c)) as Hd. unfold len in Hd. revert Hd.
    generalize (decimal decimal_fuel (cmd_block c)). intros ds Hd.
    destruct (command_type c); [..|done]; simpl length; lia || (specialize (Hb ltac:(tauto)); lia).
  - assert (∀ n, 0 ≤ n < FS_MAXFILEBLOCKS → NUL ∉ decimal decimal_fuel n) as Hd.
    { intros n Hn Hin. destruct (decimal_spec decimal_fuel n) as (_ & Hall & _).
      - apply decimal_fuel_enough. unfold FS_MAXFILEBLOCKS in Hn. unfold ULONG_MAX. lia.
      - unfold decimal_fuel. lia.
      - rewrite Forall_forall in Hall. specialize (Hall _ Hin). done. }
    unfold print_request. revert Hd. generalize (decimal decimal_fuel). intros ds Hd.
    rewrite !not_elem_of_app, !not_elem_of_cons, !not_elem_of_app, !not_elem_of_cons, not_elem_of_app.
    split; [destruct (command_type c); by apply (bool_decide_unpack _)|].
    split_and!; try done. destruct (command_type c) eqn:Ht;
      rewrite ?not_elem_of_cons; try (by intros ?%elem_of_nil).
    + split; [done|]. apply Hd, Hb. by left.
    + split; [done|]. apply Hd, Hb. by right.
    + split_and!; [done| |by intros ?%elem_of_nil]. by destruct (Hct eq_refl) as [-> | ->].
Qed.

(** ** The properties of the parser *)

(** (C16) Round trip: the request a client prints for a command parses back to
    that command, whatever garbage the uninitialised [Command] held before;
    and every such request fits the receive buffer and contains no NUL, which
    would end it early. *)
Theorem parse_print_request (stack c : Command) :
  request_ok c →
  parse_message stack (print_request c) = Ret (received stack c) ∧
  len (print_request c) ≤ MAX_MESSAGE_SIZE ∧ NUL ∉ print_request c.
Proof. intros Hc. split; [by apply parse_print|by apply print_request_fits]. Qed.

(** (C17) Soundness: a request that [parse_message] accepts gives a command
    within the bounds the file system relies on: no NUL in the user name, user
    and path within their maximal lengths, an absolute path of one or more
    non-empty components that fit a directory entry, a legal type for a
    create, a block index inside a file for a read or write. *)
Theorem parsed_command_in_bounds (stack : Command) (r : bytes) (cmd : Command) :
  stack_command_ok stack → NUL ∉ r → parse_message stack r = Ret cmd →
  cmd_ok cmd ∧ len (pathname cmd) ≤ FS_MAXPATHNAME ∧
  (∃ cs name, pathname cmd = path_of (cs ++ [name]) ∧ Forall good_name (cs ++ [name])) ∧
  (command_type cmd = FS_CREATE → cmd_type cmd = type_file ∨ cmd_type cmd = type_dir) ∧
  (command_type cmd = FS_READBLOCK ∨ command_type cmd = FS_WRITEBLOCK →
     cmd_block cmd < FS_MAXFILEBLOCKS).
Proof. apply parse_message_sound. Qed.

(** The parser never crashes on what reaches it: a request with at least
    one word (a handler is entered only after its first word was recognised)
    is parsed or refused with an exception, without touching the disk or a
    lock.  Only a blank request, with any stack, would end badly. *)
Theorem parse_message_never_crashes (stack : Command) (r : bytes) :
  ((read_word r).1 ≠ [] → parses (parse_message stack r)) ∧
  ((read_word r).1 = [] → parse_message stack r = Fail AssertFailure).
Proof.
  split; [apply parse_message_parses|]. unfold parse_message.
  destruct (read_word r) as [w s]. simpl. intros ->.
  destruct (read_word s) as [w2 s2]. by destruct (read_word s2).
Qed.

(** (C18) [is_valid_pathname] accepts exactly the absolute paths of at most
    [FS_MAXPATHNAME] characters that are made of one or more non-empty
    components of at most [FS_MAXFILENAME] characters. *)
Theorem valid_pathname_characterised (p : bytes) :
  is_word p → NUL ∉ p →
  ∃ b, is_valid_pathname p = Ret b ∧
    (b = true ↔ len p ≤ FS_MAXPATHNAME ∧
       ∃ cs name, p = path_of (cs ++ [name]) ∧ Forall good_name (cs ++ [name])).
Proof.
  intros Hw Hn. eexists. split; [by apply is_valid_pathname_spec|].
  etransitivity; [|by apply valid_path]. rewrite is_valid_pathname_spec by done.
  split; [by intros ->|by intros [= ?]].
Qed.

(** (C19) A code defect: the 64-bit result of [std::stoul] is stored in a
    [u_int32_t] before it is compared with [FS_MAXFILEBLOCKS], so the request
    for a block number far out of range, [n] up to [2 ^ 64 - 1], is accepted
    as a request for block [n mod 2 ^ 32] whenever that is in range. *)
Theorem block_number_wraps (stack c : Command) (n : Z) :
  request_ok c → command_type c = FS_READBLOCK →
  0 ≤ n ≤ ULONG_MAX → wrap32 n < FS_MAXFILEBLOCKS →
  parse_message stack (command_word FS_READBLOCK ++ space :: username c ++ space :: pathname c ++
    space :: decimal decimal_fuel n) =
  Ret (mkCommand FS_READBLOCK (username c) (pathname c) (wrap32 n) (cmd_type stack) (cmd_data stack)).
Proof.
  intros Hok Ht Hn Hw. destruct (request_ok_path c Hok) as [Hpw Hpn].
  destruct Hok as [_ Hu Hul Hun (cs & name & Hpath & Hg & _) Hpl _ _].
  rewrite parse_message_words; try done; [|by eauto]. cbv zeta.
  decide_types.
  pose proof (parse_block_decimal n []) as Hpb. rewrite app_nil_r in Hpb. by rewrite Hpb.
Qed.

(** A code defect: when a create request has no type, [iss >> type] fails
    and leaves the field as it was in the uninitialised [Command]; whether the
    request is refused, and what is created, depends on that byte. *)
Theorem create_without_type_uses_garbage (stack c : Command) :
  request_ok c → command_type c = FS_CREATE →
  parse_message stack (command_word FS_CREATE ++ space :: username c ++ space :: pathname c) =
  if bool_decide (cmd_type stack = type_file ∨ cmd_type stack = type_dir)
  then Ret (mkCommand FS_CREATE (username c) (pathname c) (cmd_block stack) (cmd_type stack)
              (cmd_data stack))
  else Throw "Error: Command type is not 'f' or 'd'".
Proof.
  intros Hok Ht. destruct (request_ok_path c Hok) as [Hpw Hpn].
  destruct Hok as [_ Hu Hul Hun (cs & name & Hpath & Hg & _) Hpl _ _].
  rewrite <-(app_nil_r (pathname c)) at 1.
  rewrite parse_message_words; try done; [|by eauto]. cbv zeta.
  decide_types. rewrite ret_bind.
  cbn. destruct (Ascii.eqb_spec (cmd_type stack) type_file) as [E|E];
    [by rewrite bool_decide_eq_true_2 by (by left)|].
  destruct (Ascii.eqb_spec (cmd_type stack) type_dir) as [E'|E'];
    [by rewrite bool_decide_eq_true_2 by (by right)|].
  by rewrite bool_decide_eq_false_2 by tauto.
Qed.

(** ** Witnesses *)

Module RequestWitness.

Definition stack0 : Command := mkCommand INVALID [] [] 0 NUL (replicate 512 NUL).
Definition request (ty : CommandType) : Command :=
  mkCommand ty (chars "alice") (chars "/d/notes") 7 type_file (replicate 512 NUL).

Lemma request_is_ok ty : ty ≠ INVALID → request_ok (request ty).
Proof.
  intros Hty. split; try done.
  - split; [done|]. repeat constructor.
  - by apply (bool_decide_unpack _).
  - exists [chars "d"], (chars "notes"). split; [done|].
    split; repeat constructor; by apply (bool_decide_unpack _).
  - intros _. by left.
Qed.

Lemma parse_print_request_witness :
  parse_message stack0 (chars "FS_WRITEBLOCK alice /d/notes 7") =
    Ret (received stack0 (request FS_WRITEBLOCK)) ∧
  len (chars "FS_WRITEBLOCK alice /d/notes 7") ≤ MAX_MESSAGE_SIZE ∧
  NUL ∉ chars "FS_WRITEBLOCK alice /d/notes 7".
Proof.
  assert (print_request (request FS_WRITEBLOCK) = chars "FS_WRITEBLOCK alice /d/notes 7") as <-
    by (vm_compute; reflexivity).
  apply parse_print_request. by apply request_is_ok.
Defined.

Lemma parsed_command_in_bounds_witness :
  cmd_ok (request FS_READBLOCK) ∧ len (chars "/d/notes") ≤ FS_MAXPATHNAME ∧
  (∃ cs name, chars "/d/notes" = path_of (cs ++ [name]) ∧ Forall good_name (cs ++ [name])) ∧
  (FS_READBLOCK = FS_CREATE → type_file = type_file ∨ type_file = type_dir) ∧
  (FS_READBLOCK = FS_READBLOCK ∨ FS_READBLOCK = FS_WRITEBLOCK → 7 < FS_MAXFILEBLOCKS).
Proof.
  apply (parsed_command_in_bounds (request INVALID) (chars "FS_READBLOCK alice /d/notes 7")
    (request FS_READBLOCK)).
  - done.
  - by apply (bool_decide_unpack _).
  - vm_compute. reflexivity.
Defined.

Lemma parse_message_never_crashes_witness :
  parses (parse_message stack0 (chars "FS_DELETE")).
Proof. apply (parse_message_never_crashes stack0 (chars "FS_DELETE")). discriminate. Defined.

Lemma valid_pathname_characterised_witness :
  ∃ b, is_valid_pathname (chars "/d//notes") = Ret b ∧
    (b = true ↔ len (chars "/d//notes") ≤ FS_MAXPATHNAME ∧
       ∃ cs name, chars "/d//notes" = path_of (cs ++ [name]) ∧ Forall good_name (cs ++ [name])).
Proof.
  apply valid_pathname_characterised.
  - split; [discriminate|]. repeat constructor.
  - by apply (bool_decide_unpack _).
Defined.

(** Block 4294967297 is taken for block 1. *)
Lemma block_number_wraps_witness :
  parse_message stack0 (chars "FS_READBLOCK alice /d/notes 4294967297") =
  Ret (mkCommand FS_READBLOCK (chars "alice") (chars "/d/notes") 1 NUL (replicate 512 NUL)).
Proof.
  apply (block_number_wraps stack0 (request FS_READBLOCK) 4294967297).
  - by apply request_is_ok.
  - reflexivity.
  - by apply (bool_decide_unpack _).
  - reflexivity.
Defined.

Lemma create_without_type_uses_garbage_witness :
  parse_message (request INVALID) (chars "FS_CREATE alice /d/notes") =
  Ret (mkCommand FS_CREATE (chars "alice") (chars "/d/notes") 7 type_file (replicate 512 NUL)).
Proof.
  apply (create_without_type_uses_garbage (request INVALID) (request FS_CREATE)).
  - by apply request_is_ok.
  - reflexivity.
Defined.

End RequestWitness.
