(* ===== verification/Network.v ===== *)
(** * The network server

    [filesys/network_server.cpp] and [socket_raii.cpp]: receiving a request
    character by character, sending the response, and the handlers that join
    the file system with one client's connection.  A handler is a computation
    over the file system's state and the connection; its loops carry fuel.

    The socket calls are the operating system's: the class [Socket] has their
    results as parameters, [SocketSpec] what POSIX says of [recv] and [send] on
    a stream, and [Pipe] is one such socket. *)
From S2P Require Import Prelude Layout Locks Prog FileSystem FsModel FsPaths FsRun FsSpec.
From S2P Require Import FsTree FsBoot FsCorrect Request.
Import FileSystem.

Local Open Scope Z_scope.

(** ** Sockets *)

Inductive recv_result := RecvError | RecvClosed | RecvData (l : bytes).
Inductive send_result := SendError | SendCount (n : nat).

Class Socket (S : Type) := {
  sock_recv : nat → S → recv_result * S;
  sock_send : bytes → S → send_result * S;
  sock_close : S → S;
}.

(** A stream socket with what its peer sends that was not received yet, and
    what was sent to the peer.  [recv] of up to [n] bytes takes at least one of
    the incoming bytes, reports the end of the stream, or an error; [send]
    takes at least one byte, or reports an error.  A [healthy] socket reports
    neither an error, nor the end of the stream before everything came in.

    The parameters are the results of calls that return.  With a client that
    keeps the connection open, but neither sends nor reads, a call does not, and
    the thread waits: so the results below speak of requests whose calls return,
    and [ConnLive] of threads that wait in a call beside others that go on. *)
Class SocketSpec (S : Type) `{Socket S} := {
  incoming : S → bytes;
  outgoing : S → bytes;
  closed : S → bool;
  healthy : S → Prop;
  sock_recv_spec n s :
    (0 < n)%nat → closed s = false →
    let '(r, s') := sock_recv n s in
    outgoing s' = outgoing s ∧ closed s' = false ∧ (healthy s → healthy s') ∧
    match r with
    | RecvData l => l ≠ [] ∧ (length l <= n)%nat ∧ incoming s = l ++ incoming s'
    | _ => incoming s' = incoming s ∧ (healthy s → incoming s = [])
    end;
  sock_send_spec v s :
    v ≠ [] → closed s = false →
    let '(r, s') := sock_send v s in
    incoming s' = incoming s ∧ closed s' = false ∧ (healthy s → healthy s') ∧
    match r with
    | SendCount n => (0 < n <= length v)%nat ∧ outgoing s' = outgoing s ++ take n v
    | SendError => outgoing s' = outgoing s ∧ ¬ healthy s
    end;
  sock_close_spec s :
    closed s = false → closed (sock_close s) = true ∧ incoming (sock_close s) = incoming s ∧
      outgoing (sock_close s) = outgoing s;
}.

(** A connection in memory that moves at most [pipe_chunk + 1] bytes a call;
    after [pipe_left] calls it only fails. *)
Record pipe := Pipe {
  pipe_in : bytes;
  pipe_out : bytes;
  pipe_chunk : nat;
  pipe_left : option nat;
  pipe_closed : bool;
}.

Definition pipe_tick (s : pipe) : option (option nat) :=
  match pipe_left s with
  | None => Some None
  | Some O => None
  | Some (S n) => Some (Some n)
  end.

#[export] Instance pipe_socket : Socket pipe := {
  sock_recv n s :=
    match pipe_tick s with
    | None => (RecvError, s)
    | Some calls =>
        let k := Nat.min n (S (pipe_chunk s)) in
        match pipe_in s with
        | [] => (RecvClosed, Pipe [] (pipe_out s) (pipe_chunk s) calls (pipe_closed s))
        | l => (RecvData (take k l), Pipe (drop k l) (pipe_out s) (pipe_chunk s) calls (pipe_closed s))
        end
    end;
  sock_send v s :=
    match pipe_tick s with
    | None => (SendError, s)
    | Some calls =>
        let k := Nat.min (length v) (S (pipe_chunk s)) in
        (SendCount k, Pipe (pipe_in s) (pipe_out s ++ take k v) (pipe_chunk s) calls (pipe_closed s))
    end;
  sock_close s := Pipe (pipe_in s) (pipe_out s) (pipe_chunk s) (pipe_left s) true;
}.

#[export, program] Instance pipe_socket_spec : SocketSpec pipe := {
  incoming := pipe_in;
  outgoing := pipe_out;
  closed := pipe_closed;
  healthy s := pipe_left s = None;
}.
Next Obligation.
  intros n [i o k calls c] Hn Hc; simpl in *. unfold pipe_tick; simpl.
  destruct calls as [[|calls]|]; simpl; [done|..]; destruct i as [|x i]; simpl; try done;
    (split_and!; [done|done|done|destruct n; [lia|done]|rewrite length_take; simpl; lia|]);
    by rewrite take_drop.
Qed.
Next Obligation.
  intros v [i o k calls c] Hv Hc; simpl in *. unfold pipe_tick; simpl.
  assert (0 < length v)%nat by (destruct v; simpl; [done|lia]).
  destruct calls as [[|calls]|]; simpl; split_and!; try done; try lia.
Qed.
Next Obligation. done. Qed.

(** ** The server's monad

    A computation has the file system and the connection as its state, and
    ends like a program does; [None] means that its fuel did not suffice. *)

Section server.
Context {D L S : Type} `{Disk D} `{InodeLocks L} `{Socket S}.

Definition world : Type := fs_state D L * S.

Definition server (A : Type) : Type := world → option (outcome A * world).

#[global] Instance server_ret : MRet server := λ A a w, Some (Done a, w).

#[global] Instance server_bind : MBind server := λ A B f m w,
  match m w with
  | None => None
  | Some (Done a, w') => f a w'
  | Some (Exn e, w') => Some (Exn e, w')
  | Some (Crash x, w') => Some (Crash x, w')
  | Some (Blocked, w') => Some (Blocked, w')
  end.

Definition out_of_fuel {A} : server A := λ _, None.

(** Code of the file system, and of the parser. *)
Definition lift {A} (p : prog A) : server A := λ '(fs, s),
  let '(o, fs') := run p fs in Some (o, (fs', s)).

Definition recv (n : Z) : server recv_result := λ '(fs, s),
  let '(r, s') := sock_recv (Z.to_nat n) s in Some (Done r, (fs, s')).

Definition send (v : bytes) : server send_result := λ '(fs, s),
  let '(r, s') := sock_send v s in Some (Done r, (fs, s')).

(** [try { m } catch (...) { return -1; }] *)
Definition catch_all (m : server Z) : server Z := λ w,
  match m w with
  | Some (Exn _, w') => Some (Done (-1), w')
  | r => r
  end.

(** [SocketRAII my_socket(...)]: the destructor closes the socket when the
    scope is left, normally or by an exception. *)
Definition close_on_exit {A} (m : server A) : server A := λ w,
  match m w with
  | Some (Done a, (fs, s)) => Some (Done a, (fs, sock_close s))
  | Some (Exn e, (fs, s)) => Some (Exn e, (fs, sock_close s))
  | r => r
  end.

End server.
Arguments world : clear implicits.
Arguments server : clear implicits.

(** ** [NetworkServer] *)

Module NetworkServer.
Section handlers.
Context {D L S : Type} `{Disk D} `{InodeLocks L} `{Socket S}.
Abbreviation server := (server D L S).

(** One character at a time, until NUL; the result is the return value and
    [request_str]. *)
Fixpoint receive_loop (fuel : nat) (request_str : bytes) : server (Z * bytes) :=
  match fuel with
  | O => out_of_fuel
  | Datatypes.S fuel =>
      rval ← recv 1;
      match rval with
      | RecvData (c :: _) =>
          if is_nul c then mret (0, request_str)
          else
            let request_str := request_str ++ [c] in
            if MAX_MESSAGE_SIZE <? len request_str then mret (-1, request_str)
            else receive_loop fuel request_str
      | RecvData [] => mret (-1, request_str)
      | RecvError | RecvClosed => mret (-1, request_str)
      end
  end.

Definition receive_message (fuel : nat) (request_str : bytes) : server (Z * bytes) :=
  _ ← lift (assert_ (bool_decide (request_str = [])));
  receive_loop fuel request_str.

(** [do { n = send(msg + sent, ...); ... } while (sent < message_len)], on what
    is left of the message. *)
Fixpoint send_loop (fuel : nat) (msg : bytes) : server Z :=
  match fuel with
  | O => out_of_fuel
  | Datatypes.S fuel =>
      r ← send msg;
      match r with
      | SendError => mret (-1)
      | SendCount n =>
          match drop n msg with
          | [] => mret 0
          | rest => send_loop fuel rest
          end
      end
  end.

(** [response_str.c_str()], with its terminator. *)
Definition send_message (fuel : nat) (response_str : bytes) : server Z :=
  send_loop fuel (response_str ++ [NUL]).

(** [while (sent < FS_BLOCKSIZE)] *)
Definition send_block (fuel : nat) (block_data : bytes) : server Z :=
  match block_data with
  | [] => mret 0
  | _ => send_loop fuel block_data
  end.

Definition handle_read (stack : Command) (fuel : nat) (request_str : bytes) : server Z :=
  catch_all (
    command ← lift (parse_message stack request_str);
    data ← lift (handle_read command);
    rval ← send_message fuel request_str;
    if rval =? -1 then mret (-1) else send_block fuel data).

(** [while (received < FS_BLOCKSIZE)]: [data] is [command.data], of which the
    first [received] bytes came from the client. *)
Fixpoint receive_block (fuel : nat) (received : nat) (data : bytes) : server (Z * bytes) :=
  if Z.of_nat received <? FS_BLOCKSIZE then
    match fuel with
    | O => out_of_fuel
    | Datatypes.S fuel =>
        rval ← recv (FS_BLOCKSIZE - Z.of_nat received);
        match rval with
        | RecvError | RecvClosed => mret (-1, data)
        | RecvData l =>
            receive_block fuel (received + length l)
              (take received data ++ l ++ drop (received + length l) data)
        end
    end
  else mret (0, data).

Definition with_data (c : Command) (data : bytes) : Command :=
  mkCommand (command_type c) (username c) (pathname c) (cmd_block c) (cmd_type c) data.

Definition handle_write (stack : Command) (fuel : nat) (request_str : bytes) : server Z :=
  catch_all (
    command ← lift (parse_message stack request_str);
    '(rval, data) ← receive_block fuel 0 (cmd_data command);
    if rval =? -1 then mret (-1)
    else
      _ ← lift (handle_write (with_data command data));
      rval ← send_message fuel request_str;
      if rval =? -1 then mret (-1) else mret 0).

Definition handle_create (stack : Command) (stack_inode : fs_inode) (fuel : nat)
    (request_str : bytes) : server Z :=
  catch_all (
    command ← lift (parse_message stack request_str);
    _ ← lift (handle_create stack_inode command);
    rval ← send_message fuel request_str;
    if rval =? -1 then mret (-1) else mret 0).

Definition handle_delete (stack : Command) (fuel : nat) (request_str : bytes) : server Z :=
  catch_all (
    command ← lift (parse_message stack request_str);
    _ ← lift (handle_delete command);
    rval ← send_message fuel request_str;
    if rval =? -1 then mret (-1) else mret 0).

(** [stack] and [stack_inode] are the uninitialised locals of the handlers. *)
Definition dispatch (stack : Command) (stack_inode : fs_inode) (fuel : nat)
    (request_str : bytes) : server Z :=
  let '(command_str, _) := read_word request_str in
  match parse_command command_str with
  | FS_READBLOCK => handle_read stack fuel request_str
  | FS_WRITEBLOCK => handle_write stack fuel request_str
  | FS_CREATE => handle_create stack stack_inode fuel request_str
  | FS_DELETE => handle_delete stack fuel request_str
  | INVALID => mret (-1)
  end.

Definition handle_request (stack : Command) (stack_inode : fs_inode) (fuel : nat) : server Z :=
  close_on_exit (
    '(rval, request_str) ← receive_message fuel [];
    if rval =? -1 then mret (-1)
    else
      return_val ← dispatch stack stack_inode fuel request_str;
      if return_val =? -1 then mret (-1) else mret 0).

End handlers.
End NetworkServer.

(** ** Reasoning about the server *)

Section ends.
Context {D L S : Type} `{Disk D} `{InodeLocks L} `{Socket S}.

(** The computation ends, its fuel suffices, and [Q] holds of how it ends. *)
Definition ends {A} (m : server D L S A) (w : world D L S)
    (Q : outcome A → world D L S → Prop) : Prop :=
  ∃ o w', m w = Some (o, w') ∧ Q o w'.

Lemma ends_mono {A} (m : server D L S A) w (Q Q' : outcome A → world D L S → Prop) :
  ends m w Q → (∀ o w', Q o w' → Q' o w') → ends m w Q'.
Proof. intros (o & w' & Hm & HQ) Hi. exists o, w'. auto. Qed.

Lemma ends_ret {A} (a : A) w (Q : outcome A → world D L S → Prop) :
  Q (Done a) w → ends (mret a) w Q.
Proof. intros HQ. by exists (Done a), w. Qed.

Lemma ends_bind {A B} (m : server D L S A) (f : A → server D L S B) w Q :
  ends m w (λ o w', match o with
                    | Done a => ends (f a) w' Q
                    | Exn e => Q (Exn e) w'
                    | Crash x => Q (Crash x) w'
                    | Blocked => Q Blocked w'
                    end) →
  ends (m ≫= f) w Q.
Proof.
  intros (o & w' & Hm & HQ). unfold mbind, server_bind, ends. rewrite Hm.
  destruct o as [a|e|x|]; [done|by eexists _, _..].
Qed.

(** A step that always returns. *)
Lemma ends_seq {A B} (m : server D L S A) (f : A → server D L S B) w P Q :
  ends m w (λ o w', ∃ a, o = Done a ∧ P a w') → (∀ a w', P a w' → ends (f a) w' Q) →
  ends (m ≫= f) w Q.
Proof.
  intros Hm Hf. apply ends_bind. eapply ends_mono; [done|]. intros o w' (a & -> & Ha). by apply Hf.
Qed.

Lemma ends_lift {A} (p : prog A) fs s o fs' (Q : outcome A → world D L S → Prop) :
  run p fs = (o, fs') → Q o (fs', s) → ends (lift p) (fs, s) Q.
Proof. intros Hr HQ. exists o, (fs', s). unfold lift. by rewrite Hr. Qed.

Lemma ends_catch_all (m : server D L S Z) w Q :
  ends m w (λ o w', match o with Exn _ => Q (Done (-1)) w' | _ => Q o w' end) →
  ends (catch_all m) w Q.
Proof.
  intros (o & w' & Hm & HQ). unfold ends, catch_all. rewrite Hm.
  destruct o; by eexists _, _.
Qed.

Lemma ends_close {A} (m : server D L S A) w Q :
  ends m w (λ o w', match o with
                    | Done _ | Exn _ => Q o (w'.1, sock_close w'.2)
                    | _ => Q o w'
                    end) →
  ends (close_on_exit m) w Q.
Proof.
  intros (o & [fs s] & Hm & HQ). unfold ends, close_on_exit. rewrite Hm.
  destruct o; by eexists _, _.
Qed.

End ends.

(** ** Receiving and sending *)

(** A message and what follows it: split at the first NUL. *)
Fixpoint split_nul (l : bytes) : option (bytes * bytes) :=
  match l with
  | [] => None
  | c :: l' => if is_nul c then Some ([], l') else prod_map (cons c) id <$> split_nul l'
  end.

Lemma split_nul_Some l m r : split_nul l = Some (m, r) → l = m ++ NUL :: r ∧ NUL ∉ m.
Proof.
  revert m; induction l as [|c l IH]; intros m; simpl; [done|].
  destruct (is_nul c) eqn:Hc.
  - intros [= <- <-]. apply is_nul_true in Hc as ->. split; [done|by intros ?%elem_of_nil].
  - intros ([m' r'] & Hs & [= -> ->])%fmap_Some. destruct (IH _ Hs) as [-> Hm].
    apply is_nul_false in Hc. split; [done|]. by intros [?|?]%elem_of_cons.
Qed.

Lemma split_nul_app m r : NUL ∉ m → split_nul (m ++ NUL :: r) = Some (m, r).
Proof.
  induction m as [|c m IH]; [done|]. intros [Hc Hm]%not_elem_of_cons. simpl.
  rewrite (proj2 (is_nul_false c)) by congruence. by rewrite IH.
Qed.

Section transfer.
Context {D L S : Type} `{Disk D} `{InodeLocks L} `{SocketSpec S}.
Implicit Types (fs : fs_state D L) (s : S).

(** What a step does to the connection, besides its data. *)
Definition open_after (s s' : S) : Prop := closed s' = false ∧ (healthy s → healthy s').

Lemma open_after_trans s1 s2 s3 : open_after s1 s2 → open_after s2 s3 → open_after s1 s3.
Proof. unfold open_after. naive_solver. Qed.

Lemma ends_recv n fs s (Q : outcome recv_result → world D L S → Prop) :
  0 < n → closed s = false →
  (∀ r s', open_after s s' → outgoing s' = outgoing s →
     match r with
     | RecvData l => l ≠ [] ∧ len l ≤ n ∧ incoming s = l ++ incoming s'
     | _ => incoming s' = incoming s ∧ (healthy s → incoming s = [])
     end → Q (Done r) (fs, s')) →
  ends (recv n) (fs, s) Q.
Proof.
  intros Hn Hc HQ. pose proof (sock_recv_spec (Z.to_nat n) s ltac:(lia) Hc) as Hr.
  unfold recv, ends. destruct (sock_recv (Z.to_nat n) s) as [r s'].
  destruct Hr as (Ho & Hc' & Hh & Hr). eexists _, _. split; [done|]. apply HQ; [done|done|].
  destruct r; [done..|]. unfold len. destruct Hr as (? & ? & ?). split_and!; [done|lia|done].
Qed.

Lemma ends_send v fs s (Q : outcome send_result → world D L S → Prop) :
  v ≠ [] → closed s = false →
  (∀ r s', open_after s s' → incoming s' = incoming s →
     match r with
     | SendCount n => (0 < n <= length v)%nat ∧ outgoing s' = outgoing s ++ take n v
     | SendError => outgoing s' = outgoing s ∧ ¬ healthy s
     end → Q (Done r) (fs, s')) →
  ends (send v) (fs, s) Q.
Proof.
  intros Hv Hc HQ. pose proof (sock_send_spec v s Hv Hc) as Hs.
  unfold send, ends. destruct (sock_send v s) as [r s'].
  destruct Hs as (Hi & Hc' & Hh & Hs). eexists _, _. split; [done|]. by apply HQ.
Qed.

(** What receiving a message comes to: the message is what comes before the
    first NUL, unless it is too long or the connection fails. *)
Definition received_message (req : bytes) (s : S) (rval : Z) (r : bytes) (s' : S) : Prop :=
  open_after s s' ∧ outgoing s' = outgoing s ∧
  ((rval = 0 ∧ ∃ m, r = req ++ m ∧ split_nul (incoming s) = Some (m, incoming s') ∧
      len r ≤ Z.max MAX_MESSAGE_SIZE (len req)) ∨
   (rval = -1 ∧ (healthy s → ∀ m rest, split_nul (incoming s) = Some (m, rest) →
      MAX_MESSAGE_SIZE < len (req ++ m)))).

Lemma receive_loop_spec fuel req fs s :
  closed s = false → MAX_MESSAGE_SIZE - len req < Z.of_nat fuel - 1 → (0 < fuel)%nat →
  ends (NetworkServer.receive_loop fuel req) (fs, s)
    (λ o w', ∃ a, o = Done a ∧ w'.1 = fs ∧ received_message req s a.1 a.2 w'.2).
Proof.
  revert req s; induction fuel as [|fuel IH]; intros req s Hc Hf Hf0; [lia|]. cbn [NetworkServer.receive_loop].
  apply ends_bind. apply ends_recv; [lia|done|]. intros r s1 Ho1 Hout1 Hr.
  assert (∀ r', (healthy s → ∀ m rest, split_nul (incoming s) = Some (m, rest) →
      MAX_MESSAGE_SIZE < len (req ++ m)) →
    ends (mret (-1, r')) (fs, s1) (λ o w', ∃ a, o = Done a ∧ w'.1 = fs ∧
      received_message req s a.1 a.2 w'.2)) as Hfail.
  { intros r' Hr'. apply ends_ret. eexists. split; [done|]. split; [done|]. split_and!; [done|done|]. by right. }
  assert ((healthy s → incoming s = []) → healthy s → ∀ m rest, split_nul (incoming s) = Some (m, rest) →
    MAX_MESSAGE_SIZE < len (req ++ m)) as Hempty.
  { intros Hi Hh m rest Hs. by rewrite Hi in Hs by done. }
  destruct r as [| |l]; [by apply Hfail, Hempty, Hr..|]. destruct Hr as (Hl & Hlen & Hin).
  destruct l as [|c [|? l]]; [done| |unfold len in Hlen; simpl in Hlen; lia]. simpl in Hin.
  destruct (is_nul c) eqn:Hcn.
  - apply ends_ret. eexists. split; [done|]. split; [done|]. split_and!; [done|done|]. left. simpl.
    split; [done|]. exists []. rewrite app_nil_r, Hin. simpl. rewrite Hcn. split_and!; [done|done|lia].
  - assert (len (req ++ [c]) = len req + 1) as Hl1 by (unfold len; rewrite length_app; simpl; lia).
    destruct (Z.ltb_spec MAX_MESSAGE_SIZE (len (req ++ [c]))) as [Hbig|Hsmall].
    + apply Hfail. intros _ m rest. rewrite Hin. simpl. rewrite Hcn.
      intros ([m' r'] & _ & [= -> ->])%fmap_Some. rewrite cons_middle, app_assoc.
      unfold len in *. rewrite (length_app _ m'). lia.
    + eapply ends_mono; [apply (IH (req ++ [c]) s1)|]; [apply Ho1|lia|lia|].
      intros o w' ([rv r] & -> & Hfs & Ho2 & Hout2 & Hres). exists (rv, r). split; [done|]. split; [done|].
      split; [by eapply open_after_trans|]. split; [congruence|]. simpl in *. rewrite Hin. simpl. rewrite Hcn.
      destruct Hres as [(-> & m & -> & Hs & Hlm)|(-> & Hres)].
      * left. split; [done|]. exists (c :: m). rewrite Hs, <-app_assoc. split_and!; [done|done|].
        rewrite Z.max_l in Hlm by done. rewrite <-app_assoc in Hlm. simpl in *. lia.
      * right. split; [done|]. intros Hh m rest ([m' r'] & Hs & [= -> ->])%fmap_Some.
        specialize (Hres ltac:(by apply Ho1) _ _ Hs). by rewrite <-app_assoc in Hres.
Qed.

(** The whole message goes out, or the connection fails half-way. *)
Definition sent_message (v : bytes) (s : S) (rval : Z) (s' : S) : Prop :=
  open_after s s' ∧ incoming s' = incoming s ∧
  ((rval = 0 ∧ outgoing s' = outgoing s ++ v) ∨
   (rval = -1 ∧ ¬ healthy s ∧ ∃ p, p `prefix_of` v ∧ outgoing s' = outgoing s ++ p)).

Lemma send_loop_spec fuel v fs s :
  closed s = false → v ≠ [] → (length v <= fuel)%nat →
  ends (NetworkServer.send_loop fuel v) (fs, s)
    (λ o w', ∃ rval, o = Done rval ∧ w'.1 = fs ∧ sent_message v s rval w'.2).
Proof.
  revert v s; induction fuel as [|fuel IH]; intros v s Hc Hv Hf; [by destruct v; simpl in *; [|lia]|].
  cbn [NetworkServer.send_loop]. apply ends_bind. apply ends_send; [done|done|]. intros r s1 Ho1 Hin1 Hr.
  destruct r as [|n].
  - destruct Hr as [Hout Hh]. apply ends_ret. eexists. split; [done|]. split; [done|].
    split_and!; [done|done|]. right. split_and!; [done|done|]. exists []. split; [apply prefix_nil|].
    by rewrite app_nil_r.
  - destruct Hr as [Hn Hout]. destruct (drop n v) as [|x rest] eqn:Hd.
    + apply ends_ret. eexists. split; [done|]. split; [done|]. split_and!; [done|done|]. left.
      split; [done|]. rewrite <-(take_drop n v), Hd, app_nil_r. done.
    + eapply ends_mono; [apply (IH (x :: rest) s1)|]; [apply Ho1|done|rewrite <-Hd, length_drop; lia|].
      intros o w' (rv & -> & Hfs & Ho2 & Hin2 & Hres). exists rv. split; [done|]. split; [done|].
      split; [by eapply open_after_trans|]. split; [congruence|].
      destruct Hres as [[-> Hres]|(-> & Hh & p & [q Hp] & Hres)].
      * left. split; [done|]. by rewrite Hres, Hout, <-app_assoc, <-Hd, take_drop.
      * right. split_and!; [done|by intros ?%Ho1|]. exists (take n v ++ p). split.
        -- exists q. by rewrite <-app_assoc, <-Hp, <-Hd, take_drop.
        -- by rewrite Hres, Hout, app_assoc.
Qed.

(** The next bytes of the client fill the rest of the block. *)
Definition received_block (n : nat) (data : bytes) (s : S) (rval : Z) (data' : bytes) (s' : S) : Prop :=
  open_after s s' ∧ outgoing s' = outgoing s ∧
  ((rval = 0 ∧ ∃ l, data' = take n data ++ l ∧ (n + length l)%nat = length data ∧
      incoming s = l ++ incoming s') ∨
   (rval = -1 ∧ (healthy s → len (incoming s) < FS_BLOCKSIZE - Z.of_nat n))).

Lemma receive_block_spec fuel n data fs s :
  closed s = false → len data = FS_BLOCKSIZE → Z.of_nat n ≤ FS_BLOCKSIZE →
  FS_BLOCKSIZE - Z.of_nat n ≤ Z.of_nat fuel →
  ends (NetworkServer.receive_block fuel n data) (fs, s)
    (λ o w', ∃ a, o = Done a ∧ w'.1 = fs ∧ received_block n data s a.1 a.2 w'.2).
Proof.
  revert n data s; induction fuel as [|fuel IH]; intros n data s Hc Hd Hn Hf;
    cbn [NetworkServer.receive_block]; destruct (Z.ltb_spec (Z.of_nat n) FS_BLOCKSIZE) as [Hlt|Hge]; try lia.
  1, 3: apply ends_ret; eexists; split; [done|]; split; [done|]; split_and!; [done|done|]; left;
    split; [done|]; exists []; unfold len in Hd; split_and!; [|simpl; lia|done];
    by rewrite app_nil_r, take_ge by lia.
  apply ends_bind. apply ends_recv; [lia|done|]. intros r s1 Ho1 Hout1 Hr.
  destruct r as [| |l].
  1, 2: apply ends_ret; eexists; split; [done|]; split; [done|]; split_and!; [done|done|]; right;
    split; [done|]; intros Hh; rewrite (proj2 Hr Hh); change (len []) with 0; lia.
  destruct Hr as (Hl & Hlen & Hin). unfold len in Hlen.
  assert (0 < length l)%nat as Hl0 by (destruct l; simpl; [done|lia]).
  assert (length (take n data) = n) as Htn by (rewrite length_take; unfold len in Hd; lia).
  set (data1 := take n data ++ l ++ drop (n + length l) data).
  assert (length data1 = length data) as Hd1.
  { unfold data1. rewrite !length_app, length_drop, Htn. unfold len in Hd. lia. }
  assert (take (n + length l) data1 = take n data ++ l) as Ht1.
  { unfold data1. rewrite app_assoc. apply take_app_exact. rewrite length_app. lia. }
  eapply ends_mono; [apply (IH (n + length l)%nat data1 s1)|];
    [apply Ho1|unfold len in *; lia|lia|lia|].
  intros o w' ([rv data'] & -> & Hfs & Ho2 & Hout2 & Hres). exists (rv, data'). split; [done|].
  split; [done|]. split; [by eapply open_after_trans|]. split; [congruence|].
  simpl in *. destruct Hres as [(-> & l' & -> & Hn' & Hin')|(-> & Hres)].
  - left. split; [done|]. exists (l ++ l'). rewrite Ht1, Hin, Hin', !app_assoc, length_app.
    split_and!; [done|lia|done].
  - right. split; [done|]. intros Hh. specialize (Hres ltac:(by apply Ho1)). rewrite Hin.
    unfold len in *. rewrite length_app. lia.
Qed.

Lemma send_message_spec fuel v fs s :
  closed s = false → (length v < fuel)%nat →
  ends (NetworkServer.send_message fuel v) (fs, s)
    (λ o w', ∃ rval, o = Done rval ∧ w'.1 = fs ∧ sent_message (v ++ [NUL]) s rval w'.2).
Proof.
  intros Hc Hf. apply send_loop_spec; [done|by destruct v|rewrite length_app; simpl; lia].
Qed.

Lemma send_block_spec fuel v fs s :
  closed s = false → (length v <= fuel)%nat →
  ends (NetworkServer.send_block fuel v) (fs, s)
    (λ o w', ∃ rval, o = Done rval ∧ w'.1 = fs ∧ sent_message v s rval w'.2).
Proof.
  intros Hc Hf. destruct v as [|x v]; [|by apply send_loop_spec].
  apply ends_ret. eexists. split; [done|]. split; [done|]. split_and!; [done|done|]. left.
  by rewrite app_nil_r.
Qed.

(** (C20) Receiving a request: with fuel for its maximal length, [receive_message]
    returns 0 exactly with the bytes before the first NUL, when these fit
    [MAX_MESSAGE_SIZE], and then the connection stands right after that NUL,
    nothing of what follows is lost; it returns -1 otherwise, and on a healthy
    connection only when there is no NUL or the message is too long.  It sends
    nothing and does not touch the file system. *)
Theorem receive_message_exact (fuel : nat) (fs : fs_state D L) (s : S) :
  closed s = false → MAX_MESSAGE_SIZE + 1 < Z.of_nat fuel →
  ∃ rval r s', NetworkServer.receive_message fuel [] (fs, s) = Some (Done (rval, r), (fs, s')) ∧
    closed s' = false ∧ outgoing s' = outgoing s ∧
    ((rval = 0 ∧ incoming s = r ++ NUL :: incoming s' ∧ NUL ∉ r ∧ len r ≤ MAX_MESSAGE_SIZE) ∨
     (rval = -1 ∧ (healthy s → ∀ m rest, incoming s = m ++ NUL :: rest → NUL ∉ m →
        MAX_MESSAGE_SIZE < len m))).
Proof.
  intros Hc Hf. destruct (receive_loop_spec fuel [] fs s) as (o & [fs' s'] & Hr & [rv r] & -> & Hfs & Ho & Hout & Hres);
    [done|change MAX_MESSAGE_SIZE with 158 in *; change (len []) with 0; lia..|]. simpl in *. subst fs'.
  exists rv, r, s'. split; [exact Hr|]. split; [apply Ho|]. split; [done|].
  destruct Hres as [(-> & m & -> & Hs & Hl)|(-> & Hres)].
  - left. apply split_nul_Some in Hs as [Hs Hm]. split_and!; [done|done|done|].
    change (len []) with 0 in Hl. rewrite Z.max_l in Hl by done. done.
  - right. split; [done|]. intros Hh m rest Hin Hm. eapply Hres; [done|].
    rewrite Hin. by apply split_nul_app.
Qed.

(** Sending a response: [send_message] puts exactly the response and its
    terminating NUL on the connection, however few bytes each [send] takes,
    and returns 0; if the connection fails it returns -1 after a prefix of
    that.  It receives nothing, and one [send] per byte is enough fuel. *)
Theorem send_message_complete (fuel : nat) (v : bytes) (fs : fs_state D L) (s : S) :
  closed s = false → (length v < fuel)%nat →
  ∃ rval s', NetworkServer.send_message fuel v (fs, s) = Some (Done rval, (fs, s')) ∧
    closed s' = false ∧ incoming s' = incoming s ∧
    ((rval = 0 ∧ outgoing s' = outgoing s ++ v ++ [NUL]) ∨
     (rval = -1 ∧ ¬ healthy s ∧ ∃ p, p `prefix_of` v ++ [NUL] ∧ outgoing s' = outgoing s ++ p)).
Proof.
  intros Hc Hf. destruct (send_message_spec fuel v fs s Hc Hf) as (o & [fs' s'] & Hr & rv & -> & Hfs & Ho & Hin & Hres).
  simpl in *. subst fs'. exists rv, s'. split; [done|]. split; [apply Ho|]. by split.
Qed.

End transfer.

(** ** Serving a request *)

(** The outcome of a request that returns no data. *)
Definition no_data (o : outcome ()) : outcome bytes :=
  match o with
  | Done _ => Done []
  | Exn e => Exn e
  | Crash x => Crash x
  | Blocked => Blocked
  end.

(** What the file system does with a command: the operation on the tree. *)
Definition performs (V : store) (fl : list Z) (c : Command) (cs : list bytes) (name : bytes)
    (o : outcome bytes) (V' : store) : Prop :=
  match command_type c with
  | FS_READBLOCK =>
      o = of_sum (tree_read (tree V) (username c) (cs ++ [name]) (cmd_block c)) ∧ V' = V
  | FS_WRITEBLOCK => ∃ o', o = no_data o' ∧
      write_answer V fl (username c) (cs ++ [name]) (cmd_block c) (cmd_data c) o' V'
  | FS_CREATE => ∃ o', o = no_data o' ∧ create_answer V fl (username c) cs name (cmd_type c) o' V'
  | FS_DELETE => ∃ o', o = no_data o' ∧ delete_answer V (username c) cs name o' V'
  | INVALID => False
  end.

(** The locks that are held when the command has been carried out: none, but
    when a create found no free block. *)
Definition left_held (V : store) (fl : list Z) (c : Command) (cs : list bytes) (name : bytes)
    (h : holdings) : Prop :=
  match command_type c with
  | FS_CREATE => create_keeps V fl cs (cmd_type c) (username c) name h
  | _ => h = []
  end.

Lemma left_held_free V fl c cs name h : fl ≠ [] → left_held V fl c cs name h → h = [].
Proof. intros Hfl. unfold left_held, create_keeps. destruct (command_type c); try done. by destruct fl. Qed.

(** The bytes that follow the request proper, and the command with them. *)
Definition payload_ok (c : Command) (payload : bytes) : Prop :=
  if bool_decide (command_type c = FS_WRITEBLOCK) then len payload = FS_BLOCKSIZE else payload = [].

Definition with_payload (c : Command) (payload : bytes) : Command :=
  if bool_decide (command_type c = FS_WRITEBLOCK) then NetworkServer.with_data c payload else c.

(** What [parse_message] and the protocol say of a command. *)
Record command_ok (c : Command) (cs : list bytes) (name : bytes) : Prop := {
  co_cmd : cmd_ok c;
  co_path : pathname c = path_of (cs ++ [name]);
  co_good : Forall good_name (cs ++ [name]);
  co_type : command_type c = FS_CREATE → cmd_type c = type_file ∨ cmd_type c = type_dir;
}.

Lemma command_ok_payload c cs name payload :
  command_ok c cs name → payload_ok c payload → command_ok (with_payload c payload) cs name.
Proof.
  unfold payload_ok, with_payload. intros [[] ? ? ?] Hp. case_bool_decide; by split.
Qed.

(** Operations that fail change nothing. *)
Lemma performs_exn V fl c cs name e V' : performs V fl c cs name (Exn e) V' → V' = V.
Proof.
  unfold performs, write_answer, create_answer. destruct (command_type c); [naive_solver| | | |done].
  - intros ([] & [= <-] & Hw). case_match; naive_solver.
  - intros ([] & [= <-] & Hw). case_match; naive_solver.
  - intros ([] & [= <-] & [Hw _]). by destruct Hw as [|(? & [= ->] & ?)].
Qed.

Section serving.
Context {D L S : Type} `{DiskSpec D} `{InodeLocksSpec L} `{SocketSpec S}.
Implicit Types (fs : fs_state D L) (s : S).

(** A file system between two requests: in its invariant, with the locks [h]
    held; with none it is ready for any request. *)
Definition stands (V : store) (h : holdings) (fs : fs_state D L) : Prop :=
  fs_inv (st_disk fs) V (st_free fs) ∧ lk_view (st_locks fs) h ∧ st_free_mutex fs = false.

Definition ready (V : store) (fs : fs_state D L) : Prop := stands V [] fs.

Lemma run_ends {A} (p : prog A) fs V o d' V' fl' h :
  ready V fs → runs_to (L:=L) p (st_disk fs) (st_free fs) [] o d' fl' h → fs_inv d' V' fl' →
  ∃ fs', run p fs = (o, fs') ∧ stands V' h fs'.
Proof.
  intros (_ & Hl & Hm) Hr Hinv. destruct fs as [d fl l m]. simpl in *. subst m.
  destruct (Hr l Hl) as (l' & Hrun & Hl'). eexists. split; [exact Hrun|]. by split.
Qed.

Lemma run_served {A} (p : prog A) fs V o V' fl' :
  ready V fs → serves (L:=L) p (st_disk fs) (st_free fs) o V' fl' →
  ∃ fs', run p fs = (o, fs') ∧ ready V' fs'.
Proof. intros Hfs (d' & Hr & Hinv). by eapply run_ends. Qed.

Section command.
Context {V : store} {c : Command} {cs : list bytes} {name : bytes} (Hc : command_ok c cs name).

Lemma read_runs fs :
  ready V fs → ∃ o fs', run (handle_read c) fs = (o, fs') ∧ ready V fs' ∧
    o = of_sum (tree_read (tree V) (username c) (cs ++ [name]) (cmd_block c)).
Proof.
  intros Hfs. pose proof Hfs as (Hinv & _). destruct Hc as [Hcmd Hp Hg _].
  pose proof (handle_read_served (L:=L) Hinv Hcmd Hp Hg) as Hr.
  set (o := of_sum _) in Hr.
  destruct (run_served (handle_read c) fs V o V (st_free fs) Hfs) as (fs' & Hrun & Hfs').
  { eexists. split; [exact Hr|done]. }
  by exists o, fs'.
Qed.

Lemma write_runs fs :
  ready V fs → ∃ o V' fs', run (handle_write c) fs = (o, fs') ∧ ready V' fs' ∧
    write_answer V (st_free fs) (username c) (cs ++ [name]) (cmd_block c) (cmd_data c) o V'.
Proof.
  intros Hfs. pose proof Hfs as (Hinv & _). destruct Hc as [Hcmd Hp Hg _].
  destruct (handle_write_served (L:=L) Hinv Hcmd Hp Hg) as (o & V' & fl' & Hs & Ha).
  destruct (run_served _ fs V _ V' fl' Hfs Hs) as (fs' & Hrun & Hfs'). eauto 6.
Qed.

Lemma create_runs fs stack_inode :
  ready V fs → inode_ok stack_inode → command_type c = FS_CREATE →
  ∃ o V' h fs', run (handle_create stack_inode c) fs = (o, fs') ∧ stands V' h fs' ∧
    create_answer V (st_free fs) (username c) cs name (cmd_type c) o V' ∧
    left_held V (st_free fs) c cs name h.
Proof.
  intros Hfs Hst Hty. pose proof Hfs as (Hinv & _). destruct Hc as [Hcmd Hp Hg Ht].
  destruct (handle_create_ends (L:=L) stack_inode Hinv Hcmd (Ht Hty) Hst Hp Hg)
    as (o & d' & V' & fl' & h & Hr & Hinv' & Ha & Hk).
  destruct (run_ends _ fs V _ d' V' fl' h Hfs Hr Hinv') as (fs' & Hrun & Hfs').
  exists o, V', h, fs'. unfold left_held. by rewrite Hty.
Qed.

Lemma delete_runs fs :
  ready V fs → ∃ o V' fs', run (handle_delete c) fs = (o, fs') ∧ ready V' fs' ∧
    delete_answer V (username c) cs name o V'.
Proof.
  intros Hfs. pose proof Hfs as (Hinv & _). destruct Hc as [Hcmd Hp Hg _].
  destruct (handle_delete_served (L:=L) Hinv Hcmd Hp Hg) as (o & V' & fl' & Hs & Ha & _).
  destruct (run_served _ fs V _ V' fl' Hfs Hs) as (fs' & Hrun & Hfs'). eauto 6.
Qed.
End command.

(** *** Answering *)

(** The end of a request that was carried out: the response goes out whole, or
    the connection fails; an exception sends nothing. *)
Definition answered (r : bytes) (s : S) (o : outcome bytes) (rval : Z) (s' : S) : Prop :=
  match o with
  | Done data => sent_message (r ++ NUL :: data) s rval s'
  | Exn _ => rval = -1 ∧ open_after s s' ∧ incoming s' = incoming s ∧ outgoing s' = outgoing s
  | _ => False
  end.

Lemma reply fuel r data fs s :
  closed s = false → (length r < fuel)%nat → (length data <= fuel)%nat →
  ends (rval ← NetworkServer.send_message fuel r;
        if rval =? -1 then mret (-1) else NetworkServer.send_block fuel data) (fs, s)
    (λ o w', ∃ rval, o = Done rval ∧ w'.1 = fs ∧ sent_message (r ++ NUL :: data) s rval w'.2).
Proof.
  intros Hc Hf Hfd. eapply ends_seq; [by apply send_message_spec|].
  intros rv [fs1 s1] (Hfs & Ho & Hin & Hres). simpl in *. subst fs1.
  destruct Hres as [[-> Hout]|(-> & Hh & p & Hp & Hout)]; simpl.
  - eapply ends_mono; [apply send_block_spec; [apply Ho|done]|].
    intros o [fs2 s2] (rv & -> & Hfs2 & Ho2 & Hin2 & Hres2). simpl in *. exists rv.
    split; [done|]. split; [done|]. split; [by eapply open_after_trans|]. split; [congruence|].
    destruct Hres2 as [[-> Hout2]|(-> & Hh & p & [q Hp] & Hout2)].
    + left. split; [done|]. by rewrite Hout2, Hout, <-!app_assoc.
    + right. split_and!; [done|by intros ?%Ho|]. exists ((r ++ [NUL]) ++ p). split.
      * exists q. by rewrite <-!app_assoc, <-Hp.
      * by rewrite Hout2, Hout, !app_assoc.
  - apply ends_ret. eexists. split; [done|]. split; [done|]. split_and!; [done|done|]. right.
    split_and!; [done|done|]. exists p. split; [|done]. destruct Hp as [q Hp]. exists (q ++ data).
    by rewrite app_assoc, <-Hp, <-app_assoc.
Qed.

(** The operation of the file system, then the response. *)
Lemma operate {A} (p : prog A) (data : A → bytes) fuel r fs s o fs' :
  run p fs = (o, fs') → (∀ a, o = Done a → (length (data a) <= fuel)%nat) →
  (∃ a, o = Done a) ∨ (∃ e, o = Exn e) →
  closed s = false → (length r < fuel)%nat →
  ends (catch_all (a ← lift p;
          rval ← NetworkServer.send_message fuel r;
          if rval =? -1 then mret (-1) else NetworkServer.send_block fuel (data a))) (fs, s)
    (λ o' w', ∃ rval, o' = Done rval ∧ w'.1 = fs' ∧
       answered r s (match o with Done a => Done (data a) | Exn e => Exn e | Crash x => Crash x
                     | Blocked => Blocked end) rval w'.2).
Proof.
  intros Hrun Hdata Ho Hc Hf. apply ends_catch_all, ends_bind. eapply ends_lift; [done|].
  destruct Ho as [[a ->]|[e ->]].
  - eapply ends_mono; [apply reply; auto|]. by intros o' w' (rv & -> & Hres); exists rv.
  - eexists. split; [done|]. by split_and!.
Qed.

(** Blocks are read whole. *)
Lemma read_length V fl (user : bytes) cs name k v :
  fs_wf V fl → 0 ≤ k → tree_read (tree V) user (cs ++ [name]) k = inr v → len v = FS_BLOCKSIZE.
Proof.
  intros Hwf Hk. rewrite <-(read_spec_tree V fl) by done. unfold read_spec, file_block.
  destruct (target_spec V user cs name) as [|t]; simpl; [done|]. destruct (inode_at V t) as [i|]; [|done].
  case_match; [done|]. case_match; [done|].
  destruct (inode_refs i !! Z.to_nat k) as [b|]; simpl; [|done].
  destruct (V !! b) as [[| |w]|] eqn:Hb; try done. intros [= <-]. apply (wf_node _ _ Hwf _ _ Hb).
Qed.

Lemma ends_catch_seq {A} (m : server D L S A) (f : A → server D L S Z) w P Q :
  ends m w (λ o w', ∃ a, o = Done a ∧ P a w') → (∀ a w', P a w' → ends (catch_all (f a)) w' Q) →
  ends (catch_all (m ≫= f)) w Q.
Proof.
  intros (o & w1 & Hm & a & -> & Ha) Hf. destruct (Hf a w1 Ha) as (o2 & w2 & Hr & HQ).
  exists o2, w2. split; [|done]. unfold catch_all, mbind, server_bind in *. by rewrite Hm.
Qed.

(** *** The four handlers *)

Section dispatch.
Context {V : store} {fs : fs_state D L} (Hfs : ready V fs).
Context {stack : Command} {stack_inode : fs_inode} (Hstack : inode_ok stack_inode).
Context {r : bytes} {c : Command} {cs : list bytes} {name : bytes}.
Context (Hparse : parse_message stack r = Ret c) (Hc : command_ok c cs name).
Context {fuel : nat} (Hfuel : FS_BLOCKSIZE ≤ Z.of_nat fuel) (Hlen : (length r < fuel)%nat).

(** What becomes of a request that was parsed: the operation with the payload
    is carried out and answered, or the payload did not come. *)
Definition handled (s : S) (rval : Z) (fs' : fs_state D L) (s' : S) : Prop :=
  ∃ V' h, stands V' h fs' ∧ left_held V (st_free fs) c cs name h ∧ closed s' = false ∧
  ((∃ payload s1 o, payload_ok c payload ∧ open_after s s1 ∧ outgoing s1 = outgoing s ∧
      incoming s = payload ++ incoming s1 ∧
      performs V (st_free fs) (with_payload c payload) cs name o V' ∧ answered r s1 o rval s') ∨
   (rval = -1 ∧ V' = V ∧ outgoing s' = outgoing s ∧
      command_type c = FS_WRITEBLOCK ∧ (healthy s → len (incoming s) < FS_BLOCKSIZE))).

Lemma answered_open s1 o rval s' : answered r s1 o rval s' → closed s' = false.
Proof. destruct o; simpl; [by intros [[? _] _]|by intros (_ & [? _] & _)|done..]. Qed.

(** The operation and its answer, once the payload is there. *)
Lemma operated {A} (p : prog A) (data : A → bytes) s payload s1 o fs' V' h :
  payload_ok c payload → open_after s s1 → outgoing s1 = outgoing s → incoming s = payload ++ incoming s1 →
  run p fs = (o, fs') → stands V' h fs' → left_held V (st_free fs) c cs name h →
  performs V (st_free fs) (with_payload c payload) cs name
    match o with Done a => Done (data a) | Exn e => Exn e | Crash x => Crash x | Blocked => Blocked end V' →
  (∀ a, o = Done a → (length (data a) <= fuel)%nat) → (∃ a, o = Done a) ∨ (∃ e, o = Exn e) →
  ends (catch_all (a ← lift p;
          rval ← NetworkServer.send_message fuel r;
          if rval =? -1 then mret (-1) else NetworkServer.send_block fuel (data a))) (fs, s1)
    (λ o w', ∃ rval, o = Done rval ∧ handled s rval w'.1 w'.2).
Proof.
  intros Hpay Hs Hout Hin Hrun Hfs' Hh Hp Hdata Ho.
  eapply ends_mono; [eapply operate; [done|done|done|apply Hs|done]|].
  intros o2 [fs2 s2] (rv & -> & Hfs2 & Ha). simpl in *. subst fs2.
  exists rv. split; [done|]. exists V', h. split; [done|]. split; [done|]. split; [by eapply answered_open|]. left.
  by eexists payload, s1, _.
Qed.

Lemma ends_parse (f : Command → server D L S Z) s Q :
  ends (catch_all (f c)) (fs, s) Q → ends (catch_all (lift (parse_message stack r) ≫= f)) (fs, s) Q.
Proof.
  intros (o & w' & Hf & HQ). exists o, w'. split; [|done].
  unfold catch_all, mbind, server_bind in *. cbn [lift]. by rewrite Hparse.
Qed.

Lemma no_payload : command_type c ≠ FS_WRITEBLOCK → payload_ok c [] ∧ with_payload c [] = c.
Proof. intros Ht. unfold payload_ok, with_payload. by rewrite bool_decide_eq_false_2. Qed.

Lemma read_handled s :
  command_type c = FS_READBLOCK → closed s = false →
  ends (NetworkServer.handle_read stack fuel r) (fs, s)
    (λ o w', ∃ rval, o = Done rval ∧ handled s rval w'.1 w'.2).
Proof.
  intros Ht Hs. apply ends_parse. destruct (read_runs Hc fs Hfs) as (o & fs' & Hrun & Hfs' & Ho).
  destruct no_payload as [Hpay Hwith]; [by rewrite Ht|].
  apply (operated _ (λ data, data) s [] s o fs' V []); try done.
  - unfold left_held. by rewrite Ht.
  - rewrite Hwith. unfold performs. rewrite Ht. split; [|done]. rewrite <-Ho. by destruct o.
  - intros data ->. destruct (tree_read _ _ _ _) as [|data'] eqn:Hr; [done|]. injection Ho as ->.
    destruct Hfs as ([_ Hwf _] & _). apply (read_length _ _ _ _ _ _ _ Hwf) in Hr;
      [unfold len in Hr; lia|apply Hc].
  - rewrite Ho. destruct (tree_read _ _ _ _); eauto.
Qed.

(** The creates and deletes: no payload, no data. *)
Lemma plain_handled (p : prog ()) s o fs' V' h :
  command_type c ≠ FS_WRITEBLOCK → closed s = false → run p fs = (o, fs') → stands V' h fs' →
  left_held V (st_free fs) c cs name h →
  performs V (st_free fs) c cs name (no_data o) V' → (∃ a, o = Done a) ∨ (∃ e, o = Exn e) →
  ends (catch_all (_ ← lift p;
          rval ← NetworkServer.send_message fuel r;
          if rval =? -1 then mret (-1) else mret 0)) (fs, s)
    (λ o w', ∃ rval, o = Done rval ∧ handled s rval w'.1 w'.2).
Proof.
  intros Ht Hs Hrun Hfs' Hh Hp Ho. destruct (no_payload Ht) as [Hpay Hwith].
  apply (operated p (λ _, []) s [] s o fs' V' h); try done.
  - rewrite Hwith. by destruct Ho as [[? ->]|[? ->]].
  - simpl. lia.
Qed.

Lemma create_handled s :
  command_type c = FS_CREATE → closed s = false →
  ends (NetworkServer.handle_create stack stack_inode fuel r) (fs, s)
    (λ o w', ∃ rval, o = Done rval ∧ handled s rval w'.1 w'.2).
Proof.
  intros Ht Hs. apply ends_parse.
  destruct (create_runs Hc fs stack_inode Hfs Hstack Ht) as (o & V' & h & fs' & Hrun & Hfs' & Ha & Hh).
  apply (plain_handled _ s o fs' V' h); try done; [by rewrite Ht| |].
  - unfold performs. rewrite Ht. by exists o.
  - unfold create_answer in Ha. case_match; [destruct Ha as [-> _]; eauto|].
    destruct Ha as [[-> _]|[-> _]]; eauto.
Qed.

Lemma delete_handled s :
  command_type c = FS_DELETE → closed s = false →
  ends (NetworkServer.handle_delete stack fuel r) (fs, s)
    (λ o w', ∃ rval, o = Done rval ∧ handled s rval w'.1 w'.2).
Proof.
  intros Ht Hs. apply ends_parse. destruct (delete_runs Hc fs Hfs) as (o & V' & fs' & Hrun & Hfs' & Ha).
  apply (plain_handled _ s o fs' V' []); try done; [by rewrite Ht|unfold left_held; by rewrite Ht| |].
  - unfold performs. rewrite Ht. by exists o.
  - destruct Ha as [[->|(e & -> & _)] _]; eauto.
Qed.

Lemma write_handled s :
  command_type c = FS_WRITEBLOCK → closed s = false →
  ends (NetworkServer.handle_write stack fuel r) (fs, s)
    (λ o w', ∃ rval, o = Done rval ∧ handled s rval w'.1 w'.2).
Proof.
  intros Ht Hs. apply ends_parse. pose proof Hc as [Hcmd _ _ _]. pose proof (cmd_data_len _ Hcmd) as Hd.
  eapply ends_catch_seq; [apply receive_block_spec; [done|done|done|simpl; lia]|].
  intros [rv data] [fs1 s1] (Hfs1 & Ho & Hout & Hres). simpl in *. subst fs1.
  destruct Hres as [(-> & l & -> & Hl & Hin)|(-> & Hres)]; simpl.
  - assert (payload_ok c l) as Hpay.
    { unfold payload_ok. rewrite bool_decide_eq_true_2 by done. unfold len in *. lia. }
    assert (with_payload c l = NetworkServer.with_data c l) as Hwith.
    { unfold with_payload. by rewrite bool_decide_eq_true_2. }
    pose proof (command_ok_payload _ _ _ _ Hc Hpay) as Hcl. rewrite Hwith in Hcl.
    destruct (write_runs Hcl fs Hfs) as (o & V' & fs' & Hrun & Hfs' & Ha).
    apply (operated (handle_write (NetworkServer.with_data c l)) (λ _, []) s l s1 o fs' V' []); try done.
    + unfold left_held. by rewrite Ht.
    + rewrite Hwith. unfold performs. simpl. rewrite Ht. exists o. split; [by destruct o|done].
    + simpl. lia.
    + unfold write_answer in Ha. case_match; [destruct Ha as [-> _]; eauto|].
      destruct Ha as [[-> _]|[-> _]]; eauto.
  - eexists _, _. split; [done|]. eexists. split; [done|]. exists V, []. split; [done|].
    split; [unfold left_held; by rewrite Ht|]. split; [apply Ho|]. right. by split_and!.
Qed.

Lemma dispatch_handled s :
  command_type c ≠ INVALID → closed s = false →
  ends (NetworkServer.dispatch stack stack_inode fuel r) (fs, s)
    (λ o w', ∃ rval, o = Done rval ∧ handled s rval w'.1 w'.2).
Proof.
  intros Hinv Hs.
  destruct (parse_message_inv _ _ _ Hparse) as (w1 & s1 & _ & _ & _ & _ & Hr & _ & _ & _ & _ & _ & _ & Ht & _).
  unfold NetworkServer.dispatch. rewrite Hr, <-Ht. destruct (command_type c) eqn:Hty; [..|done].
  - by apply read_handled.
  - by apply write_handled.
  - by apply create_handled.
  - by apply delete_handled.
Qed.

End dispatch.

(** *** A whole request *)

(** A request that reached the file system: the bytes of the client are
    request, NUL and payload; the operation of the command was performed; the
    client got the request back with the operation's data, or nothing when the
    operation failed. *)
Definition carried_out (V : store) fs (stack : Command) s (rval : Z) (V' : store) (h : holdings) s' : Prop :=
  ∃ r c cs name payload o,
    parse_message stack r = Ret c ∧ command_ok c cs name ∧ payload_ok c payload ∧ NUL ∉ r ∧
    left_held V (st_free fs) c cs name h ∧
    incoming s = r ++ NUL :: payload ++ incoming s' ∧
    performs V (st_free fs) (with_payload c payload) cs name o V' ∧
    match o with
    | Done data =>
        (rval = 0 ∧ outgoing s' = outgoing s ++ r ++ NUL :: data) ∨
        (rval = -1 ∧ ¬ healthy s ∧ ∃ p, p `prefix_of` r ++ NUL :: data ∧ outgoing s' = outgoing s ++ p)
    | Exn _ => rval = -1 ∧ outgoing s' = outgoing s
    | _ => False
    end.

(** A request that did not: nothing changed, nothing was sent; on a healthy
    connection the message had no end, was too long, did not parse to a known
    command, or lacked its payload. *)
Definition refused (V : store) (stack : Command) s (rval : Z) (V' : store) (h : holdings) s' : Prop :=
  rval = -1 ∧ V' = V ∧ h = [] ∧ outgoing s' = outgoing s ∧
  (healthy s → ∀ r rest, incoming s = r ++ NUL :: rest → NUL ∉ r → len r ≤ MAX_MESSAGE_SIZE →
     ∀ c, parse_message stack r = Ret c →
       command_type c = INVALID ∨ command_type c = FS_WRITEBLOCK ∧ len rest < FS_BLOCKSIZE).

Lemma split_nul_unique m r m' r' :
  NUL ∉ m → NUL ∉ m' → m ++ NUL :: r = m' ++ NUL :: r' → m = m' ∧ r = r'.
Proof.
  intros Hm Hm' Heq. pose proof (split_nul_app m r Hm) as Hs. rewrite Heq, split_nul_app in Hs by done.
  by injection Hs as <- <-.
Qed.

Lemma parses_run (stack : Command) r fs :
  (read_word r).1 ≠ [] → ∃ o, run (parse_message stack r) fs = (o, fs) ∧
    match o with
    | Done c => parse_message stack r = Ret c
    | Exn _ => ∀ c, parse_message stack r ≠ Ret c
    | _ => False
    end.
Proof. intros [[c ->]|[e ->]]%(parse_message_parses stack); by eexists. Qed.

(** A request whose first word is a command name, but which does not parse. *)
Lemma dispatch_refused (stack : Command) stack_inode fuel r fs s :
  (∀ c, parse_message stack r ≠ Ret c) →
  ends (NetworkServer.dispatch stack stack_inode fuel r) (fs, s) (λ o w', o = Done (-1) ∧ w' = (fs, s)).
Proof.
  intros Hno. unfold NetworkServer.dispatch. destruct (read_word r) as [w rest] eqn:Hw.
  destruct (decide (w = [])) as [->|Hne]; [by eexists _, _|].
  destruct (parses_run stack r fs) as (o & Hrun & Ho); [by rewrite Hw|].
  destruct o as [c|e|x|]; [by apply Hno in Ho| |done..].
  assert (∀ f : Command → server D L S Z,
    ends (catch_all (lift (parse_message stack r) ≫= f)) (fs, s) (λ o w', o = Done (-1) ∧ w' = (fs, s))) as Hc.
  { intros f. apply ends_catch_all, ends_bind. eapply ends_lift; [done|]. done. }
  destruct (parse_command w); [apply Hc..|by eexists _, _].
Qed.

Lemma dispatch_invalid (stack : Command) stack_inode fuel r c fs s :
  parse_message stack r = Ret c → command_type c = INVALID →
  ends (NetworkServer.dispatch stack stack_inode fuel r) (fs, s) (λ o w', o = Done (-1) ∧ w' = (fs, s)).
Proof.
  intros Hp Ht. destruct (parse_message_inv _ _ _ Hp) as (w1 & s1 & _ & _ & _ & _ & Hr & _ & _ & _ & _ & _ & _ & Hty & _).
  unfold NetworkServer.dispatch. rewrite Hr, <-Hty, Ht. by eexists _, _.
Qed.

(** What [dispatch] makes of a message. *)
Definition dispatched (V : store) fs (stack : Command) (r : bytes) s (o : outcome Z) (w' : world D L S) : Prop :=
  ∃ rval, o = Done rval ∧
  ((∃ c cs name, parse_message stack r = Ret c ∧ command_ok c cs name ∧ command_type c ≠ INVALID ∧
      handled (V := V) (fs := fs) (r := r) (c := c) (cs := cs) (name := name) s rval w'.1 w'.2) ∨
   (rval = -1 ∧ w' = (fs, s) ∧ ∀ c, parse_message stack r = Ret c → command_type c = INVALID)).

Lemma dispatch_result V fs (stack : Command) stack_inode fuel r s :
  ready V fs → stack_command_ok stack → inode_ok stack_inode →
  FS_BLOCKSIZE ≤ Z.of_nat fuel → len r ≤ MAX_MESSAGE_SIZE → NUL ∉ r → closed s = false →
  ends (NetworkServer.dispatch stack stack_inode fuel r) (fs, s) (dispatched V fs stack r s).
Proof.
  intros Hfs Hst Hsti Hfuel Hlen Hn Hs.
  assert (length r < fuel)%nat as Hlr.
  { change MAX_MESSAGE_SIZE with 158 in Hlen. change FS_BLOCKSIZE with 512 in Hfuel. unfold len in Hlen. lia. }
  assert (ends (NetworkServer.dispatch stack stack_inode fuel r) (fs, s) (λ o w', o = Done (-1) ∧ w' = (fs, s)) →
    (∀ c, parse_message stack r = Ret c → command_type c = INVALID) →
    ends (NetworkServer.dispatch stack stack_inode fuel r) (fs, s) (dispatched V fs stack r s)) as Hno.
  { intros Hd Hc. eapply ends_mono; [exact Hd|]. intros o w' [-> ->]. exists (-1). split; [done|].
    right. by split_and!. }
  destruct (parse_message stack r) as [c| | | | | | | | |] eqn:Hp;
    try (apply Hno; [apply dispatch_refused; congruence|congruence]).
  destruct (decide (command_type c = INVALID)) as [Ht|Ht].
  { apply Hno; [by eapply dispatch_invalid|]. by intros c' [= <-]. }
  destruct (parse_message_sound _ _ _ Hst Hn Hp) as (Hcmd & _ & (cs & name & Hpath & Hg) & Hty & _).
  assert (command_ok c cs name) as Hc by by split.
  eapply ends_mono; [exact (dispatch_handled Hfs Hsti Hp Hc Hfuel Hlr s Ht Hs)|].
  intros o w' (rv & -> & Hh). exists rv. split; [done|]. left. by exists c, cs, name.
Qed.

(** The connection before and after the destructor closed it. *)
Lemma sock_closed s : closed s = false →
  closed (sock_close s) = true ∧ incoming (sock_close s) = incoming s ∧ outgoing (sock_close s) = outgoing s.
Proof. apply sock_close_spec. Qed.

(** From the message on, told from the start of the request. *)
Lemma handled_result V fs (stack : Command) r c cs name s0 s rval fs' s' :
  NUL ∉ r → incoming s0 = r ++ NUL :: incoming s → outgoing s = outgoing s0 → (healthy s0 → healthy s) →
  parse_message stack r = Ret c → command_ok c cs name →
  handled (V := V) (fs := fs) (r := r) (c := c) (cs := cs) (name := name) s rval fs' s' →
  ∃ V' h, stands V' h fs' ∧ closed (sock_close s') = true ∧
    (carried_out V fs stack s0 rval V' h (sock_close s') ∨ refused V stack s0 rval V' h (sock_close s')).
Proof.
  intros Hn Hin0 Hout0 Hh0 Hp Hc (V' & h & Hr' & Hheld & Hcl & Hres). exists V', h. split; [done|].
  destruct (sock_closed s' Hcl) as (Hc1 & Hc2 & Hc3). split; [done|].
  destruct Hres as [(payload & s1 & o & Hpay & Ho1 & Hout1 & Hin1 & Hperf & Ha)|(-> & -> & Hout & Hty & Hshort)].
  - left. exists r, c, cs, name, payload, o. rewrite Hc2, Hc3, Hin0, Hin1.
    assert (∀ rest, incoming s' = rest → incoming s1 = rest → r ++ NUL :: payload ++ incoming s1 =
      r ++ NUL :: payload ++ incoming s') as Hsame by congruence.
    split_and!; try done.
    + destruct o as [data|e|x|]; [| |done..].
      * destruct Ha as (_ & Hin' & _). by rewrite Hin'.
      * destruct Ha as (_ & _ & Hin' & _). by rewrite Hin'.
    + destruct o as [data|e|x|]; [| |done..].
      * destruct Ha as (_ & _ & [[-> Hout']|(-> & Hh & p & Hpre & Hout')]).
        -- left. split; [done|]. by rewrite Hout', Hout1, Hout0.
        -- right. split_and!; [done|by intros ?%Hh0%Ho1|]. exists p. split; [done|].
           by rewrite Hout', Hout1, Hout0.
      * destruct Ha as (-> & _ & _ & Hout'). split; [done|]. by rewrite Hout', Hout1, Hout0.
  - unfold left_held in Hheld. rewrite Hty in Hheld.
    right. split_and!; [done|done|done|by rewrite Hc3, Hout, Hout0|].
    intros Hh r' rest Heq Hn' _ c' Hp'. rewrite Hin0 in Heq.
    apply split_nul_unique in Heq as [<- <-]; [|done..]. assert (c' = c) as -> by congruence.
    right. split; [done|]. by apply Hshort, Hh0.
Qed.

Lemma request_result V fs (stack : Command) stack_inode fuel s :
  ready V fs → stack_command_ok stack → inode_ok stack_inode →
  FS_BLOCKSIZE ≤ Z.of_nat fuel → closed s = false →
  ∃ rval V' h fs' s', NetworkServer.handle_request stack stack_inode fuel (fs, s) = Some (Done rval, (fs', s')) ∧
    stands V' h fs' ∧ closed s' = true ∧
    (carried_out V fs stack s rval V' h s' ∨ refused V stack s rval V' h s').
Proof.
  intros Hfs Hst Hsti Hfuel Hs.
  cut (ends (NetworkServer.handle_request stack stack_inode fuel) (fs, s) (λ o w', ∃ rval V' h, o = Done rval ∧
    stands V' h w'.1 ∧ closed w'.2 = true ∧
    (carried_out V fs stack s rval V' h w'.2 ∨ refused V stack s rval V' h w'.2))).
  { intros (o & [fs' s'] & Hr & rv & V' & h & -> & Hrest). by exists rv, V', h, fs', s'. }
  apply ends_close. eapply ends_seq.
  { apply (receive_loop_spec fuel [] fs s Hs); change MAX_MESSAGE_SIZE with 158;
      change FS_BLOCKSIZE with 512 in Hfuel; change (len []) with 0; lia. }
  intros [rv r] [fs1 s1] (Hfs1 & Ho & Hout & Hres). simpl in *. subst fs1.
  destruct Hres as [(-> & m & -> & Hsp & Hl)|(-> & Hres)]; simpl in *.
  - apply split_nul_Some in Hsp as [Hin Hn]. rewrite Z.max_l in Hl by done.
    eapply ends_bind, ends_mono; [apply (dispatch_result V); [done..|apply Ho]|].
    intros o [fs2 s2] (rv & -> & Hd). simpl in *.
    assert (∃ V' h, stands V' h fs2 ∧ closed (sock_close s2) = true ∧
      (carried_out V fs stack s rv V' h (sock_close s2) ∨ refused V stack s rv V' h (sock_close s2))) as Hall.
    { destruct Hd as [(c & cs & name & Hp & Hc & Ht & Hh)|(-> & [= -> ->] & Hinv)].
      - eapply handled_result; [exact Hn|exact Hin|done|apply Ho|exact Hp|exact Hc|exact Hh].
      - exists V, []. destruct Ho as [Ho Hh]. destruct (sock_closed s1 Ho) as (Hc1 & Hc2 & Hc3).
        split_and!; [done|done|]. right. split_and!; [done|done|done|by rewrite Hc3, Hout|].
        intros _ r' rest Heq Hn' _ c' Hp'. rewrite Hin in Heq.
        apply split_nul_unique in Heq as [<- <-]; [|done..]. left. by apply Hinv. }
    destruct Hall as (V' & h & Hr' & Hc' & Hall).
    assert (rv = 0 ∨ rv = -1) as [-> | ->].
    { destruct Hall as [(? & ? & ? & ? & ? & o & _ & _ & _ & _ & _ & _ & _ & Ho')|[-> _]]; [|by right].
      destruct o; [|by right; apply Ho'|done..]. destruct Ho' as [[-> _]|[-> _]]; auto. }
    + simpl. apply ends_ret. by exists 0, V', h.
    + simpl. apply ends_ret. by exists (-1), V', h.
  - apply ends_ret. exists (-1), V, []. cbn [fst snd]. destruct Ho as [Ho Hh]. destruct (sock_closed s1 Ho) as (Hc1 & Hc2 & Hc3).
    split_and!; [done|done|done|]. right. split_and!; [done|done|done|by rewrite Hc3, Hout|].
    intros Hh' r' rest Hin Hn' Hl c' _. exfalso. rewrite Hin in Hres.
    specialize (Hres Hh' _ _ (split_nul_app _ _ Hn')). simpl in Hres. lia.
Qed.

(** Any client: whatever bytes come in, however the connection behaves and
    whatever the uninitialised locals hold, [handle_request] returns 0 or -1
    within the fuel of one block, without crashing or waiting, closes the
    socket, and leaves the file system in its invariant with no lock held, but
    for that of a create that found no free block.
    Either the client's bytes were a request and its payload, the operation
    they name was performed on the tree and answered; or nothing changed,
    nothing was sent, and on a healthy connection the bytes were at fault. *)
Theorem handle_request_any_client (V : store) fs (stack : Command) (stack_inode : fs_inode)
    (fuel : nat) s :
  ready V fs → stack_command_ok stack → inode_ok stack_inode →
  FS_BLOCKSIZE ≤ Z.of_nat fuel → closed s = false →
  ∃ rval V' h fs' s', NetworkServer.handle_request stack stack_inode fuel (fs, s) = Some (Done rval, (fs', s')) ∧
    stands V' h fs' ∧ closed s' = true ∧
    (carried_out V fs stack s rval V' h s' ∨ refused V stack s rval V' h s').
Proof. apply request_result. Qed.

(** As long as a block is free, the next request finds the file system ready. *)
Lemma request_ready V fs (stack : Command) stack_inode fuel s :
  ready V fs → st_free fs ≠ [] → stack_command_ok stack → inode_ok stack_inode →
  FS_BLOCKSIZE ≤ Z.of_nat fuel → closed s = false →
  ∃ rval V' fs' s', NetworkServer.handle_request stack stack_inode fuel (fs, s) = Some (Done rval, (fs', s')) ∧
    ready V' fs' ∧ closed s' = true.
Proof.
  intros Hfs Hfree Hst Hsti Hfuel Hs.
  destruct (request_result V fs stack stack_inode fuel s Hfs Hst Hsti Hfuel Hs)
    as (rv & V' & h & fs' & s' & Hrun & Hr & Hc & Hres).
  exists rv, V', fs', s'. split; [done|]. split; [|done].
  assert (h = []) as ->; [|done].
  destruct Hres as [(r & c & cs & name & payload & o & _ & _ & _ & _ & Hh & _)|(_ & _ & Hh & _)]; [|done].
  by eapply left_held_free.
Qed.

Lemma performs_received V fl (stack c : Command) payload cs name o V' :
  performs V fl (with_payload (received stack c) payload) cs name o V' →
  performs V fl (with_payload c payload) cs name o V'.
Proof.
  destruct c as [ty user path b t data]. unfold with_payload, received. cbn [command_type].
  by destruct ty.
Qed.

Lemma left_held_received V fl (stack c : Command) cs name h :
  left_held V fl (received stack c) cs name h → left_held V fl c cs name h.
Proof. destruct c as [ty user path b t data]. unfold left_held, received. cbn [command_type]. by destruct ty. Qed.

Lemma payload_received (stack c : Command) payload :
  payload_ok (received stack c) payload ↔ payload_ok c payload.
Proof. done. Qed.

Lemma payload_unique (c : Command) p1 r1 p2 r2 :
  payload_ok c p1 → payload_ok c p2 → p1 ++ r1 = p2 ++ r2 → p1 = p2 ∧ r1 = r2.
Proof.
  unfold payload_ok, len. case_bool_decide; [|by intros -> ->].
  intros Hl1 Hl2 Heq. apply app_inj_1; [lia|done].
Qed.

(** (C1) End to end: when a well-formed request and its payload arrive on a
    healthy connection, the server performs the operation the request names,
    on the path it names, and the client receives the request back followed
    by the data read; when the operation fails nothing is sent and nothing
    changes.  What follows on the connection is left there.  The file system is
    left in its invariant, and no lock is held, but at the exit of
    [create_on_full_disk_keeps_lock]: a create that found the free list empty
    keeps the lock of the parent directory.  ([recv] and [send] are calls that
    return; with a client that stays silent the request waits.) *)
Theorem request_end_to_end (V : store) fs (stack c : Command) (stack_inode : fs_inode) (fuel : nat)
    s (cs : list bytes) (name payload rest : bytes) :
  ready V fs → stack_command_ok stack → inode_ok stack_inode →
  FS_BLOCKSIZE ≤ Z.of_nat fuel → closed s = false → healthy s →
  request_ok c → pathname c = path_of (cs ++ [name]) → Forall good_name (cs ++ [name]) →
  payload_ok c payload → incoming s = print_request c ++ NUL :: payload ++ rest →
  ∃ o rval V' h fs' s', NetworkServer.handle_request stack stack_inode fuel (fs, s) = Some (Done rval, (fs', s')) ∧
    stands V' h fs' ∧ left_held V (st_free fs) c cs name h ∧ closed s' = true ∧ incoming s' = rest ∧
    performs V (st_free fs) (with_payload c payload) cs name o V' ∧
    match o with
    | Done data => rval = 0 ∧ outgoing s' = outgoing s ++ print_request c ++ NUL :: data
    | _ => rval = -1 ∧ outgoing s' = outgoing s ∧ V' = V
    end.
Proof.
  intros Hfs Hst Hsti Hfuel Hs Hh Hok Hpath Hg Hpay Hin.
  destruct (request_result V fs stack stack_inode fuel s Hfs Hst Hsti Hfuel Hs)
    as (rv & V' & h & fs' & s' & Hrun & Hr & Hc & Hres).
  pose proof (parse_print stack c Hok) as Hp. destruct (print_request_fits c Hok) as [Hl Hn].
  destruct Hres as [(r & c' & cs' & name' & payload' & o & Hp' & Hc' & Hpay' & Hn' & Hheld & Hin' & Hperf & Ho)|
    (_ & _ & _ & _ & Hbad)].
  - rewrite Hin in Hin'. apply split_nul_unique in Hin' as [<- Hrest]; [|done..].
    rewrite Hp in Hp'. injection Hp' as <-.
    destruct (payload_unique c payload rest payload' (incoming s')) as [-> ->]; [done..|].
    destruct Hc' as [_ Hpath' Hg' _]. simpl in Hpath'. rewrite Hpath in Hpath'.
    apply path_of_inj in Hpath' as [-> [= ->]]%app_inj_2; [|done..].
    exists o, rv, V', h, fs', s'.
    split_and!; [done..|by eapply left_held_received|done|done|by eapply performs_received|].
    destruct o as [data|e|x|]; [|split_and!; [apply Ho|apply Ho|by eapply performs_exn]|done..].
    destruct Ho as [?|(_ & ? & _)]; [done|done].
  - destruct (Hbad Hh _ _ Hin Hn Hl _ Hp) as [Ht|[Ht Hshort]]; simpl in Ht.
    + destruct Hok. done.
    + unfold payload_ok in Hpay. rewrite bool_decide_eq_true_2 in Hpay by done.
      unfold len in *. rewrite length_app in Hshort. lia.
Qed.

(** ** A server that serves one client after another *)

Inductive reached (fuel : nat) (start : fs_state D L) : fs_state D L → Prop :=
| reached_start : reached fuel start start
| reached_request fs s stack stack_inode o fs' s' :
    reached fuel start fs → st_free fs ≠ [] → stack_command_ok stack → inode_ok stack_inode →
    closed s = false →
    NetworkServer.handle_request stack stack_inode fuel (fs, s) = Some (o, (fs', s')) →
    reached fuel start fs'.

Lemma reached_ready fuel start V fs :
  ready V start → FS_BLOCKSIZE ≤ Z.of_nat fuel → reached fuel start fs → ∃ V', ready V' fs.
Proof.
  intros Hstart Hfuel. induction 1 as [|fs s stack stack_inode o fs' s' _ [V1 Hfs] Hfree Hst Hsti Hs Hr];
    [by eauto|].
  destruct (request_ready V1 fs stack stack_inode fuel s Hfs Hfree Hst Hsti Hfuel Hs)
    as (rv & V' & fs2 & s2 & Hr2 & Hready & _).
  rewrite Hr in Hr2. injection Hr2 as _ <- _. eauto.
Qed.

(** A whole run: on a disk with a well-formed file system the constructor
    ends, and from the state it leaves, after any number of requests of any
    clients, served one after the other, the file system is in its invariant,
    no lock is held, and as long as a block is free the next client, whatever
    it sends, is served without a crash or a wait. *)
Theorem server_survives_any_clients (d : D) (V : store) (fuel : nat) :
  fs_inv d V [] → all_reachable V → FS_DISKSIZE ≤ Z.of_nat fuel →
  ∃ start, run (FileSystem_ctor fuel) (St d [] lk_empty false) = (Done (Some ()), start) ∧
    ∀ fs, reached fuel start fs →
      (∃ V', ready V' fs) ∧
      ∀ s stack stack_inode, st_free fs ≠ [] → stack_command_ok stack → inode_ok stack_inode →
        closed s = false →
        ∃ rval fs' s', NetworkServer.handle_request stack stack_inode fuel (fs, s) =
            Some (Done rval, (fs', s')) ∧ closed s' = true ∧ reached fuel start fs'.
Proof.
  intros Hinv Hall Hfuel. change FS_DISKSIZE with 4096 in Hfuel.
  destruct (ctor_served (L := L) (fl := []) fuel Hinv Hall ltac:(change FS_DISKSIZE with 4096; lia)) as [Hr Hinv'].
  destruct (Hr lk_empty lk_view_empty) as (l & Hrun & Hl). eexists. split; [exact Hrun|].
  assert (FS_BLOCKSIZE ≤ Z.of_nat fuel) as Hblock by (change FS_BLOCKSIZE with 512; lia).
  intros fs Hreached.
  edestruct reached_ready as [V1 Hfs]; [|exact Hblock|exact Hreached|]; [by split_and!|].
  split; [by eauto|]. intros s stack stack_inode Hfree Hst Hsti Hs.
  destruct (request_ready V1 fs stack stack_inode fuel s Hfs Hfree Hst Hsti Hblock Hs)
    as (rv & V' & fs' & s' & Hr2 & Hready & Hc).
  exists rv, fs', s'. split_and!; [done|done|by eapply reached_request].
Qed.

End serving.

(** ** Witnesses *)

Module NetworkWitness.
Import FsCorrect.Demo FsCorrect.Witness Request.RequestWitness.

Definition server0 : fs_state MemDisk Locks := St (disk_of fs3.1) fs3.2 lk_empty false.

Lemma server0_ready : ready fs3.1 server0.
Proof. split; [exact inv3|]. split; [exact lk_view_empty|reflexivity]. Qed.

(** A client that sends [l] and a network that moves three bytes a call. *)
Definition client (l : bytes) : pipe := Pipe l [] 2 None false.

Lemma receive_message_exact_witness :
  ∃ rval r s', NetworkServer.receive_message 200 [] (server0, client (chars "ab" ++ NUL :: chars "cd")) =
      Some (Done (rval, r), (server0, s')) ∧
    closed s' = false ∧ outgoing s' = [] ∧
    ((rval = 0 ∧ chars "ab" ++ NUL :: chars "cd" = r ++ NUL :: incoming s' ∧ NUL ∉ r ∧ len r ≤ MAX_MESSAGE_SIZE) ∨
     (rval = -1 ∧ (healthy (client (chars "ab" ++ NUL :: chars "cd")) → ∀ m rest,
        chars "ab" ++ NUL :: chars "cd" = m ++ NUL :: rest → NUL ∉ m → MAX_MESSAGE_SIZE < len m))).
Proof.
  refine (receive_message_exact 200 server0 (client (chars "ab" ++ NUL :: chars "cd")) _ _).
  - reflexivity.
  - apply (bool_decide_unpack _). vm_compute. exact I.
Defined.

Lemma send_message_complete_witness :
  ∃ rval s', NetworkServer.send_message 20 (chars "FS_DELETE u /d/f") (server0, client []) =
      Some (Done rval, (server0, s')) ∧
    closed s' = false ∧ incoming s' = [] ∧
    ((rval = 0 ∧ outgoing s' = [] ++ chars "FS_DELETE u /d/f" ++ [NUL]) ∨
     (rval = -1 ∧ ¬ healthy (client []) ∧
       ∃ p, p `prefix_of` chars "FS_DELETE u /d/f" ++ [NUL] ∧ outgoing s' = [] ++ p)).
Proof.
  refine (send_message_complete 20 (chars "FS_DELETE u /d/f") server0 (client []) _ _).
  - reflexivity.
  - apply (bool_decide_unpack _). vm_compute. exact I.
Defined.

Lemma handle_request_any_client_witness :
  ∃ rval V' h fs' s', NetworkServer.handle_request stack0 root 600 (server0, client (chars "nonsense" ++ [NUL])) =
      Some (Done rval, (fs', s')) ∧
    stands V' h fs' ∧ closed s' = true ∧
    (carried_out fs3.1 server0 stack0 (client (chars "nonsense" ++ [NUL])) rval V' h s' ∨
     refused fs3.1 stack0 (client (chars "nonsense" ++ [NUL])) rval V' h s').
Proof.
  apply handle_request_any_client.
  - exact server0_ready.
  - done.
  - exact stack_ok.
  - apply (bool_decide_unpack _). vm_compute. exact I.
  - reflexivity.
Defined.

(** A client that reads the first block of [/d/f]. *)
Definition read_f : Command := mkCommand FS_READBLOCK user (chars "/d/f") 0 NUL (replicate 512 NUL).

Lemma read_f_ok : request_ok read_f.
Proof.
  split; try done.
  - split; [done|]. repeat constructor.
  - by apply (bool_decide_unpack _).
  - exists [chars "d"], (chars "f"). split; [done|]. split; [exact names_df|repeat constructor].
Qed.

Lemma request_end_to_end_witness :
  ∃ o rval V' h fs' s', NetworkServer.handle_request stack0 root 600
      (server0, client (chars "FS_READBLOCK u /d/f 0" ++ [NUL])) = Some (Done rval, (fs', s')) ∧
    stands V' h fs' ∧ left_held fs3.1 fs3.2 read_f [chars "d"] (chars "f") h ∧
    closed s' = true ∧ incoming s' = [] ∧
    performs fs3.1 fs3.2 read_f [chars "d"] (chars "f") o V' ∧
    match o with
    | Done data => rval = 0 ∧ outgoing s' = chars "FS_READBLOCK u /d/f 0" ++ NUL :: data
    | _ => rval = -1 ∧ outgoing s' = [] ∧ V' = fs3.1
    end.
Proof.
  refine (request_end_to_end fs3.1 server0 stack0 read_f root 600
    (client (chars "FS_READBLOCK u /d/f 0" ++ [NUL])) [chars "d"] (chars "f") [] []
    _ _ _ _ _ _ _ _ _ _ _).
  - exact server0_ready.
  - done.
  - exact stack_ok.
  - apply (bool_decide_unpack _). vm_compute. exact I.
  - reflexivity.
  - reflexivity.
  - exact read_f_ok.
  - reflexivity.
  - exact names_df.
  - reflexivity.
  - vm_compute. reflexivity.
Defined.

(** The same, evaluated. *)
Example read_f_answer :
  match NetworkServer.handle_request stack0 root 600
    (server0, client (chars "FS_READBLOCK u /d/f 0" ++ [NUL])) with
  | Some (Done 0, (_, s)) => pipe_out s = chars "FS_READBLOCK u /d/f 0" ++ NUL :: block_of "x"
  | _ => False
  end.
Proof. vm_compute. reflexivity. Qed.

Lemma server_survives_any_clients_witness :
  ∃ start, run (FileSystem_ctor 5000) (St (disk_of fs3.1) [] (lk_empty : Locks) false) =
      (Done (Some ()), start) ∧
    ∀ fs, reached (S := pipe) 5000 start fs →
      (∃ V', ready V' fs) ∧
      ∀ (s : pipe) stack stack_inode, st_free fs ≠ [] → stack_command_ok stack → inode_ok stack_inode →
        closed s = false →
        ∃ rval fs' s', NetworkServer.handle_request stack stack_inode 5000 (fs, s) =
            Some (Done rval, (fs', s')) ∧ closed s' = true ∧ reached (S := pipe) 5000 start fs'.
Proof.
  apply (server_survives_any_clients (disk_of fs3.1) fs3.1 5000).
  - exact inv_full.
  - exact reachable3.
  - apply (bool_decide_unpack _). vm_compute. exact I.
Defined.

End NetworkWitness.
