(* ===== verification/Server.v ===== *)
(** * Starting the server

    The constructor of [NetworkServer], [run] and [get_port_number] of
    [filesys/network_server.cpp], and [filesys/main.cpp]: the file system is
    read, a socket listens at the port of the command line, and every
    connection gets a thread of its own.  The calls that the operating system
    answers are the class [Listener], what POSIX says of them [ListenerSpec]. *)
From S2P Require Import Prelude Layout Locks Prog FileSystem FsModel FsRun FsSpec FsInvariant FsTree FsBoot FsCorrect Request Network.
Import FileSystem.

Local Open Scope Z_scope.

(** ** Port numbers *)

(** A 16-bit integer with its bytes exchanged: [htons] of an [int], which is
    converted to 16 bits, and [ntohs]. *)
Definition swap16 (z : Z) : Z := (z `mod` 256) * 256 + (z / 256) `mod` 256.
Definition htons (z : Z) : Z := swap16 (z `mod` 2 ^ 16).
Definition ntohs (z : Z) : Z := swap16 z.

Lemma swap16_swap16 z : 0 ≤ z < 2 ^ 16 → swap16 (swap16 z) = z.
Proof.
  intros Hz. unfold swap16. change (2 ^ 16) with 65536 in Hz.
  pose proof (Z.mod_pos_bound z 256 ltac:(lia)). pose proof (Z.div_mod z 256 ltac:(lia)) as Hd.
  assert (0 ≤ z / 256 < 256) by (split; [apply Z.div_pos; lia|apply Z.div_lt_upper_bound; lia]).
  rewrite (Z.mod_small (z / 256)) by done.
  replace (z `mod` 256 * 256 + z / 256) with (z / 256 + z `mod` 256 * 256) by lia.
  rewrite Z.mod_add, Z.div_add, (Z.mod_small (z / 256)), (Z.div_small (z / 256)), Z.add_0_l, Z.mod_mod by lia. lia.
Qed.

(** ** The operating system *)

(** The calls on the listening socket; [false] is -1.  [net_bind] gets the port
    as [sin_port], in network order. *)
Class Listener (N S : Type) := {
  net_socket : N → bool * N;
  net_setsockopt : N → bool * N;
  net_bind : Z → N → bool * N;
  net_listen : Z → N → bool * N;
  net_getsockname : N → option Z * N;
  net_accept : N → option S * N;
}.

(** The port of a bound socket is the one it was bound to, or any if that was 0;
    later calls keep it, and [getsockname] says it.  [accept] gives an open
    connection. *)
Class ListenerSpec (N S : Type) `{Socket S} `{!SocketSpec S} `{Listener N S} := {
  bound : N → option Z;
  net_bind_spec p n :
    0 ≤ p < 2 ^ 16 → let '(ok, n') := net_bind (htons p) n in
    ok = true → ∃ q, bound n' = Some q ∧ 0 ≤ q < 2 ^ 16 ∧ (p ≠ 0 → q = p);
  net_listen_spec k n : bound (net_listen k n).2 = bound n;
  net_getsockname_spec n : let '(p, n') := net_getsockname n in
    bound n' = bound n ∧ ∀ q, bound n = Some q → p = None ∨ p = Some (htons q);
  net_accept_spec n : let '(s, n') := net_accept n in
    bound n' = bound n ∧ ∀ s', s = Some s' → closed s' = false;
}.

(** ** The program *)

Module Server.
Section server.
Context {D L S N : Type} `{Disk D} `{InodeLocks L} `{Socket S} `{Listener N S}.

Definition get_port_number (n : N) : Z * N :=
  let '(p, n) := net_getsockname n in
  match p with None => (-1, n) | Some sin_port => (ntohs sin_port, n) end.

(** The constructor behind the initialisation of [my_filesystem]; the result is
    the port that is printed. *)
Definition open_port (input_port : Z) (n : N) : outcome Z * N :=
  let '(ok, n) := net_socket n in
  if negb ok then (Exn "Error opening stream socket", n) else
  let '(ok, n) := net_setsockopt n in
  if negb ok then (Exn "Error setting socket options", n) else
  let '(ok, n) := net_bind (htons input_port) n in
  if negb ok then (Exn "Error binding stream socket", n) else
  let '(ok, n) := net_listen 30 n in
  if negb ok then (Exn "Error starting to listen", n) else
  let '(port, n) := get_port_number n in
  if port =? -1 then (Exn "Error getting socket port number", n) else (Done port, n).

(** The file system, the listening socket, and the connections whose threads
    have not yet run. *)
Record serving := Serving {
  sv_fs : fs_state D L;
  sv_net : N;
  sv_threads : list S;
}.

(** What [main] comes to: it returns a code, or it runs, having printed its
    port. *)
Inductive started_server :=
| Exits (code : Z)
| Running (port : Z) (st : serving).

(** [catch (...)] around the constructor and [run]; [None] is undefined. *)
Definition main (fuel : nat) (argv : list bytes) (fs : fs_state D L) (n : N) : option started_server :=
  port ← (match argv with [_; argv1] => atoi argv1 | _ => Some 0 end);
  match run (FileSystem_ctor fuel) fs with
  | (Done (Some _), fs) =>
      match open_port port n with
      | (Done port, n) => Some (Running port (Serving fs n []))
      | (Exn _, _) => Some (Exits (-1))
      | _ => None
      end
  | (Exn _, _) => Some (Exits (-1))
  | _ => None
  end.

(** One turn of the loop of [run]. *)
Definition run_turn (st : serving) : serving :=
  let '(client_socket, n) := net_accept (sv_net st) in
  match client_socket with
  | None => Serving (sv_fs st) n (sv_threads st)
  | Some client_socket => Serving (sv_fs st) n (sv_threads st ++ [client_socket])
  end.

(** The detached thread of the connection [i]: [None] unless [handle_request]
    returns; an exception that left it would end the program. *)
Definition run_client (fuel : nat) (stack : Command) (stack_inode : fs_inode) (i : nat) (st : serving) : option serving :=
  s ← sv_threads st !! i;
  match NetworkServer.handle_request stack stack_inode fuel (sv_fs st, s) with
  | Some (Done _, (fs, _)) => Some (Serving fs (sv_net st) (delete i (sv_threads st)))
  | _ => None
  end.

(** The loop and the threads, one request after the other; a thread's stack holds
    anything. *)
Inductive serves_to (fuel : nat) (st : serving) : serving → Prop :=
| to_start : serves_to fuel st st
| to_turn st1 : serves_to fuel st st1 → serves_to fuel st (run_turn st1)
| to_client st1 stack stack_inode i st2 :
    serves_to fuel st st1 → stack_command_ok stack → inode_ok stack_inode → st_free (sv_fs st1) ≠ [] →
    run_client fuel stack stack_inode i st1 = Some st2 → serves_to fuel st st2.

End server.
Arguments serving : clear implicits.
Arguments started_server : clear implicits.
End Server.
Import Server.

(** ** Correctness *)

Section starting.
Context {D L S N : Type} `{DiskSpec D} `{InodeLocksSpec L} `{SocketSpec S} `{!Listener N S, !ListenerSpec N S}.
Implicit Types (st : serving D L S N).

Lemma htons_small z : htons z = htons (z `mod` 2 ^ 16).
Proof. unfold htons. by rewrite Z.mod_mod. Qed.

Lemma open_port_spec p (n : N) :
  match open_port p n with
  | (Done port, n') => bound n' = Some port ∧ 0 ≤ port < 2 ^ 16 ∧ (p `mod` 2 ^ 16 ≠ 0 → port = p `mod` 2 ^ 16)
  | (Exn _, _) => True
  | _ => False
  end.
Proof.
  unfold open_port. destruct (net_socket n) as [[] n1]; simpl; [|done].
  destruct (net_setsockopt n1) as [[] n2]; simpl; [|done]. rewrite htons_small.
  pose proof (net_bind_spec (p `mod` 2 ^ 16) n2 (Z.mod_pos_bound p (2 ^ 16) ltac:(lia))) as Hb.
  destruct (net_bind _ n2) as [[] n3]; simpl; [|done]. destruct (Hb eq_refl) as (q & Hq & Hr & Hp).
  pose proof (net_listen_spec 30 n3) as Hl. destruct (net_listen 30 n3) as [[] n4]; simpl in *; [|done].
  unfold get_port_number. pose proof (net_getsockname_spec n4) as Hg. destruct (net_getsockname n4) as [o n5].
  destruct Hg as [Hbd Hg]. rewrite Hl in Hbd. rewrite Hq in Hbd. destruct (Hg q) as [-> | ->]; [by rewrite Hl|done|].
  unfold ntohs, htons. rewrite Z.mod_small by done. rewrite swap16_swap16 by done.
  destruct (Z.eqb_spec q (-1)); [lia|]. done.
Qed.

(** What holds of the server at all times. *)
Definition server_ok st : Prop :=
  (∃ V, ready V (sv_fs st)) ∧ Forall (λ s, closed s = false) (sv_threads st).

Lemma run_client_ok fuel (stack : Command) stack_inode i s st :
  server_ok st → FS_BLOCKSIZE ≤ Z.of_nat fuel → stack_command_ok stack → inode_ok stack_inode → st_free (sv_fs st) ≠ [] →
  sv_threads st !! i = Some s →
  ∃ rval fs' s', NetworkServer.handle_request stack stack_inode fuel (sv_fs st, s) = Some (Done rval, (fs', s')) ∧
    closed s' = true ∧ run_client fuel stack stack_inode i st = Some (Serving fs' (sv_net st) (delete i (sv_threads st))) ∧
    server_ok (Serving fs' (sv_net st) (delete i (sv_threads st))).
Proof.
  intros [[V Hv] Ht] Hf Hst Hsti Hfree Hi.
  destruct (request_ready V (sv_fs st) stack stack_inode fuel s Hv Hfree Hst Hsti Hf) as (rv & V' & fs' & s' & Hr & Hv' & Hc);
    [by eapply Forall_lookup_1 in Ht|].
  exists rv, fs', s'. split; [done|]. split; [done|]. split; [unfold run_client; rewrite Hi; simpl; by rewrite Hr|].
  split; [by exists V'|]. by apply Forall_delete.
Qed.

Lemma run_turn_ok st : server_ok st → server_ok (run_turn st).
Proof.
  intros [Hv Ht]. unfold run_turn. pose proof (net_accept_spec (sv_net st)) as Ha. destruct (net_accept (sv_net st)) as [[s|] n].
  - destruct Ha as [_ Ha]. split; [done|]. apply Forall_app. split; [done|]. constructor; [by apply Ha|constructor].
  - by split.
Qed.

Lemma serves_to_ok fuel st st' :
  FS_BLOCKSIZE ≤ Z.of_nat fuel → server_ok st → serves_to fuel st st' → server_ok st'.
Proof.
  intros Hf Hok. induction 1 as [|st1 _ IH|st1 stack sti i st2 _ IH Hst Hsti Hfree Hr]; [done|by apply run_turn_ok|].
  destruct (sv_threads st1 !! i) as [s|] eqn:Hs; [|unfold run_client in Hr; by rewrite Hs in Hr].
  destruct (run_client_ok fuel stack sti i s st1 IH Hf Hst Hsti Hfree Hs) as (rv & fs' & s' & _ & _ & Hr' & Hok').
  rewrite Hr in Hr'. by injection Hr' as ->.
Qed.

(** What [main] sets up. *)
Lemma main_starts (d : D) (V : store) (fuel : nat) (argv : list bytes) (port : Z) (n : N) :
  fs_inv d V [] → all_reachable V → FS_DISKSIZE ≤ Z.of_nat fuel →
  (match argv with [_; argv1] => atoi argv1 | _ => Some 0 end) = Some port →
  ∃ r, main fuel argv (St d [] lk_empty false) n = Some r ∧
    match r with
    | Exits code => code = -1 ∧ ∃ e n', open_port port n = (Exn e, n')
    | Running p st =>
        0 ≤ p < 2 ^ 16 ∧ (port `mod` 2 ^ 16 ≠ 0 → p = port `mod` 2 ^ 16) ∧
        sv_threads st = [] ∧ ready V (sv_fs st)
    end.
Proof.
  intros Hinv Hall Hfuel Hport. change FS_DISKSIZE with 4096 in Hfuel.
  destruct (ctor_served (L := L) (fl := []) fuel Hinv Hall ltac:(change FS_DISKSIZE with 4096; lia)) as [Hr Hinv'].
  destruct (Hr lk_empty lk_view_empty) as (l & Hrun & Hl).
  unfold main. rewrite Hport. simpl. rewrite Hrun. pose proof (open_port_spec port n) as Ho.
  destruct (open_port port n) as [[p|e|x|] n'] eqn:Hop; [|eexists; split; [done|]; split; [done|]; by exists e, n'|done|done].
  eexists. split; [done|]. destruct Ho as (_ & Hrange & Hp). do 3 (split; [done|]). by split_and!.
Qed.

(** The whole server, one connection at a time: on a disk with a well-formed file system [main]
    reads it and listens at the port of its argument (modulo 2^16; any port without one),
    or returns -1 when the operating system refuses a call.  From then on, whatever connections
    are accepted, in whatever order their threads run, one at a time, and whatever the clients do:
    the file system is in its invariant with no lock held, and every accepted connection, as long
    as a block is free, is served and closed without a crash, a wait, or an exception that leaves
    its thread. *)
Theorem main_serves_all_clients (d : D) (V : store) (fuel : nat) (argv : list bytes) (port : Z) (n : N) :
  fs_inv d V [] → all_reachable V → FS_DISKSIZE ≤ Z.of_nat fuel →
  (match argv with [_; argv1] => atoi argv1 | _ => Some 0 end) = Some port →
  ∃ r, main fuel argv (St d [] lk_empty false) n = Some r ∧
    match r with
    | Exits code => code = -1 ∧ ∃ e n', open_port port n = (Exn e, n')
    | Running p st =>
        0 ≤ p < 2 ^ 16 ∧ (port `mod` 2 ^ 16 ≠ 0 → p = port `mod` 2 ^ 16) ∧ sv_threads st = [] ∧
        ∀ st', serves_to fuel st st' → server_ok st' ∧
          ∀ i s stack stack_inode, sv_threads st' !! i = Some s → st_free (sv_fs st') ≠ [] →
            stack_command_ok stack → inode_ok stack_inode →
            ∃ rval fs' s', NetworkServer.handle_request stack stack_inode fuel (sv_fs st', s) = Some (Done rval, (fs', s')) ∧
              closed s' = true ∧ run_client fuel stack stack_inode i st' = Some (Serving fs' (sv_net st') (delete i (sv_threads st')))
    end.
Proof.
  intros Hinv Hall Hfuel Hport. destruct (main_starts d V fuel argv port n Hinv Hall Hfuel Hport) as (r & Hmain & Hr).
  assert (FS_BLOCKSIZE ≤ Z.of_nat fuel) as Hblock by (change FS_DISKSIZE with 4096 in Hfuel; change FS_BLOCKSIZE with 512; lia).
  exists r. split; [done|]. destruct r as [code|p st]; [done|]. destruct Hr as (Hp & Hpm & Hths & Hready).
  split; [done|]. split; [done|]. split; [done|].
  intros st' Hst'. apply serves_to_ok in Hst'; [|done|split; [by exists V|by rewrite Hths]].
  split; [done|]. intros i s stack sti Hi Hfree Hst Hsti.
  destruct (run_client_ok fuel stack sti i s st' Hst' Hblock Hst Hsti Hfree Hi) as (rv & fs' & s' & Hr1 & Hc1 & Hr2 & _). by exists rv, fs', s'.
Qed.

End starting.

(** The port is truncated to 16 bits: 70000 is 4464. *)
Lemma port_truncated : htons 70000 = htons 4464.
Proof. reflexivity. Qed.

(** ** A concrete run *)

Module ServerWitness.
Import FsCorrect.Demo FsCorrect.Witness Request.RequestWitness Network.NetworkWitness.

(** Connections that come in, or errors; a socket bound to port 0 gets 40000. *)
Record incoming_net := Net { net_port : option Z; net_clients : list (option pipe); net_refuses : bool }.

#[export] Instance incoming_listener : Listener incoming_net pipe := {
  net_socket n := (true, n);
  net_setsockopt n := (true, n);
  net_bind p n := (negb (net_refuses n), Net (Some (if ntohs p =? 0 then 40000 else ntohs p)) (net_clients n) (net_refuses n));
  net_listen _ n := (true, n);
  net_getsockname n := (htons <$> net_port n, n);
  net_accept n :=
    match net_clients n with
    | Some s :: rest => (if pipe_closed s then None else Some s, Net (net_port n) rest (net_refuses n))
    | None :: rest => (None, Net (net_port n) rest (net_refuses n))
    | [] => (None, n)
    end;
}.

#[export] Instance incoming_listener_spec : ListenerSpec incoming_net pipe.
Proof.
  refine {| bound := net_port |}; simpl.
  - intros p n Hp _. eexists. split; [done|]. unfold ntohs, htons. rewrite Z.mod_small, swap16_swap16 by done.
    destruct (Z.eqb_spec p 0); [split; [lia|done]|split; [done|done]].
  - done.
  - intros n. split; [done|]. intros q ->. by right.
  - intros [q [|[s|] rest] r]; simpl; split; try done. destruct (pipe_closed s) eqn:Hc; [done|]. by intros s' [= <-].
Defined.

Definition net0 : incoming_net := Net None [Some (client (chars "FS_READBLOCK u /d/f 0" ++ [NUL])); None; Some (client [])] false.

Lemma main_serves_all_clients_witness :
  ∃ r, main (L := Locks) (S := pipe) 5000 [chars "fs"; chars "8000"] (St (disk_of fs3.1) [] lk_empty false) net0 = Some r ∧
    match r with
    | Exits code => code = -1 ∧ ∃ e n', open_port 8000 net0 = (Exn e, n')
    | Running p st =>
        0 ≤ p < 2 ^ 16 ∧ (8000 `mod` 2 ^ 16 ≠ 0 → p = 8000 `mod` 2 ^ 16) ∧ sv_threads st = [] ∧
        ∀ st', serves_to 5000 st st' → server_ok st' ∧
          ∀ i s stack stack_inode, sv_threads st' !! i = Some s → st_free (sv_fs st') ≠ [] →
            stack_command_ok stack → inode_ok stack_inode →
            ∃ rval fs' s', NetworkServer.handle_request stack stack_inode 5000 (sv_fs st', s) = Some (Done rval, (fs', s')) ∧
              closed s' = true ∧ run_client 5000 stack stack_inode i st' = Some (Serving fs' (sv_net st') (delete i (sv_threads st')))
    end.
Proof.
  apply (main_serves_all_clients (disk_of fs3.1) fs3.1 5000 [chars "fs"; chars "8000"] 8000 net0).
  - exact inv_full.
  - exact reachable3.
  - apply (bool_decide_unpack _). vm_compute. exact I.
  - reflexivity.
Defined.

(** The program up to its third connection, and the first client's thread. *)
Example main_result :
  match main (L := Locks) (S := pipe) 5000 [chars "fs"; chars "8000"] (St (disk_of fs3.1) [] lk_empty false) net0 with
  | Some (Running p st) =>
      p = 8000 ∧ let st := run_turn (run_turn (run_turn st)) in length (sv_threads st) = 2%nat ∧
        (length ∘ sv_threads <$> run_client 600 stack0 root 0 st) = Some 1%nat
  | _ => False
  end.
Proof. vm_compute. done. Qed.

End ServerWitness.
