(* ===== verification/Connections.v ===== *)
(** * Connections that are served at the same time

    [run] of [filesys/network_server.cpp] starts a thread for every connection
    that it accepts, so that [handle_request] runs interleaved with itself.  Here
    a thread is the place in [handle_request] where it stands ([phase]), and a
    turn ([conn_turn]) takes it over one [recv], one [send], or one access to
    the shared state of the file system, which is that of [FsConcurrent].  A
    thread that waits in a [recv] or [send] has not taken that turn yet; if the
    call never returns it never does ([ConnLive]).

    What every interleaving of connections does to the file system is an
    interleaving of requests, so that [FsLinear] says what they are answered. *)
From S2P Require Import Prelude Layout Locks Prog FileSystem FsModel FsRun FsSpec FsInvariant FsTree FsBoot FsCorrect.
From S2P Require Import FsConcurrent FsChanges FsRely FsPool FsLinear FsLive Request Network Server.
Import FileSystem LockTable Server.

Local Open Scope Z_scope.

(** ** The threads of connections *)

(** Where the thread of a connection is; [Died] is where the program would have
    ended. *)
Inductive phase :=
| Receiving (request_str : bytes)
| ReceivingBlock (request_str : bytes) (command : Command) (received : nat) (data : bytes)
| InFileSystem (request_str : bytes) (i : nat)
| SendingMessage (msg : bytes) (data : bytes)
| SendingBlock (block_data : bytes)
| Returned (rval : Z)
| Died.

Module Connections.
Section connections.
Context {D M S N : Type} `{Disk D} `{BoostSharedMutex M} `{Socket S} `{Listener N S}.
Abbreviation cstate := (cstate D M).

(** A connection; the socket as it was accepted and the number of its request in
    the file system are a record of the past that no turn looks at. *)
Record conn := Conn {
  cn_accepted : S;
  cn_request : option nat;
  cn_socket : S;
  cn_phase : phase;
}.

Definition accepted (s : S) : conn := Conn s None s (Receiving []).

Definition goes_to (c : conn) (s : S) (p : phase) : conn := Conn (cn_accepted c) (cn_request c) s p.

(** Leaving [handle_request] closes the socket. *)
Definition returns (c : conn) (s : S) (rval : Z) : conn := goes_to c (sock_close s) (Returned rval).

(** The call of a handler of the file system: a request comes in there. *)
Definition calls (c : conn) (s : S) (request_str : bytes) (stack_inode : fs_inode) (command : Command)
    (fs : cstate) : conn * cstate :=
  let i := length (cs_threads fs) in
  (Conn (cn_accepted c) (Some i) s (InFileSystem request_str i), happens fs (Arrives stack_inode command)).

(** [dispatch], up to the first access to shared state: a handler catches what
    [parse_message] throws. *)
Definition dispatches (stack : Command) (stack_inode : fs_inode) (c : conn) (s : S) (request_str : bytes)
    (fs : cstate) : conn * cstate :=
  match parse_command (read_word request_str).1 with
  | INVALID => (returns c s (-1), fs)
  | ty =>
      match parse_message stack request_str with
      | Ret command =>
          match ty with
          | FS_WRITEBLOCK => (goes_to c s (ReceivingBlock request_str command 0 (cmd_data command)), fs)
          | _ => calls c s request_str stack_inode command fs
          end
      | Throw _ => (returns c s (-1), fs)
      | _ => (goes_to c s Died, fs)
      end
  end.

(** A turn of [receive_message]. *)
Definition receiving_turn (stack : Command) (stack_inode : fs_inode) (c : conn) (request_str : bytes)
    (fs : cstate) : conn * cstate :=
  match sock_recv 1 (cn_socket c) with
  | (RecvData (x :: _), s) =>
      if is_nul x then dispatches stack stack_inode c s request_str fs
      else
        let request_str := request_str ++ [x] in
        if MAX_MESSAGE_SIZE <? len request_str then (returns c s (-1), fs)
        else (goes_to c s (Receiving request_str), fs)
  | (_, s) => (returns c s (-1), fs)
  end.

(** A turn of the loop of [handle_write]. *)
Definition receiving_block_turn (stack_inode : fs_inode) (c : conn) (request_str : bytes) (command : Command)
    (received : nat) (data : bytes) (fs : cstate) : conn * cstate :=
  if Z.of_nat received <? FS_BLOCKSIZE then
    match sock_recv (Z.to_nat (FS_BLOCKSIZE - Z.of_nat received)) (cn_socket c) with
    | (RecvData l, s) =>
        (goes_to c s (ReceivingBlock request_str command (received + length l)
           (take received data ++ l ++ drop (received + length l) data)), fs)
    | (_, s) => (returns c s (-1), fs)
    end
  else calls c (cn_socket c) request_str stack_inode (NetworkServer.with_data command data) fs.

(** A turn of a handler of the file system, whose exceptions are caught, too;
    then its answer goes out: the request with its terminator, and the block that
    was read. *)
Definition file_system_turn (c : conn) (request_str : bytes) (i : nat) (fs : cstate) : conn * cstate :=
  match th ← cs_threads fs !! i; Some (thread_step i th fs) with
  | Some (Steps fs) => (c, fs)
  | Some Waits => (c, fs)
  | Some (Halts (Done data)) => (goes_to c (cn_socket c) (SendingMessage (request_str ++ [NUL]) data), fs)
  | Some (Halts (Exn _)) => (returns c (cn_socket c) (-1), fs)
  | _ => (goes_to c (cn_socket c) Died, fs)
  end.

(** Turns of [send_message] and of the loop of [handle_read]: [v] is what is
    left to send, and [next] is what comes when it is out. *)
Definition sending_turn (c : conn) (v : bytes) (left : bytes → phase) (next : S → conn) : conn :=
  match sock_send v (cn_socket c) with
  | (SendError, s) => returns c s (-1)
  | (SendCount n, s) =>
      match drop n v with
      | [] => next s
      | rest => goes_to c s (left rest)
      end
  end.

(** A turn of the thread; [stack] and [stack_inode] are the uninitialised locals. *)
Definition conn_turn (stack : Command) (stack_inode : fs_inode) (c : conn) (fs : cstate) : conn * cstate :=
  match cn_phase c with
  | Receiving request_str => receiving_turn stack stack_inode c request_str fs
  | ReceivingBlock request_str command received data =>
      receiving_block_turn stack_inode c request_str command received data fs
  | InFileSystem request_str i => file_system_turn c request_str i fs
  | SendingMessage msg data =>
      (sending_turn c msg (λ rest, SendingMessage rest data)
         (λ s, match data with [] => returns c s 0 | _ => goes_to c s (SendingBlock data) end), fs)
  | SendingBlock block_data => (sending_turn c block_data SendingBlock (λ s, returns c s 0), fs)
  | Returned _ | Died => (c, fs)
  end.

(** ** The server *)

Record server_state := ServerState {
  ss_net : N;
  ss_fs : cstate;
  ss_conns : list conn;
}.

(** The state in which [main] enters [run], with no connection yet. *)
Definition begin (st : serving D (table M) S N) : server_state :=
  ServerState (sv_net st) (CState (st_disk (sv_fs st)) (st_free (sv_fs st)) (st_locks (sv_fs st)) None []) [].

(** A round of the loop of [run], or a turn of the thread of connection [j]. *)
Inductive server_event :=
| Accepts
| ConnTurn (j : nat) (stack : Command) (stack_inode : fs_inode).

Definition server_happens (st : server_state) (e : server_event) : server_state :=
  match e with
  | Accepts =>
      match net_accept (ss_net st) with
      | (Some client_socket, n) => ServerState n (ss_fs st) (ss_conns st ++ [accepted client_socket])
      | (None, n) => ServerState n (ss_fs st) (ss_conns st)
      end
  | ConnTurn j stack stack_inode =>
      match ss_conns st !! j with
      | Some c =>
          let '(c, fs) := conn_turn stack stack_inode c (ss_fs st) in
          ServerState (ss_net st) fs (<[j := c]> (ss_conns st))
      | None => st
      end
  end.

Definition serve (es : list server_event) (st : server_state) : server_state := foldl server_happens st es.

End connections.
Arguments conn : clear implicits.
Arguments server_state : clear implicits.
End Connections.
Import Connections.
