(* ===== verification/ConnCorrect.v ===== *)
(** * What clients get from a server that serves them at the same time

    Every connection of [Connections] keeps what its phase says of its socket and
    of its request ([conn_ok]); what all of them do to the file system is an
    interleaving of their requests, for which [FsLinear] and [FsLive] speak. *)
From S2P Require Import Prelude Layout Locks Prog FileSystem FsModel FsRun FsSpec FsInvariant FsTree FsBoot FsCorrect.
From S2P Require Import FsConcurrent FsChanges FsRely FsPool FsLinear FsLive Request Network Server Connections.
Import FileSystem LockTable Server Connections.

Local Open Scope Z_scope.

(** ** The requests of an interleaving *)

(** The commands that came in, in order. *)
Definition arrived (es : list event) : list Command :=
  es ≫= λ e, match e with Arrives _ command => [command] | Turn _ => [] end.

Lemma arrived_app es es' : arrived (es ++ es') = arrived es ++ arrived es'.
Proof. apply bind_app. Qed.

Section requests.
Context {D M : Type} `{DiskSpec D} `{BoostSharedMutexSpec M}.
Implicit Types (fs : cstate D M).

Lemma takes_effect_requests queue a a' :
  takes_effect queue a a' → (at_requests a').*1 = (at_requests a).*1.
Proof.
  intros [i command taken o V' Hi _]. simpl. rewrite list_fmap_insert. simpl.
  apply list_insert_id. by rewrite list_lookup_fmap, Hi.
Qed.

Lemma linearizes_requests (s0 : cstate D M) V es a :
  linearizes s0 V es a → (at_requests a).*1 = arrived es.
Proof.
  induction 1 as [|es e a a' _ IH Hrun _]; [done|].
  assert ((at_requests a').*1 = (at_requests (arrives e a)).*1) as Hsame.
  { clear IH. induction Hrun as [|x y z [Hx|Hx] _ IH]; [done|rewrite IH; by eapply takes_effect_requests..]. }
  rewrite Hsame, arrived_app. destruct e as [stack command|i]; simpl; rewrite <-IH; [|by rewrite app_nil_r].
  by rewrite fmap_app.
Qed.

Lemma linearizes_answered (s0 : cstate D M) V es a :
  at_rest s0 → linearizes s0 V es a → all_answered (interleaving es s0) a.
Proof.
  intros Hrest. destruct 1; [|done]. intros i th o Hi. simpl in Hi. by rewrite (ar_threads _ Hrest) in Hi.
Qed.

Lemma arrived_length (s0 : cstate D M) es :
  at_rest s0 → length (cs_threads (interleaving es s0)) = length (arrived es).
Proof.
  intros Hrest. induction es as [|e es IH] using rev_ind; [simpl; by rewrite (ar_threads _ Hrest)|].
  rewrite arrived_app, length_app, <-IH. unfold interleaving. rewrite foldl_app. simpl.
  destruct e as [stack command|i]; simpl; [by rewrite length_app|]. rewrite Nat.add_0_r.
  destruct (cs_threads _ !! i) as [th|]; [|done]. simpl. destruct (thread_step i th _) eqn:Hst; try done.
  by eapply thread_step_length.
Qed.

(** Request [i] has ended with [o]; it stays so. *)
Definition ended_with fs (i : nat) (o : outcome bytes) : Prop :=
  ∃ th, cs_threads fs !! i = Some th ∧ result_of th = Some o.

Lemma thread_step_threads i th fs fs' :
  thread_step i th fs = Steps fs' → ∃ th', cs_threads fs' = <[i := th']> (cs_threads fs).
Proof. unfold thread_step, lock_step. intros Hs. repeat case_match; simplify_eq/=; by eexists. Qed.

Lemma ended_stays fs e i o : ended_with fs i o → ended_with (happens fs e) i o.
Proof.
  intros (th & Hi & Ho). destruct e as [stack command|j]; simpl.
  - exists th. split; [by apply lookup_app_l_Some|done].
  - destruct (cs_threads fs !! j) as [tj|] eqn:Hj; [|by exists th]. simpl.
    destruct (thread_step j tj fs) as [fs'| | |] eqn:Hst; try (by exists th).
    destruct (decide (j = i)) as [->|Hne].
    { simplify_eq. unfold thread_step in Hst. unfold result_of in Ho. by destruct (th_prog th). }
    destruct (thread_step_threads _ _ _ _ Hst) as [th' Hths]. exists th. split; [|done].
    by rewrite Hths, list_lookup_insert_ne.
Qed.

Lemma halts_result i th fs o :
  thread_step i th fs = Halts o → result_of th = Some o ∨ o = Crash DiskFailure.
Proof.
  unfold thread_step, lock_step, result_of. destruct (th_prog th); intros Hs; repeat case_match; simplify_eq; auto.
Qed.

End requests.

(** ** What holds of a connection *)

Section connections.
Context {D M S N : Type} `{DiskSpec D} `{BoostSharedMutexSpec M} `{SocketSpec S} `{!Listener N S, !ListenerSpec N S}.
Implicit Types (fs : cstate D M) (c : conn S) (s : S).
Abbreviation acc := cn_accepted.
Abbreviation sock := cn_socket.

(** Only receiving has happened to the socket. *)
Definition only_received c : Prop := open_after (acc c) (sock c) ∧ outgoing (sock c) = outgoing (acc c).

Definition message_ok (r : bytes) : Prop := NUL ∉ r ∧ len r ≤ MAX_MESSAGE_SIZE.

(** The client's bytes were the message [r] of request [i], and its payload. *)
Definition received_request (cmds : list Command) c (r : bytes) (i : nat) : Prop :=
  cn_request c = Some i ∧ message_ok r ∧
  ∃ stack command payload, stack_command_ok stack ∧ parse_message stack r = Ret command ∧
    payload_ok command payload ∧ cmds !! i = Some (with_payload command payload) ∧
    incoming (acc c) = r ++ NUL :: payload ++ incoming (sock c).

(** The request was carried out and answered. *)
Definition answered_request (cmds : list Command) fs c (rval : Z) : Prop :=
  ∃ r i o, received_request cmds c r i ∧ ended_with fs i o ∧
  match o with
  | Done data =>
      (rval = 0 ∧ outgoing (sock c) = outgoing (acc c) ++ r ++ NUL :: data) ∨
      (rval = -1 ∧ ¬ healthy (acc c) ∧
       ∃ p, p `prefix_of` r ++ NUL :: data ∧ outgoing (sock c) = outgoing (acc c) ++ p)
  | Exn _ => rval = -1 ∧ outgoing (sock c) = outgoing (acc c)
  | _ => False
  end.

(** There was no request; on a healthy connection it is the client's fault. *)
Definition refused_request c (rval : Z) : Prop :=
  cn_request c = None ∧ rval = -1 ∧ outgoing (sock c) = outgoing (acc c) ∧
  (healthy (acc c) → ∀ r rest, incoming (acc c) = r ++ NUL :: rest → message_ok r →
     ∃ stack, stack_command_ok stack ∧ ∀ command, parse_message stack r = Ret command →
       command_type command = INVALID ∨ command_type command = FS_WRITEBLOCK ∧ len rest < FS_BLOCKSIZE).

Definition conn_ok (cmds : list Command) fs c : Prop :=
  match cn_phase c with
  | Receiving r =>
      cn_request c = None ∧ only_received c ∧ message_ok r ∧ incoming (acc c) = r ++ incoming (sock c)
  | ReceivingBlock r command received data =>
      cn_request c = None ∧ only_received c ∧ message_ok r ∧ (Z.of_nat received ≤ FS_BLOCKSIZE) ∧
      len data = FS_BLOCKSIZE ∧ command_type command = FS_WRITEBLOCK ∧
      (∃ stack, stack_command_ok stack ∧ parse_message stack r = Ret command) ∧
      incoming (acc c) = r ++ NUL :: take received data ++ incoming (sock c)
  | InFileSystem r i => only_received c ∧ received_request cmds c r i
  | SendingMessage msg data =>
      open_after (acc c) (sock c) ∧ msg ≠ [] ∧
      ∃ r i sent, received_request cmds c r i ∧ ended_with fs i (Done data) ∧
        r ++ [NUL] = sent ++ msg ∧ outgoing (sock c) = outgoing (acc c) ++ sent
  | SendingBlock v =>
      open_after (acc c) (sock c) ∧ v ≠ [] ∧
      ∃ r i data sent, received_request cmds c r i ∧ ended_with fs i (Done data) ∧
        data = sent ++ v ∧ outgoing (sock c) = outgoing (acc c) ++ r ++ NUL :: sent
  | Returned rval => closed (sock c) = true ∧ (answered_request cmds fs c rval ∨ refused_request c rval)
  | Died => False
  end.

(** Other connections do not matter. *)
Lemma received_more cmds cmds' c r i : received_request cmds c r i → received_request (cmds ++ cmds') c r i.
Proof.
  intros (Hi & Hr & stack & command & payload & Hs & Hp & Hpay & Hc & Hin).
  split; [done|]. split; [done|]. exists stack, command, payload. split_and!; try done. by apply lookup_app_l_Some.
Qed.

Lemma conn_ok_more cmds cmds' fs fs' c :
  (∀ i o, ended_with fs i o → ended_with fs' i o) → conn_ok cmds fs c → conn_ok (cmds ++ cmds') fs' c.
Proof.
  intros He. pose proof received_more as Hm. unfold conn_ok, answered_request.
  destruct (cn_phase c); naive_solver.
Qed.

(** ** A turn of a connection *)

(** What a turn comes to: events of the file system, and a connection that keeps
    its promise; a connection makes at most one request. *)
Definition turn_ok (cmds : list Command) fs c (res : conn S * cstate D M) : Prop :=
  ∃ es, res.2 = interleaving es fs ∧ well_formed_requests es ∧ acc res.1 = acc c ∧
    conn_ok (cmds ++ arrived es) res.2 res.1 ∧
    ((arrived es = [] ∧ cn_request res.1 = cn_request c) ∨
     (cn_request c = None ∧ cn_request res.1 = Some (length cmds) ∧ ∃ command, arrived es = [command])).

Section turn.
Context {cmds : list Command} {fs : cstate D M} (Hlen : length (cs_threads fs) = length cmds).
Context {stack : Command} {stack_inode : fs_inode} (Hstack : stack_command_ok stack) (Hinode : inode_ok stack_inode).

Lemma turn_private c c' :
  acc c' = acc c → cn_request c' = cn_request c → conn_ok cmds fs c' → turn_ok cmds fs c (c', fs).
Proof.
  intros Ha Hr Hok. exists []. split_and!; [done| |done|by rewrite app_nil_r|by left].
  by intros ?? ?%elem_of_nil.
Qed.

(** The connection returns without a request. *)
Lemma returns_refused c s :
  cn_request c = None → closed s = false → outgoing s = outgoing (acc c) →
  (healthy (acc c) → ∀ r rest, incoming (acc c) = r ++ NUL :: rest → message_ok r →
     ∃ stack, stack_command_ok stack ∧ ∀ command, parse_message stack r = Ret command →
       command_type command = INVALID ∨ command_type command = FS_WRITEBLOCK ∧ len rest < FS_BLOCKSIZE) →
  turn_ok cmds fs c (returns c s (-1), fs).
Proof.
  intros Hr Hc Ho Hf. apply turn_private; [done..|]. destruct (sock_closed s Hc) as (Hc1 & _ & Hc3).
  split; [done|]. right. split_and!; [done|done|simpl; by rewrite Hc3|done].
Qed.

(** A request comes in at the file system. *)
Lemma calls_ok c s r command payload stack' :
  cn_request c = None → open_after (acc c) s → outgoing s = outgoing (acc c) → message_ok r →
  stack_command_ok stack' → parse_message stack' r = Ret command → payload_ok command payload →
  incoming (acc c) = r ++ NUL :: payload ++ incoming s →
  turn_ok cmds fs c (calls c s r stack_inode (with_payload command payload) fs).
Proof.
  intros Hr Ho Hout Hm Hst Hp Hpay Hin. exists [Arrives stack_inode (with_payload command payload)]. split; [done|].
  destruct (parse_message_sound _ _ _ Hst (proj1 Hm) Hp) as (Hcmd & _ & (cs & name & Hpath & Hg) & Hty & _).
  assert (command_ok command cs name) as Hc by by split.
  destruct (command_ok_payload _ _ _ payload Hc Hpay) as [Hc1 Hc2 Hc3 Hc4]. split_and!; [|done| |].
  - intros ?? [= -> ->]%list_elem_of_singleton. exists cs, name. split; try done.
    destruct (decide (command_type (with_payload command payload) = FS_CREATE)); naive_solver.
  - split; [done|]. simpl. rewrite Hlen. split; [done|]. split; [done|].
    exists stack', command, payload. split_and!; try done. by rewrite lookup_app_r, Nat.sub_diag by lia.
  - right. split; [done|]. simpl. rewrite Hlen. eauto.
Qed.

(** A message is complete. *)
Lemma dispatches_ok c s r :
  cn_request c = None → open_after (acc c) s → outgoing s = outgoing (acc c) → message_ok r →
  incoming (acc c) = r ++ NUL :: incoming s →
  turn_ok cmds fs c (dispatches stack stack_inode c s r fs).
Proof.
  intros Hr Ho Hout Hm Hin. unfold dispatches.
  assert (∀ ty, parse_command (read_word r).1 = ty →
    (∀ command, parse_message stack r = Ret command → command_type command = ty)) as Hty.
  { intros ty Hty command (w1 & s1 & _ & _ & _ & _ & Hw & _ & _ & _ & _ & _ & _ & Ht & _)%parse_message_inv.
    rewrite Hw in Hty. by rewrite Ht. }
  assert ((∀ command, parse_message stack r = Ret command → command_type command = INVALID) →
    turn_ok cmds fs c (returns c s (-1), fs)) as Hrefuse.
  { intros Hno. apply returns_refused; [done|apply Ho|done|]. intros _ r' rest Hin' [Hn' _].
    rewrite Hin in Hin'. apply split_nul_unique in Hin' as [<- <-]; [|apply Hm|done].
    exists stack. split; [done|]. intros command Hp. left. by apply Hno. }
  destruct (decide (parse_command (read_word r).1 = INVALID)) as [Hinv|Hne].
  { rewrite Hinv. by apply Hrefuse, Hty. }
  assert (parses (parse_message stack r)) as Hparses.
  { apply parse_message_parses. intros Hw. by rewrite Hw in Hne. }
  destruct Hparses as [[command Hp]|[e Hp]]; rewrite Hp in *.
  2: { destruct (parse_command _) eqn:Ht; [by apply Hrefuse..|done]. }
  specialize (Hty _ eq_refl command eq_refl).
  assert (command_type command ≠ FS_WRITEBLOCK →
    turn_ok cmds fs c (calls c s r stack_inode command fs)) as Hcall.
  { intros Hnw. destruct (no_payload Hnw) as [Hpay Hwith]. rewrite <-Hwith. by eapply calls_ok. }
  destruct (parse_command _) eqn:Ht; [|clear Hcall|apply Hcall; congruence|apply Hcall; congruence|done].
  - apply Hcall. congruence.
  - apply turn_private; [done..|]. unfold conn_ok. simpl. split_and!; [done|by split|done|done| |done|by eauto|done].
    destruct (parse_message_sound _ _ _ Hstack (proj1 Hm) Hp) as (Hcmd & _). apply Hcmd.
Qed.

(** A proper prefix of the first message holds no complete one. *)
Lemma message_longer (p t r rest : bytes) : NUL ∉ p → p ++ t = r ++ NUL :: rest → len p ≤ len r.
Proof.
  intros Hp Heq. unfold len. destruct (decide (length p <= length r)%nat) as [|Hgt]; [lia|]. destruct Hp.
  apply list_elem_of_lookup. exists (length r). assert (length r < length p)%nat as Hlt by lia.
  rewrite <-(lookup_app_l p t) by done. by rewrite Heq, list_lookup_middle.
Qed.

Lemma receiving_turn_ok c r :
  cn_phase c = Receiving r → conn_ok cmds fs c → turn_ok cmds fs c (receiving_turn stack stack_inode c r fs).
Proof.
  unfold conn_ok. intros -> (Hr & [Ho Hout] & Hm & Hin). unfold receiving_turn.
  pose proof (sock_recv_spec 1 (sock c) ltac:(lia) (proj1 Ho)) as Hs. destruct (sock_recv 1 (sock c)) as [res s].
  destruct Hs as (Hout' & Hc' & Hh' & Hs). assert (open_after (acc c) s) as Ho' by (destruct Ho; split; auto).
  rewrite <-Hout' in Hout.
  assert ((healthy (acc c) → incoming (sock c) = []) → turn_ok cmds fs c (returns c s (-1), fs)) as Hfail.
  { intros Hempty. apply returns_refused; [done|done|done|]. intros Hh r' rest Hin' _. exfalso.
    rewrite Hin, Hempty, app_nil_r in Hin' by done. apply (proj1 Hm). rewrite Hin'. apply elem_of_app. right. by left. }
  destruct res as [| |l]; [apply Hfail; intros Hh; by apply Hs, Ho..|]. destruct Hs as (Hl & Hl1 & Hin1).
  destruct l as [|x [|? l]]; [done| |simpl in Hl1; lia]. simpl in Hin1. rewrite Hin1 in Hin.
  destruct (is_nul x) eqn:Hx; [apply is_nul_true in Hx as ->; by apply dispatches_ok|]. apply is_nul_false in Hx.
  assert (NUL ∉ r ++ [x]) as Hn. { rewrite elem_of_app, list_elem_of_singleton. intros [?|?]; [by apply (proj1 Hm)|done]. }
  rewrite (cons_middle x r (incoming s)), app_assoc in Hin.
  destruct (Z.ltb_spec MAX_MESSAGE_SIZE (len (r ++ [x]))) as [Hbig|Hsmall].
  - apply returns_refused; [done..|]. intros _ r' rest Hin' [_ Hlr]. exfalso. rewrite Hin in Hin'.
    apply message_longer in Hin'; [lia|done].
  - apply turn_private; [done..|]. by split_and!.
Qed.

Lemma receiving_block_turn_ok c r command n data :
  cn_phase c = ReceivingBlock r command n data → conn_ok cmds fs c →
  turn_ok cmds fs c (receiving_block_turn stack_inode c r command n data fs).
Proof.
  unfold conn_ok. intros -> (Hr & [Ho Hout] & Hm & Hn & Hd & Hty & (stack' & Hst & Hp) & Hin).
  unfold receiving_block_turn. destruct (Z.ltb_spec (Z.of_nat n) FS_BLOCKSIZE) as [Hlt|Hge].
  - pose proof (sock_recv_spec (Z.to_nat (FS_BLOCKSIZE - Z.of_nat n)) (sock c) ltac:(lia) (proj1 Ho)) as Hs.
    destruct (sock_recv _ (sock c)) as [res s]. destruct Hs as (Hout' & Hc' & Hh' & Hs).
    assert (open_after (acc c) s) as Ho' by (destruct Ho; split; auto). rewrite <-Hout' in Hout.
    assert (length (take n data) = n) as Htn by (rewrite length_take; unfold len in Hd; lia).
    assert ((healthy (acc c) → incoming (sock c) = []) → turn_ok cmds fs c (returns c s (-1), fs)) as Hfail.
    { intros Hempty. apply returns_refused; [done|done|done|]. intros Hh r' rest Hin' [Hn' _].
      rewrite Hin, Hempty, app_nil_r in Hin' by done. apply split_nul_unique in Hin' as [<- <-]; [|apply Hm|done].
      exists stack'. split; [done|]. rewrite Hp. intros ? [= <-]. right. split; [done|]. unfold len. lia. }
    destruct res as [| |l]; [apply Hfail; intros Hh; by apply Hs, Ho..|]. destruct Hs as (_ & Hl & Hin1).
    assert (length (drop (n + length l) data) = length data - (n + length l))%nat as Hdr by apply length_drop.
    apply turn_private; [done..|]. unfold conn_ok. simpl. split_and!; [done|by split|done|lia| |done|by eauto|].
    + unfold len in *. rewrite !length_app. lia.
    + rewrite app_assoc, take_app_length' by (rewrite length_app; lia). by rewrite Hin, Hin1, <-app_assoc.
  - unfold len in Hd. rewrite take_ge in Hin by lia.
    assert (NetworkServer.with_data command data = with_payload command data) as ->
      by (unfold with_payload; by rewrite bool_decide_eq_true_2).
    apply (calls_ok c (sock c) r command data stack'); try done. unfold payload_ok. by rewrite bool_decide_eq_true_2.
Qed.

(** The file system neither crashes nor misuses a lock. *)
Definition runs_well : Prop :=
  ∀ i th, cs_threads fs !! i = Some th → thread_step i th fs ≠ Misuse ∧ (∀ f, thread_step i th fs ≠ Halts (Crash f)).

Lemma received_goes c c' r i :
  received_request cmds c r i → acc c' = acc c → cn_request c' = cn_request c →
  incoming (sock c') = incoming (sock c) → received_request cmds c' r i.
Proof. unfold received_request. by intros Hr -> -> ->. Qed.

Lemma file_system_turn_ok c r i :
  runs_well → cn_phase c = InFileSystem r i → conn_ok cmds fs c →
  turn_ok cmds fs c (file_system_turn c r i fs).
Proof.
  intros Hwell Hph Hok. pose proof Hok as Hok'. unfold conn_ok in Hok'. rewrite Hph in Hok'.
  destruct Hok' as [[Ho Hout] Hrec]. pose proof Hrec as (Hi & Hm & stack' & command & payload & _ & _ & _ & Hcmd & _).
  apply lookup_lt_Some in Hcmd. rewrite <-Hlen in Hcmd. apply lookup_lt_is_Some in Hcmd as [th Hth].
  unfold file_system_turn. rewrite Hth. simpl. destruct (Hwell i th Hth) as [Hmis Hcr].
  destruct (thread_step i th fs) as [fs'| |o|] eqn:Hst; [| | |done].
  - exists [Turn i]. split_and!; [simpl; rewrite Hth; simpl; by rewrite Hst| |done| |by left].
    + intros ?? [=]%list_elem_of_singleton.
    + apply (conn_ok_more cmds [] fs fs'); [|done]. intros k o He. apply (ended_stays _ (Turn i)) in He.
      simpl in He. by rewrite Hth in He; simpl in He; rewrite Hst in He.
  - by apply turn_private.
  - assert (∀ o', o = o' → (∀ f, o' ≠ Crash f) → ended_with fs i o') as He.
    { intros o' -> Hno. exists th. split; [done|]. destruct (halts_result _ _ _ _ Hst) as [?|Hd]; [done|by destruct (Hno DiskFailure)]. }
    destruct o as [data|e|f|]; [| |by destruct (Hcr f)|].
    + apply turn_private; [done..|]. split; [done|]. split; [by destruct r|]. exists r, i, [].
      split_and!; [by eapply received_goes|by apply He|done|]. by rewrite app_nil_r.
    + destruct (sock_closed (sock c) (proj1 Ho)) as (Hc1 & Hc2 & Hc3).
      apply turn_private; [done..|]. split; [done|]. left. exists r, i, (Exn e).
      split_and!; [by eapply received_goes|by apply He|done|by simpl; rewrite Hc3].
    + destruct (He Blocked eq_refl ltac:(done)) as (th' & Hth' & Hres). unfold result_of in Hres. by destruct (th_prog th').
Qed.

(** Sending [v], the rest of [all] behind [sent], when [pre] is out. *)
Lemma sending_turn_ok c v left next r i data pre sent all :
  open_after (acc c) (sock c) → v ≠ [] → received_request cmds c r i → ended_with fs i (Done data) →
  outgoing (sock c) = outgoing (acc c) ++ pre ++ sent → all = sent ++ v → pre ++ all `prefix_of` r ++ NUL :: data →
  (∀ s rest sent', open_after (acc c) s → incoming s = incoming (sock c) → rest ≠ [] → all = sent' ++ rest →
     outgoing s = outgoing (acc c) ++ pre ++ sent' → conn_ok cmds fs (goes_to c s (left rest))) →
  (∀ s, open_after (acc c) s → incoming s = incoming (sock c) → outgoing s = outgoing (acc c) ++ pre ++ all →
     acc (next s) = acc c ∧ cn_request (next s) = cn_request c ∧ conn_ok cmds fs (next s)) →
  turn_ok cmds fs c (sending_turn c v left next, fs).
Proof.
  intros Ho Hv Hrec He Hout Hall Hpre Hleft Hnext. unfold sending_turn.
  pose proof (sock_send_spec v (sock c) Hv (proj1 Ho)) as Hs. destruct (sock_send v (sock c)) as [res s].
  destruct Hs as (Hin' & Hc' & Hh' & Hs). assert (open_after (acc c) s) as Ho' by (destruct Ho; split; auto).
  destruct res as [|n].
  - destruct Hs as [Hout' Hbad]. destruct (sock_closed s Hc') as (Hc1 & Hc2 & Hc3).
    apply turn_private; [done..|]. split; [done|]. left. exists r, i, (Done data).
    split_and!; [eapply received_goes; try done; simpl; congruence|done|]. right.
    split_and!; [done|by intros ?%Ho|]. exists (pre ++ sent). split; [|simpl; by rewrite Hc3, Hout', Hout].
    etrans; [|exact Hpre]. rewrite Hall, app_assoc. by exists v.
  - destruct Hs as [Hn Hout']. rewrite Hout in Hout'. rewrite <-!app_assoc in Hout'.
    destruct (drop n v) as [|x rest] eqn:Hd.
    + rewrite <-(take_drop n v), Hd, app_nil_r in Hall. rewrite <-Hall in Hout'.
      destruct (Hnext s) as (? & ? & ?); [done..|]. by apply turn_private.
    + apply turn_private; [done..|]. eapply Hleft; [done|done|done| |exact Hout'].
      by rewrite <-app_assoc, <-Hd, take_drop.
Qed.

Lemma sending_message_turn_ok c msg data :
  cn_phase c = SendingMessage msg data → conn_ok cmds fs c → turn_ok cmds fs c (conn_turn stack stack_inode c fs).
Proof.
  intros Hph Hok. unfold conn_turn. rewrite Hph. unfold conn_ok in Hok. rewrite Hph in Hok.
  destruct Hok as (Ho & Hv & r & i & sent & Hrec & He & Hall & Hout).
  apply (sending_turn_ok c msg _ _ r i data [] sent (r ++ [NUL])); try done.
  - exists data. simpl. by rewrite <-app_assoc.
  - intros s rest sent' Ho' Hin' Hr Hall' Hout'. split; [done|]. split; [done|]. exists r, i, sent'.
    split_and!; [by eapply received_goes|done|done|done].
  - intros s Ho' Hin' Hout'. destruct data as [|x data]; (split; [done|]; split; [done|]).
    + destruct (sock_closed s (proj1 Ho')) as (Hc1 & Hc2 & Hc3). split; [done|]. left. exists r, i, (Done []).
      split_and!; [eapply received_goes; try done; simpl; congruence|done|]. left. split; [done|]. simpl. by rewrite Hc3.
    + split; [done|]. split; [done|]. exists r, i, (x :: data), [].
      split_and!; [by eapply received_goes|done|done|done].
Qed.

Lemma sending_block_turn_ok c v :
  cn_phase c = SendingBlock v → conn_ok cmds fs c → turn_ok cmds fs c (conn_turn stack stack_inode c fs).
Proof.
  intros Hph Hok. unfold conn_turn. rewrite Hph. unfold conn_ok in Hok. rewrite Hph in Hok.
  destruct Hok as (Ho & Hv & r & i & data & sent & Hrec & He & Hall & Hout).
  apply (sending_turn_ok c v _ _ r i data (r ++ [NUL]) sent data); try done.
  - by rewrite <-app_assoc.
  - exists []. by rewrite app_nil_r, <-app_assoc.
  - intros s rest sent' Ho' Hin' Hr Hall' Hout'. split; [done|]. split; [done|]. exists r, i, data, sent'.
    rewrite <-app_assoc in Hout'. split_and!; [by eapply received_goes|done..].
  - intros s Ho' Hin' Hout'. split; [done|]. split; [done|]. rewrite <-app_assoc in Hout'.
    destruct (sock_closed s (proj1 Ho')) as (Hc1 & Hc2 & Hc3). split; [done|]. left. exists r, i, (Done data).
    split_and!; [eapply received_goes; try done; simpl; congruence|done|]. left. split; [done|]. simpl. by rewrite Hc3.
Qed.

Lemma conn_turn_ok c : runs_well → conn_ok cmds fs c → turn_ok cmds fs c (conn_turn stack stack_inode c fs).
Proof.
  intros Hwell Hok. destruct (cn_phase c) as [r|r command n data|r i|msg data|v|rval|] eqn:Hph.
  - unfold conn_turn. rewrite Hph. by apply receiving_turn_ok.
  - unfold conn_turn. rewrite Hph. by apply receiving_block_turn_ok.
  - unfold conn_turn. rewrite Hph. by apply file_system_turn_ok.
  - by eapply sending_message_turn_ok.
  - by eapply sending_block_turn_ok.
  - unfold conn_turn. rewrite Hph. by apply turn_private.
  - unfold conn_ok in Hok. by rewrite Hph in Hok.
Qed.

End turn.

(** ** The server *)

Definition numbers (cs : list (conn S)) : list nat := cs ≫= λ c, option_list (cn_request c).

(** The connections and the requests that they have made: each request is that
    of one connection. *)
Record serving_inv (s0 : cstate D M) (es : list event) (st : server_state D M S N) : Prop := {
  si_fs : ss_fs st = interleaving es s0;
  si_requests : well_formed_requests es;
  si_numbers : numbers (ss_conns st) ≡ₚ seq 0 (length (arrived es));
  si_conns c : c ∈ ss_conns st → conn_ok (arrived es) (ss_fs st) c;
}.

Definition event_ok (e : server_event) : Prop :=
  match e with
  | Accepts => True
  | ConnTurn _ stack stack_inode => stack_command_ok stack ∧ inode_ok stack_inode
  end.

Lemma well_formed_app es es' :
  well_formed_requests es → well_formed_requests es' → well_formed_requests (es ++ es').
Proof. intros Hes Hes' stack command [Hin|Hin]%elem_of_app; eauto. Qed.

Lemma numbers_length cs : (length (numbers cs) <= length cs)%nat.
Proof.
  induction cs as [|c cs IH]; [done|]. unfold numbers in *. rewrite bind_cons, length_app.
  destruct (cn_request c); simpl in *; lia.
Qed.

Lemma interleaving_interleaving es es' (s0 : cstate D M) :
  interleaving es' (interleaving es s0) = interleaving (es ++ es') s0.
Proof. unfold interleaving. by rewrite foldl_app. Qed.

Lemma ended_stays_all es fs i o : ended_with fs i o → ended_with (interleaving es fs) i o.
Proof. revert fs. induction es as [|e es IH]; intros fs He; [done|]. by apply IH, ended_stays. Qed.

Section served.
Context {s0 : cstate D M} {V : store} (Hrest : at_rest s0) (Hinv : fs_inv (cs_disk s0) V (cs_free s0)).

Lemma threads_bound es st :
  serving_inv s0 es st → 3 * len (ss_conns st) < hold_bound → 3 * len (cs_threads (interleaving es s0)) < hold_bound.
Proof.
  intros Hst Hl. pose proof (numbers_length (ss_conns st)) as Hn.
  rewrite (si_numbers _ _ _ Hst), length_seq in Hn. unfold len in *. rewrite arrived_length by done. lia.
Qed.

Lemma serving_runs_well es st :
  serving_inv s0 es st → 3 * len (ss_conns st) < hold_bound → runs_well (fs := ss_fs st).
Proof.
  intros Hst Hl. pose proof (threads_bound _ _ Hst Hl) as Hb. rewrite (si_fs _ _ _ Hst).
  destruct (interleaving_linearizes s0 V es Hrest Hinv (si_requests _ _ _ Hst) Hb) as (V' & gs & Hpool & _).
  intros i th Hi. split; [|intros f; by eapply pool_no_crash].
  pose proof (thread_step_respects (pi_respects _ _ _ Hpool) Hi Hb) as Hr. intros Hm. by rewrite Hm in Hr.
Qed.

(** A turn of connection [j] keeps the invariant. *)
Lemma conn_turn_inv es st j c stack stack_inode :
  serving_inv s0 es st → 3 * len (ss_conns st) < hold_bound → ss_conns st !! j = Some c →
  stack_command_ok stack → inode_ok stack_inode →
  ∃ es', serving_inv s0 (es ++ es') (server_happens st (ConnTurn j stack stack_inode)).
Proof.
  intros Hst Hl Hj Hstk Hsti. pose proof Hst as [Hfs Hreq Hnum Hconns].
  destruct (conn_turn_ok (cmds := arrived es) (fs := ss_fs st)) with (c := c) (stack := stack) (stack_inode := stack_inode)
    as (es' & Hfs' & Hreq' & Hacc & Hok & Hn); try done.
  { rewrite Hfs. by apply arrived_length. }
  { by eapply serving_runs_well. }
  { apply Hconns. by eapply list_elem_of_lookup_2. }
  exists es'. simpl. rewrite Hj. destruct (conn_turn stack stack_inode c (ss_fs st)) as [c' fs'].
  simpl in *. subst fs'. split; simpl.
  - by rewrite Hfs, interleaving_interleaving.
  - by apply well_formed_app.
  - unfold numbers in *. rewrite (bind_insert _ _ _ _ _ Hj), arrived_app, length_app. rewrite (bind_delete _ _ _ _ Hj) in Hnum.
    destruct Hn as [[-> ->]|(Hno & -> & command & ->)].
    + by rewrite Nat.add_0_r.
    + rewrite Hno in Hnum. simpl in *. rewrite Nat.add_1_r, seq_S, Hnum, Nat.add_0_l. by rewrite Permutation_app_comm.
  - intros c2 [k Hk]%list_elem_of_lookup. rewrite arrived_app.
    apply list_lookup_insert_Some in Hk as [(<- & <- & _)|[_ Hk]]; [done|].
    apply (conn_ok_more _ _ (ss_fs st)); [intros ??; apply ended_stays_all|].
    apply Hconns. by eapply list_elem_of_lookup_2.
Qed.

Lemma accepts_inv es st :
  serving_inv s0 es st → serving_inv s0 es (server_happens st Accepts).
Proof.
  intros [Hfs Hreq Hnum Hconns]. simpl. pose proof (net_accept_spec (ss_net st)) as Ha.
  destruct (net_accept (ss_net st)) as [[s|] n]; [|done]. destruct Ha as [_ Ha]. specialize (Ha s eq_refl).
  split; simpl; try done.
  - unfold numbers in *. rewrite bind_app. simpl. by rewrite app_nil_r.
  - intros c [Hc|Hc%list_elem_of_singleton]%elem_of_app; [by apply Hconns|]. subst c.
    split_and!; [done|by split_and!|split; [by intros ?%elem_of_nil|done]|done].
Qed.

Lemma server_happens_conns st e : (length (ss_conns st) <= length (ss_conns (server_happens st e)))%nat.
Proof.
  destruct e as [|j stack sti]; simpl.
  - destruct (net_accept (ss_net st)) as [[s|] n]; simpl; [rewrite length_app; lia|done].
  - destruct (ss_conns st !! j) as [c|]; [|done]. destruct (conn_turn stack sti c (ss_fs st)). simpl. by rewrite length_insert.
Qed.

Lemma serve_inv es evs st :
  serving_inv s0 es st → Forall event_ok evs → 3 * len (ss_conns (serve evs st)) < hold_bound →
  ∃ es', serving_inv s0 (es ++ es') (serve evs st).
Proof.
  intros Hst. induction evs as [|e evs IH] using rev_ind; intros Hok Hl; [exists []; by rewrite app_nil_r|].
  unfold serve in *. rewrite foldl_app in Hl |- *. simpl in *. apply Forall_app in Hok as [Hok [He _]%Forall_cons].
  pose proof (server_happens_conns (foldl server_happens st evs) e) as Hle.
  destruct (IH Hok) as [es1 Hst1]; [unfold len in *; lia|].
  destruct e as [|j stack sti]; [exists es1; by apply accepts_inv|].
  destruct (ss_conns (foldl server_happens st evs) !! j) as [c|] eqn:Hj.
  - destruct (conn_turn_inv _ _ j c stack sti Hst1) as [es2 Hst2]; [unfold len in *; lia|done|apply He..|].
    exists (es1 ++ es2). by rewrite (assoc_L (++)).
  - exists es1. simpl. by rewrite Hj.
Qed.

End served.

(** *** What the atomic file system answers *)

(** The client's bytes were the message [r] of a request, and its payload; the
    atomic file system [a] has it, with the answer [o]. *)
Definition request_of (a : atomic_fs) c (r : bytes) (o : outcome bytes) : Prop :=
  ∃ i stack command payload, cn_request c = Some i ∧ message_ok r ∧ stack_command_ok stack ∧
    parse_message stack r = Ret command ∧ payload_ok command payload ∧
    at_requests a !! i = Some (with_payload command payload, Some o) ∧
    incoming (acc c) = r ++ NUL :: payload ++ incoming (sock c).

(** A connection that has returned has its answer, or never made a request; a
    connection that is open still has sent a part of its answer at most. *)
Definition conn_served (a : atomic_fs) c : Prop :=
  match cn_phase c with
  | Returned rval =>
      closed (sock c) = true ∧
      (refused_request c rval ∨
       ∃ r o, request_of a c r o ∧
       match o with
       | Done data =>
           (rval = 0 ∧ outgoing (sock c) = outgoing (acc c) ++ r ++ NUL :: data) ∨
           (rval = -1 ∧ ¬ healthy (acc c) ∧
            ∃ p, p `prefix_of` r ++ NUL :: data ∧ outgoing (sock c) = outgoing (acc c) ++ p)
       | Exn _ => rval = -1 ∧ outgoing (sock c) = outgoing (acc c)
       | _ => False
       end)
  | Died => False
  | _ =>
      closed (sock c) = false ∧
      (outgoing (sock c) = outgoing (acc c) ∨
       ∃ r data p, request_of a c r (Done data) ∧ p `prefix_of` r ++ NUL :: data ∧
         outgoing (sock c) = outgoing (acc c) ++ p)
  end.

Section atomic.
Context {s0 : cstate D M} {V : store} (Hrest : at_rest s0) {es : list event} {a : atomic_fs} (Hlin : linearizes s0 V es a).
Abbreviation fs := (interleaving es s0).

Lemma ended_request c r i o :
  received_request (arrived es) c r i → ended_with fs i o → request_of a c r o.
Proof.
  intros (Hi & Hm & stack & command & payload & Hs & Hp & Hpay & Hc & Hin) (th & Hth & Hres).
  exists i, stack, command, payload. split_and!; try done.
  destruct (linearizes_answered s0 V es a Hrest Hlin i th o Hth Hres) as [command' Hat].
  rewrite <-(linearizes_requests s0 V es a Hlin), list_lookup_fmap, Hat in Hc. simpl in Hc. congruence.
Qed.

Lemma conn_ok_served c : conn_ok (arrived es) fs c → conn_served a c.
Proof.
  unfold conn_ok, conn_served. destruct (cn_phase c) as [r|r command n data|r i|msg data|v|rval|].
  - intros (_ & [[Ho _] Hout] & _). auto.
  - intros (_ & [[Ho _] Hout] & _). auto.
  - intros ([[Ho _] Hout] & _). auto.
  - intros ([Ho _] & _ & r & i & sent & Hrec & He & Hall & Hout). split; [done|]. right.
    exists r, data, sent. split; [by eapply ended_request|]. split; [|done]. exists (msg ++ data).
    by rewrite (assoc_L (++)), <-Hall, <-(assoc_L (++)).
  - intros ([Ho _] & _ & r & i & data & sent & Hrec & He & Hall & Hout). split; [done|]. right.
    exists r, data, (r ++ NUL :: sent). split; [by eapply ended_request|]. split; [|done]. exists v.
    by rewrite Hall, <-(assoc_L (++)).
  - intros [Hc [(r & i & o & Hrec & He & Ho)|Href]]; (split; [done|]); [right|by left].
    exists r, o. split; [by eapply ended_request|done].
  - done.
Qed.

End atomic.

Lemma numbers_nodup cs : NoDup (numbers cs) → ∀ j k cj ck i, cs !! j = Some cj → cs !! k = Some ck →
  cn_request cj = Some i → cn_request ck = Some i → j = k.
Proof.
  induction cs as [|c cs IH]; [done|]. unfold numbers in *. rewrite bind_cons.
  intros (_ & Hdisj & Hnd)%NoDup_app [|j] [|k] cj ck i Hj Hk Hcj Hck; simplify_eq/=.
  - done.
  - exfalso. rewrite Hcj in Hdisj. apply (Hdisj i); [by left|]. apply list_elem_of_bind. exists ck.
    rewrite Hck. split; [by left|by eapply list_elem_of_lookup_2].
  - exfalso. rewrite Hck in Hdisj. apply (Hdisj i); [by left|]. apply list_elem_of_bind. exists cj.
    rewrite Hcj. split; [by left|by eapply list_elem_of_lookup_2].
  - f_equal. by eapply (IH Hnd).
Qed.

Lemma begin_at_rest (V : store) (st : serving D (table M) S N) :
  ready V (sv_fs st) → at_rest (ss_fs (begin st)) ∧ fs_inv (cs_disk (ss_fs (begin st))) V (cs_free (ss_fs (begin st))).
Proof. by intros (Hinv & Hl & _). Qed.

Lemma begin_inv (st : serving D (table M) S N) :
  serving_inv (ss_fs (begin st)) [] (begin st).
Proof.
  split; simpl; [done| |done|by intros c ?%elem_of_nil]. by intros ?? ?%elem_of_nil.
Qed.

(** (C2) The whole server, with all its connections at the same time: on a disk
    with a well-formed file system [main] reads it and listens at the port of its
    argument (modulo 2^16; any port without one), or returns -1 when the operating
    system refuses a call.  From then on, whatever connections are accepted,
    whatever the clients do, and however the threads interleave, one [recv],
    [send] or access to the file system at a time (with fewer than a third of
    2^32 connections): the file system serves the requests of the connections
    as if each took effect at one moment, and its disk is in the invariant; no two
    connections have one request; and every connection that has returned is
    closed, and has sent the answer of its request (a prefix of it if the connection failed,
    nothing if the answer is an exception), or the
    client's bytes were at fault and nothing was sent.  None ends the program. *)
Theorem main_serves_connections (d : D) (V : store) (fuel : nat) (argv : list bytes) (port : Z) (n : N) :
  fs_inv d V [] → all_reachable V → FS_DISKSIZE ≤ Z.of_nat fuel →
  (match argv with [_; argv1] => atoi argv1 | _ => Some 0 end) = Some port →
  ∃ r, main (L := table M) fuel argv (St d [] lk_empty false) n = Some r ∧
    match r with
    | Exits code => code = -1 ∧ ∃ e n', open_port port n = (Exn e, n')
    | Running p st =>
        0 ≤ p < 2 ^ 16 ∧ (port `mod` 2 ^ 16 ≠ 0 → p = port `mod` 2 ^ 16) ∧
        ∀ evs st', serve evs (begin st) = st' → Forall event_ok evs → 3 * len (ss_conns st') < hold_bound →
          (∃ es a, ss_fs st' = interleaving es (ss_fs (begin st)) ∧ linearizes (ss_fs (begin st)) V es a ∧
             fs_inv (cs_disk (ss_fs st')) (at_store a) (cs_free (ss_fs st')) ∧
             ∀ c, c ∈ ss_conns st' → conn_served a c) ∧
          ∀ j k cj ck i, ss_conns st' !! j = Some cj → ss_conns st' !! k = Some ck →
            cn_request cj = Some i → cn_request ck = Some i → j = k
    end.
Proof.
  intros Hinv Hall Hfuel Hport. destruct (main_starts d V fuel argv port n Hinv Hall Hfuel Hport) as (r & Hmain & Hr).
  exists r. split; [done|]. destruct r as [code|p st]; [done|]. destruct Hr as (Hp & Hpm & _ & Hready).
  destruct (begin_at_rest V st Hready) as [Hrest Hinv0].
  split; [done|]. split; [done|]. intros evs st' <- Hok Hl.
  destruct (serve_inv Hrest Hinv0 [] evs (begin st) (begin_inv st) Hok Hl) as [es Hst]. rewrite app_nil_l in Hst.
  pose proof Hst as [Hfs Hreq Hnum Hconns].
  pose proof (threads_bound Hrest es _ Hst Hl) as Hb.
  destruct (interleaving_linearizes _ V es Hrest Hinv0 Hreq Hb) as (V' & gs & Hpool & Hlin). split.
  - exists es, (atomic_of V' gs). rewrite Hfs. split_and!; [done|done| |].
    + split; [apply Hpool| |apply Hpool]. eapply fs_wf_free_app, (pi_wf _ _ _ Hpool).
    + intros c Hc'. eapply conn_ok_served; [done|done|]. rewrite <-Hfs. by apply Hconns.
  - apply numbers_nodup. rewrite Hnum. apply NoDup_seq.
Qed.

End connections.

(** ** A concrete run *)

Module ConnWitness.
Import FsCorrect.Demo FsCorrect.Witness Request.RequestWitness Network.NetworkWitness ServerWitness.

(** A client that reads [/d/f], one that deletes it, and one that sends nonsense. *)
Definition net1 : incoming_net :=
  Net None [Some (client (chars "FS_READBLOCK u /d/f 0" ++ [NUL])); None; Some (client (chars "FS_DELETE u /d/f" ++ [NUL]));
            Some (client (chars "FS_READ u /d/f 0" ++ [NUL]))] false.

Definition running (evs : list server_event) : option (server_state MemDisk rwstate pipe incoming_net) :=
  match main (L := table rwstate) (S := pipe) 5000 [chars "fs"; chars "8000"] (St (disk_of fs3.1) [] lk_empty false) net1 with
  | Some (Running p st) => Some (serve evs (begin st))
  | _ => None
  end.

(** [n] rounds of a turn for each of the three. *)
Definition turns (n : nat) : list server_event :=
  replicate 4 Accepts ++ concat (replicate n ((λ j, ConnTurn j stack0 root) <$> [0; 1; 2]%nat)).

Definition summary (st : server_state MemDisk rwstate pipe incoming_net) : list (phase * option nat * bytes) :=
  (λ c, (cn_phase c, cn_request c, pipe_out (cn_socket c))) <$> ss_conns st.

Lemma turns_ok n : Forall event_ok (turns n).
Proof.
  assert (stack_command_ok stack0 ∧ inode_ok root) as Hok by (split; [by split|exact stack_ok]).
  apply Forall_app. split; [by repeat constructor|]. apply Forall_concat, Forall_replicate. by repeat constructor.
Qed.

(** The reader gets the block although the file is gone when it is sent. *)
Lemma main_serves_connections_witness :
  summary <$> running (turns 600) =
    Some [(Returned 0, Some 1%nat, chars "FS_READBLOCK u /d/f 0" ++ NUL :: block_of "x");
          (Returned 0, Some 0%nat, chars "FS_DELETE u /d/f" ++ [NUL]);
          (Returned (-1), None, [])] ∧
  Forall event_ok (turns 600) ∧
  ∃ r, main (L := table rwstate) (S := pipe) 5000 [chars "fs"; chars "8000"] (St (disk_of fs3.1) [] lk_empty false) net1 = Some r ∧
    match r with
    | Exits code => code = -1 ∧ ∃ e n', open_port 8000 net1 = (Exn e, n')
    | Running p st =>
        0 ≤ p < 2 ^ 16 ∧ (8000 `mod` 2 ^ 16 ≠ 0 → p = 8000 `mod` 2 ^ 16) ∧
        ∀ evs st', serve evs (begin st) = st' → Forall event_ok evs → 3 * len (ss_conns st') < hold_bound →
          (∃ es a, ss_fs st' = interleaving es (ss_fs (begin st)) ∧ linearizes (ss_fs (begin st)) fs3.1 es a ∧
             fs_inv (cs_disk (ss_fs st')) (at_store a) (cs_free (ss_fs st')) ∧
             ∀ c, c ∈ ss_conns st' → conn_served a c) ∧
          ∀ j k cj ck i, ss_conns st' !! j = Some cj → ss_conns st' !! k = Some ck →
            cn_request cj = Some i → cn_request ck = Some i → j = k
    end.
Proof.
  split; [vm_compute; reflexivity|]. split; [apply turns_ok|].
  apply (main_serves_connections (disk_of fs3.1) fs3.1 5000 [chars "fs"; chars "8000"] 8000 net1).
  - exact inv_full.
  - exact reachable3.
  - apply (bool_decide_unpack _). vm_compute. exact I.
  - reflexivity.
Defined.

End ConnWitness.
