(* ===== verification/ConnLive.v ===== *)
(** * Every connection comes to its end, if its client does not fall silent

    A turn of a connection of [Connections] brings it nearer to its end, or is a
    turn of its request in the file system; so with [FsLive] no run of turns goes on
    for ever.  A [recv] or [send] need not return: when the client of an open
    connection neither sends, reads nor hangs up, the thread waits in the call.
    The turn in which the call returns is then never taken.  Which calls those are
    is a parameter of this file; such a thread holds no lock, so all the others
    come to their end. *)
From S2P Require Import Prelude Layout Locks Prog FileSystem FsModel FsRun FsSpec FsInvariant FsTree FsBoot FsCorrect.
From S2P Require Import FsConcurrent FsChanges FsRely FsPool FsLinear FsLive Request Network Server Connections ConnCorrect.
Import FileSystem LockTable Server Connections.

Local Open Scope Z_scope.

(** ** What is left of a connection *)

(** The place in [handle_request], and what is left there. *)
Definition phase_left (p : phase) : nat * nat :=
  match p with
  | Receiving r => (5, Z.to_nat (MAX_MESSAGE_SIZE + 1 - len r))
  | ReceivingBlock _ _ received _ => (4, Z.to_nat (FS_BLOCKSIZE + 1 - Z.of_nat received))
  | InFileSystem _ _ => (3, 0)
  | SendingMessage msg _ => (2, length msg)
  | SendingBlock v => (1, length v)
  | Returned _ | Died => (0, 0)
  end%nat.

Definition phase_lt (p' p : phase) : Prop :=
  let '(a', b') := phase_left p' in let '(a, b) := phase_left p in (a' < a ∨ (a' = a ∧ b' < b))%nat.

Lemma phase_lt_wf p : Acc phase_lt p.
Proof.
  remember (phase_left p).1 as a eqn:Ha. revert p Ha. induction (lt_wf a) as [a _ IHa]. intros p Ha.
  remember (phase_left p).2 as b eqn:Hb. revert p Ha Hb. induction (lt_wf b) as [b _ IHb]. intros p -> ->.
  constructor. intros p' Hlt. unfold phase_lt in Hlt. destruct (phase_left p') as [a' b'] eqn:Hp', (phase_left p) as [a b].
  simpl in *. destruct Hlt as [Hlt|[-> Hlt]]; [eapply IHa; [exact Hlt|by rewrite Hp']|].
  eapply (IHb b' Hlt); by rewrite Hp'.
Qed.

Section live.
Context {D M S N : Type} `{DiskSpec D} `{BoostSharedMutexSpec M} `{SocketSpec S} `{!Listener N S, !ListenerSpec N S}.
Implicit Types (fs : cstate D M) (c : conn S) (s : S).
Abbreviation sock := cn_socket.

(** A turn does nothing, because the thread has returned or waits for a lock. *)
Definition idle fs c : Prop :=
  match cn_phase c with
  | InFileSystem _ i => ∃ th, cs_threads fs !! i = Some th ∧ thread_step i th fs = Waits
  | Returned _ | Died => True
  | _ => False
  end.

#[local] Instance idle_dec fs c : Decision (idle fs c).
Proof.
  unfold idle. destruct (cn_phase c) as [| |r i| | | |]; try apply _.
  destruct (cs_threads fs !! i) as [th|] eqn:Hi; [|right; by intros (th & ? & _)].
  destruct (thread_step i th fs) as [fs'| |o|] eqn:Hst; [right|left; by exists th|right..];
    intros (th' & [= <-] & Hst'); congruence.
Defined.

(** The next turn of the thread is a call of [recv] or [send]. *)
Definition at_socket (p : phase) : bool :=
  match p with
  | Receiving _ | SendingMessage _ _ | SendingBlock _ => true
  | ReceivingBlock _ _ received _ => Z.of_nat received <? FS_BLOCKSIZE
  | InFileSystem _ _ | Returned _ | Died => false
  end.

(** *** What a turn does *)

Lemma sending_turn_lt c v left next :
  closed (sock c) = false → v ≠ [] →
  (∀ rest, (length rest < length v)%nat → phase_lt (left rest) (cn_phase c)) →
  (∀ s, phase_lt (cn_phase (next s)) (cn_phase c)) → (∀ rval, phase_lt (Returned rval) (cn_phase c)) →
  phase_lt (cn_phase (sending_turn c v left next)) (cn_phase c).
Proof.
  intros Hc Hv Hleft Hnext Hret. unfold sending_turn. pose proof (sock_send_spec v (sock c) Hv Hc) as Hs.
  destruct (sock_send v (sock c)) as [[|n] s]; [apply Hret|]. destruct Hs as (_ & _ & _ & Hn & _).
  destruct (drop n v) as [|x rest] eqn:Hd; [apply Hnext|]. apply Hleft. rewrite <-Hd, length_drop. lia.
Qed.

Lemma dispatches_lt stack stack_inode c s r fs rest :
  cn_phase c = Receiving rest → phase_lt (cn_phase (dispatches stack stack_inode c s r fs).1) (cn_phase c).
Proof.
  intros ->. unfold dispatches, phase_lt.
  destruct (parse_command _); [| | | |simpl; lia]; (destruct (parse_message stack r); simpl; lia).
Qed.

Lemma conn_turn_lt cmds fs c stack stack_inode :
  conn_ok cmds fs c → ¬ idle fs c →
  let '(c', fs') := conn_turn stack stack_inode c fs in
  phase_lt (cn_phase c') (cn_phase c) ∨ (c' = c ∧ moves_to fs fs').
Proof.
  unfold conn_ok, idle, conn_turn. destruct (cn_phase c) as [r|r command n data|r i|msg data|v|rval|] eqn:Hph; try done.
  - intros (_ & [[_ Hc] _] & [_ Hlen] & _) _. rewrite <-Hph.
    enough (phase_lt (cn_phase (receiving_turn stack stack_inode c r fs).1) (cn_phase c)) as Hlt
      by (destruct (receiving_turn _ _ _ _ _); by left).
    unfold receiving_turn. destruct (sock_recv 1 (sock c)) as [[| |[|x l]] s]; try (rewrite Hph; unfold phase_lt; simpl; lia).
    destruct (is_nul x); [by eapply dispatches_lt|]. rewrite Hph.
    destruct (Z.ltb_spec MAX_MESSAGE_SIZE (len (r ++ [x]))); unfold phase_lt; simpl; [lia|].
    unfold len in *. rewrite length_app in *. simpl in *. lia.
  - intros (_ & [[Hc _] _] & _ & Hn & _) _. unfold receiving_block_turn.
    destruct (Z.ltb_spec (Z.of_nat n) FS_BLOCKSIZE) as [Hlt|Hge]; [|left; unfold phase_lt; simpl; lia].
    pose proof (sock_recv_spec (Z.to_nat (FS_BLOCKSIZE - Z.of_nat n)) (sock c) ltac:(lia) Hc) as Hs.
    destruct (sock_recv _ (sock c)) as [[| |l] s]; left; unfold phase_lt; simpl; [lia|lia|].
    destruct Hs as (_ & _ & _ & Hl & _). right. split; [done|]. destruct l; [done|]. simpl. lia.
  - intros [_ (_ & _ & _)] Hidle. unfold file_system_turn.
    destruct (cs_threads fs !! i) as [th|] eqn:Hi; simpl; [|left; unfold phase_lt; simpl; lia].
    destruct (thread_step i th fs) as [fs'| |[]|] eqn:Hst; try (left; unfold phase_lt; simpl; lia).
    + right. split; [done|]. by exists i, th.
    + destruct Hidle. by exists th.
  - intros ([Hc _] & Hv & _) _. left. rewrite <-Hph. apply sending_turn_lt; rewrite ?Hph; [done|done|..].
    + intros rest Hr. unfold phase_lt. simpl. lia.
    + intros s. destruct data; unfold phase_lt; simpl; lia.
    + intros rval. unfold phase_lt. simpl. lia.
  - intros ([Hc _] & Hv & _) _. left. rewrite <-Hph. apply sending_turn_lt; rewrite ?Hph; [done|done|..].
    + intros rest Hr. unfold phase_lt. simpl. lia.
    + intros s. unfold phase_lt. simpl. lia.
    + intros rval. unfold phase_lt. simpl. lia.
Qed.

(** ** The server *)

Implicit Types (st : server_state D M S N).

Section silent.
(** The calls that never return: those in which the [j]-th connection stands like [c]. *)
Variable silent : nat → conn S → bool.

Definition stalled (j : nat) c : Prop := silent j c = true ∧ at_socket (cn_phase c) = true.

(** The thread of the [j]-th connection can take a turn. *)
Definition can_go (j : nat) st : Prop :=
  ∃ c, ss_conns st !! j = Some c ∧ ¬ idle (ss_fs st) c ∧ ¬ stalled j c.

(** A turn of a thread that can take one. *)
Definition goes_on (stack : Command) (stack_inode : fs_inode) st st' : Prop :=
  ∃ j, can_go j st ∧ st' = server_happens st (ConnTurn j stack stack_inode).

Definition server_moves st st' : Prop :=
  ∃ stack stack_inode, stack_command_ok stack ∧ inode_ok stack_inode ∧ goes_on stack stack_inode st st'.

(** Every thread has returned, or waits for its own client for ever. *)
Definition all_served st : Prop :=
  ∀ j c, ss_conns st !! j = Some c → (∃ rval, cn_phase c = Returned rval) ∨ stalled j c.

#[local] Instance can_go_dec j st : Decision (can_go j st).
Proof.
  unfold can_go. destruct (ss_conns st !! j) as [c|]; [|right; by intros (? & ? & _)].
  destruct (decide (¬ idle (ss_fs st) c ∧ ¬ (silent j c = true ∧ at_socket (cn_phase c) = true))) as [?|Hno];
    [left; by exists c|right; by intros (c' & [= <-] & ?)].
Defined.

(** Some thread can go on, or each one stays for a reason. *)
Lemma can_go_or_stay st :
  (∃ j, can_go j st) ∨ ∀ j c, ss_conns st !! j = Some c → idle (ss_fs st) c ∨ stalled j c.
Proof.
  destruct (decide (Exists (λ j, can_go j st) (seq 0 (length (ss_conns st))))) as [He|Hno].
  - left. apply Exists_exists in He as (j & _ & Hj). by exists j.
  - right. intros j c Hj. destruct (decide (idle (ss_fs st) c)) as [?|Hidle]; [by left|right].
    destruct (decide (silent j c = true ∧ at_socket (cn_phase c) = true)) as [?|Hs]; [done|].
    destruct Hno. apply Exists_exists. exists j. split; [|by exists c].
    apply elem_of_seq. apply lookup_lt_Some in Hj. lia.
Qed.

Section served.
Context {s0 : cstate D M} {V : store} (Hrest : at_rest s0) (Hinv : fs_inv (cs_disk s0) V (cs_free s0)).

Lemma turn_conns st j stack stack_inode :
  length (ss_conns (server_happens st (ConnTurn j stack stack_inode))) = length (ss_conns st).
Proof.
  simpl. destruct (ss_conns st !! j) as [c|]; [|done]. destruct (conn_turn stack stack_inode c (ss_fs st)).
  simpl. by rewrite length_insert.
Qed.

(** No run of turns goes on for ever. *)
Lemma server_moves_wf es st :
  serving_inv s0 es st → 3 * len (ss_conns st) < hold_bound → Acc (λ st2 st1, server_moves st1 st2) st.
Proof.
  remember (cn_phase <$> ss_conns st) as ps eqn:Hps. revert es st Hps.
  induction (list_lt_wf phase_lt ps phase_lt_wf) as [ps _ IHp]. intros es st.
  remember (ss_fs st) as fs eqn:Hfs. revert es st Hfs. induction (moves_wf fs) as [fs _ IHf].
  intros es st -> -> Hst Hl. constructor. intros st2 (stack & sti & Hstk & Hsti & j & (c & Hj & Hidle & _) & ->).
  destruct (conn_turn_inv Hrest Hinv es st j c stack sti Hst Hl Hj Hstk Hsti) as [es' Hst2].
  pose proof (turn_conns st j stack sti) as Hlen.
  pose proof (conn_turn_lt (arrived es) (ss_fs st) c stack sti
    (si_conns _ _ _ Hst c ltac:(by eapply list_elem_of_lookup_2)) Hidle) as Hlt.
  simpl in *. rewrite Hj in *. destruct (conn_turn stack sti c (ss_fs st)) as [c' fs']. destruct Hlt as [Hlt|[-> Hm]].
  - eapply IHp; [|done|exact Hst2|]; [|unfold len in *; simpl in *; by rewrite Hlen].
    exists j, (cn_phase c), (cn_phase c'). split_and!; [by rewrite list_lookup_fmap, Hj|done|]. simpl.
    by rewrite list_fmap_insert.
  - eapply (IHf fs' Hm); [done| |exact Hst2|unfold len in *; simpl in *; by rewrite Hlen].
    simpl. by rewrite list_insert_id.
Qed.

(** No deadlock. *)
Lemma server_progress es st :
  serving_inv s0 es st → 3 * len (ss_conns st) < hold_bound →
  (∃ j, can_go j st) ∨ all_served st ∨ kept_lock (ss_fs st).
Proof.
  intros Hst Hl. pose proof (threads_bound Hrest es st Hst Hl) as Hb. pose proof Hst as [Hfs Hreq Hnum Hconns].
  destruct (can_go_or_stay st) as [?|Hstay]; [by left|].
  right. destruct (interleaving_progress Hrest Hinv es Hreq Hb) as [(i & th & fs' & Hi & Hstep)|[Hend|]]; [| |right; by rewrite Hfs].
  - exfalso. assert (i ∈ numbers (ss_conns st)) as Hin.
    { rewrite Hnum. apply elem_of_seq. rewrite <-(arrived_length s0) by done. apply lookup_lt_Some in Hi. lia. }
    apply list_elem_of_bind in Hin as (c & Hn & Hc). destruct (cn_request c) as [i'|] eqn:Hci; [|by apply elem_of_nil in Hn].
    apply list_elem_of_singleton in Hn as <-. specialize (Hconns c Hc).
    apply list_elem_of_lookup in Hc as [j Hj]. specialize (Hstay j c Hj).
    assert (∀ o, ¬ ended_with (ss_fs st) i o) as Hne.
    { intros o (th' & Hth' & Ho). rewrite Hfs, Hi in Hth'. injection Hth' as <-. unfold thread_step, result_of in *.
      by destruct (th_prog th). }
    unfold conn_ok, stalled, idle in *.
    destruct (cn_phase c) as [r|r command n data|r i'|msg data|v|rval|]; simpl in *.
    + destruct Hconns as [Hn _]. congruence.
    + destruct Hconns as [Hn _]. congruence.
    + destruct Hconns as (_ & Hi' & _). rewrite Hci in Hi'. injection Hi' as <-.
      destruct Hstay as [(th' & Hth' & Hw)|[_ ?]]; [|done]. rewrite Hfs in Hth', Hw. rewrite Hi in Hth'. congruence.
    + destruct Hconns as (_ & _ & r & i' & sent & (Hi' & _) & He & _). rewrite Hci in Hi'. injection Hi' as <-. by eapply Hne.
    + destruct Hconns as (_ & _ & r & i' & x & sent & (Hi' & _) & He & _). rewrite Hci in Hi'. injection Hi' as <-. by eapply Hne.
    + destruct Hconns as [_ [(r & i' & o & (Hi' & _) & He & _)|(Hn & _)]]; [|congruence].
      rewrite Hci in Hi'. injection Hi' as <-. by eapply Hne.
    + done.
  - left. intros j c Hj. specialize (Hconns c ltac:(by eapply list_elem_of_lookup_2)).
    destruct (Hstay j c Hj) as [Hidle|?]; [left|by right]. unfold conn_ok, idle in *.
    destruct (cn_phase c) as [r|r command n data|r i|msg data|v|rval|]; try done; [|by eexists].
    destruct Hidle as (th & Hth & Hw). rewrite Hfs in Hth. destruct (Hend i th Hth) as [o Ho].
    unfold thread_step, result_of in *. by destruct (th_prog th).
Qed.

Lemma serve_to_the_end stack stack_inode es st :
  stack_command_ok stack → inode_ok stack_inode → serving_inv s0 es st → 3 * len (ss_conns st) < hold_bound →
  ∃ st', rtc (goes_on stack stack_inode) st st' ∧ (all_served st' ∨ kept_lock (ss_fs st')).
Proof.
  intros Hstk Hsti Hst Hl. pose proof (server_moves_wf es st Hst Hl) as Hwf. revert es Hst Hl.
  induction Hwf as [st _ IH]. intros es Hst Hl.
  destruct (server_progress es st Hst Hl) as [(j & Hgo)|Hend]; [|by exists st].
  pose proof Hgo as (c & Hj & _).
  destruct (conn_turn_inv Hrest Hinv es st j c stack stack_inode Hst Hl Hj Hstk Hsti) as [es' Hst2].
  assert (goes_on stack stack_inode st (server_happens st (ConnTurn j stack stack_inode))) as Hgoes by by exists j.
  destruct (IH (server_happens st (ConnTurn j stack stack_inode))) with (es := es ++ es') as (st' & Hrun & Hend);
    [by exists stack, stack_inode|done|unfold len in *; by rewrite turn_conns|].
  exists st'. split; [by eapply rtc_l|done].
Qed.

End served.
End silent.

(** (C3) Every connection comes to its end whose client does not fall silent:
    let [silent] say which calls of [recv] and [send] never return.  Whatever
    connections [main] has accepted and however their threads have interleaved
    so far (with fewer than a third of 2^32 connections), some thread can go on,
    or every thread has returned or is in such a call; no run of turns goes on
    for ever; and whatever the uninitialised locals hold, the threads can take
    turns until every one has returned or is in such a call: a silent client
    keeps its own thread for ever (there is no time limit), but holds up no
    other.  The one exception is a create that found no free block and kept
    the lock of its directory, for which others may then wait for ever. *)
Theorem connections_finish (d : D) (V : store) (fuel : nat) (argv : list bytes) (port p : Z) (n : N)
    (st : serving D (table M) S N) (evs : list server_event) st' (silent : nat → conn S → bool) :
  fs_inv d V [] → all_reachable V → FS_DISKSIZE ≤ Z.of_nat fuel →
  (match argv with [_; argv1] => atoi argv1 | _ => Some 0 end) = Some port →
  main fuel argv (St d [] lk_empty false) n = Some (Running p st) →
  serve evs (begin st) = st' → Forall event_ok evs → 3 * len (ss_conns st') < hold_bound →
  ((∃ j, can_go silent j st') ∨ all_served silent st' ∨ kept_lock (ss_fs st')) ∧
  Acc (λ st2 st1, server_moves silent st1 st2) st' ∧
  ∀ stack stack_inode, stack_command_ok stack → inode_ok stack_inode →
    ∃ st2, rtc (goes_on silent stack stack_inode) st' st2 ∧ (all_served silent st2 ∨ kept_lock (ss_fs st2)).
Proof.
  intros Hinv Hall Hfuel Hport Hmain <- Hok Hl.
  destruct (main_starts d V fuel argv port n Hinv Hall Hfuel Hport) as (r & Hmain' & Hr).
  rewrite Hmain in Hmain'. injection Hmain' as <-. destruct Hr as (_ & _ & _ & Hready).
  destruct (begin_at_rest V st Hready) as [Hrest Hinv0].
  destruct (serve_inv Hrest Hinv0 [] evs (begin st) (begin_inv st) Hok Hl) as [es Hst].
  split; [by eapply server_progress|]. split; [by eapply server_moves_wf|].
  intros stack sti Hstk Hsti. by eapply serve_to_the_end.
Qed.

End live.

Module LiveWitness.
Import FsCorrect.Demo FsCorrect.Witness Request.RequestWitness Network.NetworkWitness ServerWitness ConnWitness.

Definition has_returned (p : phase) : bool := match p with Returned _ => true | _ => false end.

(** Nobody is silent, or the client of the first connection is. *)
Definition nobody (j : nat) (c : conn pipe) : bool := false.
Definition first_silent (j : nat) (c : conn pipe) : bool := bool_decide (j = O).

(** A client that falls silent in the middle of its request. *)
Example silent_client_waits :
  (λ st, match ss_conns st !! O with Some c => first_silent 0 c && at_socket (cn_phase c) | None => false end) <$>
    running (turns 2) = Some true.
Proof. vm_compute. reflexivity. Qed.

(** After forty rounds one of the three has returned, and two are still being served. *)
Lemma connections_finish_witness :
  map has_returned ∘ fmap cn_phase ∘ ss_conns <$> running (turns 40) = Some [false; false; true] ∧
  ∃ p st, main (L := table rwstate) (S := pipe) 5000 [chars "fs"; chars "8000"] (St (disk_of fs3.1) [] lk_empty false) net1 = Some (Running p st) ∧
    Forall (λ silent, let st' := serve (turns 40) (begin st) in
    ((∃ j, can_go silent j st') ∨ all_served silent st' ∨ kept_lock (ss_fs st')) ∧
    Acc (λ st2 st1, server_moves silent st1 st2) st' ∧
    ∀ stack stack_inode, stack_command_ok stack → inode_ok stack_inode →
      ∃ st2, rtc (goes_on silent stack stack_inode) st' st2 ∧ (all_served silent st2 ∨ kept_lock (ss_fs st2)))
    [nobody; first_silent].
Proof.
  split; [vm_compute; reflexivity|].
  assert (match main (L := table rwstate) (S := pipe) 5000 [chars "fs"; chars "8000"] (St (disk_of fs3.1) [] lk_empty false) net1 with
          | Some (Running _ st) => bool_decide (3 * len (ss_conns (serve (turns 40) (begin st))) < hold_bound)
          | _ => false
          end = true) as Hb by (vm_compute; reflexivity).
  destruct (main (L := table rwstate) (S := pipe) 5000 [chars "fs"; chars "8000"] (St (disk_of fs3.1) [] lk_empty false) net1)
    as [[code|p st]|] eqn:Hm; [discriminate Hb| |discriminate Hb].
  exists p, st. split; [reflexivity|].
  apply Forall_true. intros silent.
  apply (connections_finish (disk_of fs3.1) fs3.1 5000 [chars "fs"; chars "8000"] 8000 p net1 st (turns 40)).
  - exact inv_full.
  - exact reachable3.
  - apply (bool_decide_unpack _). vm_compute. exact I.
  - reflexivity.
  - exact Hm.
  - reflexivity.
  - apply turns_ok.
  - apply (bool_decide_eq_true_1 _ Hb).
Defined.

End LiveWitness.
