(* ===== verification/ConnAlone.v ===== *)
(** * A connection that is served without interruption

    [handle_request] is modelled twice: as a computation that runs to its end
    ([Network]), and as a thread that takes turns ([Connections]).  The two
    agree: when nobody else takes a turn, the turns of a connection come to the
    end of the computation, in every outcome. *)
From S2P Require Import Prelude Layout Locks Prog FileSystem FsModel FsRun FsSpec FsTree FsBoot FsCorrect.
From S2P Require Import FsConcurrent Request Network Server Connections.
Import FileSystem LockTable Server Connections.

Local Open Scope Z_scope.

Section alone.
Context {D M S : Type} `{DiskSpec D} `{BoostSharedMutex M} `{SocketSpec S}.
Context (stack : Command) (stack_inode : fs_inode).
Implicit Types (fs : cstate D M) (c : conn S) (s : S).

(** A turn of the only thread that runs. *)
Definition alone_turn (x y : conn S * cstate D M) : Prop := y = conn_turn stack stack_inode x.1 x.2.

Definition leads : relation (conn S * cstate D M) := rtc alone_turn.

(** The file system as a computation sees it. *)
Definition seen fs : fs_state D (table M) :=
  St (cs_disk fs) (cs_free fs) (cs_table fs) (match cs_mutex fs with Some _ => true | None => false end).

(** The thread is where the computation ended. *)
Definition comes_to (o : outcome Z) (w : world D (table M) S) (y : conn S * cstate D M) : Prop :=
  match o with
  | Done rval => cn_phase y.1 = Returned rval ∧ seen y.2 = w.1 ∧ cn_socket y.1 = w.2
  | Exn _ => False
  | Crash _ => cn_phase y.1 = Died
  | Blocked => ∃ r i th, cn_phase y.1 = InFileSystem r i ∧ cs_threads y.2 !! i = Some th ∧
                 thread_step i th y.2 = Waits
  end.

(** ** In the file system *)

Definition mutex_free_for fs (i : nat) : Prop := cs_mutex fs = None ∨ cs_mutex fs = Some i.

(** Where a program among threads stops, compared with where it does alone. *)
Definition stops (o : outcome bytes) (st' : fs_state D (table M)) fs (i : nat) (th : thread) : Prop :=
  match o with
  | Done a => th_prog th = Ret a ∧ seen fs = st'
  | Exn e => th_prog th = Throw e ∧ seen fs = st'
  | Crash _ => thread_step i th fs = Misuse ∨ ∃ f, thread_step i th fs = Halts (Crash f)
  | Blocked => thread_step i th fs = Waits
  end.

Lemma steps_lead c fs fs' r i th :
  cn_phase c = InFileSystem r i → cs_threads fs !! i = Some th → thread_step i th fs = Steps fs' →
  leads (c, fs) (c, fs').
Proof.
  intros Hph Hi Hst. apply rtc_once. unfold alone_turn, conn_turn, file_system_turn. simpl.
  rewrite Hph, Hi. simpl. by rewrite Hst.
Qed.

(** An access that the lock table grants, refuses or delays. *)
Lemma lock_alone c fs r i th op b k :
  cn_phase c = InFileSystem r i → cs_threads fs !! i = Some th → th_prog th = InodeLock op b k → th_sm th = None →
  match lk_call op b (cs_table fs) with
  | LkDone t => ∃ th', th_prog th' = k ∧ th_sm th' = None ∧ leads (c, fs) (c, set_thread i th' (set_table t fs))
  | LkBlocks _ => ∃ fs' th', leads (c, fs) (c, fs') ∧ cs_threads fs' !! i = Some th' ∧ thread_step i th' fs' = Waits
  | LkInvalid => ∃ fs' th', leads (c, fs) (c, fs') ∧ cs_threads fs' !! i = Some th' ∧ thread_step i th' fs' = Misuse
  end.
Proof.
  intros Hph Hi Hp Hsm.
  assert (Hstep : thread_step i th fs = lock_step i th op b k fs) by (unfold thread_step; by rewrite Hp).
  destruct (two_phases op) eqn:Htwo.
  - assert (lk_call op b (cs_table fs) =
      match enter op b (cs_table fs) with
      | Some (sm, t) => call_mutex (mutex_op op) sm t
      | None => LkInvalid
      end) as ->.
    { destruct op; try done; unfold enter;
        cbn [lk_call table_locks mutex_op]; unfold lock_inode_read, lock_inode_upgrade, acquire, upgrade_to_write_lock;
        by destruct (lock_map _ !! b). }
    unfold lock_step in Hstep. rewrite Htwo, Hsm in Hstep.
    destruct (enter op b (cs_table fs)) as [[sm t]|]; [|exists fs, th; split_and!; [apply rtc_refl|done|done]].
    pose proof (steps_lead c fs _ r i th Hph Hi Hstep) as Hl.
    set (th1 := Thread (th_prog th) (Some sm) (th_locks th)) in *. set (fs1 := set_thread i th1 (set_table t fs)) in *.
    assert (cs_threads fs1 !! i = Some th1) as Hi1 by (apply list_lookup_insert_eq; by eapply lookup_lt_Some).
    assert (thread_step i th1 fs1 = lock_step i th1 op b k fs1) as Hstep1 by (unfold thread_step; simpl; by rewrite Hp).
    unfold lock_step in Hstep1. rewrite Htwo in Hstep1. simpl in Hstep1.
    destruct (call_mutex (mutex_op op) sm t) as [t'|t'|]; [|by exists fs1, th1..].
    pose proof (steps_lead c fs1 _ r i th1 Hph Hi1 Hstep1) as Hl1.
    unfold grants, fs1, set_thread, set_table in Hl1. simpl in Hl1. rewrite list_insert_insert_eq in Hl1.
    eexists. split_and!; [| |etrans; [exact Hl|exact Hl1]]; done.
  - unfold lock_step in Hstep. rewrite Htwo in Hstep. destruct (lk_call op b (cs_table fs)) as [t|t|].
    + pose proof (steps_lead c fs _ r i th Hph Hi Hstep) as Hl. eexists. split_and!; [| |exact Hl]; done.
    + exists fs, th. split_and!; [apply rtc_refl|done|done].
    + exists fs, th. split_and!; [apply rtc_refl|done|done].
Qed.

Lemma program_alone p c r i : cn_phase c = InFileSystem r i → ∀ fs th,
  cs_threads fs !! i = Some th → th_prog th = p → th_sm th = None → mutex_free_for fs i →
  ∃ fs' th', leads (c, fs) (c, fs') ∧ cs_threads fs' !! i = Some th' ∧
    stops (run p (seen fs)).1 (run p (seen fs)).2 fs' i th'.
Proof.
  intros Hph. induction p as [a|e|x|b k IH|b v k IH|op b k IH|k IH|k IH|k IH|l k IH]; intros fs th Hi Hp Hsm Hm.
  1-3: exists fs, th; (split; [apply rtc_refl|]; split; [done|]; simpl; try done; right; unfold thread_step; rewrite Hp; eauto).
  all: pose proof (lookup_lt_Some _ _ _ Hi) as Hlt.
  all: assert (∀ th' fs1, cs_threads fs1 = cs_threads fs → cs_threads (set_thread i th' fs1) !! i = Some th') as Hset
    by (intros th' fs1 Hf; simpl; rewrite Hf; by apply list_lookup_insert_eq).
  all: assert (∀ o, thread_step i th fs = Halts (Crash DiskFailure) →
    ∃ fs' th', leads (c, fs) (c, fs') ∧ cs_threads fs' !! i = Some th' ∧ stops (Crash DiskFailure) o fs' i th') as Hdisk
    by (intros o Hd; exists fs, th; split_and!; [apply rtc_refl|done|right; eauto]).
  all: assert (∀ fs1 th1 o st', thread_step i th fs = Steps (set_thread i th1 fs1) → 
    (∃ fs' th', leads (c, set_thread i th1 fs1) (c, fs') ∧ cs_threads fs' !! i = Some th' ∧ stops o st' fs' i th') →
    ∃ fs' th', leads (c, fs) (c, fs') ∧ cs_threads fs' !! i = Some th' ∧ stops o st' fs' i th') as Hgo
    by (intros fs1 th1 o st' Hst (fs' & th' & Hl & Ho); exists fs', th'; split; [|done]; etrans; [by eapply steps_lead|done]).
  all: unfold thread_step in *; rewrite Hp in *; cbn [run].
  - simpl. destruct (disk_readblock (cs_disk fs) b) as [v|]; [|by apply Hdisk].
    eapply Hgo; [done|]. by eapply (IH v (set_thread i _ fs)); [apply Hset|..].
  - simpl. destruct (disk_writeblock (cs_disk fs) b v) as [d|]; [|by apply Hdisk].
    eapply Hgo; [done|]. by eapply (IH (set_thread i _ (CState d _ _ _ _))); [apply Hset|..].
  - pose proof (lock_alone c fs r i th op b k Hph Hi Hp Hsm) as Hl.
    change (st_locks (seen fs)) with (cs_table fs). destruct (lk_call op b (cs_table fs)) as [t|t|].
    + destruct Hl as (th' & Hp' & Hsm' & Hl).
      destruct (IH (set_thread i th' (set_table t fs)) th') as (fs' & th2 & Hl2 & Ho); [by apply Hset|done|done|done|].
      exists fs', th2. split; [etrans; [exact Hl|exact Hl2]|exact Ho].
    + destruct Hl as (fs' & th' & Hl & Hi' & Hw). by exists fs', th'.
    + destruct Hl as (fs' & th' & Hl & Hi' & Hw). exists fs', th'. split_and!; [done|done|by left].
  - simpl. destruct Hm as [Hm|Hm]; rewrite Hm in *; simpl.
    + eapply Hgo; [done|]. eapply (IH (set_thread i _ (CState _ _ _ (Some i) _))); [by apply Hset|done|done|by right].
    + exists fs, th. split_and!; [apply rtc_refl|done|]. simpl. unfold thread_step. by rewrite Hp, Hm.
  - simpl. destruct Hm as [Hm|Hm]; rewrite Hm in *; simpl.
    + exists fs, th. split_and!; [apply rtc_refl|done|]. left. unfold thread_step. rewrite Hp, Hm. by rewrite decide_False.
    + rewrite decide_True in Hgo by done. eapply Hgo; [done|].
      eapply (IH (set_thread i _ (CState _ _ _ None _))); [by apply Hset|done|done|by left].
  - eapply Hgo; [done|]. by eapply (IH (cs_free fs) (set_thread i _ fs)); [apply Hset|..].
  - eapply Hgo; [done|]. by eapply (IH (set_thread i _ (CState _ l _ _ _))); [apply Hset|..].
Qed.

(** ** The loops on the socket *)

(** What is left of the computation, up to the closing of the socket, comes to the
    same as the turns from [x]. *)
Definition alone_to (x : conn S * cstate D M) (o : outcome Z) (w : world D (table M) S) : Prop :=
  match o with
  | Done rval => (rval = 0 ∨ rval = -1) ∧ ∃ y, leads x y ∧ comes_to o (w.1, sock_close w.2) y
  | _ => ∃ y, leads x y ∧ comes_to o w y
  end.

Lemma leads_alone_to x y o w : leads x y → alone_to y o w → alone_to x o w.
Proof.
  intros Hl. destruct o; simpl; [intros (Hr & z & Hz & Hc); split; [done|]|intros (z & Hz & Hc)..];
    (exists z; split; [by etrans|done]).
Qed.

Lemma returns_alone_to c s rval fs :
  rval = 0 ∨ rval = -1 → alone_to (returns c s rval, fs) (Done rval) (seen fs, s).
Proof. intros Hr. split; [done|]. eexists. by split; [apply rtc_refl|]. Qed.

Lemma receive_loop_alone fuel r c fs s :
  closed s = false → len r ≤ MAX_MESSAGE_SIZE → MAX_MESSAGE_SIZE - len r < Z.of_nat fuel - 1 →
  ends (NetworkServer.receive_loop fuel r) (seen fs, s) (λ o w', ∃ a, o = Done a ∧ w'.1 = seen fs ∧
    closed w'.2 = false ∧
    ((a.1 = 0 ∧ len a.2 ≤ MAX_MESSAGE_SIZE ∧
      leads (goes_to c s (Receiving r), fs) (dispatches stack stack_inode c w'.2 a.2 fs)) ∨
     (a.1 = -1 ∧ leads (goes_to c s (Receiving r), fs) (returns c w'.2 (-1), fs)))).
Proof.
  revert r s; induction fuel as [|fuel IH]; intros r s Hc Hr Hf; [lia|]. cbn [NetworkServer.receive_loop].
  assert (∀ y, receiving_turn stack stack_inode (goes_to c s (Receiving r)) r fs = y →
    leads (goes_to c s (Receiving r), fs) y) as Hturn by (intros y <-; by apply rtc_once).
  unfold receiving_turn in Hturn. simpl in Hturn.
  pose proof (sock_recv_spec 1 s ltac:(lia) Hc) as Hs. apply ends_bind. unfold ends at 1, recv.
  change (Z.to_nat 1) with 1%nat. destruct (sock_recv 1 s) as [res s1]. destruct Hs as (_ & Hc1 & _ & Hs).
  eexists _, _. split; [done|]. simpl.
  assert (leads (goes_to c s (Receiving r), fs) (returns c s1 (-1), fs) →
    ends (mret (-1, r)) (seen fs, s1) (λ o w', ∃ a, o = Done a ∧ w'.1 = seen fs ∧ closed w'.2 = false ∧
      ((a.1 = 0 ∧ len a.2 ≤ MAX_MESSAGE_SIZE ∧
        leads (goes_to c s (Receiving r), fs) (dispatches stack stack_inode c w'.2 a.2 fs)) ∨
       (a.1 = -1 ∧ leads (goes_to c s (Receiving r), fs) (returns c w'.2 (-1), fs))))) as Hfail.
  { intros Hl. apply ends_ret. eexists. split; [done|]. split_and!; [done|done|by right]. }
  destruct res as [| |[|x l]]; [by apply Hfail, Hturn..|]. destruct Hs as (_ & Hl & _).
  destruct (is_nul x) eqn:Hx.
  - apply ends_ret. eexists. split; [done|]. split_and!; [done|done|]. left. split_and!; [done|done|]. by apply Hturn.
  - assert (len (r ++ [x]) = len r + 1) as Hl1 by (unfold len; rewrite length_app; simpl; lia).
    destruct (Z.ltb_spec MAX_MESSAGE_SIZE (len (r ++ [x]))) as [Hbig|Hsmall].
    + apply ends_ret. eexists. split; [done|]. split_and!; [done|done|]. right. split; [done|]. by apply Hturn.
    + specialize (Hturn _ eq_refl). eapply ends_mono; [apply (IH (r ++ [x]) s1); [done|lia|lia]|].
      intros o w' (a & -> & Hw & Hc2 & Ha). exists a. split_and!; [done|done|done|].
      destruct Ha as [(? & ? & Ha)|(? & Ha)]; [left|right]; split_and!; try done; by etrans.
Qed.

Lemma receive_block_alone fuel n data r command c fs s :
  closed s = false → FS_BLOCKSIZE - Z.of_nat n ≤ Z.of_nat fuel →
  ends (NetworkServer.receive_block fuel n data) (seen fs, s) (λ o w', ∃ a, o = Done a ∧ w'.1 = seen fs ∧
    closed w'.2 = false ∧
    ((a.1 = 0 ∧ leads (goes_to c s (ReceivingBlock r command n data), fs)
        (calls c w'.2 r stack_inode (NetworkServer.with_data command a.2) fs)) ∨
     (a.1 = -1 ∧ leads (goes_to c s (ReceivingBlock r command n data), fs) (returns c w'.2 (-1), fs)))).
Proof.
  revert n data s; induction fuel as [|fuel IH]; intros n data s Hc Hf; cbn [NetworkServer.receive_block].
  all: assert (∀ y, receiving_block_turn stack_inode (goes_to c s (ReceivingBlock r command n data)) r command n data fs = y →
    leads (goes_to c s (ReceivingBlock r command n data), fs) y) as Hturn by (intros y <-; by apply rtc_once).
  all: unfold receiving_block_turn in Hturn; destruct (Z.ltb_spec (Z.of_nat n) FS_BLOCKSIZE) as [Hlt|Hge]; [|simpl in Hturn].
  1: lia.
  1, 3: apply ends_ret; eexists; split; [done|]; split_and!; [done|done|]; left; split; [done|]; by apply Hturn.
  simpl in Hturn. pose proof (sock_recv_spec (Z.to_nat (FS_BLOCKSIZE - Z.of_nat n)) s ltac:(lia) Hc) as Hs.
  apply ends_bind. unfold ends at 1, recv.
  destruct (sock_recv (Z.to_nat (FS_BLOCKSIZE - Z.of_nat n)) s) as [res s1]. destruct Hs as (_ & Hc1 & _ & Hs).
  eexists _, _. split; [done|]. destruct res as [| |l].
  1, 2: apply ends_ret; eexists; split; [done|]; split_and!; [done|done|]; right; split; [done|]; by apply Hturn.
  destruct Hs as (Hl & _). assert (0 < length l)%nat by (destruct l; simpl; [done|lia]).
  specialize (Hturn _ eq_refl). eapply ends_mono; [apply IH; [done|lia]|].
  intros o w' (a & -> & Hw & Hc2 & Ha). exists a. split_and!; [done|done|done|].
  destruct Ha as [(? & Ha)|(? & Ha)]; [left|right]; (split; [done|by etrans]).
Qed.

Lemma send_loop_alone (left : bytes → phase) (next : S → conn S) fuel v c fs s :
  (∀ v s, conn_turn stack stack_inode (goes_to c s (left v)) fs = (sending_turn (goes_to c s (left v)) v left next, fs)) →
  closed s = false → v ≠ [] → (length v <= fuel)%nat →
  ends (NetworkServer.send_loop fuel v) (seen fs, s) (λ o w', ∃ rval, o = Done rval ∧ w'.1 = seen fs ∧
    closed w'.2 = false ∧
    ((rval = 0 ∧ leads (goes_to c s (left v), fs) (next w'.2, fs)) ∨
     (rval = -1 ∧ leads (goes_to c s (left v), fs) (returns c w'.2 (-1), fs)))).
Proof.
  intros Hturns. revert v s; induction fuel as [|fuel IH]; intros v s Hc Hv Hf; [by destruct v; simpl in *; [|lia]|].
  assert (∀ y, sending_turn (goes_to c s (left v)) v left next = y → leads (goes_to c s (left v), fs) (y, fs)) as Hturn.
  { intros y <-. apply rtc_once. unfold alone_turn. simpl. by rewrite Hturns. }
  unfold sending_turn in Hturn. simpl in Hturn. cbn [NetworkServer.send_loop]. apply ends_bind. unfold ends at 1, send.
  pose proof (sock_send_spec v s Hv Hc) as Hs. destruct (sock_send v s) as [[|n] s1]; destruct Hs as (_ & Hc1 & _ & Hs);
    (eexists _, _; split; [done|]).
  - apply ends_ret. eexists. split; [done|]. split_and!; [done|done|]. right. split; [done|]. by apply Hturn.
  - cbn beta iota. destruct (drop n v) as [|x rest] eqn:Hd.
    + apply ends_ret. eexists. split; [done|]. split_and!; [done|done|]. left. split; [done|]. by apply Hturn.
    + specialize (Hturn _ eq_refl). eapply ends_mono; [apply (IH (x :: rest) s1 Hc1)|]; [done|rewrite <-Hd, length_drop; lia|].
      intros o w' (a & -> & Hw & Hc2 & Ha). exists a. split_and!; [done|done|done|].
      destruct Ha as [(? & Ha)|(? & Ha)]; [left|right]; (split; [done|by etrans]).
Qed.

(** ** The handlers *)

Lemma reply_alone fuel r data c fs s :
  closed s = false → (length r < fuel)%nat → (length data <= fuel)%nat →
  ends (rval ← NetworkServer.send_message fuel r;
        if rval =? -1 then mret (-1) else NetworkServer.send_block fuel data) (seen fs, s)
    (alone_to (goes_to c s (SendingMessage (r ++ [NUL]) data), fs)).
Proof.
  intros Hc Hf Hfd. eapply ends_seq.
  { apply (send_loop_alone (λ rest, SendingMessage rest data)
      (λ s, match data with [] => returns c s 0 | _ => goes_to c s (SendingBlock data) end));
      [reflexivity|done|by destruct r|rewrite length_app; simpl; lia]. }
  intros rval [w1 s1] (Hw & Hc1 & [[-> Hl]|[-> Hl]]); simpl in Hw; subst w1; simpl in *.
  2: { apply ends_ret. eapply leads_alone_to; [exact Hl|]. apply returns_alone_to. by right. }
  destruct data as [|x data].
  { apply ends_ret. eapply leads_alone_to; [exact Hl|]. apply returns_alone_to. by left. }
  eapply ends_mono.
  { apply (send_loop_alone SendingBlock (λ s, returns c s 0)); [reflexivity|done|done|done]. }
  intros o [w2 s2] (rval & -> & Hw & Hc2 & Ha). simpl in Hw. subst w2.
  eapply leads_alone_to; [exact Hl|]. destruct Ha as [[-> Ha]|[-> Ha]]; (eapply leads_alone_to; [exact Ha|]);
    apply returns_alone_to; [by left|by right].
Qed.

(** The turns of a request in the file system, up to its answer. *)
Lemma calls_alone c s r command fs :
  cs_mutex fs = None →
  ∃ fs', seen fs' = (run (request_prog stack_inode command) (seen fs)).2 ∧
    match (run (request_prog stack_inode command) (seen fs)).1 with
    | Done data =>
        ∃ c1, leads (calls c s r stack_inode command fs) (goes_to c1 s (SendingMessage (r ++ [NUL]) data), fs')
    | Exn _ => ∃ c1, leads (calls c s r stack_inode command fs) (returns c1 s (-1), fs')
    | _ => False
    end ∨
    match (run (request_prog stack_inode command) (seen fs)).1 with
    | Crash f => ∃ y, leads (calls c s r stack_inode command fs) y ∧ cn_phase y.1 = Died
    | Blocked => ∃ y, leads (calls c s r stack_inode command fs) y ∧ ∀ w, comes_to Blocked w y
    | _ => False
    end.
Proof.
  intros Hm. unfold calls. set (i := length (cs_threads fs)). simpl.
  set (fs1 := CState _ _ _ _ (cs_threads fs ++ _)). set (c1 := Conn _ _ _ _).
  destruct (program_alone (request_prog stack_inode command) c1 r i eq_refl fs1
    (new_thread (request_prog stack_inode command))) as (fs' & th' & Hl & Hi & Hstops); [|done|done|by left|].
  { unfold fs1, i. simpl. by rewrite lookup_app_r, Nat.sub_diag by lia. }
  change (seen fs1) with (seen fs) in Hstops.
  assert (∀ y, file_system_turn c1 r i fs' = y → leads (c1, fs1) y) as Hturn.
  { intros y <-. eapply rtc_r; [exact Hl|]. done. }
  unfold file_system_turn in Hturn. rewrite Hi in Hturn. simpl in Hturn. exists fs'.
  destruct (run _ _) as [[data|e|f|] st']; simpl in *.
  - destruct Hstops as [Hp ?]. left. split; [done|]. exists c1. apply Hturn. unfold thread_step. by rewrite Hp.
  - destruct Hstops as [Hp ?]. left. split; [done|]. exists c1. apply Hturn. unfold thread_step. by rewrite Hp.
  - right. eexists. split; [by apply Hturn|]. by destruct Hstops as [->|[f' ->]].
  - right. exists (c1, fs'). split; [done|]. intros w. by exists r, i, th'.
Qed.

Lemma operate_alone {A} (p : prog A) (data : A → bytes) command fuel r c fs s :
  cs_mutex fs = None → closed s = false → (length r < fuel)%nat →
  (∀ st, run (request_prog stack_inode command) st = run (data <$> p) st) →
  (∀ st a st', run p st = (Done a, st') → (length (data a) <= fuel)%nat) →
  ends (catch_all (a ← lift p;
          rval ← NetworkServer.send_message fuel r;
          if rval =? -1 then mret (-1) else NetworkServer.send_block fuel (data a))) (seen fs, s)
    (alone_to (calls c s r stack_inode command fs)).
Proof.
  intros Hm Hc Hf Hp Hdata. destruct (calls_alone c s r command fs Hm) as [fs' Hcalls].
  rewrite Hp in Hcalls. unfold fmap, prog_fmap in Hcalls. rewrite run_bind in Hcalls.
  destruct (run p (seen fs)) as [o st'] eqn:Hrun. apply ends_catch_all, ends_bind. eapply ends_lift; [exact Hrun|].
  destruct o as [a|e|f|]; simpl in Hcalls.
  - destruct Hcalls as [[<- [c1 Hl]]|[]]. eapply ends_mono; [apply (reply_alone _ _ _ c1); eauto|].
    intros o w' Ho. destruct o; try (by eapply leads_alone_to; [exact Hl|]).
    destruct Ho as (y & Hy). by destruct Hy as [_ Hy].
  - destruct Hcalls as [[<- [c1 Hl]]|[]]. eapply leads_alone_to; [exact Hl|]. apply returns_alone_to. by right.
  - destruct Hcalls as [[_ []]|(y & Hl & Hy)]. by exists y.
  - destruct Hcalls as [[_ []]|(y & Hl & Hy)]. exists y. split; [done|exact (Hy (seen fs, s))].
Qed.

Lemma read_block_length command (st : fs_state D (table M)) data st' :
  run (handle_read command) st = (Done data, st') → len data = FS_BLOCKSIZE.
Proof.
  intros Hrun. unfold handle_read in Hrun.
  repeat first [rewrite run_bind in Hrun; destruct (run _ _) as [[] ?] eqn:?; simplify_eq/=|case_match; simplify_eq/=].
  all: by eapply disk_read_length.
Qed.

Lemma dispatch_alone fuel r c fs s :
  cs_mutex fs = None → closed s = false → FS_BLOCKSIZE ≤ Z.of_nat fuel → (length r < fuel)%nat →
  ends (NetworkServer.dispatch stack stack_inode fuel r) (seen fs, s) (alone_to (dispatches stack stack_inode c s r fs)).
Proof.
  intros Hm Hc Hf Hr.
  assert (∀ m : server D (table M) S Z, ends m (seen fs, s) (λ o w', o = Done (-1) ∧ w' = (seen fs, s)) →
    ends m (seen fs, s) (alone_to (returns c s (-1), fs))) as Hrefuse.
  { intros m Hm'. eapply ends_mono; [exact Hm'|]. intros o w' [-> ->]. apply returns_alone_to. by right. }
  unfold dispatches. destruct (decide (parse_command (read_word r).1 = INVALID)) as [Hinv|Hne].
  { rewrite Hinv. apply Hrefuse. unfold NetworkServer.dispatch. destruct (read_word r) as [w rest]. simpl in Hinv.
    rewrite Hinv. by eexists _, _. }
  assert (parses (parse_message stack r)) as [[command Hp]|[e Hp]].
  { apply parse_message_parses. intros Hw. by rewrite Hw in Hne. }
  2: { rewrite Hp. destruct (parse_command (read_word r).1); (apply Hrefuse, dispatch_refused; by rewrite Hp). }
  destruct (parse_message_inv _ _ _ Hp) as (w1 & rest & _ & _ & _ & _ & Hw & _ & _ & _ & _ & _ & _ & Hty & _).
  unfold NetworkServer.dispatch. rewrite Hw in *. simpl in Hne |- *. rewrite Hp.
  destruct (parse_command w1) eqn:Hcmd; [| | | |done]; apply (ends_parse Hp).
  - apply (operate_alone (handle_read command) (λ data, data)); try done.
    + intros st. unfold request_prog. rewrite Hty. unfold fmap, prog_fmap. rewrite run_bind. by destruct (run _ st) as [[] ?].
    + intros st data st' Hd%read_block_length. unfold len in Hd. lia.
  - eapply ends_catch_seq; [apply receive_block_alone; [done|simpl; lia]|].
    intros [rval data] [w2 s2] (Hw2 & Hc2 & Ha). simpl in *. subst w2. destruct Ha as [[-> Hl]|[-> Hl]]; simpl.
    + eapply ends_mono; [apply (operate_alone (handle_write (NetworkServer.with_data command data)) (λ _, [])
        (NetworkServer.with_data command data) fuel r c fs s2); try done|].
      * intros st. unfold request_prog. simpl. by rewrite Hty.
      * intros; simpl; lia.
      * intros o w'. by apply leads_alone_to.
    + apply ends_catch_all, ends_ret. eapply leads_alone_to; [exact Hl|]. apply returns_alone_to. by right.
  - apply (operate_alone (handle_create stack_inode command) (λ _, [])); try done; [|intros; simpl; lia].
    intros st. unfold request_prog. by rewrite Hty.
  - apply (operate_alone (handle_delete command) (λ _, [])); try done; [|intros; simpl; lia].
    intros st. unfold request_prog. by rewrite Hty.
Qed.

(** (C4) The two models of [handle_request] agree: with fuel for a message and a
    block, the computation on the file system's state ends, and the thread of the
    connection, when nobody else takes a turn, gets there by its turns: it
    returns the same value, with the same bytes exchanged on the closed socket and
    the same disk, free blocks and lock table, or it waits for a lock or dies
    where the computation does.  The locks may be held in any way, by other
    threads, too; only the mutex of the free list is free. *)
Theorem handle_request_by_turns (fuel : nat) (s : S) (fs : cstate D M) :
  closed s = false → cs_mutex fs = None → FS_BLOCKSIZE ≤ Z.of_nat fuel →
  ∃ o st' s', NetworkServer.handle_request stack stack_inode fuel
      (St (cs_disk fs) (cs_free fs) (cs_table fs) false, s) = Some (o, (st', s')) ∧
    ∃ c' fs', leads (accepted s, fs) (c', fs') ∧ comes_to o (st', s') (c', fs').
Proof.
  intros Hc Hm Hf. assert (FS_BLOCKSIZE = 512 ∧ MAX_MESSAGE_SIZE = 158) as [Hblock Hmax] by done.
  assert (ends (NetworkServer.handle_request stack stack_inode fuel) (seen fs, s)
    (λ o w', ∃ y, leads (accepted s, fs) y ∧ comes_to o w' y)) as (o & [st' s'] & Hrun & [c' fs'] & Hy).
  { apply ends_close, ends_bind.
    eapply ends_mono; [apply (receive_loop_alone fuel [] (accepted s) fs s Hc); change (len []) with 0; lia|].
    intros o [w1 s1] ([rval r] & -> & Hw & Hc1 & Ha). simpl in *. subst w1.
    destruct Ha as [(-> & Hr & Hl)|[-> Hl]]; simpl.
    2: { apply ends_ret. eexists. split; [exact Hl|done]. }
    apply ends_bind. eapply ends_mono.
    { apply (dispatch_alone fuel r (accepted s) fs s1 Hm Hc1 Hf). unfold len in Hr. lia. }
    intros o [w2 s2] Ha. destruct o as [rval|e|x|].
    - destruct Ha as ([-> | ->] & y & Hy & Hcomes); simpl; apply ends_ret; (exists y; split; [by etrans|done]).
    - by destruct Ha as (y & _ & []).
    - destruct Ha as (y & Hy & Hcomes). exists y. split; [by etrans|done].
    - destruct Ha as (y & Hy & Hcomes). exists y. split; [by etrans|done]. }
  unfold seen in Hrun at 1. rewrite Hm in Hrun. exists o, st', s'. split; [exact Hrun|]. by exists c', fs'.
Qed.

End alone.

Module AloneWitness.
Import FsCorrect.Demo FsCorrect.Witness Request.RequestWitness Network.NetworkWitness.

Definition reader : pipe := client (chars "FS_READBLOCK u /d/f 0" ++ [NUL]).

Definition idle_fs : cstate MemDisk rwstate := start (disk_of fs3.1) fs3.2.

(** The request is answered, in both models. *)
Lemma handle_request_by_turns_witness :
  (fst <$> NetworkServer.handle_request (S := pipe) stack0 root 600
    (St (cs_disk idle_fs) (cs_free idle_fs) (cs_table idle_fs) false, reader)) = Some (Done 0) ∧
  (let '(c, _) := Nat.iter 2000 (λ '(c, fs), conn_turn stack0 root c fs) (accepted reader, idle_fs) in
   (cn_phase c, pipe_out (cn_socket c))) = (Returned 0, chars "FS_READBLOCK u /d/f 0" ++ NUL :: block_of "x") ∧
  ∃ o st' s', NetworkServer.handle_request (S := pipe) stack0 root 600
      (St (cs_disk idle_fs) (cs_free idle_fs) (cs_table idle_fs) false, reader) = Some (o, (st', s')) ∧
    ∃ c' fs', leads stack0 root (accepted reader, idle_fs) (c', fs') ∧ comes_to o (st', s') (c', fs').
Proof.
  split; [vm_compute; reflexivity|]. split; [vm_compute; reflexivity|].
  apply (handle_request_by_turns stack0 root 600 reader idle_fs).
  - reflexivity.
  - reflexivity.
  - apply (bool_decide_unpack _). vm_compute. exact I.
Defined.

End AloneWitness.
