(* ===== verification/Threads.v ===== *)
(** * The thread library: model

    [threadlib/]: user threads on several CPUs, with a ready queue, mutexes,
    condition variables and joins.  Every operation of the library runs with
    interrupts disabled and under the one guard variable ([os_guard]), from its
    entry to the moment it returns to user code or switches to another thread;
    the thread switched to then finishes the operation it had switched away in,
    and releases the guard.  An operation is therefore a function from states
    to states, executed by one CPU ([cpu::self()]), whose last part is the rest
    of the operation of the thread that the CPU runs next.

    The user's threads are arbitrary: any thread that runs on a CPU may call
    any operation, and a timer interrupt may call [yield] at any time. *)
From S2P Require Import Prelude.

Local Open Scope nat_scope.

(** ** State *)

(** Where a context saved by [swapcontext] continues: at the beginning of
    [thread::func_with_swap], or behind the call of [swapcontext] in [yield],
    in [join], in [mutex::lock] or in [cv::wait]. *)
Inductive point :=
| AtStart
| AtYield
| AtJoin (t : nat)
| AtLock (m : nat)
| AtWait (m : nat).

(** [struct thread_info].  [pc] tells user code from the end of [cv::wait],
    which has still to lock its mutex. *)
Record thread_info := ThreadInfo {
  thread_ctx : point;
  threads_waiting : list nat;
  finished : bool;
  pc : option nat;
}.

(** What [executing_thread] points to: a user thread or the CPU's
    [waiting_thread], whose code is [wait_for_ready_thread]. *)
Inductive running := RunThread (t : nat) | RunWaiting.

(** A CPU runs user code, sleeps in [interrupt_enable_suspend], or has just
    been woken from it. *)
Inductive cpu_mode := UserMode | Suspended | Woken.

Record cpu := Cpu {
  executing_thread : option running;
  mode : cpu_mode;
  interrupts : bool;       (* enabled *)
  ipi : bool;              (* an inter-processor interrupt is pending *)
}.

Record mutex := Mutex {
  free : bool;
  owned_thread : option nat;
  waiting_threads : list nat;
}.

(** Threads are numbered as they are created; a [thread_info] that was freed is
    no longer in [threads], and a weak pointer to it locks to null. *)
Record state := State {
  guard : bool;
  ready_threads : list nat;
  finished_threads : list nat;
  suspended_cpus : list nat;
  cpus : gmap nat cpu;
  threads : gmap nat thread_info;
  next_thread : nat;
  mutexes : gmap nat mutex;
  cvs : gmap nat (list nat);
}.

#[export] Instance point_eq_dec : EqDecision point.
Proof. solve_decision. Defined.
#[export] Instance running_eq_dec : EqDecision running.
Proof. solve_decision. Defined.
#[export] Instance cpu_mode_eq_dec : EqDecision cpu_mode.
Proof. solve_decision. Defined.

(** No CPU is booted and no thread exists. *)
Definition initial : state := State false [] [] [] ∅ ∅ 0 ∅ ∅.

(** [mutex::mutex()]; a mutex that was never used is in this state. *)
Definition new_mutex : mutex := Mutex true None [].
Definition get_mutex (s : state) (m : nat) : mutex := default new_mutex (mutexes s !! m).
Definition get_cv (s : state) (v : nat) : list nat := default [] (cvs s !! v).

(** *** Assignments *)

Definition set_guard (b : bool) (s : state) : state :=
  State b (ready_threads s) (finished_threads s) (suspended_cpus s) (cpus s) (threads s)
    (next_thread s) (mutexes s) (cvs s).
Definition set_ready (l : list nat) (s : state) : state :=
  State (guard s) l (finished_threads s) (suspended_cpus s) (cpus s) (threads s)
    (next_thread s) (mutexes s) (cvs s).
Definition set_finished_threads (l : list nat) (s : state) : state :=
  State (guard s) (ready_threads s) l (suspended_cpus s) (cpus s) (threads s)
    (next_thread s) (mutexes s) (cvs s).
Definition set_suspended (l : list nat) (s : state) : state :=
  State (guard s) (ready_threads s) (finished_threads s) l (cpus s) (threads s)
    (next_thread s) (mutexes s) (cvs s).
Definition set_cpus (f : gmap nat cpu → gmap nat cpu) (s : state) : state :=
  State (guard s) (ready_threads s) (finished_threads s) (suspended_cpus s) (f (cpus s)) (threads s)
    (next_thread s) (mutexes s) (cvs s).
Definition set_threads (f : gmap nat thread_info → gmap nat thread_info) (s : state) : state :=
  State (guard s) (ready_threads s) (finished_threads s) (suspended_cpus s) (cpus s) (f (threads s))
    (next_thread s) (mutexes s) (cvs s).
Definition set_next (n : nat) (s : state) : state :=
  State (guard s) (ready_threads s) (finished_threads s) (suspended_cpus s) (cpus s) (threads s)
    n (mutexes s) (cvs s).
Definition set_mutex (m : nat) (x : mutex) (s : state) : state :=
  State (guard s) (ready_threads s) (finished_threads s) (suspended_cpus s) (cpus s) (threads s)
    (next_thread s) (<[m := x]> (mutexes s)) (cvs s).
Definition set_cv (v : nat) (l : list nat) (s : state) : state :=
  State (guard s) (ready_threads s) (finished_threads s) (suspended_cpus s) (cpus s) (threads s)
    (next_thread s) (mutexes s) (<[v := l]> (cvs s)).

Definition set_executing (r : option running) (x : cpu) : cpu := Cpu r (mode x) (interrupts x) (ipi x).
Definition set_mode (k : cpu_mode) (x : cpu) : cpu := Cpu (executing_thread x) k (interrupts x) (ipi x).
Definition set_interrupts (b : bool) (x : cpu) : cpu := Cpu (executing_thread x) (mode x) b (ipi x).
Definition set_ipi (b : bool) (x : cpu) : cpu := Cpu (executing_thread x) (mode x) (interrupts x) b.

Definition set_ctx (p : point) (i : thread_info) : thread_info :=
  ThreadInfo p (threads_waiting i) (finished i) (pc i).
Definition set_waiting (l : list nat) (i : thread_info) : thread_info :=
  ThreadInfo (thread_ctx i) l (finished i) (pc i).
Definition set_finished (i : thread_info) : thread_info :=
  ThreadInfo (thread_ctx i) (threads_waiting i) true (pc i).
Definition set_pc (m : option nat) (i : thread_info) : thread_info :=
  ThreadInfo (thread_ctx i) (threads_waiting i) (finished i) m.

(** ** Operations *)

(** The end of an operation: it returns to user code (of some thread) or the
    CPU sleeps; it throws [std::runtime_error] into the calling thread; it
    aborts on an assertion; it dereferences null; or the guard is taken, and
    the CPU spins until another one releases it. *)
Inductive result (A : Type) :=
| Done (a : A) (s : state)
| Throws (s : state)
| Aborts
| NullDereference
| Spins.
Arguments Done {A} _ _.
Arguments Throws {A} _.
Arguments Aborts {A}.
Arguments NullDereference {A}.
Arguments Spins {A}.

Definition op (A : Type) : Type := state → result A.

#[export] Instance op_ret : MRet op := λ A a s, Done a s.
#[export] Instance op_bind : MBind op := λ A B f m s,
  match m s with
  | Done a s' => f a s'
  | Throws s' => Throws s'
  | Aborts => Aborts
  | NullDereference => NullDereference
  | Spins => Spins
  end.

Definition get : op state := λ s, Done s s.
Definition update (f : state → state) : op unit := λ s, Done () (f s).
Definition throw {A} : op A := λ s, Throws s.
Definition spin {A} : op A := λ _, Spins.
Definition null_dereference {A} : op A := λ _, NullDereference.
Definition assert_ (b : bool) : op unit := λ s, if b then Done () s else Aborts.
Definition non_null {A} (o : option A) : op A := λ s,
  match o with Some a => Done a s | None => NullDereference end.

Typeclasses Opaque op.

Definition on_cpu (c : nat) (f : cpu → cpu) : op unit := update (set_cpus (alter f c)).
Definition on_thread (t : nat) (f : thread_info → thread_info) : op unit :=
  update (set_threads (alter f t)).

(** *** [os_guard] *)

(** The constructor: [while (cpu::guard.exchange(true)) {}] spins as long as the
    guard is taken. *)
Definition os_guard_enter (c : nat) : op unit :=
  _ ← on_cpu c (set_interrupts false);
  s ← get;
  if guard s then spin else update (set_guard true).

(** The destructor. *)
Definition os_guard_exit (c : nat) : op unit :=
  _ ← update (set_guard false);
  on_cpu c (set_interrupts true).

(** *** Switching *)

Definition this_running (c : nat) : op (option running) :=
  s ← get;
  x ← non_null (cpus s !! c);
  mret (executing_thread x).

(** [cpu::self()->executing_thread] where a user thread is expected. *)
Definition this_thread (c : nat) : op nat :=
  r ← this_running c;
  match r with
  | Some (RunThread t) => mret t
  | _ => null_dereference
  end.

(** The end of [mutex::lock]: its last assertion, then the guard's destructor. *)
Definition lock_return (c m : nat) : op unit :=
  s ← get;
  _ ← assert_ (negb (free (get_mutex s m)));
  os_guard_exit c.

(** What a user thread does first when it gets the CPU [c]. *)
Definition resume_thread (c t : nat) : op unit :=
  s ← get;
  i ← non_null (threads s !! t);
  _ ← on_cpu c (set_mode UserMode);
  match thread_ctx i with
  | AtStart =>                      (* thread::func_with_swap *)
      _ ← update (set_guard false);
      on_cpu c (set_interrupts true)
  | AtYield | AtJoin _ => os_guard_exit c
  | AtLock m => lock_return c m
  | AtWait m =>                     (* then curr_mutex.lock() *)
      _ ← os_guard_exit c;
      on_thread t (set_pc (Some m))
  end.

(** [wait_for_ready_thread], from the test of the ready queue on. *)
Definition wait_for_ready_thread (c : nat) : op unit :=
  s ← get;
  match ready_threads s with
  | [] =>
      _ ← update (set_suspended (suspended_cpus s ++ [c]));
      _ ← update (set_guard false);
      on_cpu c (λ x, set_mode Suspended (set_interrupts true x))
  | t :: rest =>
      _ ← on_cpu c (set_executing (Some (RunThread t)));
      _ ← update (set_ready rest);
      resume_thread c t
  end.

Definition resume (c : nat) (r : running) : op unit :=
  match r with
  | RunThread t => resume_thread c t
  | RunWaiting => wait_for_ready_thread c
  end.

(** [wait_and_pop]; [curr] is the calling thread, if it is to continue, and [p]
    where. *)
Definition wait_and_pop (c : nat) (curr : option nat) (p : point) : op unit :=
  s ← get;
  new_thread ←
    (match ready_threads s with
     | [] => mret RunWaiting
     | t :: rest => _ ← update (set_ready rest); mret (RunThread t)
     end);
  _ ← on_cpu c (set_executing (Some new_thread));
  _ ← (match curr with
       | Some t => on_thread t (set_ctx p)
       | None => mret ()
       end);
  resume c new_thread.

Definition push_and_signal (waiting_thread : nat) : op unit :=
  _ ← update (λ s, set_ready (ready_threads s ++ [waiting_thread]) s);
  s ← get;
  match suspended_cpus s with
  | [] => mret ()
  | cpu_to_wake :: rest =>
      _ ← update (set_suspended rest);
      on_cpu cpu_to_wake (set_ipi true)
  end.

(** *** Threads *)

Definition create_thread : op nat :=
  s ← get;
  let t := next_thread s in
  _ ← update (set_next (S t));
  _ ← update (set_threads (insert t (ThreadInfo AtStart [] false None)));
  mret t.

(** The constructor [thread::thread]; the new thread is the result. *)
Definition thread_create (c : nat) : op nat :=
  _ ← os_guard_enter c;
  t ← create_thread;
  _ ← push_and_signal t;
  _ ← os_guard_exit c;
  mret t.

Definition thread_yield (c : nat) : op unit :=
  _ ← os_guard_enter c;
  r ← this_running c;
  if decide (r = Some RunWaiting) then os_guard_exit c
  else
    s ← get;
    match ready_threads s with
    | [] => os_guard_exit c
    | _ :: _ =>
        t ← this_thread c;
        _ ← update (λ s, set_ready (ready_threads s ++ [t]) s);
        s ← get;
        next ← non_null (head (ready_threads s));
        _ ← on_cpu c (set_executing (Some (RunThread next)));
        _ ← update (set_ready (tail (ready_threads s)));
        _ ← on_thread t (set_ctx AtYield);
        resume_thread c next
    end.

Definition thread_join (c target : nat) : op unit :=
  _ ← os_guard_enter c;
  s ← get;
  match threads s !! target with
  | None => os_guard_exit c
  | Some i =>
      if finished i then os_guard_exit c
      else
        t ← this_thread c;
        _ ← on_cpu c (set_executing None);
        _ ← on_thread target (λ i, set_waiting (threads_waiting i ++ [t]) i);
        wait_and_pop c (Some t) (AtJoin target)
  end.

(** [while (!waiting_threads_queue.empty())] of thread [t]. *)
Fixpoint wake_waiting (t : nat) (waiting : list nat) : op unit :=
  match waiting with
  | [] => mret ()
  | next :: rest =>
      _ ← on_thread t (set_waiting rest);
      _ ← push_and_signal next;
      wake_waiting t rest
  end.

(** The end of [thread::func_with_swap], behind the user's function. *)
Definition thread_finish (c : nat) : op unit :=
  _ ← os_guard_enter c;
  _ ← update (λ s, set_threads (λ m, foldl (λ m t, delete t m) m (finished_threads s)) s);
  _ ← update (set_finished_threads []);
  t ← this_thread c;
  s ← get;
  i ← non_null (threads s !! t);
  _ ← wake_waiting t (threads_waiting i);
  _ ← on_thread t set_finished;
  _ ← on_cpu c (set_executing None);
  _ ← update (λ s, set_finished_threads (finished_threads s ++ [t]) s);
  wait_and_pop c None AtStart.

(** *** Mutexes *)

Definition mutex_lock (c m : nat) : op unit :=
  _ ← os_guard_enter c;
  s ← get;
  if negb (free (get_mutex s m)) then
    t ← this_thread c;
    _ ← on_cpu c (set_executing None);
    _ ← update (λ s, let x := get_mutex s m in
           set_mutex m (Mutex (free x) (owned_thread x) (waiting_threads x ++ [t])) s);
    wait_and_pop c (Some t) (AtLock m)
  else
    t ← this_thread c;
    _ ← update (λ s, let x := get_mutex s m in
           set_mutex m (Mutex false (Some t) (waiting_threads x)) s);
    lock_return c m.

(** [this->owned_thread.lock()] *)
Definition owner (s : state) (m : nat) : option nat :=
  match owned_thread (get_mutex s m) with
  | Some t => match threads s !! t with Some _ => Some t | None => None end
  | None => None
  end.

(** [mutex::unlock_mutex], under the guard of its caller. *)
Definition unlock_mutex (c m : nat) : op unit :=
  t ← this_thread c;
  s ← get;
  if free (get_mutex s m) || negb (bool_decide (owner s m = Some t)) then
    _ ← os_guard_exit c;          (* the exception leaves the caller's guard *)
    throw
  else
    match waiting_threads (get_mutex s m) with
    | [] => update (set_mutex m (Mutex true None []))
    | unlocked_thread :: rest =>
        _ ← update (set_mutex m (Mutex false (Some unlocked_thread) rest));
        push_and_signal unlocked_thread
    end.

Definition mutex_unlock (c m : nat) : op unit :=
  _ ← os_guard_enter c;
  _ ← unlock_mutex c m;
  os_guard_exit c.

(** *** Condition variables *)

(** [cv::wait] up to the end of its block; [curr_mutex.lock()] is left to the
    thread's [pc]. *)
Definition cv_wait (c v m : nat) : op unit :=
  _ ← os_guard_enter c;
  _ ← unlock_mutex c m;
  t ← this_thread c;
  _ ← on_cpu c (set_executing None);
  _ ← update (λ s, set_cv v (get_cv s v ++ [t]) s);
  wait_and_pop c (Some t) (AtWait m).

Definition cv_signal (c v : nat) : op unit :=
  _ ← os_guard_enter c;
  s ← get;
  _ ← (match get_cv s v with
       | [] => mret ()
       | waiting_thread :: rest =>
           _ ← update (set_cv v rest);
           push_and_signal waiting_thread
       end);
  os_guard_exit c.

Fixpoint cv_wake_all (v : nat) (waiting : list nat) : op unit :=
  match waiting with
  | [] => mret ()
  | waiting_thread :: rest =>
      _ ← update (set_cv v rest);
      _ ← push_and_signal waiting_thread;
      cv_wake_all v rest
  end.

Definition cv_broadcast (c v : nat) : op unit :=
  _ ← os_guard_enter c;
  s ← get;
  _ ← cv_wake_all v (get_cv s v);
  s ← get;
  _ ← assert_ (bool_decide (get_cv s v = []));
  os_guard_exit c.

(** *** CPUs *)

(** The constructor [cpu::cpu], on the CPU itself, with interrupts disabled;
    [main] when it got a function to run. *)
Definition cpu_boot (c : nat) (main : bool) : op unit :=
  _ ← os_guard_enter c;
  if main then
    t ← create_thread;
    _ ← on_cpu c (set_executing (Some (RunThread t)));
    resume_thread c t
  else wait_and_pop c None AtStart.

(** *** Steps of the system *)

(** What a thread can do in user code. *)
Inductive call :=
| Create | Yield | Join (t : nat) | Return
| Lock (m : nat) | Unlock (m : nat)
| Wait (v m : nat) | Signal (v : nat) | Broadcast (v : nat).

Definition perform (c : nat) (k : call) : op unit :=
  match k with
  | Create => _ ← thread_create c; mret ()
  | Yield => thread_yield c
  | Join t => thread_join c t
  | Return => thread_finish c
  | Lock m => mutex_lock c m
  | Unlock m => mutex_unlock c m
  | Wait v m => cv_wait c v m
  | Signal v => cv_signal c v
  | Broadcast v => cv_broadcast c v
  end.

(** A thread back from [cv::wait]'s block can only lock its mutex, or be
    preempted before. *)
Definition may_call (i : thread_info) (k : call) : Prop :=
  match pc i with
  | None => True
  | Some m => k = Lock m ∨ k = Yield
  end.

(** The lock at the end of [cv::wait] has been called. *)
Definition calling (t : nat) (k : call) : op unit :=
  match k with
  | Yield => mret ()
  | _ => on_thread t (set_pc None)
  end.

Definition new_cpu : cpu := Cpu None UserMode false false.

(** One CPU's next operation, from a state in which the guard is free. *)
Inductive event :=
| Call (c t : nat) (k : call)      (* thread [t], on CPU [c] *)
| Boot (c : nat) (main : bool)
| Wake (c : nat)                   (* a pending IPI ends [interrupt_enable_suspend] *)
| IdleTimer (c : nat)              (* a timer interrupt in [wait_for_ready_thread] *)
| Recheck (c : nat).               (* the loop of [wait_for_ready_thread] goes on *)

Definition enabled (s : state) (e : event) : Prop :=
  match e with
  | Call c t k => ∃ x i, cpus s !! c = Some x ∧ mode x = UserMode ∧
      executing_thread x = Some (RunThread t) ∧ threads s !! t = Some i ∧ may_call i k
  | Boot c _ => cpus s !! c = None
  | Wake c => ∃ x, cpus s !! c = Some x ∧ mode x = Suspended ∧ ipi x = true
  | IdleTimer c | Recheck c => ∃ x, cpus s !! c = Some x ∧ mode x = Woken
  end.

Definition execute (e : event) : op unit :=
  match e with
  | Call c t k => _ ← calling t k; perform c k
  | Boot c main => _ ← update (set_cpus (insert c new_cpu)); cpu_boot c main
  | Wake c => on_cpu c (λ x, set_mode Woken (set_ipi false x))
  | IdleTimer c => thread_yield c
  | Recheck c => _ ← os_guard_enter c; wait_for_ready_thread c
  end.

Inductive step (s : state) (e : event) : state → Prop :=
| step_done s' : enabled s e → execute e s = Done () s' → step s e s'
| step_throws s' : enabled s e → execute e s = Throws s' → step s e s'.

Inductive reachable : state → Prop :=
| reachable_initial : reachable initial
| reachable_step s e s' : reachable s → step s e s' → reachable s'.
