(* ===== verification/ThreadsInv.v ===== *)
(** * The thread library: invariant

    Where every thread is, what every saved context will find, and that no CPU
    sleeps while a thread is ready that nobody was woken for; each operation of
    [Threads] keeps this, without a failing assertion or a null pointer. *)
From S2P Require Import Prelude Threads.

Local Open Scope nat_scope.

(** ** Running an operation *)

(** The operation ends normally in [Q], or throws in [E]. *)
Definition wp {A} (m : op A) (Q : A → state → Prop) (E : state → Prop) (s : state) : Prop :=
  match m s with
  | Done a s' => Q a s'
  | Throws s' => E s'
  | _ => False
  end.

Lemma op_wp_bind {A B} (m : op A) (f : A → op B) Q E s :
  wp m (λ a s', wp (f a) Q E s') E s → wp (m ≫= f) Q E s.
Proof. unfold wp, mbind, op_bind. by destruct (m s). Qed.

Lemma op_wp_mono {A} (m : op A) (Q Q' : A → state → Prop) E s :
  wp m Q E s → (∀ a s', Q a s' → Q' a s') → wp m Q' E s.
Proof. unfold wp. destruct (m s); auto. Qed.

Lemma op_wp_ret {A} (a : A) (Q : A → state → Prop) E s : Q a s → wp (mret a) Q E s.
Proof. done. Qed.

Lemma wp_get (Q : state → state → Prop) E s : Q s s → wp get Q E s.
Proof. done. Qed.

Lemma wp_update f (Q : () → state → Prop) E s : Q () (f s) → wp (update f) Q E s.
Proof. done. Qed.

Lemma op_wp_assert b (Q : () → state → Prop) E s : b = true → Q () s → wp (assert_ b) Q E s.
Proof. by intros ->. Qed.

Lemma wp_non_null {A} (o : option A) a (Q : A → state → Prop) E s :
  o = Some a → Q a s → wp (non_null o) Q E s.
Proof. by intros ->. Qed.

(** ** Places *)

(** Where a thread can be: on the ready queue, on a CPU, on the queue of a
    mutex or condition variable, waiting for another thread, or finished. *)
Inductive place :=
| PReady | PCpu (c : nat) | PMutex (m : nat) | PCv (v : nat) | PJoin (t : nat) | PFinished.

#[export] Instance place_eq_dec : EqDecision place.
Proof. solve_decision. Defined.

Definition cpu_thread (s : state) (c : nat) : list nat :=
  match cpus s !! c with
  | Some x => match executing_thread x with Some (RunThread t) => [t] | _ => [] end
  | None => []
  end.

Definition join_queue (s : state) (t : nat) : list nat :=
  match threads s !! t with
  | Some i => threads_waiting i
  | None => []
  end.

Definition queue (s : state) (p : place) : list nat :=
  match p with
  | PReady => ready_threads s
  | PCpu c => cpu_thread s c
  | PMutex m => waiting_threads (get_mutex s m)
  | PCv v => get_cv s v
  | PJoin t => join_queue s t
  | PFinished => finished_threads s
  end.

Definition alive (s : state) (t : nat) : Prop := is_Some (threads s !! t).

(** Every thread is in exactly one place, once, apart from the threads that an
    operation has in hand. *)
Record placed (s : state) (hand : list nat) : Prop := {
  placed_nodup p : NoDup (queue s p);
  placed_unique t p p' : t ∈ queue s p → t ∈ queue s p' → p = p';
  placed_hand t p : t ∈ hand → t ∉ queue s p;
  placed_hand_nodup : NoDup hand;
  placed_alive t : alive s t ↔ t ∈ hand ∨ ∃ p, t ∈ queue s p;
  placed_next t : alive s t → t < next_thread s;
}.

(** Taking a thread from a queue, and putting it on one. *)
Lemma placed_take s s' hand p l1 t l2 :
  placed s hand → queue s p = l1 ++ t :: l2 →
  (∀ q, queue s' q = if decide (q = p) then l1 ++ l2 else queue s q) →
  (∀ t', alive s' t' ↔ alive s t') → next_thread s' = next_thread s →
  placed s' (t :: hand).
Proof.
  intros [Hn Hu Hh Hhn Ha Hx] Hp Hq Hal Hnx.
  assert (t ∈ queue s p) as Htp by (rewrite Hp; set_solver).
  pose proof (Hn p) as Hnp. rewrite Hp in Hnp.
  apply NoDup_app in Hnp as (Hn1 & Hd & [Ht2 Hn2]%NoDup_cons).
  assert (∀ t' q, t' ∈ queue s' q → t' ∈ queue s q ∧ t' ≠ t) as Hback.
  { intros t' q. rewrite Hq. destruct (decide (q = p)) as [->|Hne].
    - rewrite Hp. intros Ht'. split; [set_solver|]. intros ->. set_solver.
    - intros Ht'. split; [done|]. intros ->. by apply Hne, (Hu t). }
  assert (∀ t' q, t' ∈ queue s q → t' ≠ t → t' ∈ queue s' q) as Hfwd.
  { intros t' q Ht' Hne. rewrite Hq. destruct (decide (q = p)) as [->|]; [|done].
    rewrite Hp in Ht'. set_solver. }
  split.
  - intros q. rewrite Hq. destruct (decide (q = p)); [|done]. apply NoDup_app. set_solver.
  - intros t' q q' Ht1 Ht2'. by eapply (Hu t'); [apply Hback|apply Hback].
  - intros t' q [->|Ht']%elem_of_cons Hin; apply Hback in Hin as [? ?]; [done|by eapply Hh].
  - constructor; [|done]. intros ?. by eapply Hh.
  - intros t'. rewrite Hal, Ha. split.
    + intros [?|[q Hq']]; [set_solver|]. destruct (decide (t' = t)) as [->|]; [set_solver|]. eauto.
    + rewrite elem_of_cons. intros [[->|?]|[q Hq']]; [by eauto|by eauto|]. apply Hback in Hq'. naive_solver.
  - intros t'. rewrite Hal, Hnx. auto.
Qed.

Lemma placed_put s s' hand p t :
  placed s (t :: hand) →
  (∀ q, queue s' q = if decide (q = p) then queue s p ++ [t] else queue s q) →
  (∀ t', alive s' t' ↔ alive s t') → next_thread s' = next_thread s →
  placed s' hand.
Proof.
  intros [Hn Hu Hh Hhn Ha Hx] Hq Hal Hnx. apply NoDup_cons in Hhn as [Hth Hhn].
  assert (∀ q, t ∉ queue s q) as Hnot by (intros q; apply Hh; by left).
  assert (∀ t' q, t' ∈ queue s' q ↔ t' ∈ queue s q ∨ t' = t ∧ q = p) as Hin.
  { intros t' q. rewrite Hq. destruct (decide (q = p)) as [->|]; set_solver. }
  split.
  - intros q. rewrite Hq. destruct (decide (q = p)) as [->|]; [|done].
    apply NoDup_app. split; [done|]. split; [set_solver|apply NoDup_singleton].
  - intros t' q q'. rewrite !Hin. intros [?|[-> ->]] [?|[? ->]]; try done; [by eapply Hu| |].
    + subst. by exfalso; eapply Hnot.
    + by exfalso; eapply Hnot.
  - intros t' q Ht'. rewrite Hin. intros [Hq'|[-> _]]; [|done]. by eapply Hh; [right|].
  - done.
  - intros t'. rewrite Hal, Ha, elem_of_cons. setoid_rewrite Hin. naive_solver.
  - intros t'. rewrite Hal, Hnx. auto.
Qed.

Lemma placed_same s s' hand :
  placed s hand → (∀ q, queue s' q = queue s q) → (∀ t', alive s' t' ↔ alive s t') →
  next_thread s' = next_thread s → placed s' hand.
Proof.
  intros [Hn Hu Hh Hhn Ha Hx] Hq Hal Hnx. split; try setoid_rewrite Hq; try done.
  - intros t. rewrite Hal. apply Ha.
  - intros t. rewrite Hal, Hnx. apply Hx.
Qed.

(** *** What the assignments do to the queues *)

Lemma queue_set_ready l s q :
  queue (set_ready l s) q = if decide (q = PReady) then l else queue s q.
Proof. by destruct q. Qed.

Lemma queue_set_finished l s q :
  queue (set_finished_threads l s) q = if decide (q = PFinished) then l else queue s q.
Proof. by destruct q. Qed.

Lemma queue_set_mutex m x s q :
  queue (set_mutex m x s) q = if decide (q = PMutex m) then waiting_threads x else queue s q.
Proof.
  destruct q as [| |m'| | |]; simpl; try done. unfold get_mutex. simpl.
  destruct (decide (m' = m)) as [->|].
  - by rewrite lookup_insert_eq, decide_True.
  - by rewrite lookup_insert_ne, decide_False by congruence.
Qed.

Lemma queue_set_cv v l s q :
  queue (set_cv v l s) q = if decide (q = PCv v) then l else queue s q.
Proof.
  destruct q as [| | |v'| |]; simpl; try done. unfold get_cv. simpl.
  destruct (decide (v' = v)) as [->|].
  - by rewrite lookup_insert_eq, decide_True.
  - by rewrite lookup_insert_ne, decide_False by congruence.
Qed.

Definition runs (r : option running) : list nat :=
  match r with Some (RunThread t) => [t] | _ => [] end.

(** Changing a CPU. *)
Lemma queue_alter_cpu c f x s q :
  cpus s !! c = Some x →
  queue (set_cpus (alter f c) s) q =
  if decide (q = PCpu c) then runs (executing_thread (f x)) else queue s q.
Proof.
  intros Hc. destruct q as [|c'| | | |]; simpl; try done. unfold cpu_thread. simpl.
  destruct (decide (c' = c)) as [->|].
  - by rewrite lookup_alter_eq, Hc, decide_True.
  - by rewrite lookup_alter_ne, decide_False by congruence.
Qed.

Lemma queue_alter_cpu_same c f s q :
  (∀ x, executing_thread (f x) = executing_thread x) →
  queue (set_cpus (alter f c) s) q = queue s q.
Proof.
  intros Hf. destruct q as [|c'| | | |]; simpl; try done. unfold cpu_thread. simpl.
  destruct (decide (c' = c)) as [->|]; [|by rewrite lookup_alter_ne].
  rewrite lookup_alter_eq. destruct (cpus s !! c); simpl; [by rewrite Hf|done].
Qed.

(** Changing a thread. *)
Lemma queue_alter_thread t f i s q :
  threads s !! t = Some i →
  queue (set_threads (alter f t) s) q =
  if decide (q = PJoin t) then threads_waiting (f i) else queue s q.
Proof.
  intros Ht. destruct q as [| | | |t'|]; simpl; try done. unfold join_queue. simpl.
  destruct (decide (t' = t)) as [->|].
  - by rewrite lookup_alter_eq, Ht, decide_True.
  - by rewrite lookup_alter_ne, decide_False by congruence.
Qed.

Lemma queue_alter_thread_same t f s q :
  (∀ i, threads_waiting (f i) = threads_waiting i) →
  queue (set_threads (alter f t) s) q = queue s q.
Proof.
  intros Hf. destruct q as [| | | |t'|]; simpl; try done. unfold join_queue. simpl.
  destruct (decide (t' = t)) as [->|]; [|by rewrite lookup_alter_ne].
  rewrite lookup_alter_eq. destruct (threads s !! t); simpl; [by rewrite Hf|done].
Qed.

Lemma alive_alter_thread t f s t' : alive (set_threads (alter f t) s) t' ↔ alive s t'.
Proof. unfold alive. simpl. apply lookup_alter_is_Some. Qed.

(** ** The invariant of threads and mutexes *)

Definition ctx (s : state) (t : nat) : option point := thread_ctx <$> threads s !! t.

(** The thread has finished, or was freed after it finished; [fin] is a thread
    that is about to be marked as finished. *)
Definition thread_done (fin : option nat) (s : state) (t : nat) : Prop :=
  t < next_thread s ∧ (fin = Some t ∨ ∀ i, threads s !! t = Some i → finished i = true).

(** A blocked thread's context is behind the call that blocked it. *)
Definition blocked_at (p : place) (x : option point) : Prop :=
  match p with
  | PMutex m => x = Some (AtLock m)
  | PCv _ => ∃ m, x = Some (AtWait m)
  | PJoin t => x = Some (AtJoin t)
  | _ => True
  end.

(** A thread that is made ready will find what it waited for. *)
Definition resumable (fin : option nat) (s : state) (t : nat) : Prop :=
  match ctx s t with
  | Some (AtLock m) => free (get_mutex s m) = false ∧ owned_thread (get_mutex s m) = Some t
  | Some (AtJoin t') => thread_done fin s t'
  | Some _ => True
  | None => False
  end.

Definition mutex_ok (x : mutex) : Prop :=
  if free x then owned_thread x = None ∧ waiting_threads x = []
  else is_Some (owned_thread x).

Record thread_inv (fin : option nat) (s : state) (hand : list nat) : Prop := {
  ti_placed : placed s hand;
  ti_mutex m : mutex_ok (get_mutex s m);
  ti_blocked t p : t ∈ queue s p → blocked_at p (ctx s t);
  ti_ready t : t ∈ hand ∨ t ∈ ready_threads s → resumable fin s t;
  ti_finished t i : threads s !! t = Some i → finished i = true ↔ t ∈ finished_threads s;
  ti_no_waiters t i : threads s !! t = Some i → finished i = true → threads_waiting i = [];
}.

(** The lock of a thread: who owns a mutex. *)
Definition same_lock (x y : mutex) : Prop := free x = free y ∧ owned_thread x = owned_thread y.

Lemma resumable_mono fin fin' s s' t :
  resumable fin s t → ctx s' t = ctx s t →
  (∀ m, owned_thread (get_mutex s m) = Some t → same_lock (get_mutex s' m) (get_mutex s m)) →
  (∀ t', thread_done fin s t' → thread_done fin' s' t') → resumable fin' s' t.
Proof.
  unfold resumable. intros Hr -> Hm Hd. destruct (ctx s t) as [[]|]; auto.
  destruct Hr as [Hf Ho]. by destruct (Hm m Ho) as [-> ->].
Qed.

(** Only CPUs, the guard, the suspended CPUs and what threads do after
    [cv::wait] changed. *)
Definition same_thread (i j : thread_info) : Prop :=
  thread_ctx i = thread_ctx j ∧ threads_waiting i = threads_waiting j ∧ finished i = finished j.

Lemma thread_inv_same fin s s' hand :
  thread_inv fin s hand → (∀ c, cpu_thread s' c = cpu_thread s c) →
  ready_threads s' = ready_threads s → finished_threads s' = finished_threads s →
  (∀ t, option_Forall2 same_thread (threads s' !! t) (threads s !! t)) →
  next_thread s' = next_thread s → mutexes s' = mutexes s → cvs s' = cvs s →
  thread_inv fin s' hand.
Proof.
  intros [Hp Hm Hb Hr Hf Hn] Hc H1 H2 H3 H4 H5 H6.
  assert (∀ q, queue s' q = queue s q) as Hq.
  { intros [| | | |t|]; simpl; unfold get_mutex, get_cv, join_queue; rewrite ?H1, ?H2, ?H5, ?H6; try done.
    destruct (H3 t) as [i j (_ & ? & _)|]; done. }
  assert (∀ m, get_mutex s' m = get_mutex s m) as Hg by (intros m; unfold get_mutex; by rewrite H5).
  assert (∀ t, ctx s' t = ctx s t) as Hx.
  { intros t. unfold ctx. destruct (H3 t) as [i j (Hij & _)|]; simpl; [by rewrite Hij|done]. }
  assert (∀ t i, threads s' !! t = Some i → ∃ j, threads s !! t = Some j ∧ same_thread i j) as Ht.
  { intros t i Hi. specialize (H3 t). rewrite Hi in H3. inversion H3; subst. eauto. }
  assert (∀ t, alive s' t ↔ alive s t) as Ha.
  { intros t. unfold alive. destruct (H3 t); split; eauto; by intros []. }
  split.
  - by apply (placed_same s).
  - intros m. by rewrite Hg.
  - intros t p. rewrite Hq, Hx. apply Hb.
  - intros t. rewrite H1. intros Hin. apply (resumable_mono fin fin s); auto.
    + intros m _. by rewrite Hg.
    + unfold thread_done. rewrite H4. intros t' [? [?|Hd]]; split; try done; [by left|right].
      intros i (j & Hj & _ & _ & ->)%Ht. by apply Hd.
  - intros t i (j & Hj & _ & _ & ->)%Ht. rewrite H2. by apply Hf.
  - intros t i (j & Hj & _ & -> & ->)%Ht. by apply (Hn t).
Qed.

Lemma same_threads s t : option_Forall2 same_thread (threads s !! t) (threads s !! t).
Proof. destruct (threads s !! t); by constructor. Qed.

(** *** Transitions *)

Section transitions.
Context {fin : option nat} {s : state} {hand : list nat} (Hi : thread_inv fin s hand).

Lemma not_blocked_elsewhere t p q : t ∈ queue s p → t ∈ queue s q → p = q.
Proof. apply (placed_unique _ _ (ti_placed _ _ _ Hi)). Qed.

(** A ready thread gets a CPU. *)
Lemma dispatch_ready c x t rest :
  cpus s !! c = Some x → runs (executing_thread x) = [] → ready_threads s = t :: rest →
  thread_inv fin (set_ready rest (set_cpus (alter (set_executing (Some (RunThread t))) c) s)) hand.
Proof.
  intros Hc Hx Hr. pose proof Hi as [Hp Hm Hb Hre Hf Hn].
  set (s1 := set_ready rest s). set (s' := set_ready rest _).
  assert (placed s1 (t :: hand)) as Hp1.
  { apply (placed_take s s1 hand PReady [] t rest); try done. intros q. unfold s1. by rewrite queue_set_ready. }
  assert (∀ q, queue s' q = if decide (q = PCpu c) then queue s1 (PCpu c) ++ [t] else queue s1 q) as Hq.
  { intros q. unfold s', s1. rewrite !queue_set_ready, (queue_alter_cpu _ _ _ _ _ Hc).
    destruct (decide (q = PCpu c)) as [->|]; [|done].
    simpl. unfold cpu_thread. rewrite Hc. fold (runs (executing_thread x)). by rewrite Hx. }
  split; try done.
  - by apply (placed_put s1 s' hand (PCpu c) t).
  - intros t' p. rewrite Hq. destruct (decide (p = PCpu c)) as [->|]; [done|].
    unfold s1. rewrite queue_set_ready. destruct (decide (p = PReady)) as [->|]; [done|]. apply Hb.
  - intros t' Ht'. apply (Hre t'). destruct Ht' as [?|Ht']; [by left|right]. rewrite Hr. by right.
Qed.

(** A thread in hand gets a CPU. *)
Lemma dispatch_hand c x t hand' :
  hand = t :: hand' → cpus s !! c = Some x → runs (executing_thread x) = [] →
  thread_inv fin (set_cpus (alter (set_executing (Some (RunThread t))) c) s) hand'.
Proof.
  intros -> Hc Hx. pose proof Hi as [Hp Hm Hb Hre Hf Hn]. set (s' := set_cpus _ s).
  assert (∀ q, queue s' q = if decide (q = PCpu c) then queue s (PCpu c) ++ [t] else queue s q) as Hq.
  { intros q. unfold s'. rewrite (queue_alter_cpu _ _ _ _ _ Hc). case_decide; [|done].
    simpl. unfold cpu_thread. rewrite Hc. fold (runs (executing_thread x)). by rewrite Hx. }
  split; try done.
  - by apply (placed_put s s' hand' (PCpu c) t).
  - intros t' p. rewrite Hq. case_decide; [by subst|]. apply Hb.
  - intros t' Ht'. apply (Hre t'). rewrite elem_of_cons. destruct Ht' as [?|?]; [by left; right|by right].
Qed.

(** A thread in hand becomes ready. *)
Lemma make_ready t hand' :
  hand = t :: hand' → thread_inv fin (set_ready (ready_threads s ++ [t]) s) hand'.
Proof.
  intros ->. pose proof Hi as [Hp Hm Hb Hre Hf Hn]. split; try done.
  - apply (placed_put s _ hand' PReady t); try done. intros q. by rewrite queue_set_ready.
  - intros t' p. rewrite queue_set_ready. case_decide as Hq; [by subst|]. apply Hb.
  - intros t' Ht'. apply (Hre t'). simpl in Ht'. rewrite elem_of_app, list_elem_of_singleton in Ht'.
    rewrite elem_of_cons. tauto.
Qed.

(** What an operation leaves of the threads besides their contexts. *)
Definition threads_kept (s' : state) : Prop :=
  next_thread s' = next_thread s ∧ (∀ u, alive s' u ↔ alive s u) ∧
  ∀ u i', threads s' !! u = Some i' → ∃ i, threads s !! u = Some i ∧ finished i' = finished i ∧
    (finished i = true → threads_waiting i' = threads_waiting i).

Lemma threads_kept_done s' u : threads_kept s' → thread_done fin s u → thread_done fin s' u.
Proof.
  intros (Hx & Ha & Ht) [Hu Hd]. split; [by rewrite Hx|]. destruct Hd as [?|Hd]; [by left|right].
  intros i' (i & Hi' & -> & _)%Ht. by apply Hd.
Qed.

(** The thread of a CPU leaves it for a queue, from which it will go on at [q]. *)
Lemma park c x t p q s' :
  cpus s !! c = Some x → executing_thread x = Some (RunThread t) →
  (∀ r, queue s' r = if decide (r = PCpu c) then []
     else if decide (r = p) then queue s p ++ [t] else queue s r) →
  (∀ c', p ≠ PCpu c') → p ≠ PFinished →
  (∀ u, ctx s' u = if decide (u = t) then Some q else ctx s u) →
  blocked_at p (Some q) → (p = PReady → resumable fin s' t) →
  (∀ m, same_lock (get_mutex s' m) (get_mutex s m)) → (∀ m, mutex_ok (get_mutex s' m)) →
  threads_kept s' → thread_inv fin s' hand.
Proof.
  intros Hc Hx Hq Hpc Hpf Hctx Hblk Hres Hlock Hmok Hkept.
  pose proof Hi as [Hp Hm Hb Hre Hf Hn]. pose proof Hkept as (Hnx & Hal & Hth).
  assert (queue s (PCpu c) = [t]) as Hqc by (simpl; unfold cpu_thread; by rewrite Hc, Hx).
  set (s1 := set_cpus (alter (set_executing None) c) s).
  assert (∀ r, queue s1 r = if decide (r = PCpu c) then [] else queue s r) as Hq1
    by (intros r; unfold s1; by rewrite (queue_alter_cpu _ _ _ _ _ Hc)).
  assert (placed s1 (t :: hand)) as Hp1 by (by apply (placed_take s s1 hand (PCpu c) [] t [])).
  assert (∀ r u, u ∈ queue s r → u = t → r = PCpu c) as Hwhere.
  { intros r u Hu ->. eapply not_blocked_elsewhere; [exact Hu|]. rewrite Hqc. by left. }
  split; try done.
  - apply (placed_put s1 s' hand p t Hp1); try done. intros r. rewrite Hq, !Hq1.
    rewrite (decide_False (P := p = PCpu c)) by done.
    repeat case_decide; subst; done || by exfalso; eapply Hpc.
  - intros u r. rewrite Hq, Hctx. case_decide as Hr; [by intros ?%elem_of_nil|].
    case_decide as Hrp.
    + subst r. rewrite elem_of_app, list_elem_of_singleton. case_decide; [done|]. intros [?|?]; [by apply Hb|done].
    + intros Hu. case_decide; [exfalso; eauto|by apply Hb].
  - intros u Hu. destruct (decide (u = t)) as [->|Hne].
    + destruct (decide (p = PReady)) as [->|Hnp]; [by apply Hres|exfalso].
      destruct Hu as [Hu|Hu]; [by eapply (placed_hand _ _ Hp t (PCpu c)); [|rewrite Hqc; left]|].
      specialize (Hq PReady). rewrite !decide_False in Hq by congruence. simpl in Hq. rewrite Hq in Hu.
      by specialize (Hwhere PReady t Hu eq_refl).
    + assert (u ∈ hand ∨ u ∈ ready_threads s) as Hu'.
      { destruct Hu as [?|Hu]; [by left|right]. specialize (Hq PReady). simpl in Hq.
        rewrite Hq in Hu. case_decide as Hpr; [subst p|done].
        apply elem_of_app in Hu as [?|?%list_elem_of_singleton]; done. }
      apply (resumable_mono fin fin s); [by apply Hre| |done|].
      * by rewrite Hctx, decide_False.
      * intros u'. by apply threads_kept_done.
  - intros u i' Hu. destruct (Hth u i' Hu) as (i & Hi' & -> & _).
    specialize (Hq PFinished). rewrite !decide_False in Hq by congruence. simpl in Hq. rewrite Hq. by apply Hf.
  - intros u i' Hu Hfin. destruct (Hth u i' Hu) as (i & Hi' & Hff & Hw). rewrite Hff in Hfin.
    rewrite Hw by done. by apply (Hn u).
Qed.

(** The first thread of a queue is taken off it, to be made ready. *)
Lemma unpark p t rest s' :
  queue s p = t :: rest → (∀ r, queue s' r = if decide (r = p) then rest else queue s r) →
  p ≠ PReady → p ≠ PFinished → (∀ u, ctx s' u = ctx s u) → resumable fin s' t →
  (∀ u m, u ∈ hand ∨ u ∈ ready_threads s → owned_thread (get_mutex s m) = Some u →
     same_lock (get_mutex s' m) (get_mutex s m)) →
  (∀ m, mutex_ok (get_mutex s' m)) → threads_kept s' → thread_inv fin s' (t :: hand).
Proof.
  intros Hqp Hq Hpr Hpf Hctx Hres Hlock Hmok Hkept.
  pose proof Hi as [Hp Hm Hb Hre Hf Hn]. pose proof Hkept as (Hnx & Hal & Hth).
  split; try done.
  - by apply (placed_take s s' hand p [] t rest).
  - intros u r. rewrite Hq, Hctx. case_decide as Hr; [|by apply Hb]. subst r.
    intros Hu. apply Hb. rewrite Hqp. by right.
  - intros u Hu. destruct (decide (u = t)) as [->|Hne]; [done|].
    assert (u ∈ hand ∨ u ∈ ready_threads s) as Hu'.
    { destruct Hu as [Hu|Hu]; [apply elem_of_cons in Hu; tauto|right].
      specialize (Hq PReady). rewrite decide_False in Hq by done. simpl in Hq. by rewrite Hq in Hu. }
    apply (resumable_mono fin fin s); [by apply Hre|by rewrite Hctx|by intros m; apply (Hlock u)|].
    intros u'. by apply threads_kept_done.
  - intros u i' Hu. destruct (Hth u i' Hu) as (i & Hi' & -> & _).
    specialize (Hq PFinished). rewrite decide_False in Hq by done. simpl in Hq. rewrite Hq. by apply Hf.
  - intros u i' Hu Hfin. destruct (Hth u i' Hu) as (i & Hi' & Hff & Hw). rewrite Hff in Hfin.
    rewrite Hw by done. by apply (Hn u).
Qed.

Lemma mutexes_kept m x : threads_kept (set_mutex m x s).
Proof. split; [done|]. split; [done|]. simpl. eauto. Qed.

Lemma get_set_mutex m x m' : get_mutex (set_mutex m x s) m' = if decide (m' = m) then x else get_mutex s m'.
Proof.
  unfold get_mutex. simpl. case_decide; [subst; by rewrite lookup_insert_eq|by rewrite lookup_insert_ne].
Qed.

Lemma mutexes_ok m x : mutex_ok x → ∀ m', mutex_ok (get_mutex (set_mutex m x s) m').
Proof. intros Hx m'. rewrite get_set_mutex. case_decide; [done|apply (ti_mutex _ _ _ Hi)]. Qed.

(** A mutex changes hands, but not from a thread that is about to run. *)
Lemma change_owner m x :
  waiting_threads x = waiting_threads (get_mutex s m) → mutex_ok x →
  (∀ u, u ∈ hand ∨ u ∈ ready_threads s → owned_thread (get_mutex s m) ≠ Some u) →
  thread_inv fin (set_mutex m x s) hand.
Proof.
  intros Hw Hx Hown. pose proof Hi as [Hp Hm Hb Hre Hf Hn].
  assert (∀ q, queue (set_mutex m x s) q = queue s q) as Hq
    by (intros q; rewrite queue_set_mutex; case_decide; subst; done).
  split; try done.
  - by apply (placed_same s).
  - by apply mutexes_ok.
  - intros u p. rewrite Hq. apply Hb.
  - intros u Hu. apply (resumable_mono fin fin s); [by apply Hre|done| |done].
    intros m' Ho. rewrite get_set_mutex. case_decide; [subst; by exfalso; eapply Hown|done].
Qed.

(** A new thread, in hand. *)
Lemma new_thread :
  thread_inv fin (set_threads (insert (next_thread s) (ThreadInfo AtStart [] false None))
    (set_next (S (next_thread s)) s)) (next_thread s :: hand).
Proof.
  pose proof Hi as [Hp Hm Hb Hre Hf Hn]. set (t := next_thread s). set (s' := set_threads _ _).
  assert (threads s !! t = None) as Hnone.
  { apply eq_None_not_Some. intros Ht. apply (placed_next _ _ Hp) in Ht. unfold t in Ht. lia. }
  assert (∀ q, queue s' q = queue s q) as Hq.
  { intros [| | | |u|]; try done. simpl. unfold join_queue. simpl.
    destruct (decide (u = t)) as [->|]; [by rewrite lookup_insert_eq, Hnone|by rewrite lookup_insert_ne]. }
  assert (∀ q, t ∉ queue s q) as Hnot.
  { intros q Ht. assert (alive s t) as [? Ha] by (apply (placed_alive _ _ Hp); eauto). congruence. }
  assert (t ∉ hand) as Hnh.
  { intros Ht. assert (alive s t) as [? Ha] by (apply (placed_alive _ _ Hp); eauto). congruence. }
  assert (∀ u, u ≠ t → threads s' !! u = threads s !! u) as Hne by (intros; by apply lookup_insert_ne).
  assert (threads s' !! t = Some (ThreadInfo AtStart [] false None)) as Ht by apply lookup_insert_eq.
  assert (∀ u, thread_done fin s u → thread_done fin s' u) as Hd.
  { intros u [Hu Hd]. split; [simpl; lia|]. destruct Hd as [?|Hd]; [by left|right].
    rewrite Hne; [done|]. unfold t. lia. }
  split; try done.
  - pose proof Hp as [Hpn Hpu Hph Hphn Hpa Hpx]. split.
    + intros p. rewrite Hq. apply Hpn.
    + intros u p p'. rewrite !Hq. apply Hpu.
    + intros u p [->|Hu]%elem_of_cons; rewrite Hq; [apply Hnot|by apply Hph].
    + by constructor.
    + intros u. unfold alive. destruct (decide (u = t)) as [->|Hu]; [rewrite Ht; split; [by left; left|by eexists]|].
      rewrite Hne by done. fold (alive s u). rewrite Hpa, elem_of_cons. setoid_rewrite Hq. tauto.
    + intros u. unfold alive. destruct (decide (u = t)) as [->|Hu]; [simpl; lia|].
      rewrite Hne by done. intros Ha. apply Hpx in Ha. simpl. lia.
  - intros u p. rewrite Hq. intros Hu. unfold ctx. rewrite Hne by (intros ->; by eapply Hnot). by apply Hb.
  - intros u Hu. destruct (decide (u = t)) as [->|Hut].
    + unfold resumable, ctx. by rewrite Ht.
    + apply (resumable_mono fin fin s); [apply Hre|unfold ctx; by rewrite Hne|done|done].
      destruct Hu as [[?|?]%elem_of_cons|?]; [done|by left|by right].
  - intros u i. destruct (decide (u = t)) as [->|Hut]; [|rewrite Hne by done; apply Hf].
    rewrite Ht. intros [= <-]. split; [done|]. intros Hu. by destruct (Hnot PFinished).
  - intros u i. destruct (decide (u = t)) as [->|Hut]; [|rewrite Hne by done; apply Hn].
    rewrite Ht. by intros [= <-].
Qed.

Lemma lookup_delete_finished l (m : gmap nat thread_info) u :
  foldl (λ m t, delete t m) m l !! u = if decide (u ∈ l) then None else m !! u.
Proof.
  revert m; induction l as [|t l IH]; intros m; [done|]. simpl. rewrite IH.
  destruct (decide (u = t)) as [->|Hne].
  - rewrite (decide_True (P := t ∈ t :: l)) by by left. case_decide; [done|apply lookup_delete_eq].
  - rewrite lookup_delete_ne by done. destruct (decide (u ∈ l)).
    + by rewrite decide_True by by right.
    + by rewrite decide_False by by intros [?|?]%elem_of_cons.
Qed.

(** The finished threads are freed; their joiners were woken before. *)
Lemma free_finished :
  thread_inv fin (set_finished_threads []
    (set_threads (λ m, foldl (λ m t, delete t m) m (finished_threads s)) s)) hand.
Proof.
  pose proof Hi as [Hp Hm Hb Hre Hf Hn]. set (s' := set_finished_threads _ _).
  assert (∀ u, threads s' !! u = if decide (u ∈ finished_threads s) then None else threads s !! u) as Ht
    by (intros u; apply lookup_delete_finished).
  assert (∀ q, queue s' q = if decide (q = PFinished) then [] else queue s q) as Hq.
  { intros [| | | |u|]; try done. simpl. unfold join_queue. rewrite Ht.
    destruct (decide (u ∈ finished_threads s)) as [Hu|]; [|done].
    destruct (threads s !! u) as [i|] eqn:Hui; [|done]. symmetry. apply (Hn u i Hui). by apply (Hf u). }
  assert (∀ u q, u ∈ queue s' q → u ∈ queue s q ∧ u ∉ finished_threads s) as Hback.
  { intros u q. rewrite Hq. case_decide as Hqf; [by intros ?%elem_of_nil|]. intros Hu. split; [done|].
    intros Hu'. by apply Hqf, (not_blocked_elsewhere u). }
  assert (∀ u, u ∈ hand → u ∉ finished_threads s) as Hhand
    by (intros u Hu; by apply (placed_hand _ _ Hp u PFinished)).
  assert (∀ u q, u ∈ queue s q → u ∉ finished_threads s → u ∈ queue s' q) as Hfwd.
  { intros u q Hu Hnu. rewrite Hq. by case_decide; subst. }
  split; try done.
  - pose proof Hp as [Hpn Hpu Hph Hphn Hpa Hpx]. split; try done.
    + intros p. rewrite Hq. case_decide; [constructor|apply Hpn].
    + intros u p p' [H1 _]%Hback [H2 _]%Hback. by apply (Hpu u).
    + intros u p Hu [Hin _]%Hback. by apply (Hph u p).
    + intros u. unfold alive. rewrite Ht. case_decide as Hu.
      * split; [by intros []|]. intros [?%Hhand|[q [_ ?]%Hback]]; done.
      * fold (alive s u). rewrite Hpa. split; [intros [?|[q ?]]; [by left|right; eauto]|].
        intros [?|[q [? _]%Hback]]; [by left|right; eauto].
    + intros u. unfold alive. rewrite Ht. case_decide; [by intros []|apply Hpx].
  - intros u p [Hu Hnu]%Hback. unfold ctx. rewrite Ht, decide_False by done. by apply Hb.
  - intros u Hu. assert (u ∉ finished_threads s) as Hnu.
    { destruct Hu as [?|Hu]; [by apply Hhand|]. by destruct (Hback u PReady Hu). }
    apply (resumable_mono fin fin s); [by apply Hre|unfold ctx; by rewrite Ht, decide_False|done|].
    intros u' [Hx Hd]. split; [done|]. destruct Hd as [?|Hd]; [by left|right].
    intros i. rewrite Ht. case_decide; [done|apply Hd].
  - intros u i. rewrite Ht. case_decide as Hu; [done|]. intros Hui. rewrite (Hf u i Hui).
    split; [done|by intros ?%elem_of_nil].
  - intros u i. rewrite Ht. case_decide; [done|]. apply Hn.
Qed.

End transitions.

(** The thread of a CPU is marked as finished, after its joiners were woken. *)
Lemma mark_finished s hand c x t :
  thread_inv (Some t) s hand → cpus s !! c = Some x → executing_thread x = Some (RunThread t) →
  join_queue s t = [] →
  thread_inv None (set_finished_threads (finished_threads s ++ [t])
    (set_cpus (alter (set_executing None) c) (set_threads (alter set_finished t) s))) hand.
Proof.
  intros Hi Hc Hx Hw. pose proof Hi as [Hp Hm Hb Hre Hf Hn]. set (s' := set_finished_threads _ _).
  set (s1 := set_cpus (alter (set_executing None) c) s).
  assert (queue s (PCpu c) = [t]) as Hqc by (simpl; unfold cpu_thread; by rewrite Hc, Hx).
  assert (∀ r, queue s1 r = if decide (r = PCpu c) then [] else queue s r) as Hq1
    by (intros r; unfold s1; by rewrite (queue_alter_cpu _ _ _ _ _ Hc)).
  assert (placed s1 (t :: hand)) as Hp1 by (by apply (placed_take s s1 hand (PCpu c) [] t [])).
  assert (∀ q, queue s' q = if decide (q = PFinished) then queue s1 PFinished ++ [t] else queue s1 q) as Hq.
  { intros q. unfold s', s1. rewrite queue_set_finished. case_decide; [done|].
    rewrite !(queue_alter_cpu _ _ x) by done. case_decide; [done|].
    by apply queue_alter_thread_same. }
  assert (alive s t) as [i Hti] by (apply (placed_alive _ _ Hp); right; exists (PCpu c); rewrite Hqc; by left).
  assert (∀ u, threads s' !! u = if decide (u = t) then Some (set_finished i) else threads s !! u) as Ht.
  { intros u. simpl. case_decide; [subst; by rewrite lookup_alter_eq, Hti|by rewrite lookup_alter_ne]. }
  assert (∀ u, ctx s' u = ctx s u) as Hctx.
  { intros u. unfold ctx. rewrite Ht. case_decide; [subst; by rewrite Hti|done]. }
  assert (t ∉ finished_threads s) as Htf.
  { intros Hin. by pose proof (placed_unique _ _ Hp t PFinished (PCpu c) Hin ltac:(rewrite Hqc; by left)). }
  split; try done.
  - apply (placed_put s1 s' hand PFinished t Hp1 Hq); [|done]. intros u. unfold alive. rewrite Ht. simpl.
    case_decide; [subst; rewrite Hti; split; eauto|done].
  - intros u p. rewrite Hq, Hctx. case_decide as Hpf; [by subst|]. rewrite Hq1. case_decide; [by intros ?%elem_of_nil|].
    apply Hb.
  - intros u Hu. apply (resumable_mono (Some t) None s); [by apply Hre|by rewrite Hctx|done|].
    intros u' [Hx' Hd]. split; [done|]. right. intros i'. rewrite Ht. case_decide as Hut; [by intros [= <-]|].
    destruct Hd as [[= ->]|Hd]; [done|apply Hd].
  - intros u i'. rewrite Ht. simpl. rewrite elem_of_app, list_elem_of_singleton. case_decide as Hut.
    + intros [= <-]. subst. simpl. split; [by right|done].
    + intros Hui. rewrite (Hf u i' Hui). tauto.
  - intros u i'. rewrite Ht. case_decide as Hut; [|apply Hn]. subst. intros [= <-] _. simpl.
    unfold join_queue in Hw. by rewrite Hti in Hw.
Qed.

(** ** The invariant of CPUs *)

(** The CPU was sent an interrupt, or has just got it: it will look at the ready
    queue once more. *)
Definition awake (x : cpu) : Prop := ipi x = true ∨ mode x = Woken.

#[export] Instance awake_dec x : Decision (awake x).
Proof. unfold awake. apply _. Defined.

Definition woken (s : state) : gset nat := dom (filter (λ p : nat * cpu, awake p.2) (cpus s)).

Lemma elem_of_woken s c : c ∈ woken s ↔ ∃ x, cpus s !! c = Some x ∧ awake x.
Proof.
  unfold woken. rewrite elem_of_dom. split.
  - intros [x Hx]. apply map_lookup_filter_Some in Hx. naive_solver.
  - intros (x & Hx & Ha). exists x. by apply map_lookup_filter_Some.
Qed.

(** What a CPU runs when it does not execute an operation. *)
Definition runs_its_mode (x : cpu) : Prop :=
  match mode x with
  | UserMode => ∃ t, executing_thread x = Some (RunThread t)
  | _ => executing_thread x = Some RunWaiting
  end.

(** [act] is the CPU that executes an operation, and so has the guard. *)
Record cpu_inv (act : option nat) (s : state) : Prop := {
  ci_guard : guard s = bool_decide (is_Some act);
  ci_cpu c x : cpus s !! c = Some x → act ≠ Some c → interrupts x = true ∧ runs_its_mode x;
  ci_act c : act = Some c → ∃ x, cpus s !! c = Some x ∧ mode x ≠ Suspended;
  ci_nodup : NoDup (suspended_cpus s);
  ci_suspended c : c ∈ suspended_cpus s ↔ ∃ x, cpus s !! c = Some x ∧ mode x = Suspended ∧ ipi x = false;
  ci_ipi c x : cpus s !! c = Some x → ipi x = true → mode x = Suspended;
  ci_work : suspended_cpus s ≠ [] → length (ready_threads s) <= size (woken s);
}.

(** Changes of the acting CPU that do not put it to sleep or wake it up. *)
Definition quiet (f : cpu → cpu) (x : cpu) : Prop := mode (f x) = mode x ∧ ipi (f x) = ipi x.

Lemma woken_quiet c f s x :
  cpus s !! c = Some x → quiet f x → woken (set_cpus (alter f c) s) = woken s.
Proof.
  intros Hc [Hm Hi]. apply set_eq. intros c'. rewrite !elem_of_woken. simpl.
  destruct (decide (c' = c)) as [->|]; [|by rewrite lookup_alter_ne].
  rewrite lookup_alter_eq, Hc. unfold awake. simpl. split.
  - intros (? & [= <-] & Ha). exists x. by rewrite Hm, Hi in Ha.
  - intros (? & [= <-] & Ha). exists (f x). by rewrite Hm, Hi.
Qed.

Lemma asleep_quiet c f s x c' :
  cpus s !! c = Some x → quiet f x →
  (∃ y, cpus s !! c' = Some y ∧ mode y = Suspended ∧ ipi y = false) ↔
  ∃ y, alter f c (cpus s) !! c' = Some y ∧ mode y = Suspended ∧ ipi y = false.
Proof.
  intros Hc [Hm Hi]. destruct (decide (c' = c)) as [->|]; [|by rewrite lookup_alter_ne].
  rewrite lookup_alter_eq, Hc. simpl. split; intros (? & [= <-] & Hx).
  - exists (f x). by rewrite Hm, Hi.
  - exists x. by rewrite Hm, Hi in Hx.
Qed.

Lemma ipi_quiet c f s x :
  cpus s !! c = Some x → quiet f x → (∀ c' y, cpus s !! c' = Some y → ipi y = true → mode y = Suspended) →
  ∀ c' y, alter f c (cpus s) !! c' = Some y → ipi y = true → mode y = Suspended.
Proof.
  intros Hc [Hm Hi] H6 c' y. destruct (decide (c' = c)) as [->|]; [|rewrite lookup_alter_ne by done; apply H6].
  rewrite lookup_alter_eq, Hc. intros [= <-]. rewrite Hm, Hi. by apply (H6 c).
Qed.

(** A state that differs in nothing [cpu_inv] speaks of, or has fewer threads
    ready. *)
Lemma cpu_inv_fewer act s s' :
  cpu_inv act s → guard s' = guard s → cpus s' = cpus s → suspended_cpus s' = suspended_cpus s →
  length (ready_threads s') <= length (ready_threads s) → cpu_inv act s'.
Proof.
  intros [H1 H2 H3 H4 H5 H6 H7] Hg Hc Hs Hr. split; rewrite ?Hg, ?Hs; try setoid_rewrite Hc; try done.
  intros Hne. unfold woken. rewrite Hc. fold (woken s). specialize (H7 Hne). lia.
Qed.

Lemma cpu_inv_quiet c s f x :
  cpu_inv (Some c) s → cpus s !! c = Some x → quiet f x → cpu_inv (Some c) (set_cpus (alter f c) s).
Proof.
  intros [H1 H2 H3 H4 H5 H6 H7] Hc Hq. pose proof Hq as [Hm Hi]. split; simpl; try done.
  - intros c' x' Hc' Hne. rewrite lookup_alter_ne in Hc' by congruence. by apply (H2 c').
  - intros c' [= <-]. exists (f x). rewrite lookup_alter_eq, Hc, Hm. split; [done|].
    destruct (H3 c eq_refl) as (x' & Hx' & ?). by simplify_eq.
  - intros c'. rewrite H5. by apply (asleep_quiet _ _ _ x).
  - by apply (ipi_quiet _ _ _ x).
  - intros Hne. rewrite (woken_quiet _ _ _ _ Hc Hq). by apply H7.
Qed.

(** *** The guard *)

Definition entered (c : nat) (s : state) : state :=
  set_guard true (set_cpus (alter (set_interrupts false) c) s).

Lemma enter_ok {A} (k : () → op A) c x Q E s :
  cpu_inv None s → cpus s !! c = Some x → mode x ≠ Suspended →
  (cpu_inv (Some c) (entered c s) → wp (k ()) Q E (entered c s)) →
  wp (os_guard_enter c ≫= k) Q E s.
Proof.
  intros Hi Hc Hm Hk. pose proof Hi as [H1 H2 H3 H4 H5 H6 H7]. apply op_wp_bind.
  unfold os_guard_enter. apply op_wp_bind, wp_update, op_wp_bind, wp_get. simpl. rewrite H1. simpl.
  apply wp_update. apply Hk. unfold entered. split; simpl; try done.
  - intros c' x' Hc' Hne. rewrite lookup_alter_ne in Hc' by congruence. by apply (H2 c').
  - intros c' [= <-]. exists (set_interrupts false x). by rewrite lookup_alter_eq, Hc.
  - intros c'. rewrite H5. by apply (asleep_quiet _ _ _ x).
  - by apply (ipi_quiet _ _ _ x).
  - intros Hne. specialize (H7 Hne). etransitivity; [exact H7|].
    pose proof (woken_quiet c (set_interrupts false) s x Hc ltac:(done)) as Hw.
    unfold woken in *. simpl in *. by rewrite Hw.
Qed.

Definition exited (c : nat) (s : state) : state :=
  set_cpus (alter (set_interrupts true) c) (set_guard false s).

Lemma exited_ok c x s :
  cpu_inv (Some c) s → cpus s !! c = Some x → runs_its_mode x → cpu_inv None (exited c s).
Proof.
  intros [H1 H2 H3 H4 H5 H6 H7] Hc Hr. unfold exited. split; simpl; try done.
  - intros c' x' Hc' _. destruct (decide (c' = c)) as [->|].
    + rewrite lookup_alter_eq, Hc in Hc'. injection Hc' as <-. by split.
    + rewrite lookup_alter_ne in Hc' by done. apply (H2 c'); [done|congruence].
  - intros c'. rewrite H5. by apply (asleep_quiet _ _ _ x).
  - by apply (ipi_quiet _ _ _ x).
  - intros Hne. specialize (H7 Hne). etransitivity; [exact H7|].
    pose proof (woken_quiet c (set_interrupts true) s x Hc ltac:(done)) as Hw.
    unfold woken in *. simpl in *. by rewrite Hw.
Qed.

Lemma wp_exit c Q E s : Q () (exited c s) → wp (os_guard_exit c) Q E s.
Proof. done. Qed.

Lemma thread_inv_exited fin c s hand : thread_inv fin s hand → thread_inv fin (exited c s) hand.
Proof.
  intros Hi. apply (thread_inv_same fin s); try done; [|by intros t; apply (same_threads s)].
  intros c'. exact (queue_alter_cpu_same c (set_interrupts true) s (PCpu c') ltac:(done)).
Qed.

Lemma thread_inv_entered fin c s hand : thread_inv fin s hand → thread_inv fin (entered c s) hand.
Proof.
  intros Hi. apply (thread_inv_same fin s); try done; [|by intros t; apply (same_threads s)].
  intros c'. exact (queue_alter_cpu_same c (set_interrupts false) s (PCpu c') ltac:(done)).
Qed.
