(* ===== verification/ThreadsOps.v ===== *)
(** * The thread library: every operation keeps the invariant

    Each operation of [Threads] is run from a state in which the invariant of
    [ThreadsInv] holds and the guard is free; it ends without a failing
    assertion, a null pointer or a guard that is never released, in such a
    state again. *)
From S2P Require Import Prelude Threads ThreadsInv.

Local Open Scope nat_scope.

Lemma lookup_alter_inv {A} (f : A → A) t (m : gmap nat A) u y :
  alter f t m !! u = Some y → ∃ x, m !! u = Some x ∧ y = if decide (u = t) then f x else x.
Proof.
  destruct (decide (u = t)) as [->|]; [|rewrite lookup_alter_ne by done; eauto].
  rewrite lookup_alter_eq. intros (x & Hx & ->)%fmap_Some. eauto.
Qed.

Lemma alter_executing r r' c (m : gmap nat cpu) :
  alter (set_executing r) c (alter (set_executing r') c m) = alter (set_executing r) c m.
Proof.
  apply map_eq. intros c'. destruct (decide (c' = c)) as [->|]; [|by rewrite !lookup_alter_ne].
  rewrite !lookup_alter_eq. by destruct (m !! c).
Qed.

(** ** Between operations *)

Record good (s : state) : Prop := {
  good_threads : thread_inv None s [];
  good_cpus : cpu_inv None s;
}.

(** What an operation of CPU [c] for thread [t0] leaves: the other CPUs have
    their threads, and [c] goes on with [t0] or with a thread that will find
    what it waited for. *)
Record returns (c : nat) (t0 : option nat) (s s' : state) : Prop := {
  ret_good : good s';
  ret_others c' : c' ≠ c → cpu_thread s' c' = cpu_thread s c';
  ret_runs t : cpu_thread s' c = [t] → t0 = Some t ∨ resumable None s' t;
}.

(** An operation on the way: CPU [c], in state [x], has the guard. *)
Record acting (c : nat) (x : cpu) (s : state) : Prop := {
  act_inv : cpu_inv (Some c) s;
  act_cpu : cpus s !! c = Some x;
  act_mode : mode x = UserMode;
}.

Lemma not_suspended c s : cpu_inv (Some c) s → c ∉ suspended_cpus s.
Proof.
  intros Hi (x & Hx & Hm & _)%(ci_suspended _ _ Hi).
  destruct (ci_act _ _ Hi c eq_refl) as (? & ? & ?). by simplify_eq.
Qed.

Lemma cpu_thread_alter c f s c' :
  (∀ x, executing_thread (f x) = executing_thread x) →
  cpu_thread (set_cpus (alter f c) s) c' = cpu_thread s c'.
Proof. intros Hf. exact (queue_alter_cpu_same c f s (PCpu c') Hf). Qed.

Lemma thread_inv_cpus fin c f s hand :
  (∀ x, executing_thread (f x) = executing_thread x) →
  thread_inv fin s hand → thread_inv fin (set_cpus (alter f c) s) hand.
Proof.
  intros Hf Hi. apply (thread_inv_same fin s); try done; [|by intros t; apply (same_threads s)].
  intros c'. by apply cpu_thread_alter.
Qed.

(** ** Resuming a thread *)

Lemma resume_thread_ok c t s x E :
  thread_inv None s [] → cpu_inv (Some c) (set_cpus (alter (set_mode UserMode) c) s) →
  cpus s !! c = Some x → executing_thread x = Some (RunThread t) → resumable None s t →
  wp (resume_thread c t) (λ _ s', good s' ∧ (∀ c', cpu_thread s' c' = cpu_thread s c') ∧
    resumable None s' t) E s.
Proof.
  intros Ht Hc Hx He Hr. set (s1 := set_cpus _ s) in *.
  assert (cpus s1 !! c = Some (set_mode UserMode x)) as Hx1 by (unfold s1; simpl; by rewrite lookup_alter_eq, Hx).
  assert (thread_inv None s1 []) as Ht1 by by apply thread_inv_cpus.
  assert (good (exited c s1) ∧ (∀ c', cpu_thread (exited c s1) c' = cpu_thread s c') ∧
    resumable None (exited c s1) t) as Hend.
  { split; [split|split; [|done]].
    - by apply thread_inv_exited.
    - eapply exited_ok; [done|exact Hx1|]. by exists t.
    - intros c'. unfold exited. rewrite cpu_thread_alter by done. by apply (cpu_thread_alter c _ s). }
  assert (∃ i, threads s !! t = Some i) as [i Hti].
  { unfold resumable, ctx in Hr. destruct (threads s !! t); [eauto|done]. }
  unfold resume_thread. apply op_wp_bind, wp_get, op_wp_bind, (wp_non_null _ i); [done|].
  apply op_wp_bind, wp_update. fold s1. destruct (thread_ctx i) as [| |u|m|m] eqn:Hp; try exact Hend.
  - assert (free (get_mutex s m) = false) as Hf.
    { unfold resumable, ctx in Hr. rewrite Hti in Hr. simpl in Hr. rewrite Hp in Hr. by destruct Hr. }
    apply op_wp_bind, wp_get, op_wp_bind, op_wp_assert; [|exact Hend].
    by change (get_mutex s1 m) with (get_mutex s m); rewrite Hf.
  - apply op_wp_bind, wp_update. apply wp_update. destruct Hend as (Hg & Hct & Hres).
    change (set_cpus (alter (set_interrupts true) c) (set_guard false s1)) with (exited c s1).
    set (s2 := set_threads _ _).
    assert (∀ u, option_Forall2 same_thread (threads s2 !! u) (threads s1 !! u)) as Hsame.
    { intros u. simpl. destruct (decide (u = t)) as [->|]; [|by rewrite lookup_alter_ne; [apply (same_threads s1)|]].
      rewrite lookup_alter_eq, Hti. by constructor. }
    split; [split|split; [done|]].
    + by apply (thread_inv_same None (exited c s1) s2 [] (good_threads _ Hg)).
    + by apply (cpu_inv_fewer None (exited c s1) s2 (good_cpus _ Hg)).
    + unfold resumable, ctx. simpl. rewrite lookup_alter_eq, Hti. simpl. by rewrite Hp.
Qed.

(** A CPU that runs user code, and has no thread or has just parked it. *)
Lemma acting_mode c x s :
  acting c x s → cpu_inv (Some c) (set_cpus (alter (set_mode UserMode) c) s).
Proof. intros [Hi Hx Hm]. apply (cpu_inv_quiet c s _ x Hi Hx). by split; simpl. Qed.

Lemma acting_executing c x r s :
  acting c x s → acting c (set_executing r x) (set_cpus (alter (set_executing r) c) s).
Proof.
  intros [Hi Hx Hm]. split; [by apply (cpu_inv_quiet c s _ x)| |done].
  simpl. by rewrite lookup_alter_eq, Hx.
Qed.

(** ** Waiting for a ready thread *)

(** The waiting thread finds no ready thread: the CPU sleeps. *)
Lemma sleep_ok c t0 s x E :
  thread_inv None s [] → cpu_inv (Some c) s → cpus s !! c = Some x →
  executing_thread x = Some RunWaiting → ready_threads s = [] →
  wp (wait_for_ready_thread c) (λ _, returns c t0 s) E s.
Proof.
  intros Ht Hi Hx He Hr. pose proof (not_suspended _ _ Hi) as Hns. pose proof Hi as [H1 H2 H3 H4 H5 H6 H7].
  assert (ipi x = false) as Hipi.
  { destruct (H3 c eq_refl) as (? & ? & Hm). simplify_eq. destruct (ipi x) eqn:Hp; [|done].
    by destruct Hm; apply (H6 c). }
  unfold wait_for_ready_thread. apply op_wp_bind, wp_get. rewrite Hr.
  apply op_wp_bind, wp_update, op_wp_bind, wp_update. apply wp_update.
  match goal with |- returns _ _ _ ?s' => set (s1 := s') end.
  assert (∀ c', c' ≠ c → cpus s1 !! c' = cpus s !! c') as Hne by (intros; by apply lookup_alter_ne).
  assert (cpus s1 !! c = Some (set_mode Suspended (set_interrupts true x))) as Hx1
    by (simpl; by rewrite lookup_alter_eq, Hx).
  assert (∀ c', cpu_thread s1 c' = cpu_thread s c') as Hct.
  { intros c'. unfold cpu_thread. destruct (decide (c' = c)) as [->|]; [by rewrite Hx1, Hx|by rewrite Hne]. }
  split; [split|by intros c' _; apply Hct|].
  - apply (thread_inv_same None s); try done. intros t. apply (same_threads s).
  - split; try done.
    + intros c' x' Hc' _. destruct (decide (c' = c)) as [->|].
      * rewrite Hx1 in Hc'. by injection Hc' as <-.
      * rewrite Hne in Hc' by done. apply (H2 c'); [done|congruence].
    + apply NoDup_app. split; [done|]. split; [set_solver|apply NoDup_singleton].
    + intros c'. simpl suspended_cpus. rewrite elem_of_app, list_elem_of_singleton, H5.
      destruct (decide (c' = c)) as [->|]; [|rewrite Hne by done; naive_solver].
      rewrite Hx1. split; [intros _; by eexists|by right].
    + intros c' x'. destruct (decide (c' = c)) as [->|]; [|rewrite Hne by done; apply H6].
      rewrite Hx1. by intros [= <-].
    + intros _. simpl. rewrite Hr. simpl. lia.
  - intros t. rewrite Hct. unfold cpu_thread. by rewrite Hx, He.
Qed.

(** A ready thread is taken: [c] executes it from now on. *)
Lemma take_ready c t0 t rest s x E :
  thread_inv None s [] → cpus s !! c = Some x → runs (executing_thread x) = [] → ready_threads s = t :: rest →
  let s1 := set_ready rest (set_cpus (alter (set_executing (Some (RunThread t))) c) s) in
  cpu_inv (Some c) (set_cpus (alter (set_mode UserMode) c) s1) →
  wp (resume_thread c t) (λ _, returns c t0 s) E s1.
Proof.
  intros Ht Hx He Hr s1 Hi.
  assert (cpus s1 !! c = Some (set_executing (Some (RunThread t)) x)) as Hx1
    by (simpl; by rewrite lookup_alter_eq, Hx).
  eapply op_wp_mono; [eapply resume_thread_ok|].
  - by apply (dispatch_ready Ht c x).
  - done.
  - exact Hx1.
  - done.
  - apply (ti_ready _ _ _ Ht). right. rewrite Hr. by left.
  - simpl. intros _ s' (Hg & Hct & Hres).
    assert (∀ c', c' ≠ c → cpu_thread s' c' = cpu_thread s c') as Hne.
    { intros c' Hc'. rewrite Hct. unfold cpu_thread, s1. simpl. by rewrite lookup_alter_ne. }
    split; [done|done|]. intros u. rewrite Hct. unfold cpu_thread. rewrite Hx1. simpl. intros [= <-]. by right.
Qed.

Lemma wait_and_pop_ok c t0 p s x E :
  thread_inv None s [] → acting c x s → runs (executing_thread x) = [] →
  wp (wait_and_pop c None p) (λ _, returns c t0 s) E s.
Proof.
  intros Ht Ha He. pose proof Ha as [Hi Hx Hm]. unfold wait_and_pop. apply op_wp_bind, wp_get, op_wp_bind.
  destruct (ready_threads s) as [|t rest] eqn:Hr.
  - apply op_wp_ret, op_wp_bind, wp_update, op_wp_bind, op_wp_ret. simpl resume.
    pose proof (acting_executing _ _ (Some RunWaiting) _ Ha) as [Hi1 Hx1 Hm1].
    set (s1 := set_cpus _ s) in *.
    assert (∀ c', cpu_thread s1 c' = cpu_thread s c') as Hct.
    { intros c'. unfold cpu_thread. destruct (decide (c' = c)) as [->|].
      - rewrite Hx1, Hx. simpl. symmetry. exact He.
      - unfold s1. simpl. by rewrite lookup_alter_ne. }
    eapply op_wp_mono; [eapply (sleep_ok c t0 s1)|].
    + apply (thread_inv_same None s); try done. intros t. apply (same_threads s).
    + done.
    + exact Hx1.
    + done.
    + done.
    + simpl. intros _ s' [Hg Ho Hrun]. split; [done| |done]. intros c' Hc'. by rewrite Ho, Hct.
  - apply op_wp_bind, wp_update, op_wp_ret, op_wp_bind, wp_update, op_wp_bind, op_wp_ret. simpl resume.
    apply (take_ready c t0 t rest s x); try done.
    set (s1 := set_ready rest _). apply (acting_mode c (set_executing (Some (RunThread t)) x)).
    pose proof (acting_executing _ _ (Some (RunThread t)) _ Ha) as [Hi1 Hx1 Hm1].
    split; [|exact Hx1|done]. eapply cpu_inv_fewer; [exact Hi1|done..|].
    simpl. rewrite Hr. simpl. lia.
Qed.

(** A blocked thread's context is saved on the way: the same as before. *)
Lemma wait_and_pop_curr c t p s :
  wait_and_pop c (Some t) p s = wait_and_pop c None p (set_threads (alter (set_ctx p) t) s).
Proof.
  unfold wait_and_pop, on_cpu, on_thread, update, get, mret, op_ret, mbind, op_bind. simpl.
  destruct (ready_threads s); reflexivity.
Qed.

(** ** Waking *)

(** What [push_and_signal] does. *)
Record pushed (c t : nat) (s s' : state) : Prop := {
  pu_ready : ready_threads s' = ready_threads s ++ [t];
  pu_cpu : cpus s' !! c = cpus s !! c;
  pu_threads_cpu c' : cpu_thread s' c' = cpu_thread s c';
  pu_finished : finished_threads s' = finished_threads s;
  pu_threads : threads s' = threads s;
  pu_next : next_thread s' = next_thread s;
  pu_mutexes : mutexes s' = mutexes s;
  pu_cvs : cvs s' = cvs s;
}.

Lemma woken_wake c x s :
  cpus s !! c = Some x → ¬ awake x →
  size (woken (set_cpus (alter (set_ipi true) c) s)) = S (size (woken s)).
Proof.
  intros Hc Hn. assert (woken (set_cpus (alter (set_ipi true) c) s) = {[c]} ∪ woken s) as ->.
  { apply set_eq. intros c'. rewrite elem_of_union, elem_of_singleton, !elem_of_woken. simpl.
    destruct (decide (c' = c)) as [->|]; [|rewrite lookup_alter_ne by done; naive_solver].
    rewrite lookup_alter_eq, Hc. simpl. split; [by left|]. intros _. eexists. split; [done|by left]. }
  rewrite size_union.
  - by rewrite size_singleton.
  - apply disjoint_singleton_l. intros (y & Hy & Ha)%elem_of_woken. by simplify_eq.
Qed.

(** The queue gets one longer, and a sleeping CPU, if there is one, is woken. *)
Lemma push_inv fin c t hand s :
  thread_inv fin s (t :: hand) → cpu_inv (Some c) s →
  match push_and_signal t s with
  | Done _ s' => thread_inv fin s' hand ∧ cpu_inv (Some c) s' ∧ pushed c t s s'
  | _ => False
  end.
Proof.
  intros Ht Hi. pose proof (make_ready Ht t hand eq_refl) as Ht1. pose proof (not_suspended _ _ Hi) as Hns.
  pose proof Hi as [H1 H2 H3 H4 H5 H6 H7].
  unfold push_and_signal, on_cpu, update, get, mret, op_ret, mbind, op_bind. simpl.
  destruct (suspended_cpus s) as [|w rest] eqn:Hs.
  { split; [done|]. split; [|done]. split; simpl; by rewrite ?Hs. }
  apply NoDup_cons in H4 as [Hw Hrest].
  destruct (proj1 (H5 w) ltac:(by left)) as (xw & Hxw & Hmw & Hiw).
  assert (w ≠ c) as Hwc by (intros ->; apply Hns; by left).
  set (s1 := set_ready _ s) in *. set (s' := set_cpus (alter (set_ipi true) w) (set_suspended rest s1)).
  assert (∀ c', c' ≠ w → cpus s' !! c' = cpus s !! c') as Hne by (intros; by apply lookup_alter_ne).
  assert (cpus s' !! w = Some (set_ipi true xw)) as Hxw' by (simpl; by rewrite lookup_alter_eq, Hxw).
  assert (∀ c', cpu_thread s' c' = cpu_thread s c') as Hct by (intros c'; by apply (cpu_thread_alter w _ s)).
  split; [|split; [|split; try done; by apply Hne]].
  - apply (thread_inv_same fin s1); try done. intros u. apply (same_threads s1).
  - split; try done.
    + intros c' x' Hc' Hnc. destruct (decide (c' = w)) as [->|].
      * rewrite Hxw' in Hc'. injection Hc' as <-. by apply (H2 w xw).
      * rewrite Hne in Hc' by done. by apply (H2 c').
    + intros c' [= <-]. rewrite Hne by done. by apply H3.
    + intros c'. simpl suspended_cpus. destruct (decide (c' = w)) as [->|Hcw].
      * rewrite Hxw'. split; [done|]. by intros (? & [= <-] & _ & ?).
      * rewrite Hne by done. rewrite <- H5, elem_of_cons. naive_solver.
    + intros c' x'. destruct (decide (c' = w)) as [->|]; [|rewrite Hne by done; apply H6].
      rewrite Hxw'. by intros [= <-].
    + intros _. change (ready_threads s') with (ready_threads s ++ [t]). rewrite length_app. simpl length.
      transitivity (S (length (ready_threads s))); [lia|].
      assert (size (woken s') = S (size (woken s))) as ->.
      { apply (woken_wake w xw s Hxw). intros [?|?]; congruence. }
      apply le_n_S, H7. done.
Qed.

(** ** Having a mutex *)

(** A thread has a mutex. *)
Definition holds (s : state) (m t : nat) : Prop := free (get_mutex s m) = false ∧ owner s m = Some t.

#[export] Instance holds_dec s m t : Decision (holds s m t).
Proof. unfold holds. apply _. Defined.

Lemma not_holds s m t :
  free (get_mutex s m) || negb (bool_decide (owner s m = Some t)) = true ↔ ¬ holds s m t.
Proof.
  unfold holds. destruct (free (get_mutex s m)); simpl; [split; [by intros _ []|done]|].
  rewrite negb_true_iff, bool_decide_eq_false. tauto.
Qed.

(** ** Operations of a user thread *)

Section calls.
Context (c t : nat) (s0 : state) (E : state → Prop).

(** CPU [c] executes an operation that thread [t] called in state [s0]. *)
Record inside (fin : option nat) (hand : list nat) (x : cpu) (s : state) : Prop := {
  in_threads : thread_inv fin s hand;
  in_acting : acting c x s;
  in_thread : executing_thread x = Some (RunThread t);
  in_others c' : c' ≠ c → cpu_thread s c' = cpu_thread s0 c';
}.

(** An operation that ends; [E] is what an exception leaves. *)
Abbreviation ends m s := (wp m (λ _ : (), returns c (Some t) s0) E s).

Lemma returns_from s s' :
  returns c (Some t) s s' → (∀ c', c' ≠ c → cpu_thread s c' = cpu_thread s0 c') → returns c (Some t) s0 s'.
Proof. intros [Hg Ho Hr] Hs. split; [done| |done]. intros c' Hc'. by rewrite Ho, Hs. Qed.

Lemma inside_running fin hand x s : inside fin hand x s → cpu_thread s c = [t].
Proof. intros [_ [_ Hx _] He _]. unfold cpu_thread. by rewrite Hx, He. Qed.

Lemma inside_alive fin hand x s : inside fin hand x s → ∃ i, threads s !! t = Some i.
Proof.
  intros Hin. apply (placed_alive _ _ (ti_placed _ _ _ (in_threads _ _ _ _ Hin))). right.
  exists (PCpu c). simpl. rewrite (inside_running _ _ _ _ Hin). by left.
Qed.

(** The calling thread is on no queue. *)
Lemma inside_nowhere fin hand x s p : inside fin hand x s → p ≠ PCpu c → t ∉ queue s p.
Proof.
  intros Hin Hp Hq. apply Hp. eapply (placed_unique _ _ (ti_placed _ _ _ (in_threads _ _ _ _ Hin))); [done|].
  simpl. rewrite (inside_running _ _ _ _ Hin). by left.
Qed.

Lemma inside_not_hand fin hand x s u : inside fin hand x s → u ∈ hand ∨ u ∈ ready_threads s → u ≠ t.
Proof.
  intros Hin Hu ->. destruct Hu as [Hu|Hu].
  - eapply (placed_hand _ _ (ti_placed _ _ _ (in_threads _ _ _ _ Hin)) t (PCpu c) Hu).
    simpl. rewrite (inside_running _ _ _ _ Hin). by left.
  - by eapply (inside_nowhere _ _ _ _ PReady).
Qed.

Lemma inside_not_finished fin hand x s i : inside fin hand x s → threads s !! t = Some i → finished i = false.
Proof.
  intros Hin Ht. destruct (finished i) eqn:Hf; [|done].
  apply (ti_finished _ _ _ (in_threads _ _ _ _ Hin) _ _ Ht) in Hf.
  by destruct (inside_nowhere _ _ _ _ PFinished Hin ltac:(done)).
Qed.

(** A change of the threads' part of the state only. *)
Lemma inside_change fin fin' hand hand' x s s' :
  inside fin hand x s → thread_inv fin' s' hand' → guard s' = guard s → cpus s' = cpus s →
  suspended_cpus s' = suspended_cpus s → ready_threads s' = ready_threads s → inside fin' hand' x s'.
Proof.
  intros [Ht [Hi Hx Hm] He Ho] Ht' Hg Hc Hs Hr. split; try done.
  - split; [|by rewrite Hc|done]. eapply cpu_inv_fewer; try done. by rewrite Hr.
  - intros c'. unfold cpu_thread. rewrite Hc. apply Ho.
Qed.

(** Thread [t], in user code on [c], is about to call an operation. *)
Record caller (x : cpu) (s : state) : Prop := {
  ca_good : good s;
  ca_others c' : c' ≠ c → cpu_thread s c' = cpu_thread s0 c';
  ca_cpu : cpus s !! c = Some x;
  ca_mode : mode x = UserMode;
  ca_thread : executing_thread x = Some (RunThread t);
}.

Lemma begin_ok {A} (k : () → op A) x Q s :
  caller x s →
  (inside None [] (set_interrupts false x) (entered c s) → wp (k ()) Q E (entered c s)) →
  wp (os_guard_enter c ≫= k) Q E s.
Proof.
  intros [[Ht Hi] Ho Hx Hm He] Hk. apply (enter_ok k c x); [done..|congruence|]. intros Hi'. apply Hk. split.
  - by apply thread_inv_entered.
  - split; [done| |done]. simpl. by rewrite lookup_alter_eq, Hx.
  - done.
  - intros c' Hc'. unfold entered. rewrite <- Ho by done. by apply (cpu_thread_alter c _ s).
Qed.

Lemma exit_returns x s : inside None [] x s → returns c (Some t) s0 (exited c s).
Proof.
  intros [Ht [Hi Hx Hm] He Ho]. split.
  - split; [by apply thread_inv_exited|]. eapply exited_ok; [done..|]. unfold runs_its_mode. rewrite Hm. eauto.
  - intros c' Hc'. rewrite <- Ho by done. by apply (cpu_thread_alter c _ (set_guard false s)).
  - intros u. unfold exited. rewrite cpu_thread_alter by done.
    change (cpu_thread (set_guard false s) c) with (cpu_thread s c). unfold cpu_thread. rewrite Hx, He.
    intros [= <-]. by left.
Qed.

Lemma exit_ok x s : inside None [] x s → ends (os_guard_exit c) s.
Proof. intros Hin. apply wp_exit. by apply (exit_returns x). Qed.

Lemma this_thread_ok {A} (k : nat → op A) fin hand x Q s :
  inside fin hand x s → wp (k t) Q E s → wp (this_thread c ≫= k) Q E s.
Proof.
  intros [_ [_ Hx _] He _] Hk. apply op_wp_bind. unfold this_thread, this_running.
  apply op_wp_bind, op_wp_bind, wp_get, op_wp_bind, (wp_non_null _ x); [done|]. apply op_wp_ret. by rewrite He.
Qed.

Lemma push_end fin hand u x (Q : () → state → Prop) s :
  inside fin (u :: hand) x s → (∀ s', inside fin hand x s' → pushed c u s s' → Q () s') →
  wp (push_and_signal u) Q E s.
Proof.
  intros [Ht [Hi Hx Hm] He Ho] HQ. pose proof (push_inv fin c u hand s Ht Hi) as Hp. unfold wp.
  destruct (push_and_signal u s) as [[] s'| | | |]; try done. destruct Hp as (Ht' & Hi' & Hp).
  apply HQ; [|done]. split; [done| |done|].
  - split; [done| |done]. by rewrite (pu_cpu _ _ _ _ Hp).
  - intros c' Hc'. rewrite (pu_threads_cpu _ _ _ _ Hp). by apply Ho.
Qed.

Lemma push_inside {A} (k : () → op A) fin hand u x Q s :
  inside fin (u :: hand) x s →
  (∀ s', inside fin hand x s' → pushed c u s s' → wp (k ()) Q E s') →
  wp (push_and_signal u ≫= k) Q E s.
Proof. intros Hin Hk. by eapply op_wp_bind, push_end. Qed.

(** The calling thread is parked by [f], and the CPU looks for another one. *)
Lemma block_ok p f x s :
  inside None [] x s →
  let s1 := set_threads (alter (set_ctx p) t) (f (set_cpus (alter (set_executing None) c) s)) in
  thread_inv None s1 [] →
  (∀ s', guard (f s') = guard s' ∧ cpus (f s') = cpus s' ∧ suspended_cpus (f s') = suspended_cpus s' ∧
    ready_threads (f s') = ready_threads s') →
  wp (_ ← on_cpu c (set_executing None); _ ← update f; wait_and_pop c (Some t) p)
    (λ _, returns c (Some t) s0) E s.
Proof.
  intros Hin s1 Ht1 Hf. destruct (Hf (set_cpus (alter (set_executing None) c) s)) as (Hg & Hc & Hs & Hr).
  apply op_wp_bind, wp_update, op_wp_bind, wp_update. unfold wp. rewrite wait_and_pop_curr.
  fold s1. pose proof (acting_executing _ _ None _ (in_acting _ _ _ _ Hin)) as Ha.
  assert (acting c (set_executing None x) s1) as Ha1.
  { destruct Ha as [Hi Hx Hm]. split; [|by simpl; rewrite Hc|done].
    eapply cpu_inv_fewer; [exact Hi|done..|]. simpl. by rewrite Hr. }
  pose proof (wait_and_pop_ok c (Some t) p s1 _ E Ht1 Ha1 ltac:(done)) as Hw.
  unfold wp in Hw. destruct (wait_and_pop c None p s1) as [[] s'| | | |]; try done.
  apply (returns_from s1); [done|]. intros c' Hc'. rewrite <- (in_others _ _ _ _ Hin) by done.
  unfold cpu_thread, s1. simpl. rewrite Hc. simpl. by rewrite lookup_alter_ne.
Qed.

(** *** Threads *)

(** Creating a thread needs no more than the acting CPU. *)
Lemma create_ok {A} (k : nat → op A) fin hand x Q s :
  inside fin hand x s →
  (∀ s', inside fin (next_thread s :: hand) x s' → wp (k (next_thread s)) Q E s') →
  wp (create_thread ≫= k) Q E s.
Proof.
  intros Hin Hk. apply op_wp_bind. unfold create_thread.
  apply op_wp_bind, wp_get, op_wp_bind, wp_update, op_wp_bind, wp_update, op_wp_ret, Hk.
  eapply inside_change; [exact Hin|apply (new_thread (in_threads _ _ _ _ Hin))|done..].
Qed.

Lemma thread_create_ok x s :
  caller x s → wp (thread_create c) (λ _, returns c (Some t) s0) E s.
Proof.
  intros Hc. unfold thread_create. apply (begin_ok _ x); [done|]. intros Hin.
  eapply create_ok; [exact Hin|]. intros s1 H1. eapply push_inside; [exact H1|]. intros s2 H2 _.
  apply op_wp_bind, wp_exit, op_wp_ret. by eapply exit_returns.
Qed.

Lemma thread_join_ok target x s : caller x s → ends (thread_join c target) s.
Proof.
  intros Hc. unfold thread_join. apply (begin_ok _ x); [done|]. clear Hc. generalize (entered c s).
  clear s. generalize (set_interrupts false x). clear x. intros x s.
  intros Hin. pose proof Hin as [Ht Ha He Ho]. apply op_wp_bind, wp_get.
  destruct (threads s !! target) as [i|] eqn:Hi; [|by apply (exit_ok x)].
  destruct (finished i) eqn:Hfi; [by apply (exit_ok x)|].
  eapply this_thread_ok; [exact Hin|]. apply (block_ok _ _ x); [done| |done].
  set (s1 := set_threads (alter (set_ctx (AtJoin target)) t) _).
  destruct (inside_alive _ _ _ _ Hin) as [it Hit].
  assert (∀ u i', threads s1 !! u = Some i' → ∃ i, threads s !! u = Some i ∧ finished i' = finished i ∧
    (u ≠ target → threads_waiting i' = threads_waiting i)) as Hth.
  { intros u i' (j & (j' & Hj & ->)%lookup_alter_inv & ->)%lookup_alter_inv. exists j'. split; [done|].
    split; [by repeat case_decide|]. intros Hu. rewrite (decide_False (P := u = target)) by done. by case_decide. }
  apply (park Ht c x t (PJoin target) (AtJoin target)); try done.
  - apply Ha.
  - intros r. unfold s1, on_thread. rewrite queue_alter_thread_same by done.
    rewrite (queue_alter_thread _ _ i) by done. rewrite (queue_alter_cpu _ _ x) by apply Ha.
    simpl. unfold join_queue. rewrite Hi. repeat case_decide; by subst.
  - intros u. unfold ctx, s1. simpl.
    case_decide as Hu; [subst u; rewrite lookup_alter_eq|rewrite lookup_alter_ne by done].
    + destruct (decide (t = target)) as [->|]; [rewrite lookup_alter_eq|rewrite lookup_alter_ne by done]; by rewrite Hit.
    + destruct (decide (u = target)) as [->|]; [|by rewrite lookup_alter_ne].
      rewrite lookup_alter_eq. by destruct (threads s !! target).
  - apply (ti_mutex _ _ _ Ht).
  - split; [done|]. split.
    + intros u. unfold s1. by rewrite !alive_alter_thread.
    + intros u i' Hu. destruct (Hth u i' Hu) as (j & Hj & Hf & Hw). exists j. split; [done|]. split; [done|].
      intros Hfj. apply Hw. intros ->. congruence.
Qed.

Lemma thread_yield_ok x s : caller x s → ends (thread_yield c) s.
Proof.
  intros Hc. unfold thread_yield. apply (begin_ok _ x); [done|]. clear Hc. generalize (entered c s).
  clear s. generalize (set_interrupts false x). clear x. intros x s.
  intros Hin. pose proof Hin as [Ht Ha He Ho].
  apply op_wp_bind, op_wp_bind, wp_get, op_wp_bind, (wp_non_null _ x); [apply Ha|]. apply op_wp_ret.
  rewrite He, decide_False by done. apply op_wp_bind, wp_get.
  destruct (ready_threads s) as [|u rest] eqn:Hr; [by apply (exit_ok x)|].
  eapply this_thread_ok; [exact Hin|]. apply op_wp_bind, wp_update, op_wp_bind, wp_get.
  simpl. rewrite Hr. simpl. apply op_wp_bind, (wp_non_null _ u); [done|].
  apply op_wp_bind, wp_update, op_wp_bind, wp_update, op_wp_bind, wp_update.
  destruct (inside_alive _ _ _ _ Hin) as [it Hit].
  set (s1 := set_threads (alter (set_ctx AtYield) t)
    (set_ready (u :: rest ++ [t]) (set_cpus (alter (set_executing None) c) s))).
  match goal with |- wp _ _ _ ?s' =>
    assert (s' = set_ready (rest ++ [t]) (set_cpus (alter (set_executing (Some (RunThread u))) c) s1)) as -> end.
  { unfold s1, set_cpus, set_ready, set_threads. simpl. by rewrite alter_executing. }
  assert (thread_inv None s1 []) as Ht1.
  { apply (park Ht c x t PReady AtYield); try done.
    - apply Ha.
    - intros r. unfold s1. rewrite queue_alter_thread_same, queue_set_ready by done.
      rewrite (queue_alter_cpu _ _ x) by apply Ha. simpl. rewrite Hr. repeat case_decide; by subst.
    - intros v. unfold ctx, s1. simpl. case_decide; [subst; by rewrite lookup_alter_eq, Hit|by rewrite lookup_alter_ne].
    - intros _. unfold resumable, ctx. simpl. by rewrite lookup_alter_eq, Hit.
    - apply (ti_mutex _ _ _ Ht).
    - split; [done|]. split; [intros v; apply (alive_alter_thread t _ s)|].
      intros v i' (i & Hi & ->)%lookup_alter_inv. exists i. split; [done|]. by case_decide. }
  pose proof (acting_executing _ _ None _ Ha) as Ha1.
  pose proof (acting_executing _ _ (Some (RunThread u)) _ Ha1) as [Hi2 Hx2 Hm2].
  eapply op_wp_mono; [apply (take_ready c (Some t) u (rest ++ [t]) s1 (set_executing None x)); try done|].
  - apply (act_cpu _ _ _ Ha1).
  - apply (acting_mode c (set_executing (Some (RunThread u)) (set_executing None x))). split; [|done..].
    eapply cpu_inv_fewer; [exact Hi2|done..|]. simpl. rewrite Hr, length_app. simpl. lia.
  - simpl. intros _ s' Hret. apply (returns_from s1); [done|]. intros c' Hc'. rewrite <- Ho by done.
    unfold cpu_thread, s1. simpl. by rewrite lookup_alter_ne.
Qed.

(** The calling thread is about to finish: who joins it may go on. *)
Lemma finishing hand x s : inside None hand x s → inside (Some t) hand x s.
Proof.
  intros Hin. eapply inside_change; [exact Hin| |done..].
  destruct (in_threads _ _ _ _ Hin) as [Hp Hm Hb Hr Hf Hn]. split; try done.
  intros u Hu. apply (resumable_mono None (Some t) s); [by apply Hr|done..|].
  intros v [Hv [?|Hd]]; [done|split; [done|by right]].
Qed.

Lemma wake_waiting_ok l x s Q :
  inside (Some t) [] x s → join_queue s t = l →
  (∀ s', inside (Some t) [] x s' → join_queue s' t = [] → Q () s') →
  wp (wake_waiting t l) Q E s.
Proof.
  revert s; induction l as [|u l IH]; intros s Hin Hl HQ; [by apply HQ|]. simpl.
  apply op_wp_bind, wp_update. pose proof Hin as [Ht [Hi Hx Hm] He Ho].
  destruct (inside_alive _ _ _ _ Hin) as [it Hit].
  pose proof (inside_not_finished _ _ _ _ _ Hin Hit) as Hnf.
  set (s1 := set_threads _ s).
  assert (ctx s u = Some (AtJoin t)) as Hctx.
  { apply (ti_blocked _ _ _ Ht u (PJoin t)). simpl. rewrite Hl. by left. }
  assert (∀ v, ctx s1 v = ctx s v) as Hctx1.
  { intros v. unfold ctx, s1. simpl. destruct (decide (v = t)) as [->|]; [|by rewrite lookup_alter_ne].
    by rewrite lookup_alter_eq, Hit. }
  assert (inside (Some t) [u] x s1) as Hin1.
  { eapply inside_change; [exact Hin| |done..].
    apply (unpark Ht (PJoin t) u l); try done.
    - intros r. unfold s1. by rewrite (queue_alter_thread _ _ it).
    - unfold resumable. rewrite Hctx1, Hctx. split; [|by left].
      apply (placed_next _ _ (ti_placed _ _ _ Ht)). by exists it.
    - apply (ti_mutex _ _ _ Ht).
    - split; [done|]. split; [intros v; apply (alive_alter_thread t _ s)|].
      intros v i' (i & Hvi & ->)%lookup_alter_inv. exists i. split; [done|]. case_decide; [|done].
      subst v. split; [done|]. intros ?. congruence. }
  eapply push_inside; [exact Hin1|]. intros s2 Hin2 Hp. apply IH; [done| |done].
  unfold join_queue. rewrite (pu_threads _ _ _ _ Hp). simpl. by rewrite lookup_alter_eq, Hit.
Qed.

Lemma thread_finish_ok x s : caller x s → ends (thread_finish c) s.
Proof.
  intros Hc. unfold thread_finish. apply (begin_ok _ x); [done|]. clear Hc. generalize (entered c s).
  clear s. generalize (set_interrupts false x). clear x. intros x s Hin.
  apply op_wp_bind, wp_update, op_wp_bind, wp_update. set (s1 := set_finished_threads [] _).
  assert (inside (Some t) [] x s1) as Hin1.
  { apply finishing. eapply inside_change; [exact Hin|by apply (free_finished (in_threads _ _ _ _ Hin))|done..]. }
  clearbody s1. eapply this_thread_ok; [exact Hin1|].
  destruct (inside_alive _ _ _ _ Hin1) as [it Hit].
  apply op_wp_bind, wp_get, op_wp_bind, (wp_non_null _ it); [done|]. apply op_wp_bind.
  apply (wake_waiting_ok _ x); [done|by unfold join_queue; rewrite Hit|].
  intros s2 Hin2 Hq. pose proof Hin2 as [Ht2 Ha2 He2 Ho2].
  apply op_wp_bind, wp_update, op_wp_bind, wp_update, op_wp_bind, wp_update.
  pose proof (acting_executing _ _ None _ Ha2) as [Hi3 Hx3 Hm3].
  eapply op_wp_mono; [apply (wait_and_pop_ok c (Some t) AtStart _ (set_executing None x))|].
  - apply (mark_finished s2 [] c x t); try done. apply Ha2.
  - split; [|done..]. by eapply cpu_inv_fewer; [exact Hi3|..].
  - done.
  - simpl. intros _ s' Hret. eapply returns_from; [exact Hret|]. intros c' Hc'. rewrite <- Ho2 by done.
    unfold cpu_thread. simpl. by rewrite lookup_alter_ne.
Qed.

(** *** Mutexes *)

Lemma lock_return_ok x m s : inside None [] x s → free (get_mutex s m) = false → ends (lock_return c m) s.
Proof.
  intros Hin Hf. apply op_wp_bind, wp_get, op_wp_bind, op_wp_assert; [by rewrite Hf|]. by apply (exit_ok x).
Qed.

(** A mutex that the calling thread, and no thread that is about to run, has. *)
Lemma set_owner m y x s :
  inside None [] x s → waiting_threads y = waiting_threads (get_mutex s m) → mutex_ok y →
  (∀ u, owned_thread (get_mutex s m) = Some u → u = t) → inside None [] x (set_mutex m y s).
Proof.
  intros Hin Hw Hy Ho. eapply inside_change; [exact Hin| |done..].
  apply (change_owner (in_threads _ _ _ _ Hin)); [done..|]. intros u Hu Hmu.
  by eapply inside_not_hand; [exact Hin|exact Hu|apply Ho].
Qed.

Lemma mutex_lock_ok m x s : caller x s → ends (mutex_lock c m) s.
Proof.
  intros Hc. unfold mutex_lock. apply (begin_ok _ x); [done|]. clear Hc. generalize (entered c s).
  clear s. generalize (set_interrupts false x). clear x. intros x s Hin.
  pose proof Hin as [Ht Ha He Ho]. pose proof (ti_mutex _ _ _ Ht m) as Hok.
  apply op_wp_bind, wp_get. unfold mutex_ok in Hok.
  destruct (free (get_mutex s m)) eqn:Hf; (eapply this_thread_ok; [exact Hin|]).
  - destruct Hok as [Hown Hw]. apply op_wp_bind, wp_update. apply (lock_return_ok x).
    + apply set_owner; [done|done|by eexists|by rewrite Hown].
    + by rewrite get_set_mutex, decide_True.
  - apply (block_ok _ _ x); [done| |done]. set (s1 := set_threads (alter _ t) _).
    destruct (inside_alive _ _ _ _ Hin) as [it Hit].
    assert (∀ m', get_mutex s1 m' =
      if decide (m' = m) then Mutex false (owned_thread (get_mutex s m)) (waiting_threads (get_mutex s m) ++ [t])
      else get_mutex s m') as Hgm.
    { intros m'. etransitivity; [apply (get_set_mutex (s := set_cpus (alter (set_executing None) c) s))|].
      change (get_mutex (set_cpus (alter (set_executing None) c) s)) with (get_mutex s). by rewrite Hf. }
    apply (park Ht c x t (PMutex m) (AtLock m)); try done.
    + apply Ha.
    + intros r. unfold s1. rewrite queue_alter_thread_same, queue_set_mutex by done.
      rewrite (queue_alter_cpu _ _ x) by apply Ha. simpl. repeat case_decide; by subst.
    + intros v. unfold ctx, s1. simpl. case_decide; [subst; by rewrite lookup_alter_eq, Hit|by rewrite lookup_alter_ne].
    + intros m'. rewrite Hgm. case_decide; [subst; by split|done].
    + intros m'. rewrite Hgm. case_decide; [by unfold mutex_ok|apply (ti_mutex _ _ _ Ht)].
    + split; [done|]. split; [intros v; apply (alive_alter_thread t _ s)|].
      intros v i' (i & Hi & ->)%lookup_alter_inv. exists i. split; [done|]. by case_decide.
Qed.

Lemma owner_owned s m u : owner s m = Some u → owned_thread (get_mutex s m) = Some u.
Proof.
  unfold owner. destruct (owned_thread (get_mutex s m)) as [v|]; [|done]. by destruct (threads s !! v).
Qed.

Lemma unlock_mutex_ok {A} (k : () → op A) m x Q s :
  (¬ holds s m t → ∀ s', returns c (Some t) s0 s' → E s') → inside None [] x s →
  (∀ s', inside None [] x s' → wp (k ()) Q E s') → wp (unlock_mutex c m ≫= k) Q E s.
Proof.
  intros HE Hin Hk. apply op_wp_bind. unfold unlock_mutex. eapply this_thread_ok; [exact Hin|].
  apply op_wp_bind, wp_get. destruct (free (get_mutex s m) || _) eqn:Hthrow.
  { apply op_wp_bind, wp_exit. unfold throw, wp. apply HE; [by apply not_holds|by apply (exit_returns x)]. }
  apply orb_false_iff in Hthrow as [Hf Hown%negb_false_iff%bool_decide_eq_true%owner_owned].
  destruct (waiting_threads (get_mutex s m)) as [|u rest] eqn:Hw.
  { apply wp_update, Hk, set_owner; try done. rewrite Hown. by intros u [= ->]. }
  pose proof Hin as [Ht Ha He Ho]. apply op_wp_bind, wp_update. set (s1 := set_mutex _ _ s).
  assert (inside None [u] x s1) as Hin1.
  { eapply inside_change; [exact Hin| |done..].
    apply (unpark Ht (PMutex m) u rest); try done.
    - intros r. unfold s1. by rewrite queue_set_mutex.
    - unfold resumable. change (ctx s1 u) with (ctx s u).
      assert (ctx s u = Some (AtLock m)) as ->.
      { apply (ti_blocked _ _ _ Ht u (PMutex m)). simpl. rewrite Hw. by left. }
      unfold s1. by rewrite get_set_mutex, decide_True.
    - intros v m' Hv Hmv. unfold s1. rewrite get_set_mutex. case_decide; [|done]. subst m'.
      rewrite Hown in Hmv. injection Hmv as ->. by destruct (inside_not_hand _ _ _ _ _ Hin Hv).
    - apply (mutexes_ok Ht). by eexists.
    - apply mutexes_kept. }
  eapply push_end; [exact Hin1|]. intros s2 Hin2 _. by apply Hk.
Qed.

Lemma mutex_unlock_ok m x s :
  (¬ holds s m t → ∀ s', returns c (Some t) s0 s' → E s') → caller x s → ends (mutex_unlock c m) s.
Proof.
  intros HE Hc. unfold mutex_unlock. apply (begin_ok _ x); [done|]. intros Hin.
  eapply unlock_mutex_ok; [exact HE|exact Hin|]. intros s' Hin'. by eapply exit_ok.
Qed.

(** *** Condition variables *)

(** A thread waiting on a condition variable is taken off its queue. *)
Lemma unpark_cv v u rest x s :
  inside None [] x s → get_cv s v = u :: rest → inside None [u] x (set_cv v rest s).
Proof.
  intros Hin Hv. pose proof (in_threads _ _ _ _ Hin) as Ht. eapply inside_change; [exact Hin| |done..].
  apply (unpark Ht (PCv v) u rest); try done.
  - intros r. by rewrite queue_set_cv.
  - destruct (ti_blocked _ _ _ Ht u (PCv v)) as [m Hm]; [simpl; rewrite Hv; by left|].
    unfold resumable. change (ctx (set_cv v rest s) u) with (ctx s u). by rewrite Hm.
  - apply (ti_mutex _ _ _ Ht).
  - split; [done|]. split; [done|]. simpl. eauto.
Qed.

Lemma cv_wait_ok v m x s :
  (¬ holds s m t → ∀ s', returns c (Some t) s0 s' → E s') → caller x s → ends (cv_wait c v m) s.
Proof.
  intros HE Hc. unfold cv_wait. apply (begin_ok _ x); [done|]. clear Hc.
  change (holds s m t) with (holds (entered c s) m t) in HE. revert HE. generalize (entered c s).
  clear s. generalize (set_interrupts false x). clear x. intros x s0' HE Hin0.
  eapply unlock_mutex_ok; [exact HE|exact Hin0|]. clear s0' HE Hin0. intros s Hin. pose proof Hin as [Ht Ha He Ho].
  eapply this_thread_ok; [exact Hin|]. apply (block_ok _ _ x); [done| |done].
  set (s1 := set_threads (alter _ t) _). destruct (inside_alive _ _ _ _ Hin) as [it Hit].
  apply (park Ht c x t (PCv v) (AtWait m)); try done.
  - apply Ha.
  - intros r. unfold s1. rewrite queue_alter_thread_same, queue_set_cv by done.
    rewrite (queue_alter_cpu _ _ x) by apply Ha. simpl. repeat case_decide; by subst.
  - intros u. unfold ctx, s1. simpl. case_decide; [subst; by rewrite lookup_alter_eq, Hit|by rewrite lookup_alter_ne].
  - by eexists.
  - apply (ti_mutex _ _ _ Ht).
  - split; [done|]. split; [intros u; apply (alive_alter_thread t _ s)|].
    intros u i' (i & Hi & ->)%lookup_alter_inv. exists i. split; [done|]. by case_decide.
Qed.

Lemma cv_signal_ok v x s : caller x s → ends (cv_signal c v) s.
Proof.
  intros Hc. unfold cv_signal. apply (begin_ok _ x); [done|]. clear Hc. generalize (entered c s).
  clear s. generalize (set_interrupts false x). clear x. intros x s Hin.
  apply op_wp_bind, wp_get, op_wp_bind. destruct (get_cv s v) as [|u rest] eqn:Hv.
  { apply op_wp_ret. by apply (exit_ok x). }
  apply op_wp_bind, wp_update. eapply push_end; [by apply unpark_cv|]. intros s' Hin' _. by apply (exit_ok x).
Qed.

Lemma cv_wake_all_ok v l x s Q :
  inside None [] x s → get_cv s v = l → (∀ s', inside None [] x s' → get_cv s' v = [] → Q () s') →
  wp (cv_wake_all v l) Q E s.
Proof.
  revert s; induction l as [|u l IH]; intros s Hin Hl HQ; [by apply HQ|]. simpl.
  apply op_wp_bind, wp_update. eapply push_inside; [by apply unpark_cv|]. intros s' Hin' Hp.
  apply IH; [done| |done]. unfold get_cv. rewrite (pu_cvs _ _ _ _ Hp). simpl. by rewrite lookup_insert_eq.
Qed.

Lemma cv_broadcast_ok v x s : caller x s → ends (cv_broadcast c v) s.
Proof.
  intros Hc. unfold cv_broadcast. apply (begin_ok _ x); [done|]. clear Hc. generalize (entered c s).
  clear s. generalize (set_interrupts false x). clear x. intros x s Hin.
  apply op_wp_bind, wp_get, op_wp_bind. apply (cv_wake_all_ok v _ x); [done|done|]. intros s' Hin' Hv.
  apply op_wp_bind, wp_get, op_wp_bind, op_wp_assert; [by apply bool_decide_eq_true|]. by apply (exit_ok x).
Qed.

(** Only [unlock] and [wait] throw, and only without the mutex. *)
Definition may_throw (k : call) (s : state) : Prop :=
  match k with Unlock m | Wait _ m => ¬ holds s m t | _ => False end.

Lemma perform_ok k x s :
  (may_throw k s → ∀ s', returns c (Some t) s0 s' → E s') → caller x s → ends (perform c k) s.
Proof.
  intros HE Hc. destruct k; simpl.
  - apply op_wp_bind. eapply op_wp_mono; [by eapply thread_create_ok|]. intros u s' Hr. by apply op_wp_ret.
  - by eapply thread_yield_ok.
  - by eapply thread_join_ok.
  - by eapply thread_finish_ok.
  - by eapply mutex_lock_ok.
  - eapply mutex_unlock_ok; [by apply HE|done].
  - eapply cv_wait_ok; [by apply HE|done].
  - by eapply cv_signal_ok.
  - by eapply cv_broadcast_ok.
Qed.

Lemma calling_ok k x s : caller x s → wp (calling t k) (λ _, caller x) E s.
Proof.
  intros Hc. assert (caller x (set_threads (alter (set_pc None) t) s)) as Hc'; [|by destruct k].
  destruct Hc as [[Ht Hi] Ho Hx Hm He]. split; try done. split.
  - apply (thread_inv_same None s); try done. intros u. simpl.
    destruct (decide (u = t)) as [->|]; [|by rewrite lookup_alter_ne; [apply (same_threads s)|]].
    rewrite lookup_alter_eq. destruct (threads s !! t); by constructor.
  - by eapply cpu_inv_fewer.
Qed.

End calls.

(** The state in which thread [t] has called [k]. *)
Definition called (t : nat) (k : call) (s : state) : state :=
  match k with Yield => s | _ => set_threads (alter (set_pc None) t) s end.

Lemma called_mutexes t k s : mutexes (called t k s) = mutexes s.
Proof. by destruct k. Qed.

Lemma execute_call c t k s : execute (Call c t k) s = perform c k (called t k s).
Proof. by destruct k. Qed.

Lemma called_owner t k s m : owner (called t k s) m = owner s m.
Proof.
  unfold owner, get_mutex. rewrite called_mutexes. destruct (owned_thread _) as [u|]; [|done].
  destruct k; try done; simpl; (destruct (decide (u = t)) as [->|]; [|by rewrite lookup_alter_ne]);
    rewrite lookup_alter_eq; by destruct (threads s !! t).
Qed.

Lemma called_holds t k s m u : holds (called t k s) m u ↔ holds s m u.
Proof. unfold holds. rewrite called_owner. unfold get_mutex. by rewrite called_mutexes. Qed.

Lemma called_running t k s c : cpu_thread (called t k s) c = cpu_thread s c.
Proof. by destruct k. Qed.

Lemma called_good t k s c x :
  good s → cpus s !! c = Some x → mode x = UserMode → executing_thread x = Some (RunThread t) →
  good (called t k s).
Proof.
  intros Hg Hx Hm He. pose proof (calling_ok c t s (λ _, True) k x s) as Hc. unfold wp in Hc.
  destruct k; apply Hc; by split.
Qed.


(** ** The other steps of a CPU *)

Lemma wake_ok c x s E :
  good s → cpus s !! c = Some x → mode x = Suspended → ipi x = true →
  wp (on_cpu c (λ x, set_mode Woken (set_ipi false x))) (λ _, returns c None s) E s.
Proof.
  intros [Ht Hi] Hx Hm Hp. pose proof Hi as [H1 H2 H3 H4 H5 H6 H7]. apply wp_update. set (s1 := set_cpus _ s).
  destruct (H2 c x Hx ltac:(done)) as [Hint He]. unfold runs_its_mode in He. rewrite Hm in He.
  assert (cpus s1 !! c = Some (set_mode Woken (set_ipi false x))) as Hx1
    by (unfold s1; simpl; by rewrite lookup_alter_eq, Hx).
  assert (∀ c', c' ≠ c → cpus s1 !! c' = cpus s !! c') as Hne by (intros; by apply lookup_alter_ne).
  split; [split| |].
  - by apply thread_inv_cpus.
  - split; try done.
    + intros c' x' Hc' _. destruct (decide (c' = c)) as [->|]; [|rewrite Hne in Hc' by done; by apply (H2 c')].
      rewrite Hx1 in Hc'. by injection Hc' as <-.
    + intros c'. change (suspended_cpus s1) with (suspended_cpus s). rewrite H5. destruct (decide (c' = c)) as [->|]; [|by rewrite Hne].
      rewrite Hx, Hx1. split; intros (? & [= <-] & ? & ?); simpl in *; congruence.
    + intros c' x'. destruct (decide (c' = c)) as [->|]; [|rewrite Hne by done; apply H6].
      rewrite Hx1. by intros [= <-].
    + assert (woken s1 = woken s) as ->; [|done]. apply set_eq. intros c'. rewrite !elem_of_woken.
      destruct (decide (c' = c)) as [->|]; [|by rewrite Hne]. rewrite Hx, Hx1.
      split; intros _; eexists; (split; [done|]); [by left|by right].
  - intros c' _. by apply (cpu_thread_alter c).
  - intros t. unfold s1. rewrite (cpu_thread_alter c) by done. unfold cpu_thread. by rewrite Hx, He.
Qed.

(** A timer interrupt in the waiting thread. *)
Lemma idle_timer_ok c x s E :
  good s → cpus s !! c = Some x → mode x = Woken → wp (thread_yield c) (λ _, returns c None s) E s.
Proof.
  intros [Ht Hi] Hx Hm. destruct (ci_cpu _ _ Hi c x Hx ltac:(done)) as [Hint He].
  pose proof He as Hrun. unfold runs_its_mode in He. rewrite Hm in He.
  apply (enter_ok _ c x); [done..|congruence|]. intros Hi1. set (s1 := entered c s) in *.
  assert (cpus s1 !! c = Some (set_interrupts false x)) as Hx1 by (unfold s1; simpl; by rewrite lookup_alter_eq, Hx).
  apply op_wp_bind. unfold this_running. apply op_wp_bind, wp_get, op_wp_bind, (wp_non_null _ (set_interrupts false x)); [done|].
  apply op_wp_ret. simpl. rewrite He, decide_True by done. apply wp_exit.
  assert (∀ c', cpu_thread (exited c s1) c' = cpu_thread s c') as Hct.
  { intros c'. unfold exited. rewrite cpu_thread_alter by done. unfold s1. by apply (cpu_thread_alter c _ s). }
  split; [split| |].
  - by apply thread_inv_exited, thread_inv_entered.
  - by eapply exited_ok.
  - intros c' _. apply Hct.
  - intros t. rewrite Hct. unfold cpu_thread. by rewrite Hx, He.
Qed.

Lemma woken_dispatched c x f s :
  cpus s !! c = Some x → awake x → ¬ awake (f x) →
  S (size (woken (set_cpus (alter f c) s))) = size (woken s).
Proof.
  intros Hc Ha Hn. assert (woken s = {[c]} ∪ woken (set_cpus (alter f c) s)) as ->.
  { apply set_eq. intros c'. rewrite elem_of_union, elem_of_singleton, !elem_of_woken. simpl.
    destruct (decide (c' = c)) as [->|]; [|rewrite lookup_alter_ne by done; naive_solver]. naive_solver. }
  rewrite size_union; [by rewrite size_singleton|].
  apply disjoint_singleton_l. rewrite elem_of_woken. simpl. rewrite lookup_alter_eq, Hc. by intros (? & [= <-] & ?).
Qed.

Lemma recheck_ok c x s E :
  good s → cpus s !! c = Some x → mode x = Woken →
  wp (os_guard_enter c ≫= λ _, wait_for_ready_thread c) (λ _, returns c None s) E s.
Proof.
  intros [Ht Hi] Hx Hm. destruct (ci_cpu _ _ Hi c x Hx ltac:(done)) as [Hint He].
  unfold runs_its_mode in He. rewrite Hm in He.
  apply (enter_ok _ c x); [done..|congruence|]. intros Hi1. set (s1 := entered c s) in *.
  set (x1 := set_interrupts false x).
  assert (cpus s1 !! c = Some x1) as Hx1 by (unfold s1; simpl; by rewrite lookup_alter_eq, Hx).
  assert (∀ c', cpu_thread s1 c' = cpu_thread s c') as Hct by (intros c'; by apply (cpu_thread_alter c _ s)).
  assert (thread_inv None s1 []) as Ht1 by by apply thread_inv_entered.
  assert (wp (wait_for_ready_thread c) (λ _, returns c None s1) E s1) as Hw.
  { destruct (ready_threads s1) as [|t rest] eqn:Hr; [by apply (sleep_ok c None s1 x1)|].
    unfold wait_for_ready_thread. apply op_wp_bind, wp_get. rewrite Hr.
    apply op_wp_bind, wp_update, op_wp_bind, wp_update. apply (take_ready c None t rest s1 x1); try done.
    { simpl. by rewrite He. }
    set (f := λ x, set_mode UserMode (set_executing (Some (RunThread t)) x)).
    set (s2 := set_cpus (alter (set_mode UserMode) c) _).
    assert (woken s2 = woken (set_cpus (alter f c) s1)) as Hwk.
    { apply set_eq. intros c'. rewrite !elem_of_woken. simpl. destruct (decide (c' = c)) as [->|].
      - by rewrite !lookup_alter_eq, Hx.
      - by rewrite !lookup_alter_ne. }
    pose proof (woken_dispatched c x1 f s1 Hx1 ltac:(by right)) as Hsize.
    pose proof Hi1 as [H1 H2 H3 H4 H5 H6 H7].
    assert (ipi x1 = false) as Hipi.
    { destruct (ipi x1) eqn:Hp; [|done]. specialize (H6 c x1 Hx1 Hp). simpl in H6. congruence. }
    assert (cpus s2 !! c = Some (f x1)) as Hx2 by (simpl; by rewrite !lookup_alter_eq, Hx).
    assert (∀ c', c' ≠ c → cpus s2 !! c' = cpus s1 !! c') as Hne by (intros; simpl; by rewrite !lookup_alter_ne).
    split; try done.
    - intros c' x' Hc' Hn. rewrite Hne in Hc' by congruence. by apply (H2 c').
    - intros c' [= <-]. by exists (f x1).
    - intros c'. change (suspended_cpus s2) with (suspended_cpus s1). rewrite H5.
      destruct (decide (c' = c)) as [->|]; [|by rewrite Hne]. rewrite Hx1, Hx2.
      split; intros (? & [= <-] & Hsus & _); simpl in Hsus; congruence.
    - intros c' x'. destruct (decide (c' = c)) as [->|]; [|rewrite Hne by done; apply H6].
      rewrite Hx2. intros [= <-] Hp. simpl in Hp. simpl in Hipi. congruence.
    - intros Hs. specialize (H7 Hs). rewrite Hwk. rewrite Hr in H7. simpl in H7. simpl.
      rewrite <- Hsize in H7; [lia|]. intros [Hp|Hp]; simpl in Hp; [simpl in Hipi; congruence|done]. }
  eapply op_wp_mono; [exact Hw|]. intros _ s' [Hg Ho Hrun]. split; [done| |done].
  intros c' Hc'. by rewrite Ho.
Qed.

(** A CPU starts, with interrupts disabled. *)
Definition booting (c : nat) (s : state) : state := entered c (set_cpus (insert c new_cpu) s).

Lemma booting_others c s c' : c' ≠ c → cpus (booting c s) !! c' = cpus s !! c'.
Proof. intros Hc. simpl. by rewrite lookup_alter_ne, lookup_insert_ne. Qed.

Lemma booting_self c s : cpus (booting c s) !! c = Some new_cpu.
Proof. simpl. by rewrite lookup_alter_eq, lookup_insert_eq. Qed.

Lemma booting_threads c s c' : cpus s !! c = None → cpu_thread (booting c s) c' = cpu_thread s c'.
Proof.
  intros Hc. unfold cpu_thread. destruct (decide (c' = c)) as [->|]; [|by rewrite booting_others].
  by rewrite booting_self, Hc.
Qed.

Lemma booting_ok c s :
  good s → cpus s !! c = None → thread_inv None (booting c s) [] ∧ acting c new_cpu (booting c s).
Proof.
  intros [Ht [H1 H2 H3 H4 H5 H6 H7]] Hc. split.
  { apply (thread_inv_same None s); try done; [|intros u; apply (same_threads s)].
    intros c'. by apply booting_threads. }
  split; [|apply booting_self|done]. split; try done.
  - intros c' x' Hc' Hne. rewrite booting_others in Hc' by congruence. by apply (H2 c').
  - intros c' [= <-]. exists new_cpu. by rewrite booting_self.
  - intros c'. change (suspended_cpus (booting c s)) with (suspended_cpus s). rewrite H5.
    destruct (decide (c' = c)) as [->|]; [|by rewrite booting_others]. rewrite booting_self, Hc.
    split; [by intros (? & ? & _)|by intros (? & [= <-] & ? & _)].
  - intros c' x'. destruct (decide (c' = c)) as [->|]; [|rewrite booting_others by done; apply H6].
    rewrite booting_self. by intros [= <-].
  - intros Hs. specialize (H7 Hs). assert (woken (booting c s) = woken s) as ->; [|done].
    apply set_eq. intros c'. rewrite !elem_of_woken. destruct (decide (c' = c)) as [->|]; [|by rewrite booting_others].
    rewrite booting_self, Hc. split; [|by intros (? & ? & _)]. intros (? & [= <-] & [?|?]); done.
Qed.

Lemma boot_ok c main s E :
  good s → cpus s !! c = None →
  wp (execute (Boot c main)) (λ _, returns c None s) E s.
Proof.
  intros Hg Hc. destruct (booting_ok c s Hg Hc) as [Ht Ha].
  assert (∀ s', returns c None (booting c s) s' → returns c None s s') as Hfrom.
  { intros s' [Hg' Ho Hr]. split; [done| |done]. intros c' Hc'. by rewrite Ho, booting_threads. }
  apply op_wp_bind, wp_update. unfold cpu_boot. apply op_wp_bind. unfold os_guard_enter.
  apply op_wp_bind, wp_update, op_wp_bind, wp_get. simpl. rewrite (ci_guard _ _ (good_cpus _ Hg)). simpl.
  apply wp_update. match goal with |- wp _ _ _ ?s' => change s' with (booting c s) end.
  set (s1 := booting c s) in *. destruct main.
  - apply op_wp_bind. unfold create_thread.
    apply op_wp_bind, wp_get, op_wp_bind, wp_update, op_wp_bind, wp_update, op_wp_ret. apply op_wp_bind, wp_update.
    pose proof (new_thread Ht) as Ht2. set (t := next_thread s1) in *. set (s2 := set_threads _ _) in *.
    assert (acting c new_cpu s2) as Ha2.
    { destruct Ha as [Hi Hx Hm]. split; [by eapply cpu_inv_fewer|done..]. }
    pose proof (acting_executing _ _ (Some (RunThread t)) _ Ha2) as Ha3.
    pose proof (dispatch_hand Ht2 c new_cpu t [] eq_refl (act_cpu _ _ _ Ha2) eq_refl) as Ht3.
    set (s3 := set_cpus _ s2) in *.
    assert (resumable None s3 t) as Hres by (unfold resumable, ctx; simpl; by rewrite lookup_insert_eq).
    eapply op_wp_mono; [eapply resume_thread_ok|].
    + done.
    + by eapply acting_mode.
    + apply (act_cpu _ _ _ Ha3).
    + done.
    + done.
    + intros [] s' (Hg' & Hct & Hr'). apply Hfrom. split; [done| |].
      * intros c' Hc'. rewrite Hct. unfold cpu_thread, s3. simpl. by rewrite !lookup_alter_ne.
      * intros u. rewrite Hct. unfold cpu_thread. rewrite (act_cpu _ _ _ Ha3). simpl. intros [= <-]. by right.
  - eapply op_wp_mono; [by apply (wait_and_pop_ok c None AtStart s1 new_cpu)|].
    intros [] s'. apply Hfrom.
Qed.

(** ** Steps *)

(** The thread that calls an operation in an event. *)
Definition caller_of (e : event) : option nat := match e with Call _ t _ => Some t | _ => None end.
Definition cpu_of (e : event) : nat :=
  match e with Call c _ _ | Boot c _ | Wake c | IdleTimer c | Recheck c => c end.

Definition event_throws (s : state) (e : event) : Prop :=
  match e with Call _ t k => may_throw t k s | _ => False end.

Lemma execute_ends (E : state → Prop) s e :
  good s → enabled s e →
  (event_throws s e → ∀ s', returns (cpu_of e) (caller_of e) s s' → E s') →
  wp (execute e) (λ _, returns (cpu_of e) (caller_of e) s) E s.
Proof.
  intros Hg He HE. destruct e as [c t k|c main|c|c|c]; simpl in He.
  - destruct He as (x & i & Hx & Hm & Ht & _). unfold wp. rewrite execute_call.
    assert (caller c t s x (called t k s)) as Hc.
    { assert (caller c t s x s) as Hc by by split. pose proof (calling_ok c t s (λ _, True) k x s Hc) as Hw.
      by destruct k. }
    eapply (perform_ok c t s E k x); [|done]. intros Hk. apply HE. simpl.
    destruct k; try exact Hk; intros Hh; apply Hk; by apply called_holds.
  - by apply boot_ok.
  - destruct He as (x & Hx & Hm & Hp). by eapply wake_ok.
  - destruct He as (x & Hx & Hm). by eapply idle_timer_ok.
  - destruct He as (x & Hx & Hm). by eapply recheck_ok.
Qed.

Lemma execute_ok s e :
  good s → enabled s e →
  wp (execute e) (λ _, returns (cpu_of e) (caller_of e) s) (returns (cpu_of e) (caller_of e) s) s.
Proof. intros Hg He. by apply execute_ends. Qed.

Lemma initial_queue p : queue initial p = [].
Proof. by destruct p. Qed.

Lemma initial_good : good initial.
Proof.
  assert (∀ t p, t ∉ queue initial p) as Hq by (intros t p; rewrite initial_queue; apply not_elem_of_nil).
  split.
  - split; try done.
    + split; try done.
      * intros p. rewrite initial_queue. constructor.
      * intros t p p' Hp. by destruct (Hq t p).
      * constructor.
      * intros t. split; [by intros []|]. intros [Hp|[p Hp]]; [by apply not_elem_of_nil in Hp|by destruct (Hq t p)].
      * by intros t [].
    + intros t p Hp. by destruct (Hq t p).
    + intros t [Hp|Hp]; by apply not_elem_of_nil in Hp.
  - split; try done; [constructor|]. intros c. split; [by intros Hp%not_elem_of_nil|by intros (? & ? & _)].
Qed.

Lemma step_ok s e s' : good s → step s e s' → returns (cpu_of e) (caller_of e) s s'.
Proof.
  intros Hg Hs. destruct Hs as [s' He Hx|s' He Hx]; pose proof (execute_ok s e Hg He) as Hw;
    unfold wp in Hw; by rewrite Hx in Hw.
Qed.

Lemma reachable_good s : reachable s → good s.
Proof. induction 1 as [|s e s' _ Hg Hs]; [apply initial_good|]. by apply (step_ok _ _ _ Hg Hs). Qed.
