(* ===== verification/ThreadsFrame.v ===== *)
(** * The thread library: what operations leave alone

    Relations between the states before and after an operation that hold of
    each of its assignments, and so of the operation: what switching to
    another thread does not touch, who owns a mutex, which threads have
    finished. *)
From S2P Require Import Prelude Threads ThreadsInv.

Local Open Scope nat_scope.

(** ** Operations that respect a relation *)

(** If the operation ends, then in [Q], or in [E] with an exception. *)
Definition wlp {A} (m : op A) (Q : A → state → Prop) (E : state → Prop) (s : state) : Prop :=
  match m s with
  | Done a s' => Q a s'
  | Throws s' => E s'
  | _ => True
  end.

Lemma wlp_bind {A B} (m : op A) (f : A → op B) Q E s :
  wlp m (λ a s', wlp (f a) Q E s') E s → wlp (m ≫= f) Q E s.
Proof. unfold wlp, mbind, op_bind. by destruct (m s). Qed.

Lemma wlp_mono {A} (m : op A) (Q Q' : A → state → Prop) (E E' : state → Prop) s :
  wlp m Q E s → (∀ a s', Q a s' → Q' a s') → (∀ s', E s' → E' s') → wlp m Q' E' s.
Proof. unfold wlp. destruct (m s); auto. Qed.

Lemma wlp_wp {A} (m : op A) (Q Q' : A → state → Prop) (E E' : state → Prop) s :
  wp m Q E s → wlp m Q' E' s → wp m (λ a s', Q a s' ∧ Q' a s') (λ s', E s' ∧ E' s') s.
Proof. unfold wp, wlp. by destruct (m s). Qed.

Definition respects {A} (R : state → state → Prop) (m : op A) : Prop := ∀ s, wlp m (λ _, R s) (R s) s.

Create HintDb frame.

Section respects.
Context (R : state → state → Prop) `{!PreOrder R}.

Lemma respects_after {A} (m : op A) s0 s : respects R m → R s0 s → wlp m (λ _, R s0) (R s0) s.
Proof. intros Hm H0. eapply wlp_mono; [apply Hm|simpl; intros; by etransitivity..]. Qed.

Lemma respects_bind {A B} (m : op A) (f : A → op B) :
  respects R m → (∀ a, respects R (f a)) → respects R (m ≫= f).
Proof.
  intros Hm Hf s. apply wlp_bind. eapply wlp_mono; [apply Hm| |done].
  simpl. intros a s' H0. by apply respects_after.
Qed.

Lemma respects_ret {A} (a : A) : respects R (mret a).
Proof. intros s. change (R s s). reflexivity. Qed.

Lemma respects_get : respects R get.
Proof. intros s. change (R s s). reflexivity. Qed.

Lemma respects_throw {A} : respects R (throw : op A).
Proof. intros s. change (R s s). reflexivity. Qed.

Lemma respects_spin {A} : respects R (spin : op A).
Proof. done. Qed.

Lemma respects_null {A} : respects R (null_dereference : op A).
Proof. done. Qed.

Lemma respects_assert b : respects R (assert_ b).
Proof. intros s. unfold wlp, assert_. destruct b; [change (R s s); reflexivity|done]. Qed.

Lemma respects_non_null {A} (o : option A) : respects R (non_null o).
Proof. intros s. unfold wlp, non_null. destruct o; [change (R s s); reflexivity|done]. Qed.

Lemma respects_update f : (∀ s, R s (f s)) → respects R (update f).
Proof. intros Hf s. apply Hf. Qed.

End respects.

(** Through the binds, matches and assignments of an operation. *)
Ltac frame :=
  repeat first
    [ assumption
    | solve [auto with frame nocore]
    | apply respects_ret; apply _ | apply respects_get; apply _ | apply respects_throw; apply _
    | apply respects_spin | apply respects_null
    | apply respects_assert; apply _ | apply respects_non_null; apply _
    | apply respects_bind; [apply _| |intros ?]
    | match goal with
      | |- respects _ (match ?x with _ => _ end) => destruct x
      | |- respects _ (if ?b then _ else _) => destruct b
      end ].

(** ** Switching threads *)

(** Contexts, CPUs, the guard and the ready queue may have changed. *)
Record frozen (s s' : state) : Prop := {
  fz_mutexes : mutexes s' = mutexes s;
  fz_cvs : cvs s' = cvs s;
  fz_finished : finished_threads s' = finished_threads s;
  fz_next : next_thread s' = next_thread s;
  fz_threads t : option_Forall2 (λ i' i, threads_waiting i' = threads_waiting i ∧ finished i' = finished i)
    (threads s' !! t) (threads s !! t);
}.

#[export] Instance frozen_preorder : PreOrder frozen.
Proof.
  split.
  - intros s. split; try done. intros t. destruct (threads s !! t); by constructor.
  - intros s1 s2 s3 [H1 H2 H3 H4 H5] [G1 G2 G3 G4 G5]. split; [congruence..|]. intros t.
    specialize (H5 t). specialize (G5 t). destruct (threads s1 !! t); inversion H5 as [? ? [Ha Hb]|];
      subst; rewrite <- ?H, <- ?H0 in G5; inversion G5 as [? ? [Hc Hd]|]; constructor; split; congruence.
Qed.

Lemma frozen_same s s' :
  mutexes s' = mutexes s → cvs s' = cvs s → finished_threads s' = finished_threads s →
  next_thread s' = next_thread s → threads s' = threads s → frozen s s'.
Proof. intros ???? Ht. split; try done. intros t. rewrite Ht. destruct (threads s !! t); by constructor. Qed.

Lemma frozen_on_thread t f :
  (∀ i, threads_waiting (f i) = threads_waiting i ∧ finished (f i) = finished i) →
  respects frozen (on_thread t f).
Proof.
  intros Hf s. split; try done. intros u. simpl. destruct (decide (u = t)) as [->|].
  - rewrite lookup_alter_eq. destruct (threads s !! t); by constructor.
  - rewrite lookup_alter_ne by done. destruct (threads s !! u); by constructor.
Qed.

Lemma frozen_on_cpu c f : respects frozen (on_cpu c f).
Proof. intros s. by apply frozen_same. Qed.

#[export] Hint Resolve frozen_on_cpu : frame.
#[export] Hint Extern 2 (respects frozen (on_thread _ (set_ctx _))) => (by apply frozen_on_thread) : frame.
#[export] Hint Extern 2 (respects frozen (on_thread _ (set_pc _))) => (by apply frozen_on_thread) : frame.
#[export] Hint Extern 2 (respects frozen (update _)) => (apply respects_update; intros ?; by apply frozen_same) : frame.

Lemma frozen_os_guard_enter c : respects frozen (os_guard_enter c).
Proof. unfold os_guard_enter. frame. Qed.

Lemma frozen_os_guard_exit c : respects frozen (os_guard_exit c).
Proof. unfold os_guard_exit. frame. Qed.
#[export] Hint Resolve frozen_os_guard_enter frozen_os_guard_exit : frame.

Lemma frozen_this_running c : respects frozen (this_running c).
Proof. unfold this_running. frame. Qed.
#[export] Hint Resolve frozen_this_running : frame.

Lemma frozen_this_thread c : respects frozen (this_thread c).
Proof. unfold this_thread. frame. Qed.

Lemma frozen_resume_thread c t : respects frozen (resume_thread c t).
Proof. unfold resume_thread, lock_return. frame. Qed.
#[export] Hint Resolve frozen_this_thread frozen_resume_thread : frame.

Lemma frozen_wait_for_ready_thread c : respects frozen (wait_for_ready_thread c).
Proof. unfold wait_for_ready_thread. frame. Qed.
#[export] Hint Resolve frozen_wait_for_ready_thread : frame.

Lemma frozen_resume c r : respects frozen (resume c r).
Proof. destruct r; simpl; frame. Qed.

Lemma frozen_push_and_signal t : respects frozen (push_and_signal t).
Proof. unfold push_and_signal. frame. Qed.
#[export] Hint Resolve frozen_resume frozen_push_and_signal : frame.

Lemma frozen_wait_and_pop c curr p : respects frozen (wait_and_pop c curr p).
Proof. unfold wait_and_pop. frame. Qed.

Lemma frozen_thread_yield c : respects frozen (thread_yield c).
Proof. unfold thread_yield. frame. Qed.

Lemma frozen_calling t k : respects frozen (calling t k).
Proof. unfold calling. frame. Qed.
#[export] Hint Resolve frozen_wait_and_pop frozen_thread_yield frozen_calling : frame.

(** ** Relations that only the frozen part matters for *)

Class Frozen (R : state → state → Prop) : Prop := {
  frozen_order :: PreOrder R;
  frozen_sub s s' : frozen s s' → R s s';
}.

Lemma respects_frozen {A} R `{!Frozen R} (m : op A) : respects frozen m → respects R m.
Proof. intros Hm s. eapply wlp_mono; [apply Hm|intros a s'; apply frozen_sub|intros s'; apply frozen_sub]. Qed.

Ltac frame_in R := repeat first
  [ progress frame
  | apply (respects_frozen R); solve [frame]
  | apply respects_bind; [apply _| |intros ?] ].

(** *** Mutexes *)

Definition same_mutexes (s s' : state) : Prop := mutexes s' = mutexes s.

#[export] Instance same_mutexes_frozen : Frozen same_mutexes.
Proof.
  unfold same_mutexes. split; [split|].
  - done.
  - intros s1 s2 s3 H1 H2. by rewrite H2.
  - intros s s' Hf. by rewrite (fz_mutexes _ _ Hf).
Qed.

#[export] Hint Extern 2 (respects same_mutexes (update _)) => (by apply respects_update) : frame.
#[export] Hint Extern 2 (respects same_mutexes (on_thread _ _)) => (by apply respects_update) : frame.

Lemma same_mutexes_wake_waiting t l : respects same_mutexes (wake_waiting t l).
Proof. induction l as [|u l IH]; simpl; frame_in same_mutexes. Qed.

Lemma same_mutexes_cv_wake_all v l : respects same_mutexes (cv_wake_all v l).
Proof. induction l as [|u l IH]; simpl; frame_in same_mutexes. Qed.
#[export] Hint Resolve same_mutexes_wake_waiting same_mutexes_cv_wake_all : frame.

(** Only these operations change a mutex. *)
Definition uses_mutex (k : call) : Prop :=
  match k with Lock _ | Unlock _ | Wait _ _ => True | _ => False end.

Lemma same_mutexes_perform c k : ¬ uses_mutex k → respects same_mutexes (perform c k).
Proof.
  destruct k; simpl; try done; intros _;
    unfold thread_create, create_thread, thread_join, thread_finish, cv_signal, cv_broadcast;
    frame_in same_mutexes.
Qed.

Lemma same_mutexes_execute e :
  (∀ c t k, e = Call c t k → ¬ uses_mutex k) → respects same_mutexes (execute e).
Proof.
  destruct e as [c t k|c main|c|c|c]; simpl; intros Hk; [|unfold cpu_boot, create_thread; frame_in same_mutexes..].
  pose proof (same_mutexes_perform c k (Hk c t k eq_refl)). frame_in same_mutexes.
Qed.

(** *** Which threads have finished *)

Definition finished_kept (s s' : state) : Prop :=
  next_thread s <= next_thread s' ∧
  ∀ t i', t < next_thread s → threads s' !! t = Some i' →
    ∃ i, threads s !! t = Some i ∧ (finished i = true → finished i' = true).

#[export] Instance finished_kept_frozen : Frozen finished_kept.
Proof.
  split; [split|].
  - intros s. split; [done|]. eauto.
  - intros s1 s2 s3 [H1 G1] [H2 G2]. split; [lia|]. intros t i' Ht Hi.
    destruct (G2 t i' ltac:(lia) Hi) as (i & Hi2 & Hf). destruct (G1 t i Ht Hi2) as (j & Hj & Hfj). eauto.
  - intros s s' Hf. split; [by rewrite (fz_next _ _ Hf)|]. intros t i' _ Hi.
    pose proof (fz_threads _ _ Hf t) as Ht. rewrite Hi in Ht. inversion Ht as [? i [_ Hfi]|]; subst.
    exists i. split; [done|]. by rewrite Hfi.
Qed.

Lemma finished_kept_done s s' t : finished_kept s s' → thread_done None s t → thread_done None s' t.
Proof.
  intros [Hn Hk] [Ht [?|Hd]]; [done|]. split; [lia|]. right. intros i' Hi.
  destruct (Hk t i' Ht Hi) as (i & Hti & Hf). by apply Hf, Hd.
Qed.

Lemma finished_kept_update f :
  (∀ s, next_thread (f s) = next_thread s ∧ threads (f s) = threads s) → respects finished_kept (update f).
Proof.
  intros Hf. apply respects_update. intros s. destruct (Hf s) as [Hn Ht]. split; [by rewrite Hn|].
  intros t i' _. rewrite Ht. eauto.
Qed.
#[export] Hint Extern 2 (respects finished_kept (update _)) =>
  (apply finished_kept_update; intros ?; by split) : frame.

Lemma finished_kept_threads (f : gmap nat thread_info → gmap nat thread_info) :
  (∀ m t i', f m !! t = Some i' → ∃ i, m !! t = Some i ∧ (finished i = true → finished i' = true)) →
  respects finished_kept (update (set_threads f)).
Proof. intros Hf. apply respects_update. intros s. split; [done|]. intros t i' _. apply Hf. Qed.

Lemma finished_kept_on_thread t f :
  (∀ i, finished i = true → finished (f i) = true) → respects finished_kept (on_thread t f).
Proof.
  intros Hf. apply finished_kept_threads. intros m u i'. destruct (decide (u = t)) as [->|].
  - rewrite lookup_alter_eq. intros (i & Hi & ->)%fmap_Some. eauto.
  - rewrite lookup_alter_ne by done. eauto.
Qed.

#[export] Hint Extern 2 (respects finished_kept (on_thread _ _)) =>
  (by apply finished_kept_on_thread) : frame.

Lemma finished_kept_create_thread : respects finished_kept create_thread.
Proof.
  intros s. unfold create_thread. split; simpl; [lia|]. intros t i' Ht.
  rewrite lookup_insert_ne by lia. eauto.
Qed.
#[export] Hint Resolve finished_kept_create_thread : frame.

Lemma finished_kept_wake_waiting t l : respects finished_kept (wake_waiting t l).
Proof. induction l as [|u l IH]; simpl; frame_in finished_kept. Qed.

Lemma finished_kept_cv_wake_all v l : respects finished_kept (cv_wake_all v l).
Proof. induction l as [|u l IH]; simpl; frame_in finished_kept. Qed.
#[export] Hint Resolve finished_kept_wake_waiting finished_kept_cv_wake_all : frame.

Lemma finished_kept_free :
  respects finished_kept (update (λ s, set_threads (λ m, foldl (λ m t, delete t m) m (finished_threads s)) s)).
Proof.
  apply respects_update. intros s. split; [done|]. intros t i' _. simpl. rewrite lookup_delete_finished.
  case_decide; [done|eauto].
Qed.
#[export] Hint Resolve finished_kept_free : frame.

Lemma finished_kept_unlock_mutex c m : respects finished_kept (unlock_mutex c m).
Proof. unfold unlock_mutex. frame_in finished_kept. Qed.
#[export] Hint Resolve finished_kept_unlock_mutex : frame.

Lemma finished_kept_execute e : respects finished_kept (execute e).
Proof.
  destruct e as [c t k|c main|c|c|c]; simpl; [|unfold cpu_boot|..]; try solve [frame_in finished_kept].
  destruct k; simpl; unfold thread_create, thread_join, thread_finish, mutex_lock, lock_return, mutex_unlock,
    cv_wait, cv_signal, cv_broadcast; frame_in finished_kept.
Qed.

(** *** Which thread a CPU runs, and which are ready *)

Definition same_running (s s' : state) : Prop :=
  (∀ c, cpu_thread s' c = cpu_thread s c) ∧ ready_threads s' = ready_threads s.

#[export] Instance same_running_preorder : PreOrder same_running.
Proof.
  split; [done|]. intros s1 s2 s3 [H1 G1] [H2 G2]. split; [|congruence]. intros c. by rewrite H2.
Qed.

Lemma same_running_on_cpu c f :
  (∀ x, executing_thread (f x) = executing_thread x) → respects same_running (on_cpu c f).
Proof. intros Hf. apply respects_update. intros s. split; [|done]. intros c'. exact (queue_alter_cpu_same c f s (PCpu c') Hf). Qed.

#[export] Hint Extern 2 (respects same_running (on_cpu _ _)) => (by apply same_running_on_cpu) : frame.
#[export] Hint Extern 2 (respects same_running (on_thread _ _)) => (by apply respects_update) : frame.
#[export] Hint Extern 2 (respects same_running (update _)) => (by apply respects_update) : frame.

Lemma same_running_os_guard_exit c : respects same_running (os_guard_exit c).
Proof. unfold os_guard_exit. frame. Qed.
#[export] Hint Resolve same_running_os_guard_exit : frame.

Lemma same_running_lock_return c m : respects same_running (lock_return c m).
Proof. unfold lock_return. frame. Qed.
#[export] Hint Resolve same_running_lock_return : frame.

Lemma same_running_resume_thread c t : respects same_running (resume_thread c t).
Proof. unfold resume_thread. frame. Qed.
#[export] Hint Resolve same_running_resume_thread : frame.
