(* ===== verification/ThreadsCorrect.v ===== *)
(** * The thread library: theorems

    What the library promises: no operation fails, every thread is in one
    place, a mutex is handed on only by its owner and in FIFO order, [join]
    returns when the thread has finished, ready threads get a CPU. *)
From S2P Require Import Prelude Threads ThreadsInv ThreadsOps ThreadsFrame.

Local Open Scope nat_scope.

(** ** Rules for the parts of an operation *)

Lemma wlp_frozen {A B} (m : op A) (f : A → op B) Q s :
  respects frozen m → (∀ a s', frozen s s' → wlp (f a) Q (λ _, True) s') → wlp (m ≫= f) Q (λ _, True) s.
Proof. intros Hm Hf. apply wlp_bind. eapply wlp_mono; [apply Hm|simpl; auto|done]. Qed.

(** The rest of an operation switches threads only. *)
Lemma wlp_end {A} (m : op A) Q s :
  respects frozen m → (∀ a s', frozen s s' → Q a s') → wlp m Q (λ _, True) s.
Proof. intros Hm HQ. eapply wlp_mono; [apply Hm|done|done]. Qed.

Lemma wlp_update {A} f (k : () → op A) Q E s : wlp (k ()) Q E (f s) → wlp (update f ≫= k) Q E s.
Proof. done. Qed.

Lemma wlp_get {A} (k : state → op A) Q E s : wlp (k s) Q E s → wlp (get ≫= k) Q E s.
Proof. done. Qed.

Lemma wlp_ret {A} (a : A) (Q : A → state → Prop) E s : Q a s → wlp (λ s, Done a s) Q E s.
Proof. done. Qed.

Lemma wlp_enter {A} c (k : () → op A) Q E s :
  wlp (k ()) Q E (entered c s) → wlp (os_guard_enter c ≫= k) Q E s.
Proof.
  intros Hk. apply wlp_bind. unfold os_guard_enter, on_cpu, wlp, mbind, op_bind, get, update. simpl.
  by destruct (guard s).
Qed.

Lemma wlp_this_thread {A} c t (k : nat → op A) Q E s :
  cpu_thread s c = [t] → wlp (k t) Q E s → wlp (this_thread c ≫= k) Q E s.
Proof.
  intros Ht Hk. apply wlp_bind. unfold this_thread, this_running, wlp, mbind, op_bind, get, non_null, mret, op_ret.
  unfold cpu_thread in Ht. destruct (cpus s !! c) as [x|]; [|done].
  destruct (executing_thread x) as [[u|]|]; try done. by injection Ht as ->.
Qed.

Lemma entered_thread c s c' : cpu_thread (entered c s) c' = cpu_thread s c'.
Proof. by apply (cpu_thread_alter c _ s). Qed.

Lemma entered_frozen c s : frozen s (entered c s).
Proof. by apply frozen_same. Qed.

(** ** Mutexes and condition variables *)

(** The FIFO lock that [mutex] implements: [t] locks it, its owner unlocks it. *)
Definition locked (t : nat) (x : mutex) : mutex :=
  if free x then Mutex false (Some t) (waiting_threads x)
  else Mutex false (owned_thread x) (waiting_threads x ++ [t]).

Definition unlocked (x : mutex) : mutex :=
  match waiting_threads x with
  | [] => Mutex true None []
  | u :: rest => Mutex false (Some u) rest
  end.

Definition set_mutexes (m : nat) (y : mutex) (s s' : state) : Prop :=
  mutexes s' = <[m := y]> (mutexes s).

Lemma get_mutex_set m y s s' m' :
  set_mutexes m y s s' → get_mutex s' m' = if decide (m' = m) then y else get_mutex s m'.
Proof.
  unfold set_mutexes, get_mutex. intros ->.
  case_decide; [subst; by rewrite lookup_insert_eq|by rewrite lookup_insert_ne].
Qed.

Lemma mutex_lock_spec c t m s :
  cpu_thread s c = [t] →
  wlp (mutex_lock c m) (λ _, set_mutexes m (locked t (get_mutex s m)) s) (λ _, True) s.
Proof.
  intros Ht. unfold mutex_lock. apply wlp_enter, wlp_get.
  change (get_mutex (entered c s)) with (get_mutex s).
  destruct (free (get_mutex s m)) eqn:Hf; apply (wlp_this_thread _ t); try by rewrite entered_thread.
  - apply wlp_update. apply wlp_end; [unfold lock_return; frame|]. intros _ s' Hz.
    unfold set_mutexes. rewrite (fz_mutexes _ _ Hz). unfold locked. by rewrite Hf.
  - apply wlp_frozen; [frame|]. intros _ s1 H1. apply wlp_update. apply wlp_end; [frame|]. intros _ s' Hz.
    unfold set_mutexes. rewrite (fz_mutexes _ _ Hz). simpl. unfold get_mutex at 1 2 3. rewrite (fz_mutexes _ _ H1).
    simpl. change (default new_mutex (mutexes s !! m)) with (get_mutex s m). unfold locked. by rewrite Hf.
Qed.

(** Unlocking wakes the first waiting thread, which has the mutex from now on. *)
Definition unlock_post (c t m : nat) (s s' : state) : Prop :=
  set_mutexes m (unlocked (get_mutex s m)) s s' ∧
  ready_threads s' = ready_threads s ++ take 1 (waiting_threads (get_mutex s m)) ∧
  cpu_thread s' c = [t].

Lemma push_spec u s :
  wlp (push_and_signal u) (λ _ s', ready_threads s' = ready_threads s ++ [u] ∧ frozen s s' ∧
    ∀ c, cpu_thread s' c = cpu_thread s c) (λ _, True) s.
Proof.
  unfold push_and_signal, on_cpu, wlp, mbind, op_bind, get, update, mret, op_ret. simpl.
  destruct (suspended_cpus s); (split; [done|]; split; [by apply frozen_same|]); [done|].
  intros c. exact (cpu_thread_alter n (set_ipi true) s c ltac:(done)).
Qed.

Lemma unlock_mutex_spec c t m s E :
  cpu_thread s c = [t] → holds s m t →
  wlp (unlock_mutex c m) (λ _ s', unlock_post c t m s s' ∧ cvs s' = cvs s ∧ threads s' = threads s) E s.
Proof.
  intros Ht [Hf Ho]. unfold unlock_mutex. apply (wlp_this_thread _ t); [done|]. apply wlp_get.
  rewrite Hf, bool_decide_true by done. simpl. unfold unlock_post, set_mutexes, unlocked.
  destruct (waiting_threads (get_mutex s m)) as [|u rest] eqn:Hw.
  - unfold wlp, update. simpl. by rewrite app_nil_r.
  - apply wlp_update. unfold push_and_signal, on_cpu, wlp, mbind, op_bind, get, update, mret, op_ret. simpl.
    destruct (suspended_cpus s) as [|w ws]; (split; [split; [done|split; [done|]]|done]); [done|].
    rewrite <- Ht. exact (cpu_thread_alter w (set_ipi true) s c ltac:(done)).
Qed.

(** Without the mutex, [unlock] throws, and changes nothing. *)
Lemma entered_exited c x s :
  guard s = false → cpus s !! c = Some x → interrupts x = true → exited c (entered c s) = s.
Proof.
  intros Hg Hx Hi. unfold exited, entered. destruct s as [g r f su cp th n mu cv]. simpl in *. subst g.
  unfold set_cpus, set_guard. simpl. f_equal. apply map_eq. intros c'.
  destruct (decide (c' = c)) as [->|]; [|by rewrite !lookup_alter_ne].
  rewrite !lookup_alter_eq, Hx. destruct x. simpl in *. by subst.
Qed.

Lemma unlock_mutex_throws {A} (k : () → op A) c t m s :
  good s → cpu_thread s c = [t] → ¬ holds s m t →
  (os_guard_enter c ≫= λ _, unlock_mutex c m ≫= k) s = Throws s.
Proof.
  intros Hg Ht Hn. assert (∃ x, cpus s !! c = Some x ∧ executing_thread x = Some (RunThread t)) as (x & Hx & He).
  { unfold cpu_thread in Ht. destruct (cpus s !! c) as [x|]; [|done]. exists x. split; [done|].
    destruct (executing_thread x) as [[u|]|]; congruence. }
  pose proof (ci_guard _ _ (good_cpus _ Hg)) as Hgd. simpl in Hgd.
  destruct (ci_cpu _ _ (good_cpus _ Hg) c x Hx ltac:(done)) as [Hi _].
  apply not_holds in Hn as Hn'.
  unfold os_guard_enter, unlock_mutex, this_thread, this_running, on_cpu, get, update, mret, op_ret.
  unfold mbind, op_bind. simpl. rewrite Hgd. simpl. rewrite lookup_alter_eq, Hx. simpl. rewrite He. simpl.
  fold (entered c s). change (get_mutex (entered c s) m) with (get_mutex s m).
  change (owner (entered c s) m) with (owner s m). rewrite Hn'. unfold throw. f_equal.
  by apply (entered_exited c x).
Qed.

(** *** Condition variables *)

Lemma cv_wait_spec c t v m s :
  cpu_thread s c = [t] → holds s m t →
  wlp (cv_wait c v m) (λ _ s', set_mutexes m (unlocked (get_mutex s m)) s s' ∧
    cvs s' = <[v := get_cv s v ++ [t]]> (cvs s)) (λ _, True) s.
Proof.
  intros Ht Ho. unfold cv_wait. apply wlp_enter, wlp_bind.
  eapply wlp_mono; [by apply (unlock_mutex_spec c t m (entered c s) (λ _, True)); [rewrite entered_thread|]| |done].
  intros [] s1 ((Hm & _ & Hrun) & Hv & _). simpl. apply (wlp_this_thread _ t); [done|].
  apply wlp_frozen; [frame|]. intros _ s2 H2. apply wlp_update. apply wlp_end; [frame|]. intros _ s' Hz.
  unfold set_mutexes in *. rewrite (fz_mutexes _ _ Hz), (fz_cvs _ _ Hz). simpl.
  rewrite (fz_mutexes _ _ H2). split; [exact Hm|]. unfold get_cv. rewrite (fz_cvs _ _ H2), Hv. done.
Qed.

(** ** Steps *)

Lemma enabled_running s c t k : enabled s (Call c t k) → cpu_thread s c = [t].
Proof. intros (x & i & Hx & _ & He & _). unfold cpu_thread. by rewrite Hx, He. Qed.

(** What an operation does, when it does not throw. *)
Lemma step_spec s c t k s' (Q : state → Prop) (E : state → Prop) :
  step s (Call c t k) s' →
  wlp (perform c k) (λ _, Q) E (called t k s) → Q s' ∨ E s'.
Proof.
  unfold wlp. intros Hs. inversion Hs as [s1 He Hx|s1 He Hx]; subst; rewrite execute_call in Hx; rewrite Hx; auto.
Qed.

Lemma no_throw s e s' : good s → ¬ event_throws s e → step s e s' → execute e s = Done () s'.
Proof.
  intros Hg Hn Hs. inversion Hs as [s1 He Hx|s1 He Hx]; subst; [done|].
  pose proof (execute_ends (λ _, False) s e Hg He ltac:(done)) as Hw. unfold wp in Hw. by rewrite Hx in Hw.
Qed.

Lemma step_done_spec s c t k s' (Q : state → Prop) :
  good s → ¬ may_throw t k s → step s (Call c t k) s' →
  wlp (perform c k) (λ _, Q) (λ _, True) (called t k s) → Q s'.
Proof.
  intros Hg Hn Hs Hw. pose proof (no_throw _ (Call c t k) _ Hg Hn Hs) as Hx. rewrite execute_call in Hx.
  unfold wlp in Hw. by rewrite Hx in Hw.
Qed.

Lemma step_respects R s e s' : respects R (execute e) → step s e s' → R s s'.
Proof.
  intros Hr Hs. specialize (Hr s). unfold wlp in Hr. by destruct Hs as [s' _ Hx|s' _ Hx]; rewrite Hx in Hr.
Qed.

Lemma mutex_unlock_spec c t m s E :
  cpu_thread s c = [t] → holds s m t → wlp (mutex_unlock c m) (λ _, unlock_post c t m s) E s.
Proof.
  intros Ht Ho. unfold mutex_unlock. apply wlp_enter, wlp_bind.
  eapply wlp_mono; [by apply (unlock_mutex_spec c t m (entered c s) E); [rewrite entered_thread|]| |done].
  intros [] s1 ((Hm & Hr & Hrun) & _). split; [exact Hm|]. split; [exact Hr|].
  rewrite <- Hrun. exact (cpu_thread_alter c (set_interrupts true) s1 c ltac:(done)).
Qed.

(** Unlocking and waiting throw exactly without the mutex. *)
Lemma unlock_outcome s c t m :
  good s → enabled s (Call c t (Unlock m)) →
  if bool_decide (holds s m t)
  then ∃ s', execute (Call c t (Unlock m)) s = Done () s' ∧ unlock_post c t m s s'
  else execute (Call c t (Unlock m)) s = Throws (called t (Unlock m) s).
Proof.
  intros Hg He. pose proof (enabled_running _ _ _ _ He) as Ht.
  pose proof (execute_ok s _ Hg He) as Hw. unfold wp in Hw.
  destruct He as (x & i & Hx & Hm & Hrun & _). rewrite execute_call in Hw |- *. simpl perform in Hw |- *.
  case_bool_decide as Hh.
  - pose proof (mutex_unlock_spec c t m (called t (Unlock m) s) (λ _, False)
      ltac:(by rewrite called_running) ltac:(by apply called_holds)) as Hs. unfold wlp in Hs.
    destruct (mutex_unlock c m _) as [[] s'| | | |]; try done. eauto.
  - apply (unlock_mutex_throws _ c t m); [by eapply called_good|by rewrite called_running|by rewrite called_holds].
Qed.

Definition wait_post (t v m : nat) (s s' : state) : Prop :=
  set_mutexes m (unlocked (get_mutex s m)) s s' ∧ cvs s' = <[v := get_cv s v ++ [t]]> (cvs s).

Lemma wait_outcome s c t v m :
  good s → enabled s (Call c t (Wait v m)) →
  if bool_decide (holds s m t)
  then ∃ s', execute (Call c t (Wait v m)) s = Done () s' ∧ wait_post t v m s s'
  else execute (Call c t (Wait v m)) s = Throws (called t (Wait v m) s).
Proof.
  intros Hg He. pose proof (enabled_running _ _ _ _ He) as Ht.
  pose proof (execute_ends (λ _, ¬ holds s m t) s _ Hg He ltac:(done)) as Hw. unfold wp in Hw.
  destruct He as (x & i & Hx & Hm & Hrun & _). rewrite execute_call in Hw |- *. simpl perform in Hw |- *.
  case_bool_decide as Hh.
  - pose proof (cv_wait_spec c t v m (called t (Wait v m) s)
      ltac:(by rewrite called_running) ltac:(by apply called_holds)) as Hs. unfold wlp in Hs.
    destruct (cv_wait c v m _) as [[] s'| | | |]; try done. eauto.
  - apply (unlock_mutex_throws _ c t m); [by eapply called_good|by rewrite called_running|by rewrite called_holds].
Qed.

(** ** Getting a CPU *)

(** The rest of an operation leaves the CPUs their threads. *)
Lemma wlp_runs {A} (m : op A) c t l s :
  respects same_running m → cpu_thread s c = [t] → ready_threads s = l →
  wlp m (λ _ s', cpu_thread s' c = [t] ∧ ready_threads s' = l) (λ _, True) s.
Proof.
  intros Hm Ht Hl. eapply wlp_mono; [apply Hm| |done]. simpl. intros _ s' [Hs Hr]. by rewrite Hs, Hr.
Qed.

Lemma executes c t s x :
  cpus s !! c = Some x → cpu_thread (set_cpus (alter (set_executing (Some (RunThread t))) c) s) c = [t].
Proof. intros Hx. unfold cpu_thread. simpl. by rewrite lookup_alter_eq, Hx. Qed.

Lemma recheck_runs c x t rest s :
  cpus s !! c = Some x → ready_threads s = t :: rest →
  wlp (execute (Recheck c)) (λ _ s', cpu_thread s' c = [t] ∧ ready_threads s' = rest) (λ _, True) s.
Proof.
  intros Hx Hr. simpl. apply wlp_enter. unfold wait_for_ready_thread. apply wlp_get.
  change (ready_threads (entered c s)) with (ready_threads s). rewrite Hr. do 2 apply wlp_update.
  apply wlp_runs; [frame| |done]. apply (executes c t (entered c s) (set_interrupts false x)).
  simpl. by rewrite lookup_alter_eq, Hx.
Qed.

Lemma wlp_this_running {A} c x (k : option running → op A) Q E s :
  cpus s !! c = Some x → wlp (k (executing_thread x)) Q E s → wlp (this_running c ≫= k) Q E s.
Proof.
  intros Hx Hk. unfold this_running, wlp, mbind, op_bind, get, non_null, mret, op_ret. by rewrite Hx.
Qed.

Lemma yield_runs c x u t rest s :
  cpus s !! c = Some x → executing_thread x = Some (RunThread u) → ready_threads s = t :: rest →
  wlp (thread_yield c) (λ _ s', cpu_thread s' c = [t] ∧ ready_threads s' = rest ++ [u]) (λ _, True) s.
Proof.
  intros Hx He Hr. unfold thread_yield. apply wlp_enter.
  assert (cpus (entered c s) !! c = Some (set_interrupts false x)) as Hx1 by (simpl; by rewrite lookup_alter_eq, Hx).
  apply (wlp_this_running _ _ _ _ _ _ Hx1). simpl. rewrite He, decide_False by done. apply wlp_get.
  change (ready_threads (entered c s)) with (ready_threads s). rewrite Hr.
  apply (wlp_this_thread _ u). { unfold cpu_thread. rewrite Hx1. simpl. by rewrite He. }
  apply wlp_update, wlp_get. simpl. rewrite Hr. simpl. apply wlp_bind, wlp_ret. do 3 apply wlp_update.
  apply wlp_runs; [frame| |done]. apply (executes c t (entered c s) (set_interrupts false x) Hx1).
Qed.

(** *** Joining *)

Definition unfinished (s : state) (u : nat) : bool :=
  match threads s !! u with Some i => negb (finished i) | None => false end.

Definition join_post (c t u : nat) (s s' : state) : Prop :=
  if unfinished s u then t ∈ join_queue s' u else cpu_thread s' c = [t] ∧ frozen s s'.

Lemma join_at_once c t s :
  cpu_thread s c = [t] →
  wlp (os_guard_exit c) (λ _ s', cpu_thread s' c = [t] ∧ frozen s s') (λ _, True) (entered c s).
Proof.
  intros Ht. change (wlp (os_guard_exit c) ?Q ?E (entered c s)) with (Q () (exited c (entered c s))).
  split; [|by apply frozen_same]. rewrite <- Ht, <- (entered_thread c s).
  exact (cpu_thread_alter c (set_interrupts true) (entered c s) c ltac:(done)).
Qed.

Lemma thread_join_spec c t u s :
  cpu_thread s c = [t] → wlp (thread_join c u) (λ _, join_post c t u s) (λ _, True) s.
Proof.
  intros Ht. unfold thread_join, join_post. apply wlp_enter, wlp_get.
  change (threads (entered c s)) with (threads s).
  unfold unfinished. destruct (threads s !! u) as [i|] eqn:Hi; [|by apply join_at_once].
  destruct (finished i); [by apply join_at_once|]. simpl negb. cbv iota.
  apply (wlp_this_thread _ t); [by rewrite entered_thread|]. do 2 apply wlp_update.
  apply wlp_end; [frame|]. intros _ s' Hz. pose proof (fz_threads _ _ Hz u) as Hu.
  simpl in Hu. rewrite lookup_alter_eq, Hi in Hu. unfold join_queue.
  inversion Hu as [i' j [Hw _]|]; subst. rewrite Hw. simpl. set_solver.
Qed.

(** ** The theorems *)

(** Running several steps. *)
Inductive steps : state → list event → state → Prop :=
| steps_nil s : steps s [] s
| steps_cons s e s1 es s' : step s e s1 → steps s1 es s' → steps s (e :: es) s'.

Lemma steps_good s es s' : good s → steps s es s' → good s'.
Proof.
  intros Hg Hs. revert Hg. induction Hs as [|s e s1 es s' H1 _ IH]; [done|]. intros Hg.
  apply IH. by apply (ret_good _ _ _ _ (step_ok _ _ _ Hg H1)).
Qed.

Lemma steps_done s es s' t : steps s es s' → thread_done None s t → thread_done None s' t.
Proof.
  induction 1 as [|s e s1 es s' H1 _ IH]; [done|]. intros Hd. apply IH.
  by eapply finished_kept_done; [eapply step_respects; [apply finished_kept_execute|exact H1]|].
Qed.

Lemma done_nowhere s t : good s → thread_done None s t → ∀ p, t ∈ queue s p → p = PFinished.
Proof.
  intros Hg [_ [?|Hd]] p Hp; [done|]. pose proof (good_threads _ Hg) as Ht.
  destruct (proj2 (placed_alive _ _ (ti_placed _ _ _ Ht) t)) as [i Hi]; [eauto|].
  eapply (placed_unique _ _ (ti_placed _ _ _ Ht)); [exact Hp|].
  by apply (ti_finished _ _ _ Ht t i Hi), Hd.
Qed.

Lemma holds_owned s m t : good s → free (get_mutex s m) = false → owned_thread (get_mutex s m) = Some t →
  alive s t → holds s m t.
Proof. intros _ Hf Ho [i Hi]. split; [done|]. unfold owner. by rewrite Ho, Hi. Qed.

Lemma running_alive s c t : good s → cpu_thread s c = [t] → alive s t.
Proof.
  intros Hg Ht. apply (placed_alive _ _ (ti_placed _ _ _ (good_threads _ Hg))). right. exists (PCpu c).
  simpl. rewrite Ht. by left.
Qed.

(** (C22) Whatever the CPUs and the threads do next in a state that the system
    can reach, the operation ends: no assertion of the library fails, no null
    pointer is dereferenced, and the guard is not found taken.  Only [unlock]
    and [wait] by a thread that does not have the mutex throw. *)
Theorem operations_never_fail s e :
  reachable s → enabled s e →
  ∃ s', reachable s' ∧ (execute e s = Done () s' ∨ (execute e s = Throws s' ∧ event_throws s e)).
Proof.
  intros Hr He. pose proof (reachable_good s Hr) as Hg.
  destruct (execute e s) as [[] s'|s'| | |] eqn:Hx;
    try (pose proof (execute_ok s e Hg He) as Hw; unfold wp in Hw; by rewrite Hx in Hw).
  - exists s'. split; [|by left]. eapply reachable_step; [exact Hr|]. by apply step_done.
  - exists s'. split; [eapply reachable_step; [exact Hr|by apply step_throws]|]. right. split; [done|].
    pose proof (execute_ends (λ _, event_throws s e) s e Hg He ltac:(done)) as Hw. unfold wp in Hw.
    by rewrite Hx in Hw.
Qed.

(** (C23) Between operations the guard is free, and every thread that exists is
    in exactly one place, once: on the ready queue, on one CPU, on the queue of
    one mutex, condition variable or thread that it waits for, or among the
    finished threads; a waiting thread's context is behind the call that made
    it wait. *)
Theorem threads_in_one_place s t i :
  reachable s → threads s !! t = Some i →
  guard s = false ∧ ∃ p, t ∈ queue s p ∧ NoDup (queue s p) ∧ (∀ p', t ∈ queue s p' → p' = p) ∧
    blocked_at p (Some (thread_ctx i)).
Proof.
  intros Hr Hi. pose proof (reachable_good s Hr) as [Ht Hc]. split; [exact (ci_guard _ _ Hc)|].
  pose proof (ti_placed _ _ _ Ht) as Hp.
  destruct (proj1 (placed_alive _ _ Hp t)) as [?%not_elem_of_nil|[p Htp]]; [by eexists|done|].
  exists p. split; [done|]. split; [apply (placed_nodup _ _ Hp)|]. split.
  - intros p' Hp'. by apply (placed_unique _ _ Hp t).
  - pose proof (ti_blocked _ _ _ Ht t p Htp) as Hb. unfold ctx in Hb. by rewrite Hi in Hb.
Qed.

(** (C24) Mutual exclusion: a thread that owns a mutex loses it only by its own
    [unlock], or its own [wait], of that mutex. *)
Theorem mutex_owner_stable s e s' m t :
  reachable s → step s e s' → owned_thread (get_mutex s m) = Some t →
  owned_thread (get_mutex s' m) = Some t ∨
  ∃ c, e = Call c t (Unlock m) ∨ ∃ v, e = Call c t (Wait v m).
Proof.
  intros Hr Hs Ho. pose proof (reachable_good s Hr) as Hg.
  assert ((∀ c t k, e = Call c t k → ¬ uses_mutex k) → owned_thread (get_mutex s' m) = Some t) as Hother.
  { intros Hk. pose proof (step_respects _ _ _ _ (same_mutexes_execute e Hk) Hs) as Hm.
    unfold get_mutex. by rewrite Hm. }
  destruct e as [c u k|c main|c|c|c]; try (left; by apply Hother).
  destruct k as [| | | |m'|m'|v m'|v|v]; try (left; apply Hother; intros ??? Heq; injection Heq as <- <- <-; exact (λ h, h)).
  - left. assert (enabled s (Call c u (Lock m'))) as He by by inversion Hs.
    pose proof (enabled_running _ _ _ _ He) as Hu.
    pose proof (step_done_spec s c u (Lock m') _ _ Hg (λ h, h) Hs
      (mutex_lock_spec c u m' (called u (Lock m') s) Hu)) as Hm.
    rewrite (get_mutex_set _ _ _ _ _ Hm). change (get_mutex (called u (Lock m') s)) with (get_mutex s).
    case_decide as Hmm; [subst m'|done]. unfold locked.
    pose proof (ti_mutex _ _ _ (good_threads _ Hg) m) as Hok. unfold mutex_ok in Hok.
    destruct (free (get_mutex s m)); [destruct Hok; congruence|done].
  - assert (enabled s (Call c u (Unlock m'))) as He by by inversion Hs.
    pose proof (unlock_outcome s c u m' Hg He) as Hout. case_bool_decide as Hh.
    + destruct Hout as (s1 & Hx & Hm & _). assert (s' = s1) as -> by (inversion Hs; congruence).
      destruct (decide (m = m')) as [->|Hne].
      * right. exists c. left. destruct Hh as [_ Hh%owner_owned]. congruence.
      * left. by rewrite (get_mutex_set _ _ _ _ _ Hm), decide_False.
    + left. assert (s' = called u (Unlock m') s) as -> by (inversion Hs; congruence). done.
  - assert (enabled s (Call c u (Wait v m'))) as He by by inversion Hs.
    pose proof (wait_outcome s c u v m' Hg He) as Hout. case_bool_decide as Hh.
    + destruct Hout as (s1 & Hx & Hm & _). assert (s' = s1) as -> by (inversion Hs; congruence).
      destruct (decide (m = m')) as [->|Hne].
      * right. exists c. right. exists v. destruct Hh as [_ Hh%owner_owned]. congruence.
      * left. by rewrite (get_mutex_set _ _ _ _ _ Hm), decide_False.
    + left. assert (s' = called u (Wait v m') s) as -> by (inversion Hs; congruence). done.
Qed.

(** [lock] in FIFO order: on a free mutex the calling thread goes on as its
    owner; on a busy one it is appended to the waiting threads and no CPU runs
    it. *)
Theorem lock_spec s c t m s' :
  reachable s → step s (Call c t (Lock m)) s' →
  (∀ m', get_mutex s' m' = if decide (m' = m) then locked t (get_mutex s m) else get_mutex s m') ∧
  (free (get_mutex s m) = false → ∀ c', cpu_thread s' c' ≠ [t]).
Proof.
  intros Hr Hs. pose proof (reachable_good s Hr) as Hg.
  assert (enabled s (Call c t (Lock m))) as He by by inversion Hs.
  pose proof (step_done_spec s c t (Lock m) _ _ Hg (λ h, h) Hs
    (mutex_lock_spec c t m (called t (Lock m) s) (enabled_running _ _ _ _ He))) as Hm.
  split; [by intros m'; apply (get_mutex_set _ _ _ _ _ Hm)|]. intros Hf c' Ht.
  pose proof (get_mutex_set _ _ _ _ m Hm) as Hgm. rewrite decide_True in Hgm by done.
  pose proof (ret_good _ _ _ _ (step_ok _ _ _ Hg Hs)) as [Hti _].
  assert (PCpu c' = PMutex m); [|done].
  apply (placed_unique _ _ (ti_placed _ _ _ Hti) t).
  - simpl. rewrite Ht. by left.
  - simpl. rewrite Hgm. unfold locked. change (get_mutex (called t (Lock m) s)) with (get_mutex s). rewrite Hf. simpl.
    apply elem_of_app. right. by left.
Qed.

(** [unlock] by a thread that has the mutex wakes the first waiting thread
    and hands the mutex to it, so that no third thread can take it in between;
    without a waiting thread the mutex is free.  By any other thread it throws
    [std::runtime_error], and no mutex, queue or CPU changes. *)
Theorem unlock_spec s c t m :
  reachable s → enabled s (Call c t (Unlock m)) →
  if bool_decide (holds s m t) then
    ∃ s', execute (Call c t (Unlock m)) s = Done () s' ∧
      (∀ m', get_mutex s' m' = if decide (m' = m) then unlocked (get_mutex s m) else get_mutex s m') ∧
      ready_threads s' = ready_threads s ++ take 1 (waiting_threads (get_mutex s m)) ∧
      cpu_thread s' c = [t]
  else
    execute (Call c t (Unlock m)) s = Throws (set_threads (alter (set_pc None) t) s).
Proof.
  intros Hr He. pose proof (unlock_outcome s c t m (reachable_good s Hr) He) as Hout.
  case_bool_decide; [|exact Hout]. destruct Hout as (s' & Hx & Hm & Hrd & Hc). exists s'.
  split; [done|]. split; [|done]. intros m'. by apply (get_mutex_set _ _ _ _ _ Hm).
Qed.

(** (C27) [wait] releases the mutex and joins the queue of the condition variable
    in one step (no signal can come in between), and the thread is on no CPU;
    without the mutex it throws. *)
Theorem wait_spec s c t v m :
  reachable s → enabled s (Call c t (Wait v m)) →
  if bool_decide (holds s m t) then
    ∃ s', execute (Call c t (Wait v m)) s = Done () s' ∧
      get_mutex s' m = unlocked (get_mutex s m) ∧ get_cv s' v = get_cv s v ++ [t] ∧
      ∀ c', cpu_thread s' c' ≠ [t]
  else
    execute (Call c t (Wait v m)) s = Throws (set_threads (alter (set_pc None) t) s).
Proof.
  intros Hr He. pose proof (reachable_good s Hr) as Hg.
  pose proof (wait_outcome s c t v m Hg He) as Hout. case_bool_decide; [|exact Hout].
  destruct Hout as (s' & Hx & Hm & Hv). exists s'. split; [done|].
  split; [by rewrite (get_mutex_set _ _ _ _ _ Hm), decide_True|].
  assert (get_cv s' v = get_cv s v ++ [t]) as Hcv by (unfold get_cv at 1; by rewrite Hv, lookup_insert_eq).
  split; [done|]. intros c' Ht.
  pose proof (ret_good _ _ _ _ (step_ok _ _ _ Hg (step_done _ _ _ He Hx))) as [Hti _].
  assert (PCpu c' = PCv v); [|done]. apply (placed_unique _ _ (ti_placed _ _ _ Hti) t).
  - simpl. rewrite Ht. by left.
  - simpl. rewrite Hcv. apply elem_of_app. right. by left.
Qed.

(** A thread that the step has given a CPU finds what it waited for. *)
Lemma resumed_finds s e s' c t :
  good s → step s e s' → cpu_thread s c ≠ [t] → cpu_thread s' c = [t] → resumable None s' t.
Proof.
  intros Hg Hs Hn Ht. destruct (step_ok _ _ _ Hg Hs) as [Hg' Ho Hrun].
  destruct (decide (c = cpu_of e)) as [->|Hc]; [|by rewrite Ho in Ht].
  destruct (Hrun t Ht) as [Hcall|]; [|done]. exfalso. apply Hn.
  destruct e as [c u k| | | |]; try done. injection Hcall as ->. eapply enabled_running. by inversion Hs.
Qed.

(** (C28) When a thread that blocked in [lock] runs again, it has the mutex; when
    one that blocked in [join] runs again, the other thread has finished. *)
Theorem blocked_threads_return s e s' c t :
  reachable s → step s e s' → cpu_thread s c ≠ [t] → cpu_thread s' c = [t] →
  match ctx s' t with
  | Some (AtLock m) => holds s' m t
  | Some (AtJoin u) => thread_done None s' u
  | x => is_Some x
  end.
Proof.
  intros Hr Hs Hn Ht. pose proof (reachable_good s Hr) as Hg.
  pose proof (resumed_finds _ _ _ _ _ Hg Hs Hn Ht) as Hres.
  pose proof (ret_good _ _ _ _ (step_ok _ _ _ Hg Hs)) as Hg'. unfold resumable in Hres.
  destruct (ctx s' t) as [[]|]; try done; try by eexists.
  destruct Hres as [Hf Ho]. apply holds_owned; try done. by eapply running_alive.
Qed.

(** [join] returns at once exactly when the other thread has finished;
    otherwise the calling thread waits for it, and no CPU runs it. *)
Theorem join_spec s c t u s' :
  reachable s → u < next_thread s → step s (Call c t (Join u)) s' →
  if unfinished s u
  then t ∈ join_queue s' u ∧ ∀ c', cpu_thread s' c' ≠ [t]
  else thread_done None s' u ∧ cpu_thread s' c = [t].
Proof.
  intros Hr Hu Hs. pose proof (reachable_good s Hr) as Hg.
  assert (enabled s (Call c t (Join u))) as He by by inversion Hs.
  pose proof (step_done_spec s c t (Join u) _ _ Hg (λ h, h) Hs
    (thread_join_spec c t u (called t (Join u) s) (enabled_running _ _ _ _ He))) as Hj.
  pose proof (ret_good _ _ _ _ (step_ok _ _ _ Hg Hs)) as [Hti _]. unfold join_post in Hj.
  assert (unfinished (called t (Join u) s) u = unfinished s u) as Huf.
  { unfold unfinished. simpl. destruct (decide (u = t)) as [->|]; [|by rewrite lookup_alter_ne].
    rewrite lookup_alter_eq. by destruct (threads s !! t). }
  rewrite Huf in Hj. destruct (unfinished s u) eqn:Hfin.
  - split; [done|]. intros c' Ht. assert (PCpu c' = PJoin u); [|done].
    apply (placed_unique _ _ (ti_placed _ _ _ Hti) t); [|done]. simpl. rewrite Ht. by left.
  - split; [|apply Hj]. eapply (finished_kept_done s); [by eapply step_respects; [apply finished_kept_execute|]|].
    split; [done|]. right. intros i Hi. unfold unfinished in Hfin. rewrite Hi in Hfin. by destruct (finished i).
Qed.

(** A thread that has finished never runs again, and is on no queue from
    which it could be run, whatever the threads do; its stack can be freed. *)
Theorem finished_never_runs s es s' t :
  reachable s → thread_done None s t → steps s es s' →
  (∀ c, cpu_thread s' c ≠ [t]) ∧ t ∉ ready_threads s' ∧
  (∀ m, t ∉ waiting_threads (get_mutex s' m)) ∧ (∀ v, t ∉ get_cv s' v).
Proof.
  intros Hr Hd Hs. pose proof (steps_good _ _ _ (reachable_good s Hr) Hs) as Hg.
  pose proof (done_nowhere _ _ Hg (steps_done _ _ _ _ Hs Hd)) as Hn. repeat split.
  - intros c Hc. assert (PCpu c = PFinished); [|done]. apply Hn. simpl. rewrite Hc. by left.
  - intros Hin. by specialize (Hn PReady Hin).
  - intros m Hin. by specialize (Hn (PMutex m) Hin).
  - intros v Hin. by specialize (Hn (PCv v) Hin).
Qed.

(** (C26) No CPU sleeps next to work: if a CPU sleeps and nobody has sent it an
    interrupt, then every ready thread has a CPU of its own that was woken, or
    is being woken, and will look at the ready queue. *)
Theorem work_conserved s c x :
  reachable s → cpus s !! c = Some x → mode x = Suspended → ipi x = false →
  ∃ l, NoDup l ∧ length l = length (ready_threads s) ∧
    Forall (λ c', ∃ y, cpus s !! c' = Some y ∧ awake y) l.
Proof.
  intros Hr Hc Hm Hi. pose proof (reachable_good s Hr) as [_ Hci].
  assert (c ∈ suspended_cpus s) as Hin by (apply (ci_suspended _ _ Hci); eauto).
  pose proof (ci_work _ _ Hci ltac:(intros Hs; by rewrite Hs in Hin; apply not_elem_of_nil in Hin)) as Hw.
  exists (take (length (ready_threads s)) (elements (woken s))).
  split; [apply (NoDup_app _ (drop (length (ready_threads s)) (elements (woken s))));
    rewrite take_drop; apply NoDup_elements|].
  split; [rewrite length_take; unfold size, set_size in Hw; simpl in Hw; lia|].
  apply Forall_take, Forall_forall. intros c' Hc'. by apply elem_of_woken, elem_of_elements.
Qed.

(** *** Progress *)

Lemma executes_to s e (Q : state → Prop) :
  good s → enabled s e → ¬ event_throws s e → wlp (execute e) (λ _, Q) (λ _, True) s →
  ∃ s', step s e s' ∧ Q s'.
Proof.
  intros Hg He Hn Hq. pose proof (execute_ends (λ _, False) s e Hg He ltac:(done)) as Hw. unfold wp, wlp in *.
  destruct (execute e s) as [[] s'| | | |] eqn:Hx; try done. exists s'. split; [by apply step_done|done].
Qed.

(** Interrupts alone, of a timer or from another CPU, make these happen. *)
Definition by_interrupt (e : event) : Prop :=
  match e with Wake _ | Recheck _ | Call _ _ Yield => True | _ => False end.

Lemma recheck_gets s c x t rest :
  good s → cpus s !! c = Some x → mode x = Woken → ready_threads s = t :: rest →
  ∃ s', step s (Recheck c) s' ∧ cpu_thread s' c = [t].
Proof.
  intros Hg Hx Hm Hr. apply executes_to; [done|by exists x|exact (λ h, h)|].
  eapply wlp_mono; [by eapply recheck_runs|by intros ? ? []|done].
Qed.

Lemma yield_gets s c x u t rest :
  good s → cpus s !! c = Some x → mode x = UserMode → executing_thread x = Some (RunThread u) →
  ready_threads s = t :: rest → ∃ s', step s (Call c u Yield) s' ∧ cpu_thread s' c = [t].
Proof.
  intros Hg Hx Hm He Hr.
  destruct (running_alive s c u Hg) as [i Hi]; [unfold cpu_thread; by rewrite Hx, He|].
  apply executes_to; [done| |exact (λ h, h)|].
  - exists x, i. do 4 (split; [done|]). unfold may_call. destruct (pc i); [by right|done].
  - eapply wlp_mono; [by eapply yield_runs|by intros ? ? []|done].
Qed.

Lemma wake_gets s c x :
  good s → cpus s !! c = Some x → mode x = Suspended → ipi x = true →
  ∃ s' x', step s (Wake c) s' ∧ cpus s' !! c = Some x' ∧ mode x' = Woken ∧ ready_threads s' = ready_threads s.
Proof.
  intros Hg Hx Hm Hi. exists (set_cpus (alter (λ x, set_mode Woken (set_ipi false x)) c) s). eexists.
  split; [apply step_done; [by exists x|done]|]. simpl. by rewrite lookup_alter_eq, Hx.
Qed.

(** Some CPU is not asleep, or will be woken. *)
Lemma some_cpu_awake s t rest :
  good s → ready_threads s = t :: rest → cpus s ≠ ∅ →
  ∃ c x, cpus s !! c = Some x ∧ (mode x = Suspended → ipi x = true).
Proof.
  intros [_ Hci] Hr Hne. destruct (suspended_cpus s) as [|w ws] eqn:Hs.
  - destruct (map_choose _ Hne) as (c & x & Hx). exists c, x. split; [done|]. intros Hm.
    destruct (ipi x) eqn:Hi; [done|]. assert (c ∈ suspended_cpus s) as Hin by (apply (ci_suspended _ _ Hci); eauto).
    rewrite Hs in Hin. by apply not_elem_of_nil in Hin.
  - pose proof (ci_work _ _ Hci ltac:(by rewrite Hs)) as Hw. rewrite Hr in Hw. simpl in Hw.
    destruct (decide (woken s = ∅)) as [He|[c (x & Hx & Ha)%elem_of_woken]%set_choose_L].
    + rewrite He, size_empty in Hw. lia.
    + exists c, x. split; [done|]. intros Hm. destruct Ha as [?|?]; congruence.
Qed.

(** (C25) The first ready thread gets a CPU: as soon as a CPU has been booted, at
    most two steps, which interrupts bring about whatever the threads do, run
    it.  No wake-up is lost. *)
Theorem ready_thread_gets_cpu s t rest :
  reachable s → ready_threads s = t :: rest → cpus s ≠ ∅ →
  ∃ es s' c, steps s es s' ∧ length es <= 2 ∧ Forall by_interrupt es ∧ cpu_thread s' c = [t].
Proof.
  intros Hr Hrd Hne. pose proof (reachable_good s Hr) as Hg.
  destruct (some_cpu_awake s t rest Hg Hrd Hne) as (c & x & Hx & Hm). destruct (mode x) eqn:Hmode.
  - destruct (ci_cpu _ _ (good_cpus _ Hg) c x Hx ltac:(done)) as [_ Hrun]. unfold runs_its_mode in Hrun.
    rewrite Hmode in Hrun. destruct Hrun as [u Hu].
    destruct (yield_gets s c x u t rest Hg Hx Hmode Hu Hrd) as (s' & Hs & Ht).
    exists [Call c u Yield], s', c. repeat split; [by eapply steps_cons; [|apply steps_nil]|simpl; lia|by repeat constructor|done].
  - destruct (wake_gets s c x Hg Hx Hmode (Hm eq_refl)) as (s1 & x1 & Hs1 & Hx1 & Hm1 & Hr1).
    pose proof (ret_good _ _ _ _ (step_ok _ _ _ Hg Hs1)) as Hg1. rewrite Hrd in Hr1.
    destruct (recheck_gets s1 c x1 t rest Hg1 Hx1 Hm1 Hr1) as (s' & Hs' & Ht).
    exists [Wake c; Recheck c], s', c. repeat split; [|simpl; lia|by repeat constructor|done].
    eapply steps_cons; [done|]. by eapply steps_cons; [|apply steps_nil].
  - destruct (recheck_gets s c x t rest Hg Hx Hmode Hrd) as (s' & Hs & Ht).
    exists [Recheck c], s', c. repeat split; [by eapply steps_cons; [|apply steps_nil]|simpl; lia|by repeat constructor|done].
Qed.

(** *** Broadcasting *)

(** What [push_and_signal] computes. *)
Definition push_state (u : nat) (s : state) : state :=
  match suspended_cpus s with
  | [] => set_ready (ready_threads s ++ [u]) s
  | w :: ws => set_cpus (alter (set_ipi true) w) (set_suspended ws (set_ready (ready_threads s ++ [u]) s))
  end.

Lemma push_and_signal_eq u s : push_and_signal u s = Done () (push_state u s).
Proof.
  unfold push_and_signal, push_state, on_cpu, mbind, op_bind, get, update, mret, op_ret. simpl.
  by destruct (suspended_cpus s).
Qed.

(** CPU [c] has the guard and its interrupts are disabled. *)
Definition has_guard (c : nat) (s : state) : Prop :=
  guard s = true ∧ ∃ x, cpus s !! c = Some x ∧ interrupts x = false.

Lemma has_guard_push c u v l s : has_guard c s → has_guard c (push_state u (set_cv v l s)).
Proof.
  intros (Hg & x & Hx & Hi). unfold has_guard, push_state. simpl.
  destruct (suspended_cpus s) as [|w ws]; simpl; (split; [done|]); [eauto|].
  destruct (decide (c = w)) as [->|]; [|rewrite lookup_alter_ne by done; eauto].
  rewrite lookup_alter_eq, Hx. simpl. by eexists.
Qed.

Lemma exited_entered c s : has_guard c s → entered c (exited c s) = s.
Proof.
  intros (Hg & x & Hx & Hi). unfold exited, entered. destruct s as [g r f su cp th n mu cv]. simpl in *. subst g.
  unfold set_cpus, set_guard. simpl. f_equal. apply map_eq. intros c'.
  destruct (decide (c' = c)) as [->|]; [|by rewrite !lookup_alter_ne].
  rewrite !lookup_alter_eq, Hx. destruct x. simpl in *. by subst.
Qed.

Lemma entered_has_guard c x s : cpus s !! c = Some x → has_guard c (entered c s).
Proof. intros Hx. split; [done|]. simpl. rewrite lookup_alter_eq, Hx. by eexists. Qed.

Fixpoint wake_state (v : nat) (l : list nat) (s : state) : state :=
  match l with
  | [] => s
  | u :: rest => wake_state v rest (push_state u (set_cv v rest s))
  end.

Lemma push_state_cvs u s : cvs (push_state u s) = cvs s.
Proof. unfold push_state. by destruct (suspended_cpus s). Qed.

Lemma cv_wake_all_eq v l s : cv_wake_all v l s = Done () (wake_state v l s).
Proof.
  revert s; induction l as [|u l IH]; intros s; [done|]. simpl.
  change (_ ≫= _) with (update (set_cv v l) ≫= λ _, push_and_signal u ≫= λ _, cv_wake_all v l).
  unfold mbind, op_bind, update. rewrite push_and_signal_eq. apply IH.
Qed.

Lemma wake_state_empty v l s : get_cv s v = l → get_cv (wake_state v l s) v = [].
Proof.
  revert s; induction l as [|u l IH]; intros s Hs; [done|]. simpl. apply IH.
  unfold get_cv. rewrite push_state_cvs. simpl. by rewrite lookup_insert_eq.
Qed.

Lemma os_guard_enter_eq c s : guard s = false → os_guard_enter c s = Done () (entered c s).
Proof. intros Hg. unfold os_guard_enter, on_cpu, mbind, op_bind, get, update. simpl. by rewrite Hg. Qed.

Lemma cv_broadcast_eq c v s :
  guard s = false → cv_broadcast c v s = Done () (exited c (wake_state v (get_cv s v) (entered c s))).
Proof.
  intros Hg. unfold cv_broadcast. unfold mbind at 1, op_bind at 1. rewrite os_guard_enter_eq by done.
  unfold mbind, op_bind, get. cbn beta iota. rewrite cv_wake_all_eq. unfold assert_.
  rewrite bool_decide_true; [done|]. by apply wake_state_empty.
Qed.

Lemma cv_signal_eq c v u rest s :
  guard s = false → get_cv s v = u :: rest →
  cv_signal c v s = Done () (exited c (push_state u (set_cv v rest (entered c s)))).
Proof.
  intros Hg Hv. unfold cv_signal. unfold mbind at 1, op_bind at 1. rewrite os_guard_enter_eq by done.
  unfold mbind, op_bind, get. cbn beta iota. change (get_cv (entered c s) v) with (get_cv s v). rewrite Hv.
  unfold update. by rewrite push_and_signal_eq.
Qed.

(** [signal], [n] times. *)
Fixpoint signals (c v n : nat) : op () :=
  match n with
  | 0 => mret ()
  | S n => _ ← cv_signal c v; signals c v n
  end.

Lemma signals_eq c v l s x :
  guard s = false → cpus s !! c = Some x → interrupts x = true → get_cv s v = l →
  signals c v (length l) s = Done () (exited c (wake_state v l (entered c s))).
Proof.
  revert s x; induction l as [|u l IH]; intros s x Hg Hx Hi Hv; simpl.
  { by rewrite (entered_exited c x). }
  unfold mbind, op_bind. rewrite (cv_signal_eq c v u l) by done.
  set (y := push_state u (set_cv v l (entered c s))).
  assert (has_guard c y) as Hy by (eapply has_guard_push, entered_has_guard; exact Hx).
  pose proof Hy as (_ & xy & Hxy & _).
  rewrite (IH _ (set_interrupts true xy)); [by rewrite exited_entered| | |done|].
  - done.
  - simpl. by rewrite lookup_alter_eq, Hxy.
  - unfold get_cv. simpl. unfold y. rewrite push_state_cvs. simpl. by rewrite lookup_insert_eq.
Qed.

(** (C29) [broadcast] is as many [signal]s as threads are waiting, one after the
    other: it wakes all of them, in the order in which they began to wait. *)
Theorem broadcast_is_signals s c x v :
  reachable s → cpus s !! c = Some x → cv_broadcast c v s = signals c v (length (get_cv s v)) s.
Proof.
  intros Hr Hx. destruct (good_cpus _ (reachable_good s Hr)) as [Hg Hc _ _ _ _ _].
  rewrite cv_broadcast_eq by done. symmetry. eapply signals_eq; [done|exact Hx| |done].
  by apply (Hc c x).
Qed.

(** ** A run *)

Definition enabledb (s : state) (e : event) : bool :=
  match e with
  | Call c t k =>
      match cpus s !! c, threads s !! t with
      | Some x, Some i =>
          bool_decide (mode x = UserMode) && bool_decide (executing_thread x = Some (RunThread t)) &&
          match pc i, k with
          | None, _ | Some _, Yield => true
          | Some m, Lock m' => bool_decide (m' = m)
          | Some _, _ => false
          end
      | _, _ => false
      end
  | Boot c _ => match cpus s !! c with Some _ => false | None => true end
  | Wake c =>
      match cpus s !! c with Some x => bool_decide (mode x = Suspended) && ipi x | None => false end
  | IdleTimer c | Recheck c =>
      match cpus s !! c with Some x => bool_decide (mode x = Woken) | None => false end
  end.

Lemma enabledb_enabled s e : enabledb s e = true → enabled s e.
Proof.
  destruct e as [c t k|c main|c|c|c]; simpl; destruct (cpus s !! c) as [x|]; try done.
  - destruct (threads s !! t) as [i|]; [|done]. rewrite !andb_true_iff, !bool_decide_eq_true.
    intros [[Hm He] Hp]. exists x, i. do 4 (split; [done|]). unfold may_call.
    destruct (pc i) as [m|]; [|done]. destruct k; try done; [by right|].
    apply bool_decide_eq_true in Hp as ->. by left.
  - rewrite andb_true_iff, bool_decide_eq_true. intros []. by exists x.
  - rewrite bool_decide_eq_true. by exists x.
  - rewrite bool_decide_eq_true. by exists x.
Qed.

Fixpoint run (es : list event) (s : state) : option state :=
  match es with
  | [] => Some s
  | e :: es =>
      if enabledb s e then
        match execute e s with
        | Done _ s' | Throws s' => run es s'
        | _ => None
        end
      else None
  end.

Lemma run_steps es s s' : run es s = Some s' → steps s es s'.
Proof.
  revert s; induction es as [|e es IH]; intros s; simpl; [intros [= ->]; constructor|].
  destruct (enabledb s e) eqn:He; [|done]. apply enabledb_enabled in He.
  destruct (execute e s) as [[] s1|s1| | |] eqn:Hx; try done; intros Hs;
    (eapply steps_cons; [|by apply IH]); [by apply step_done|by apply step_throws].
Qed.

Lemma steps_reachable s es s' : reachable s → steps s es s' → reachable s'.
Proof.
  intros Hr Hs. revert Hr. induction Hs as [|s e s1 es s' H1 _ IH]; [done|]. intros Hr.
  apply IH. by eapply reachable_step.
Qed.

Definition state_after (es : list event) : state := default initial (run es initial).

Lemma state_after_reachable es : is_Some (run es initial) → reachable (state_after es).
Proof.
  intros [s Hs]. unfold state_after. rewrite Hs. simpl.
  eapply steps_reachable; [apply reachable_initial|]. by apply run_steps.
Qed.

(** Two CPUs and two threads; thread 1 waits for the mutex of thread 0, and CPU 1
    sleeps. *)
Definition two_threads : list event :=
  [Boot 0 true; Boot 1 false; Call 0 0 Create; Wake 1; Recheck 1; Call 0 0 (Lock 7)].
Definition one_waits : list event := two_threads ++ [Call 1 1 (Lock 7)].

Lemma one_waits_reachable : reachable (state_after one_waits).
Proof. apply state_after_reachable. vm_compute. by eexists. Qed.

Lemma two_threads_reachable : reachable (state_after two_threads).
Proof. apply state_after_reachable. vm_compute. by eexists. Qed.

Lemma step_run s e s' : enabledb s e = true → execute e s = Done () s' → step s e s'.
Proof. intros He Hx. apply step_done; [by apply enabledb_enabled|done]. Qed.

Lemma operations_never_fail_witness :
  ∃ s', reachable s' ∧
    (execute (Call 0 0 (Unlock 7)) (state_after one_waits) = Done () s' ∨
     (execute (Call 0 0 (Unlock 7)) (state_after one_waits) = Throws s' ∧
      event_throws (state_after one_waits) (Call 0 0 (Unlock 7)))).
Proof.
  apply (operations_never_fail (state_after one_waits)); [apply one_waits_reachable|].
  apply enabledb_enabled. vm_compute. reflexivity.
Defined.

Ltac run_reachable := apply state_after_reachable; vm_compute; by eexists.
Ltac run_step := apply step_run; vm_compute; reflexivity.
Ltac run_enabled := apply enabledb_enabled; vm_compute; reflexivity.

Lemma threads_in_one_place_witness :
  guard (state_after one_waits) = false ∧ ∃ p, 1 ∈ queue (state_after one_waits) p ∧
    NoDup (queue (state_after one_waits) p) ∧ (∀ p', 1 ∈ queue (state_after one_waits) p' → p' = p) ∧
    blocked_at p (Some (thread_ctx (ThreadInfo (AtLock 7) [] false None))).
Proof.
  apply (threads_in_one_place (state_after one_waits)); [apply one_waits_reachable|].
  vm_compute. reflexivity.
Defined.

Lemma mutex_owner_stable_witness :
  let s' := state_after (one_waits ++ [Call 0 0 (Unlock 7)]) in
  owned_thread (get_mutex s' 7) = Some 0 ∨
  ∃ c, Call 0 0 (Unlock 7) = Call c 0 (Unlock 7) ∨ ∃ v, Call 0 0 (Unlock 7) = Call c 0 (Wait v 7).
Proof.
  apply (mutex_owner_stable (state_after one_waits)); [apply one_waits_reachable|run_step|].
  vm_compute. reflexivity.
Defined.

Lemma lock_spec_witness :
  let s := state_after two_threads in
  let s' := state_after one_waits in
  (∀ m', get_mutex s' m' = if decide (m' = 7) then locked 1 (get_mutex s 7) else get_mutex s m') ∧
  (free (get_mutex s 7) = false → ∀ c', cpu_thread s' c' ≠ [1]).
Proof. apply (lock_spec (state_after two_threads) 1 1 7); [apply two_threads_reachable|run_step]. Defined.

Lemma unlock_spec_witness :
  let s := state_after one_waits in
  if bool_decide (holds s 7 0) then
    ∃ s', execute (Call 0 0 (Unlock 7)) s = Done () s' ∧
      (∀ m', get_mutex s' m' = if decide (m' = 7) then unlocked (get_mutex s 7) else get_mutex s m') ∧
      ready_threads s' = ready_threads s ++ take 1 (waiting_threads (get_mutex s 7)) ∧
      cpu_thread s' 0 = [0]
  else execute (Call 0 0 (Unlock 7)) s = Throws (set_threads (alter (set_pc None) 0) s).
Proof. apply (unlock_spec (state_after one_waits) 0 0 7); [apply one_waits_reachable|run_enabled]. Defined.

Lemma wait_spec_witness :
  let s := state_after one_waits in
  if bool_decide (holds s 7 0) then
    ∃ s', execute (Call 0 0 (Wait 3 7)) s = Done () s' ∧
      get_mutex s' 7 = unlocked (get_mutex s 7) ∧ get_cv s' 3 = get_cv s 3 ++ [0] ∧
      ∀ c', cpu_thread s' c' ≠ [0]
  else execute (Call 0 0 (Wait 3 7)) s = Throws (set_threads (alter (set_pc None) 0) s).
Proof. apply (wait_spec (state_after one_waits) 0 0 3 7); [apply one_waits_reachable|run_enabled]. Defined.

(** Thread 0 has unlocked, CPU 1 wakes up and runs thread 1 again. *)
Definition handed_over : list event := one_waits ++ [Call 0 0 (Unlock 7); Wake 1].

Lemma blocked_threads_return_witness :
  let s' := state_after (handed_over ++ [Recheck 1]) in
  match ctx s' 1 with
  | Some (AtLock m) => holds s' m 1
  | Some (AtJoin u) => thread_done None s' u
  | x => is_Some x
  end.
Proof.
  apply (blocked_threads_return (state_after handed_over) (Recheck 1) _ 1 1).
  - run_reachable.
  - run_step.
  - vm_compute. discriminate.
  - vm_compute. reflexivity.
Defined.

Lemma join_spec_witness :
  let s := state_after two_threads in
  let s' := state_after (two_threads ++ [Call 0 0 (Join 1)]) in
  if unfinished s 1 then 0 ∈ join_queue s' 1 ∧ ∀ c', cpu_thread s' c' ≠ [0]
  else thread_done None s' 1 ∧ cpu_thread s' 0 = [0].
Proof.
  apply (join_spec (state_after two_threads) 0 0 1); [apply two_threads_reachable| |run_step].
  vm_compute. lia.
Defined.

(** Thread 1 returns; another thread is created, runs and frees it. *)
Definition one_returned : list event := two_threads ++ [Call 1 1 Return].
Definition one_freed : list event :=
  [Call 0 0 Create; Wake 1; Recheck 1; Call 1 2 Return].

Lemma finished_never_runs_witness :
  let s' := state_after (one_returned ++ one_freed) in
  (∀ c, cpu_thread s' c ≠ [1]) ∧ 1 ∉ ready_threads s' ∧
  (∀ m, 1 ∉ waiting_threads (get_mutex s' m)) ∧ (∀ v, 1 ∉ get_cv s' v).
Proof.
  apply (finished_never_runs (state_after one_returned) one_freed).
  - run_reachable.
  - split; [vm_compute; lia|right]. intros i Hi. vm_compute in Hi. by injection Hi as <-.
  - apply run_steps. vm_compute. reflexivity.
Defined.

Lemma work_conserved_witness :
  ∃ l, NoDup l ∧ length l = length (ready_threads (state_after one_waits)) ∧
    Forall (λ c', ∃ y, cpus (state_after one_waits) !! c' = Some y ∧ awake y) l.
Proof.
  apply (work_conserved (state_after one_waits) 1 (Cpu (Some RunWaiting) Suspended true false));
    [apply one_waits_reachable|vm_compute; reflexivity..].
Defined.

Lemma ready_thread_gets_cpu_witness :
  ∃ es s' c, steps (state_after [Boot 0 true; Call 0 0 Create]) es s' ∧ length es <= 2 ∧
    Forall by_interrupt es ∧ cpu_thread s' c = [1].
Proof.
  apply (ready_thread_gets_cpu (state_after [Boot 0 true; Call 0 0 Create]) 1 []).
  - run_reachable.
  - vm_compute. reflexivity.
  - vm_compute. discriminate.
Defined.

(** Threads 1 and 0 wait for a condition variable, and a third one runs. *)
Definition two_wait : list event :=
  two_threads ++ [Call 0 0 Create; Call 1 1 (Lock 8); Call 1 1 (Wait 3 8); Call 0 0 (Wait 3 7)].

Lemma broadcast_is_signals_witness :
  length (get_cv (state_after two_wait) 3) = 2 ∧
  cv_broadcast 1 3 (state_after two_wait) =
  signals 1 3 (length (get_cv (state_after two_wait) 3)) (state_after two_wait).
Proof.
  split; [vm_compute; reflexivity|].
  eapply (broadcast_is_signals (state_after two_wait) 1).
  - run_reachable.
  - vm_compute. reflexivity.
Defined.
