(* ===== verification/Pager.v ===== *)
(** * The virtual-memory pager: model

    [vmpager/]: processes whose arenas are backed by a swap file and by other
    files, with more virtual pages than physical memory.  A [mem_block] is the
    data of one or more virtual pages, in physical memory or in a file; blocks
    are shared ([shared_ptr]), so they live in a heap, and so do page table
    entries, which blocks point to.  The files and physical memory belong to
    the infrastructure: [file_read] and [file_write] are parameters with their
    documented behaviour, physical memory is a map from page numbers to pages. *)
From S2P Require Import Prelude.

Local Open Scope Z_scope.

(** ** The arena ([vm_arena.h], [utils.h]) *)

Definition VM_PAGESIZE : Z := 0x10000.
Definition VM_ARENA_BASEADDR : Z := 0x600000000.
Definition VM_ARENA_SIZE : Z := 0x01000000.
Definition num_virt_addr : Z := VM_ARENA_SIZE / VM_PAGESIZE.

(** ** Data *)

(** The contents of a page, by offset. *)
Definition page : Type := Z → ascii.
Definition zeroes : page := λ _, NUL.

(** A 64-bit signed difference of addresses. *)
Definition wrap_ptrdiff (z : Z) : Z := (z + 2 ^ 63) `mod` 2 ^ 64 - 2 ^ 63.

Definition addr_to_index (addr : Z) : Z :=
  wrap32 (Z.quot (wrap_ptrdiff (addr - VM_ARENA_BASEADDR)) VM_PAGESIZE).

(** [index * VM_PAGESIZE] is computed in 32 bits. *)
Definition index_to_addr (index : Z) : Z :=
  VM_ARENA_BASEADDR + wrap32 (index * VM_PAGESIZE).

Definition calculate_page_offset (addr : Z) : Z := addr `mod` VM_PAGESIZE.

(** A page table entry.  A [page_table_entry_t *] points to the entry of a
    virtual page in the page table of a process: it is a pair of the two. *)
Record page_table_entry_t := Pte {
  ppage : Z;
  read_enable : bool;
  write_enable : bool;
}.
Abbreviation pte_ptr := (Z * Z)%type.

(** The 30 bits of [ppage]. *)
Definition trunc30 (z : Z) : Z := z `mod` 2 ^ 30.

Inductive block_type := phys | swap | file.

Record mem_block := MemBlock {
  dirty : bool;
  referenced : bool;
  resident : bool;
  is_swap : bool;
  swap_blocks : list Z;
  ptes : gset pte_ptr;
  location : Z;
  type : block_type;
  filename : bytes;
  block_num : Z;
}.

Record kernel_page_info := KernelPageInfo {
  valid : bool;
  data_location : option Z;          (* a block of the heap, or null *)
}.

(** The two arrays of a process, [page_info_table] and [page_table], are in heaps
    of their elements, at the places [(pid, index)]. *)
Record kernel_process_info := KernelProcessInfo {
  next_invalid_page : Z;
  num_swap_blocks : Z;
}.

#[export] Instance block_type_eq_dec : EqDecision block_type.
Proof. solve_decision. Defined.

(** The constructor of [mem_block]; without a physical page 0 it leaves
    [is_swap] to its callers, which all set it. *)
Definition new_mem_block (location_in : Z) (type_in : block_type) : mem_block :=
  MemBlock false true true (bool_decide (location_in = 0 ∧ type_in = phys)) [] ∅ location_in type_in [] 0.

(** [num_swap_blocks] is not initialised: it is whatever was in memory. *)
Definition new_process (garbage : Z) : kernel_process_info := KernelProcessInfo 0 garbage.
Definition no_page_info : kernel_page_info := KernelPageInfo false None.
Definition default_entry : page_table_entry_t := Pte 0 false false.

(** ** The infrastructure *)

(** Files, by name, and the swap file ([None]); [file_read] fails with [None]. *)
Class Files := {
  files : Type;
  file_read : files → option bytes → Z → option page;
  file_write : files → option bytes → Z → page → files;
}.

(** What the pager relies on ([vm_pager.h]): reads of the swap file do not fail
    once it was written, and a file block that was accessed stays accessible. *)
Class FilesSpec `{Files} : Prop := {
  file_read_swap d n p : file_read (file_write d None n p) None n = Some p;
  file_read_file d f n p :
    is_Some (file_read d (Some f) n) → file_read (file_write d (Some f) n p) (Some f) n = Some p;
  file_read_other d f n p f' n' :
    (f', n') ≠ (f, n) → file_read (file_write d f n p) f' n' = file_read d f' n';
}.

(** [*set.begin()] of an unordered set is some element of it. *)
Class SetOrder := set_begin : gset pte_ptr → option pte_ptr.
Class SetOrderSpec `{SetOrder} : Prop := {
  set_begin_elem X r : set_begin X = Some r → r ∈ X;
  set_begin_empty X : set_begin X = None → X = ∅;
}.

Section pager.
Context `{Files, SetOrder}.

(** ** State *)

(** The global variables of the pager, the heaps of blocks, page infos and page
    table entries, the MMU's base register (the process whose table it points to), physical
    memory and the files. *)
Record pager := PagerState {
  free_mem_blocks : list Z;
  clock_queue : list Z;
  free_swap_blocks : list Z;
  process_info_mp : gmap Z kernel_process_info;
  curr_pid : Z;
  file_mapping_table : gmap (bytes * Z) Z;
  tmp_buffer : page;
  blocks : gmap Z mem_block;
  next_block : Z;
  infos : gmap pte_ptr kernel_page_info;
  entries : gmap pte_ptr page_table_entry_t;
  page_table_base_register : Z;
  vm_physmem : gmap Z page;
  disk : files;
}.

(** The pinned page of zeroes is the first block of the heap. *)
Definition zero_page : Z := 0.

(** The state before [vm_init]; [p] is what physical memory contains. *)
Definition initial_pager (p : gmap Z page) (d : files) : pager :=
  PagerState [] [] [] ∅ 0 ∅ zeroes {[zero_page := new_mem_block 0 phys]} 1 ∅ ∅ (-1) p d.

Definition set_free_mem l s := PagerState l (clock_queue s) (free_swap_blocks s) (process_info_mp s) (curr_pid s)
  (file_mapping_table s) (tmp_buffer s) (blocks s) (next_block s) (infos s) (entries s) (page_table_base_register s)
  (vm_physmem s) (disk s).
Definition set_clock l s := PagerState (free_mem_blocks s) l (free_swap_blocks s) (process_info_mp s) (curr_pid s)
  (file_mapping_table s) (tmp_buffer s) (blocks s) (next_block s) (infos s) (entries s) (page_table_base_register s)
  (vm_physmem s) (disk s).
Definition set_free_swap l s := PagerState (free_mem_blocks s) (clock_queue s) l (process_info_mp s) (curr_pid s)
  (file_mapping_table s) (tmp_buffer s) (blocks s) (next_block s) (infos s) (entries s) (page_table_base_register s)
  (vm_physmem s) (disk s).
Definition set_procs f s := PagerState (free_mem_blocks s) (clock_queue s) (free_swap_blocks s) (f (process_info_mp s))
  (curr_pid s) (file_mapping_table s) (tmp_buffer s) (blocks s) (next_block s) (infos s) (entries s)
  (page_table_base_register s) (vm_physmem s) (disk s).
Definition set_curr p s := PagerState (free_mem_blocks s) (clock_queue s) (free_swap_blocks s) (process_info_mp s)
  p (file_mapping_table s) (tmp_buffer s) (blocks s) (next_block s) (infos s) (entries s) p (vm_physmem s) (disk s).
Definition set_file_table f s := PagerState (free_mem_blocks s) (clock_queue s) (free_swap_blocks s)
  (process_info_mp s) (curr_pid s) (f (file_mapping_table s)) (tmp_buffer s) (blocks s) (next_block s) (infos s) (entries s)
  (page_table_base_register s) (vm_physmem s) (disk s).
Definition set_tmp p s := PagerState (free_mem_blocks s) (clock_queue s) (free_swap_blocks s) (process_info_mp s)
  (curr_pid s) (file_mapping_table s) p (blocks s) (next_block s) (infos s) (entries s) (page_table_base_register s)
  (vm_physmem s) (disk s).
Definition set_blocks f s := PagerState (free_mem_blocks s) (clock_queue s) (free_swap_blocks s) (process_info_mp s)
  (curr_pid s) (file_mapping_table s) (tmp_buffer s) (f (blocks s)) (next_block s) (infos s) (entries s)
  (page_table_base_register s) (vm_physmem s) (disk s).
Definition set_next n s := PagerState (free_mem_blocks s) (clock_queue s) (free_swap_blocks s) (process_info_mp s)
  (curr_pid s) (file_mapping_table s) (tmp_buffer s) (blocks s) n (infos s) (entries s)
  (page_table_base_register s) (vm_physmem s) (disk s).
Definition set_infos f s := PagerState (free_mem_blocks s) (clock_queue s) (free_swap_blocks s) (process_info_mp s)
  (curr_pid s) (file_mapping_table s) (tmp_buffer s) (blocks s) (next_block s) (f (infos s)) (entries s)
  (page_table_base_register s) (vm_physmem s) (disk s).
Definition set_entries f s := PagerState (free_mem_blocks s) (clock_queue s) (free_swap_blocks s) (process_info_mp s)
  (curr_pid s) (file_mapping_table s) (tmp_buffer s) (blocks s) (next_block s) (infos s) (f (entries s))
  (page_table_base_register s) (vm_physmem s) (disk s).
Definition set_physmem f s := PagerState (free_mem_blocks s) (clock_queue s) (free_swap_blocks s) (process_info_mp s)
  (curr_pid s) (file_mapping_table s) (tmp_buffer s) (blocks s) (next_block s) (infos s) (entries s)
  (page_table_base_register s) (f (vm_physmem s)) (disk s).
Definition set_disk d s := PagerState (free_mem_blocks s) (clock_queue s) (free_swap_blocks s) (process_info_mp s)
  (curr_pid s) (file_mapping_table s) (tmp_buffer s) (blocks s) (next_block s) (infos s) (entries s)
  (page_table_base_register s) (vm_physmem s) d.

(** ** Operations

    [None] is a failed assertion or undefined behaviour: a null pointer, the
    front of an empty queue, a fold of the heap that is not there. *)
Definition vm (A : Type) : Type := pager → option (A * pager).

#[local] Instance vm_ret : MRet vm := λ A a s, Some (a, s).
#[local] Instance vm_bind : MBind vm := λ A B f m s,
  match m s with Some (a, s') => f a s' | None => None end.

Definition get_state : vm pager := λ s, Some (s, s).
Definition modify (f : pager → pager) : vm () := λ s, Some ((), f s).
Definition assert (b : bool) : vm () := λ s, if b then Some ((), s) else None.
Definition deref {A} (o : option A) : vm A := λ s, match o with Some a => Some (a, s) | None => None end.

Definition get_block (b : Z) : vm mem_block := s ← get_state; deref (blocks s !! b).
Definition modify_block (b : Z) (f : mem_block → mem_block) : vm () := modify (set_blocks (alter f b)).

(** The counters of a process; [process_info_mp[pid]] of a process that is not
    there is null. *)
Definition get_process (pid : Z) : vm kernel_process_info := s ← get_state; deref (process_info_mp s !! pid).
Definition modify_process (pid : Z) (f : kernel_process_info → kernel_process_info) : vm () :=
  modify (set_procs (alter f pid)).
Definition set_next_invalid (n : Z) (i : kernel_process_info) := KernelProcessInfo n (num_swap_blocks i).
Definition set_num_swap (n : Z) (i : kernel_process_info) := KernelProcessInfo (next_invalid_page i) n.

(** [process_info_mp[pid]->page_info_table[v]]; an element that was not assigned
    to is as the constructor left it. *)
Definition info_of (s : pager) (r : pte_ptr) : kernel_page_info := default no_page_info (infos s !! r).
Definition get_page_info (pid v : Z) : vm kernel_page_info :=
  _ ← get_process pid; s ← get_state; mret (info_of s (pid, v)).
Definition modify_page_info (pid v : Z) (f : kernel_page_info → kernel_page_info) : vm () :=
  _ ← get_process pid; modify (λ s, set_infos (insert (pid, v) (f (info_of s (pid, v)))) s).
Definition set_data_location (b : Z) (x : kernel_page_info) := KernelPageInfo (valid x) (Some b).
Definition set_valid (x : kernel_page_info) := KernelPageInfo true (data_location x).

Definition set_dirty d k := MemBlock d (referenced k) (resident k) (is_swap k) (swap_blocks k) (ptes k)
  (location k) (type k) (filename k) (block_num k).
Definition set_referenced r k := MemBlock (dirty k) r (resident k) (is_swap k) (swap_blocks k) (ptes k)
  (location k) (type k) (filename k) (block_num k).
Definition set_resident r k := MemBlock (dirty k) (referenced k) r (is_swap k) (swap_blocks k) (ptes k)
  (location k) (type k) (filename k) (block_num k).
Definition set_is_swap b k := MemBlock (dirty k) (referenced k) (resident k) b (swap_blocks k) (ptes k)
  (location k) (type k) (filename k) (block_num k).
Definition set_swap_blocks l k := MemBlock (dirty k) (referenced k) (resident k) (is_swap k) l (ptes k)
  (location k) (type k) (filename k) (block_num k).
Definition set_ptes X k := MemBlock (dirty k) (referenced k) (resident k) (is_swap k) (swap_blocks k) X
  (location k) (type k) (filename k) (block_num k).
Definition set_location n t k := MemBlock (dirty k) (referenced k) (resident k) (is_swap k) (swap_blocks k) (ptes k)
  n t (filename k) (block_num k).
Definition set_file f n k := MemBlock (dirty k) (referenced k) (resident k) (is_swap k) (swap_blocks k) (ptes k)
  (location k) (type k) f n.

Definition set_read b e := Pte (ppage e) b (write_enable e).
Definition set_write b e := Pte (ppage e) (read_enable e) b.
Definition set_ppage n e := Pte (trunc30 n) (read_enable e) (write_enable e).

Definition modify_pte (r : pte_ptr) (f : page_table_entry_t → page_table_entry_t) : vm () :=
  s ← get_state; _ ← deref (entries s !! r); modify (set_entries (alter f r)).

(** [for (page_table_entry_t *ptbr : ptes)]: the same assignments to each. *)
Fixpoint modify_each (l : list pte_ptr) (f : page_table_entry_t → page_table_entry_t) : vm () :=
  match l with
  | [] => mret ()
  | r :: l => _ ← modify_pte r f; modify_each l f
  end.
Definition modify_ptes (b : Z) (f : page_table_entry_t → page_table_entry_t) : vm () :=
  k ← get_block b; modify_each (elements (ptes k)) f.

(** The physical page at [vm_physmem + location * VM_PAGESIZE]; the product is
    computed in 32 bits. *)
Definition frame (location : Z) : Z := wrap32 (location * VM_PAGESIZE) / VM_PAGESIZE.
Definition read_frame (n : Z) (s : pager) : page := default zeroes (vm_physmem s !! frame n).
Definition write_frame (n : Z) (p : page) : vm () := modify (set_physmem (insert (frame n) p)).

(** *** Initialisation *)

Definition vm_init (memory_pages swap_blocks : Z) : vm () :=
  _ ← modify (λ s, set_free_mem (free_mem_blocks s ++ seqZ 1 (memory_pages - 1)) s);
  _ ← modify (λ s, set_free_swap (free_swap_blocks s ++ seqZ 0 swap_blocks) s);
  s ← get_state;
  _ ← assert (Z.of_nat (length (free_swap_blocks s)) =? swap_blocks);
  write_frame 0 zeroes.

(** *** Eviction *)

(** [while (clock_queue.front()->referenced)] *)
Fixpoint second_chance (fuel : nat) : vm () :=
  match fuel with
  | O => λ _, None
  | S fuel =>
      s ← get_state;
      eviction_candidate ← deref (head (clock_queue s));
      k ← get_block eviction_candidate;
      if referenced k then
        _ ← modify_ptes eviction_candidate (λ e, set_write false (set_read false e));
        _ ← modify_block eviction_candidate (set_referenced false);
        _ ← modify (λ s, set_clock (tail (clock_queue s ++ [eviction_candidate])) s);
        second_chance fuel
      else mret ()
  end.

Definition evict_phys_page : vm () :=
  s ← get_state;
  b ← deref (head (clock_queue s));
  k ← get_block b;
  _ ← assert (bool_decide (type k = phys));
  _ ← second_chance (S (length (clock_queue s)));
  s ← get_state;
  evicted_mem_block ← deref (head (clock_queue s));
  _ ← modify (λ s, set_clock (tail (clock_queue s)) s);
  _ ← modify_ptes evicted_mem_block (λ e, set_write false (set_read false e));
  k ← get_block evicted_mem_block;
  let freed_mem := location k in
  _ ← assert (bool_decide (type k = phys));
  _ ← modify (λ s, set_free_mem (free_mem_blocks s ++ [freed_mem]) s);
  let should_write := dirty k in
  _ ← modify_block evicted_mem_block (λ k, set_referenced false (set_dirty false (set_resident false k)));
  let evicted_mem_page := location k in
  f ← (if negb (is_swap k) then
         _ ← modify_block evicted_mem_block (set_location (block_num k) file);
         _ ← (if bool_decide (ptes k = ∅) then modify (set_file_table (delete (filename k, block_num k)))
              else mret ());
         mret (Some (filename k), block_num k)
       else
         file_block ← deref (head (swap_blocks k));
         _ ← modify_block evicted_mem_block (set_location file_block swap);
         mret (None, file_block));
  if should_write then
    modify (λ s, set_disk (file_write (disk s) f.1 f.2 (read_frame evicted_mem_page s)) s)
  else mret ().

(** [evict_phys_page] if no physical page is free. *)
Definition ensure_free_page : vm () :=
  s ← get_state;
  match free_mem_blocks s with
  | [] => evict_phys_page
  | _ :: _ => mret ()
  end.

(** *** Page-ins *)

(** The result is false for -1. *)
Definition cache_nonresident_page (b : Z) : vm bool :=
  k ← get_block b;
  _ ← assert (negb (resident k));
  _ ← assert (bool_decide (type k ≠ phys));
  _ ← ensure_free_page;
  s ← get_state;
  updated_mem_location ← deref (head (free_mem_blocks s));
  k ← get_block b;
  let fname := if is_swap k then None else Some (filename k) in
  match file_read (disk s) fname (location k) with
  | None => mret false
  | Some p =>
      _ ← write_frame updated_mem_location p;
      _ ← modify (λ s, set_free_mem (tail (free_mem_blocks s)) s);
      _ ← modify (λ s, set_clock (clock_queue s ++ [b]) s);
      _ ← modify_block b (λ k, set_location updated_mem_location phys
            (set_dirty false (set_resident true (set_referenced true k))));
      _ ← modify_ptes b (λ e, set_write false (set_read true (set_ppage updated_mem_location e)));
      mret true
  end.

(** *** Faults *)

Definition read_fault_handler (b : Z) : vm () :=
  k ← get_block b;
  _ ← (if dirty k && ((is_swap k && (size (ptes k) =? 1)%nat) || negb (is_swap k))
       then modify_ptes b (set_write true) else mret ());
  _ ← modify_block b (λ k, set_resident true (set_referenced true k));
  modify_ptes b (set_read true).

Definition write_fault_handler (b : Z) : vm () :=
  _ ← modify_ptes b (set_write true);
  modify_block b (set_dirty true).

Definition update_block_permissions (b : Z) : vm () :=
  k ← get_block b;
  if dirty k && (size (ptes k) =? 1)%nat && referenced k then
    r ← deref (set_begin (ptes k));
    modify_pte r (λ e, set_read true (set_write true e))
  else mret ().

Definition is_copy_on_writable (k : mem_block) : bool :=
  ((location k =? 0) || (1 <? size (ptes k))%nat) && is_swap k.

(** [std::make_shared<mem_block>(n, t)] *)
Definition make_block (n : Z) (t : block_type) : vm Z :=
  s ← get_state;
  let b := next_block s in
  _ ← modify (set_next (b + 1));
  _ ← modify (set_blocks (insert b (new_mem_block n t)));
  mret b.

(** Virtual page [v] of process [pid]; [r] is its page table entry. *)
Definition copy_block_handler (pid v : Z) (r : pte_ptr) : vm () :=
  i ← get_page_info pid v;
  old_block ← deref (data_location i);
  s ← get_state;
  front ← deref (head (free_mem_blocks s));
  allocated_mem_block ← make_block front phys;
  _ ← modify_page_info pid v (set_data_location allocated_mem_block);
  _ ← modify_block allocated_mem_block (set_is_swap true);
  old ← get_block old_block;
  back ← deref (last (swap_blocks old));
  _ ← modify_block allocated_mem_block (λ k, set_swap_blocks (swap_blocks k ++ [back]) k);
  _ ← modify_block old_block (λ k, set_swap_blocks (removelast (swap_blocks k)) k);
  _ ← modify_block allocated_mem_block (λ k, set_ptes ({[r]} ∪ ptes k) k);
  _ ← modify_pte r (set_ppage front);
  _ ← modify (λ s, set_free_mem (tail (free_mem_blocks s)) s);
  _ ← modify (λ s, set_clock (clock_queue s ++ [allocated_mem_block]) s);
  _ ← modify_block allocated_mem_block (λ k, set_referenced true (set_resident true (set_dirty true k)));
  s ← get_state;
  write_frame front (tmp_buffer s).

(** *** Processes *)

Definition copy_virtual_page (parent child page_num : Z) : vm () :=
  _ ← modify_page_info child page_num set_valid;
  s ← get_state;
  parent_pte ← deref (entries s !! (parent, page_num));
  _ ← modify_pte (child, page_num) (set_ppage (ppage parent_pte));
  parent_info ← get_page_info parent page_num;
  shared_mem_block ← deref (data_location parent_info);
  _ ← modify_page_info child page_num (set_data_location shared_mem_block);
  _ ← modify_block shared_mem_block (λ k, set_ptes ({[(child, page_num)]} ∪ ptes k) k);
  _ ← modify_pte (child, page_num) (set_read (read_enable parent_pte));
  k ← get_block shared_mem_block;
  if is_swap k then
    s ← get_state;
    n ← deref (head (free_swap_blocks s));
    _ ← modify_block shared_mem_block (λ k, set_swap_blocks (swap_blocks k ++ [n]) k);
    _ ← modify (λ s, set_free_swap (tail (free_swap_blocks s)) s);
    if bool_decide (shared_mem_block = zero_page) then mret ()
    else modify_ptes shared_mem_block (set_write false)
  else
    s ← get_state;
    parent_pte ← deref (entries s !! (parent, page_num));
    modify_pte (child, page_num) (set_write (write_enable parent_pte)).

Fixpoint copy_virtual_pages (parent child : Z) (l : list Z) : vm () :=
  match l with
  | [] => mret ()
  | i :: l => _ ← copy_virtual_page parent child i; copy_virtual_pages parent child l
  end.

(** The arrays of a process at their places in the heaps: those of a new one, and
    those of one that is gone. *)
Definition drop_array {A} (pid : Z) (m : gmap pte_ptr A) : gmap pte_ptr A :=
  foldr (λ v, delete (pid, v)) m (seqZ 0 num_virt_addr).
Definition fill_page_table (pid : Z) (m : gmap pte_ptr page_table_entry_t) : gmap pte_ptr page_table_entry_t :=
  foldr (λ v, <[(pid, v) := default_entry]>) m (seqZ 0 num_virt_addr).

(** The result is false for -1; [garbage] is the uninitialised counter. *)
Definition vm_create (garbage parent_pid child_pid : Z) : vm bool :=
  _ ← modify (set_procs (insert child_pid (new_process garbage)));
  _ ← modify (set_infos (drop_array child_pid));
  _ ← modify (set_entries (fill_page_table child_pid));
  s ← get_state;
  match process_info_mp s !! parent_pid with
  | None => mret true
  | Some parent_info =>
      if Z.of_nat (length (free_swap_blocks s)) <? num_swap_blocks parent_info then mret false
      else
        _ ← modify_process child_pid (set_num_swap (num_swap_blocks parent_info));
        _ ← modify_process child_pid (set_next_invalid (next_invalid_page parent_info));
        _ ← copy_virtual_pages parent_pid child_pid (seqZ 0 (next_invalid_page parent_info));
        mret true
  end.

Definition vm_switch (pid : Z) : vm () :=
  s ← get_state;
  match process_info_mp s !! pid with
  | None => mret ()
  | Some _ => modify (set_curr pid)
  end.

(** The part of [vm_fault] for a write to a shared page, [b] its block. *)
Definition copy_on_write (v_page_index b : Z) : vm () :=
  _ ← read_fault_handler b;
  k ← get_block b;
  let old_phys_addr := location k in
  s ← get_state;
  let r := (page_table_base_register s, v_page_index) in
  _ ← modify_block b (λ k, set_ptes (ptes k ∖ {[r]}) k);
  _ ← update_block_permissions b;
  _ ← modify (λ s, set_tmp (read_frame old_phys_addr s) s);
  _ ← ensure_free_page;
  copy_block_handler (curr_pid s) v_page_index (curr_pid s, v_page_index).

(** The result is false for -1. *)
Definition vm_fault (addr : Z) (write_flag : bool) : vm bool :=
  s ← get_state;
  process_info ← get_process (curr_pid s);
  let v_page_index := addr_to_index addr in
  faulting_page_info ← get_page_info (curr_pid s) v_page_index;
  if (next_invalid_page process_info <=? v_page_index) || negb (valid faulting_page_info) then mret false
  else
    b ← deref (data_location faulting_page_info);
    k ← get_block b;
    success ← (if negb (resident k) then cache_nonresident_page b else mret true);
    if negb success then mret false
    else
      _ ← (if (write_flag : bool) then
             k ← get_block b;
             _ ← (if is_copy_on_writable k then copy_on_write v_page_index b else mret ());
             faulting_page_info ← get_page_info (curr_pid s) v_page_index;
             b ← deref (data_location faulting_page_info);
             write_fault_handler b
           else mret ());
      faulting_page_info ← get_page_info (curr_pid s) v_page_index;
      b ← deref (data_location faulting_page_info);
      _ ← read_fault_handler b;
      mret true.

(** [inspect_clock_queue]: one turn of the clock drops the useless blocks. *)
Fixpoint inspect_clock (n : nat) (useless_mem_blocks : gset Z) : vm () :=
  match n with
  | O => mret ()
  | S n =>
      s ← get_state;
      b ← deref (head (clock_queue s));
      k ← get_block b;
      _ ← (if bool_decide (location k ∈ useless_mem_blocks) then mret ()
           else modify (λ s, set_clock (clock_queue s ++ [b]) s));
      _ ← modify (λ s, set_clock (tail (clock_queue s)) s);
      inspect_clock n useless_mem_blocks
  end.

Definition inspect_clock_queue (useless_mem_blocks : gset Z) : vm () :=
  s ← get_state;
  inspect_clock (length (clock_queue s)) ({[0]} ∪ useless_mem_blocks).

(** One round of the loop of [vm_destroy], for page [v]. *)
Definition destroy_page (pid v : Z) (useless_mem_blocks : gset Z) : vm (gset Z) :=
  used_page_info ← get_page_info pid v;
  used_phys_block ← deref (data_location used_page_info);
  s ← get_state;
  let r := (page_table_base_register s, v) in
  _ ← modify_block used_phys_block (λ k, set_ptes (ptes k ∖ {[r]}) k);
  k ← get_block used_phys_block;
  if negb (is_swap k) then
    _ ← (if bool_decide (ptes k = ∅) && negb (resident k)
         then modify (set_file_table (delete (filename k, block_num k))) else mret ());
    mret useless_mem_blocks
  else
    back ← deref (last (swap_blocks k));
    _ ← modify (λ s, set_free_swap (free_swap_blocks s ++ [back]) s);
    _ ← modify_block used_phys_block (λ k, set_swap_blocks (removelast (swap_blocks k)) k);
    if negb (resident k) || bool_decide (used_phys_block = zero_page) then mret useless_mem_blocks
    else
      _ ← update_block_permissions used_phys_block;
      if bool_decide (ptes k = ∅) then
        _ ← modify (λ s, set_free_mem (free_mem_blocks s ++ [location k]) s);
        mret ({[location k]} ∪ useless_mem_blocks)
      else mret useless_mem_blocks.

Fixpoint destroy_pages (pid : Z) (l : list Z) (useless_mem_blocks : gset Z) : vm (gset Z) :=
  match l with
  | [] => mret useless_mem_blocks
  | v :: l => useless ← destroy_page pid v useless_mem_blocks; destroy_pages pid l useless
  end.

Definition vm_destroy : vm () :=
  s ← get_state;
  process_info ← get_process (curr_pid s);
  useless_mem_blocks ← destroy_pages (curr_pid s) (seqZ 0 (next_invalid_page process_info)) ∅;
  _ ← inspect_clock_queue useless_mem_blocks;
  _ ← modify (set_procs (delete (curr_pid s)));
  _ ← modify (set_infos (drop_array (curr_pid s)));
  modify (set_entries (drop_array (curr_pid s))).

(** *** Mapping *)

Definition map_swap_block (pid new_page : Z) : vm () :=
  s ← get_state;
  let r := (page_table_base_register s, new_page) in
  _ ← modify_pte r (set_read true);
  _ ← modify_pte r (set_write false);
  _ ← modify_page_info pid new_page (set_data_location zero_page);
  s ← get_state;
  n ← deref (head (free_swap_blocks s));
  _ ← modify_block zero_page (λ k, set_swap_blocks (swap_blocks k ++ [n]) k);
  _ ← modify_block zero_page (set_is_swap true);
  _ ← modify_process pid (λ i, set_num_swap (wrap32 (num_swap_blocks i + 1)) i);
  _ ← modify (λ s, set_free_swap (tail (free_swap_blocks s)) s);
  modify_pte r (set_ppage 0).

Definition map_file_block (filename_str : bytes) (block new_page : Z) : vm () :=
  new_file_block ← make_block block file;
  s ← get_state;
  _ ← modify_page_info (curr_pid s) new_page (set_data_location new_file_block);
  _ ← modify_block new_file_block (λ k, set_file filename_str block
        (set_referenced false (set_resident false (set_is_swap false k))));
  let r := (page_table_base_register s, new_page) in
  k ← get_block new_file_block;
  _ ← modify_pte r (set_ppage (location k));
  _ ← modify (set_file_table (insert (filename_str, block) new_file_block));
  _ ← modify_block new_file_block (λ k, set_ptes ({[r]} ∪ ptes k) k);
  _ ← modify_pte r (set_read false);
  modify_pte r (set_write false).

Definition update_file_block (used_file_block new_page : Z) : vm () :=
  s ← get_state;
  let r := (page_table_base_register s, new_page) in
  k ← get_block used_file_block;
  _ ← (if resident k then modify_pte r (set_ppage (location k)) else mret ());
  _ ← (match set_begin (ptes k) with
       | Some reference =>
           s ← get_state;
           reference_pte ← deref (entries s !! reference);
           _ ← modify_pte r (set_read (read_enable reference_pte));
           _ ← modify_pte r (set_write (write_enable reference_pte));
           modify_pte r (set_ppage (ppage reference_pte))
       | None =>
           _ ← modify_pte r (set_read false);
           _ ← modify_pte r (set_write false);
           if resident k && referenced k then
             _ ← modify_pte r (set_read true);
             if dirty k then modify_pte r (set_write true) else mret ()
           else mret ()
       end);
  _ ← modify_block used_file_block (λ k, set_ptes ({[r]} ∪ ptes k) k);
  modify_page_info (curr_pid s) new_page (set_data_location used_file_block).

(** [get_data]: a byte of the arena, paged in if need be. *)
Definition get_data (addr : Z) (pid : Z) : vm (option ascii) :=
  let page_offset := calculate_page_offset addr in
  let virtual_page := addr_to_index addr in
  i ← get_page_info pid virtual_page;
  filename_mem_block ← deref (data_location i);
  k ← get_block filename_mem_block;
  success ← (if negb (resident k) then cache_nonresident_page filename_mem_block else mret true);
  if (success : bool) then
    k ← get_block filename_mem_block;
    s ← get_state;
    mret (Some (read_frame (location k) s page_offset))
  else mret None.

(** One round of [while (true)] in [read_filename_str]: the characters read so
    far and the next address, or the result. *)
Definition read_filename_step (pid : Z) (str_ptr : Z) (filename_str : bytes) :
    vm (Z * bytes + option bytes) :=
  let virtual_page := addr_to_index str_ptr in
  i ← get_page_info pid virtual_page;
  if (num_virt_addr <=? virtual_page) || negb (valid i) then mret (inr None)
  else
    next_char ← get_data str_ptr pid;
    match next_char with
    | None => mret (inr None)
    | Some c =>
        if is_nul c then mret (inr (Some filename_str))
        else mret (inl (str_ptr + 1, filename_str ++ [c]))
    end.

(** [while (true)], for [2 ^ k] rounds. *)
Fixpoint read_filename_rounds (k : nat) (pid str_ptr : Z) (filename_str : bytes) :
    vm (Z * bytes + option bytes) :=
  match k with
  | O => read_filename_step pid str_ptr filename_str
  | S k =>
      r ← read_filename_rounds k pid str_ptr filename_str;
      match r with
      | inl (str_ptr, filename_str) => read_filename_rounds k pid str_ptr filename_str
      | inr r => mret (inr r)
      end
  end.

(** The arena has 2 ^ 24 addresses: behind its last one the loop has ended. *)
Definition read_filename_fuel : nat := 25.

Definition undefined {A} : vm A := λ _, None.

(** The result [None] is -1. *)
Definition read_filename_str (filename : Z) : vm (option bytes) :=
  s ← get_state;
  _ ← get_process (curr_pid s);
  if filename <? VM_ARENA_BASEADDR then mret None
  else
    r ← read_filename_rounds read_filename_fuel (curr_pid s) filename [];
    match r with
    | inl _ => undefined
    | inr r => mret r
    end.

(** The result [None] is a null pointer; so is the argument for the swap file. *)
Definition vm_map (filename : option Z) (block : Z) : vm (option Z) :=
  s ← get_state;
  let pid := curr_pid s in
  process_info ← get_process pid;
  if num_virt_addr <=? next_invalid_page process_info then mret None
  else
    let new_page := next_invalid_page process_info in
    mapped ← (match filename with
              | None =>
                  match free_swap_blocks s with
                  | [] => mret false
                  | _ :: _ => _ ← map_swap_block pid new_page; mret true
                  end
              | Some filename =>
                  filename_str ← read_filename_str filename;
                  match filename_str with
                  | None => mret false
                  | Some filename_str =>
                      s ← get_state;
                      _ ← (match file_mapping_table s !! (filename_str, block) with
                           | None => map_file_block filename_str block new_page
                           | Some used_file_block => update_file_block used_file_block new_page
                           end);
                      mret true
                  end
              end);
    if (mapped : bool) then
      _ ← modify_process pid (λ i, set_next_invalid (next_invalid_page i + 1) i);
      _ ← modify_page_info pid new_page set_valid;
      mret (Some (index_to_addr new_page))
    else mret None.

End pager.

#[export] Existing Instances vm_ret vm_bind.
