(* ===== verification/PagerInv.v ===== *)
(** * The pager: invariant

    What the blocks, page tables, queues and tables of [Pager] have to do with
    each other, and the arena that a process sees through them. *)
From S2P Require Import Prelude Pager.

Local Open Scope Z_scope.

Section pager_inv.
Context `{HF : Files, HO : SetOrder}.
Implicit Types s : pager.
Implicit Types k : mem_block.
Implicit Types r : pte_ptr.

(** ** States *)

Lemma pager_ext s s' :
  free_mem_blocks s = free_mem_blocks s' → clock_queue s = clock_queue s' → free_swap_blocks s = free_swap_blocks s' →
  process_info_mp s = process_info_mp s' → curr_pid s = curr_pid s' → file_mapping_table s = file_mapping_table s' →
  tmp_buffer s = tmp_buffer s' → blocks s = blocks s' → next_block s = next_block s' → infos s = infos s' →
  entries s = entries s' → page_table_base_register s = page_table_base_register s' →
  vm_physmem s = vm_physmem s' → disk s = disk s' → s = s'.
Proof. destruct s, s'. simpl. intros. by subst. Qed.

(** ** Running an operation *)

Definition wp {A} (m : vm A) (Q : A → pager → Prop) (s : pager) : Prop :=
  match m s with Some (a, s') => Q a s' | None => False end.

Lemma wp_bind {A B} (m : vm A) (f : A → vm B) Q s :
  wp m (λ a s', wp (f a) Q s') s → wp (m ≫= f) Q s.
Proof. unfold wp, mbind, vm_bind. by destruct (m s) as [[]|]. Qed.

Lemma wp_mono {A} (m : vm A) (Q Q' : A → pager → Prop) s :
  wp m Q s → (∀ a s', Q a s' → Q' a s') → wp m Q' s.
Proof. unfold wp. destruct (m s) as [[]|]; auto. Qed.

Lemma wp_ret {A} (a : A) (Q : A → pager → Prop) s : Q a s → wp (mret a) Q s.
Proof. done. Qed.
Lemma wp_get_state (Q : pager → pager → Prop) s : Q s s → wp get_state Q s.
Proof. done. Qed.
Lemma wp_modify f (Q : () → pager → Prop) s : Q () (f s) → wp (modify f) Q s.
Proof. done. Qed.
Lemma wp_assert b (Q : () → pager → Prop) s : b = true → Q () s → wp (assert b) Q s.
Proof. by intros ->. Qed.
Lemma wp_deref {A} (o : option A) a (Q : A → pager → Prop) s : o = Some a → Q a s → wp (deref o) Q s.
Proof. by intros ->. Qed.
Lemma wp_get_block b k (Q : mem_block → pager → Prop) s :
  blocks s !! b = Some k → Q k s → wp (get_block b) Q s.
Proof. unfold wp, get_block, mbind, vm_bind, get_state, deref. by intros ->. Qed.
Lemma wp_get_process p i (Q : kernel_process_info → pager → Prop) s :
  process_info_mp s !! p = Some i → Q i s → wp (get_process p) Q s.
Proof. unfold wp, get_process, mbind, vm_bind, get_state, deref. by intros ->. Qed.
Lemma wp_get_page_info p v i (Q : kernel_page_info → pager → Prop) s :
  process_info_mp s !! p = Some i → Q (info_of s (p, v)) s → wp (get_page_info p v) Q s.
Proof. intros Hp HQ. unfold get_page_info. apply wp_bind. eapply wp_get_process; [exact Hp|]. exact HQ. Qed.
Lemma wp_modify_page_info p v i f (Q : () → pager → Prop) s :
  process_info_mp s !! p = Some i → Q () (set_infos (insert (p, v) (f (info_of s (p, v)))) s) →
  wp (modify_page_info p v f) Q s.
Proof. intros Hp HQ. unfold modify_page_info. apply wp_bind. eapply wp_get_process; [exact Hp|]. exact HQ. Qed.

(** The same assignments to a set of page table entries. *)
Definition alter_all (f : page_table_entry_t → page_table_entry_t) (X : gset pte_ptr)
    (m : gmap pte_ptr page_table_entry_t) : gmap pte_ptr page_table_entry_t :=
  map_imap (λ r e, Some (if decide (r ∈ X) then f e else e)) m.

Lemma lookup_alter_all f X m r : alter_all f X m !! r = (if decide (r ∈ X) then f else id) <$> m !! r.
Proof. unfold alter_all. rewrite map_lookup_imap. destruct (m !! r); simpl; [by case_decide|done]. Qed.

Lemma alter_all_empty f m : alter_all f ∅ m = m.
Proof. apply map_eq. intros r. rewrite lookup_alter_all, decide_False by set_solver. by destruct (m !! r). Qed.

Lemma alter_all_cons f r X m : r ∉ X → alter_all f X (alter f r m) = alter_all f ({[r]} ∪ X) m.
Proof.
  intros Hr. apply map_eq. intros r'. rewrite !lookup_alter_all. destruct (decide (r' = r)) as [->|Hne].
  - rewrite lookup_alter_eq, decide_False, decide_True by set_solver. by destruct (m !! r).
  - rewrite lookup_alter_ne by done. destruct (decide (r' ∈ X)).
    + by rewrite decide_True by set_solver.
    + by rewrite decide_False by set_solver.
Qed.

Lemma wp_modify_pte r f (Q : () → pager → Prop) s :
  is_Some (entries s !! r) → Q () (set_entries (alter f r) s) → wp (modify_pte r f) Q s.
Proof. intros [e He] HQ. unfold wp, modify_pte, mbind, vm_bind, get_state, deref. by rewrite He. Qed.

Lemma wp_modify_each l f (Q : () → pager → Prop) s :
  NoDup l → (∀ r, r ∈ l → is_Some (entries s !! r)) →
  Q () (set_entries (alter_all f (list_to_set l)) s) → wp (modify_each l f) Q s.
Proof.
  revert s; induction l as [|r l IH]; intros s; simpl.
  - intros _ _ HQ. apply wp_ret. destruct s. unfold set_entries in HQ. simpl in HQ. by rewrite alter_all_empty in HQ.
  - intros [Hr Hl]%NoDup_cons He HQ. apply wp_bind, wp_modify_pte; [apply He; by left|].
    apply IH; [done| |].
    + intros r' Hr'. simpl. rewrite lookup_alter_is_Some. apply He. by right.
    + unfold set_entries in *. simpl in *. rewrite alter_all_cons by (by rewrite elem_of_list_to_set). exact HQ.
Qed.

Lemma wp_modify_ptes b f k (Q : () → pager → Prop) s :
  blocks s !! b = Some k → (∀ r, r ∈ ptes k → is_Some (entries s !! r)) →
  Q () (set_entries (alter_all f (ptes k)) s) → wp (modify_ptes b f) Q s.
Proof.
  intros Hb He HQ. unfold modify_ptes. apply wp_bind. eapply wp_get_block; [exact Hb|].
  apply wp_modify_each; [apply NoDup_elements|intros r; rewrite elem_of_elements; apply He|].
  by rewrite list_to_set_elements_L.
Qed.

(** ** The invariant *)

(** The virtual pages that show block [b]. *)
Definition shows (b : Z) (x : kernel_page_info) : Prop := x = KernelPageInfo true (Some b).
#[export] Instance shows_dec b x : Decision (shows b x).
Proof.
  refine (match x with
  | KernelPageInfo true (Some b') => cast_if (decide (b' = b))
  | _ => right _ end); unfold shows; congruence.
Defined.

Definition users s (b : Z) : gset pte_ptr := dom (filter (λ x, shows b x.2) (infos s)).

Lemma elem_of_users s b r : r ∈ users s b ↔ infos s !! r = Some (KernelPageInfo true (Some b)).
Proof.
  unfold users. rewrite elem_of_dom. split.
  - intros [x [Hx Hs]%map_lookup_filter_Some]. by rewrite Hx, Hs.
  - intros Hr. eexists. by apply map_lookup_filter_Some.
Qed.

Lemma users_unique s b b' r : r ∈ users s b → r ∈ users s b' → b = b'.
Proof. rewrite !elem_of_users. congruence. Qed.

Lemma users_same s s' b : infos s' = infos s → users s' b = users s b.
Proof. unfold users. by intros ->. Qed.

(** The numbers of physical pages and of swap blocks, and the pages that the
    operation under way has taken off their blocks. *)
Context (mem swp : Z) (hand : gset pte_ptr).

(** Where the data of a block is when it is not in memory. *)
Definition file_of k : option bytes := if is_swap k then None else Some (filename k).
Definition home k : Z := if is_swap k then default 0 (head (swap_blocks k)) else block_num k.

Definition data_ok s k : Prop :=
  if resident k then
    if dirty k then is_swap k = false → is_Some (file_read (disk s) (Some (filename k)) (block_num k))
    else file_read (disk s) (file_of k) (home k) = Some (read_frame (location k) s)
  else is_swap k = true → is_Some (file_read (disk s) None (home k)).

(** A block other than the page of zeroes. *)
Record block_ok s (b : Z) k : Prop := {
  bo_ptes : ptes k = users s b ∖ hand;
  bo_hand : is_swap k = false → users s b ## hand;
  bo_type : type k = if resident k then phys else if is_swap k then swap else file;
  bo_clock : b ∈ clock_queue s ↔ resident k = true ∧ (users s b ≠ ∅ ∨ is_swap k = false);
  bo_swap : is_swap k = true → length (swap_blocks k) = size (users s b);
  bo_file : is_swap k = false → swap_blocks k = [];
  bo_home : resident k = false → users s b ≠ ∅ → location k = home k;
  bo_frame : b ∈ clock_queue s → 1 <= location k < mem ∧ location k ∉ free_mem_blocks s;
  bo_table : is_swap k = false →
    file_mapping_table s !! (filename k, block_num k) = Some b ↔ users s b ≠ ∅ ∨ resident k = true;
  bo_data : b ∈ clock_queue s ∨ users s b ≠ ∅ → data_ok s k;
}.

(** The pinned page of zeroes. *)
Record zero_ok s k : Prop := {
  zo_flags : dirty k = false ∧ referenced k = true ∧ resident k = true ∧ is_swap k = true;
  zo_place : location k = 0 ∧ type k = phys;
  zo_ptes : ptes k ⊆ users s zero_page ∖ hand;
  zo_swap : length (swap_blocks k) = size (users s zero_page);
  zo_clock : zero_page ∉ clock_queue s;
  zo_data : read_frame 0 s = zeroes;
}.

Definition slots_ok s k : Prop :=
  NoDup (swap_blocks k) ∧ ∀ n, n ∈ swap_blocks k → 0 <= n < swp ∧ n ∉ free_swap_blocks s.

(** A page table entry for a page of block [b]: accesses that it lets through
    find the block where it is, and are noticed. *)
Record pte_ok (b : Z) k r (e : page_table_entry_t) : Prop := {
  po_read : read_enable e = true → resident k = true ∧ referenced k = true;
  po_place : resident k = true → ppage e = location k;
  po_write : write_enable e = true → read_enable e = true ∧ dirty k = true ∧ (is_swap k = true → ptes k = {[r]});
  po_zero : b = zero_page → read_enable e = true;
}.

(** A page of the arena of [p] is backed by the swap file. *)
Definition swap_page s (p v : Z) : bool :=
  match data_location (info_of s (p, v)) with
  | Some b => match blocks s !! b with Some k => is_swap k | None => false end
  | None => false
  end.

Definition count_swap s (p n : Z) : Z := Z.of_nat (length (filter (λ v, swap_page s p v = true) (seqZ 0 n))).

Record pager_inv s : Prop := {
  pi_zero : ∃ k, blocks s !! zero_page = Some k ∧ zero_ok s k;
  pi_block b k : b ≠ zero_page → blocks s !! b = Some k → block_ok s b k;
  pi_slots b k : blocks s !! b = Some k → slots_ok s k;
  pi_disjoint b b' k k' n : blocks s !! b = Some k → blocks s !! b' = Some k' →
    n ∈ swap_blocks k → n ∈ swap_blocks k' → b = b';
  pi_free_swap : NoDup (free_swap_blocks s) ∧ ∀ n, n ∈ free_swap_blocks s → 0 <= n < swp;
  pi_next b : is_Some (blocks s !! b) → b < next_block s;
  pi_clock : NoDup (clock_queue s) ∧ ∀ b, b ∈ clock_queue s → is_Some (blocks s !! b);
  pi_frames b b' k k' : b ∈ clock_queue s → b' ∈ clock_queue s → blocks s !! b = Some k → blocks s !! b' = Some k' →
    location k = location k' → b = b';
  pi_free_mem : NoDup (free_mem_blocks s) ∧ ∀ n, n ∈ free_mem_blocks s → 1 <= n < mem;
  pi_all_frames : len (free_mem_blocks s) + len (clock_queue s) = mem - 1;
  pi_table f n b : file_mapping_table s !! (f, n) = Some b →
    b ≠ zero_page ∧ ∃ k, blocks s !! b = Some k ∧ is_swap k = false ∧ filename k = f ∧ block_num k = n;
  pi_infos r x : infos s !! r = Some x →
    ∃ b i, x = KernelPageInfo true (Some b) ∧ is_Some (blocks s !! b) ∧
      process_info_mp s !! r.1 = Some i ∧ 0 <= r.2 < next_invalid_page i;
  pi_arena p i : process_info_mp s !! p = Some i → 0 <= next_invalid_page i <= num_virt_addr;
  pi_entries p v : is_Some (process_info_mp s !! p) → 0 <= v < num_virt_addr → is_Some (entries s !! (p, v));
  pi_ptes r b k e : r ∈ users s b → r ∉ hand → blocks s !! b = Some k → entries s !! r = Some e → pte_ok b k r e;
  pi_hand r e : r ∈ hand → entries s !! r = Some e → write_enable e = true → read_enable e = true;
}.

(** *** The arena that the invariant describes *)

(** What an application sees of a page: data of its own, or a block of a file. *)
Inductive backing := Private (p : option page) | Shared (f : bytes) (n : Z).

(** The data of a block, in memory or in its file. *)
Definition content s k : option page :=
  if resident k then Some (read_frame (location k) s) else file_read (disk s) (file_of k) (home k).

Definition view_block s (b : Z) : option backing :=
  k ← blocks s !! b;
  Some (if is_swap k then Private (content s k) else Shared (filename k) (block_num k)).

Definition view s r : option backing :=
  match infos s !! r with
  | Some (KernelPageInfo true (Some b)) => view_block s b
  | _ => None
  end.

Definition file_content s (f : bytes) (n : Z) : option page :=
  match file_mapping_table s !! (f, n) with
  | Some b => match blocks s !! b with Some k => content s k | None => None end
  | None => file_read (disk s) (Some f) n
  end.

Record same_view s s' : Prop := {
  sv_view r : view s' r = view s r;
  sv_files f n : file_content s' f n = file_content s f n;
}.

#[export] Instance same_view_preorder : PreOrder same_view.
Proof.
  split; [done|]. intros s1 s2 s3 [H1 H2] [G1 G2]. split; intros; [by rewrite G1|by rewrite G2].
Qed.

(** The data of a block is in its home when it is not in memory. *)
Lemma content_home s b k :
  block_ok s b k → resident k = false → users s b ≠ ∅ →
  content s k = file_read (disk s) (file_of k) (location k).
Proof. intros Hb Hr Hu. unfold content. by rewrite Hr, (bo_home _ _ _ Hb Hr Hu). Qed.

(** ** Changes of flags and page table entries *)

Definition same_skeleton k' k : Prop :=
  resident k' = resident k ∧ is_swap k' = is_swap k ∧ swap_blocks k' = swap_blocks k ∧ ptes k' = ptes k ∧
  location k' = location k ∧ type k' = type k ∧ filename k' = filename k ∧ block_num k' = block_num k.

Definition flags s bs es : pager := set_entries (λ _, es) (set_blocks (λ _, bs) s).

Definition flags_differ (bs : gmap Z mem_block) s : Prop :=
  ∀ b, option_Forall2 (λ k' k, same_skeleton k' k ∧ (dirty k = true → dirty k' = true)) (bs !! b) (blocks s !! b).

Lemma flags_some bs s b k' :
  flags_differ bs s → bs !! b = Some k' →
  ∃ k, blocks s !! b = Some k ∧ same_skeleton k' k ∧ (dirty k = true → dirty k' = true).
Proof. intros Hf Hb. specialize (Hf b). rewrite Hb in Hf. inversion Hf as [? k [? ?] Hk|]; subst. eauto. Qed.

Lemma flags_is_some bs s b : flags_differ bs s → is_Some (bs !! b) ↔ is_Some (blocks s !! b).
Proof. intros Hf. specialize (Hf b). inversion Hf; split; eauto; by intros []. Qed.

Lemma same_skeleton_content k k' s bs es :
  same_skeleton k' k → content (flags s bs es) k' = content s k.
Proof.
  intros (H1 & H2 & H3 & H4 & H5 & H6 & H7 & H8). unfold content, file_of, home. by rewrite H1, H2, H3, H5, H7, H8.
Qed.

Lemma flags_same_view s bs es : flags_differ bs s → same_view s (flags s bs es).
Proof.
  intros Hf. split.
  - intros r. unfold view. simpl. destruct (infos s !! r) as [[[] [b|]]|]; try done. unfold view_block. simpl.
    specialize (Hf b). destruct Hf as [k' k [Hs _]|]; [|done]. simpl.
    pose proof Hs as (_ & -> & _ & _ & _ & _ & -> & ->). by rewrite (same_skeleton_content k).
  - intros f n. unfold file_content. simpl. destruct (file_mapping_table s !! (f, n)) as [b|]; [|done].
    specialize (Hf b). destruct Hf as [k' k [Hs _]|]; [|done]. by apply same_skeleton_content.
Qed.

Lemma flags_block_ok s bs es b k k' :
  block_ok s b k → same_skeleton k' k → (dirty k = true → dirty k' = true) → block_ok (flags s bs es) b k'.
Proof.
  intros [H1 H1' H2 H3 H4 H5 H6 H7 H8 H9] (E1 & E2 & E3 & E4 & E5 & E6 & E7 & E8) Hd.
  assert (file_of k' = file_of k) as Ef by (unfold file_of; by rewrite E2, E7).
  assert (home k' = home k) as Eh by (unfold home; by rewrite E2, E3, E8).
  split; rewrite ?Ef, ?Eh, ?E1, ?E2, ?E3, ?E4, ?E5, ?E6, ?E7, ?E8; try done.
  intros Hin. specialize (H9 Hin). unfold data_ok in *. rewrite E1, E2, E5, E7, E8, Ef, Eh. simpl.
  destruct (resident k); [|done]. destruct (dirty k); [by rewrite Hd|]. destruct (dirty k'); [|done].
  intros Hs. unfold file_of, home in H9. rewrite Hs in H9. by eexists.
Qed.

Lemma flags_swap_page s bs es p v : flags_differ bs s → swap_page (flags s bs es) p v = swap_page s p v.
Proof.
  intros Hf. unfold swap_page. change (info_of (flags s bs es)) with (info_of s).
  destruct (data_location (info_of s (p, v))) as [b|]; [|done]. simpl.
  specialize (Hf b). destruct Hf as [k' k [Hs _]|]; [|done]. apply Hs.
Qed.

Lemma inv_flags s bs es :
  pager_inv s → flags_differ bs s →
  (∀ k k', blocks s !! zero_page = Some k → bs !! zero_page = Some k' → dirty k' = false ∧ referenced k' = true) →
  (∀ r, is_Some (entries s !! r) → is_Some (es !! r)) →
  (∀ r b k e, r ∈ users s b → r ∉ hand → bs !! b = Some k → es !! r = Some e → pte_ok b k r e) →
  (∀ r, r ∈ hand → es !! r = entries s !! r) →
  pager_inv (flags s bs es).
Proof.
  intros Hi Hf Hz He Hp Hh. pose proof Hi as [(k0 & Hk0 & Hz0) Hb Hsl Hdj Hfs Hnx Hcl Hfr Hfm Haf Htb Hin Har Hen Hpt Hhd].
  split; try done.
  - pose proof (Hf zero_page) as Hf0. rewrite Hk0 in Hf0. inversion Hf0 as [k' ? [Hs _] Hk'|]; subst.
    destruct (Hz k0 k' Hk0 (eq_sym Hk')) as [Hd Hr]. exists k'. split; [done|].
    destruct Hs as (E1 & E2 & E3 & E4 & E5 & E6 & E7 & E8). destruct Hz0 as [(F1 & F2 & F3 & F4) [P1 P2] P3 P4 P5 P6].
    split; rewrite ?E1, ?E2, ?E3, ?E4, ?E5, ?E6; try done.
  - intros b k' Hnz Hk'. destruct (flags_some _ _ _ _ Hf Hk') as (k & Hk & Hs & Hd).
    by apply (flags_block_ok s bs es b k); [apply Hb| |].
  - intros b k' Hk'. destruct (flags_some _ _ _ _ Hf Hk') as (k & Hk & Hs & Hd).
    unfold slots_ok. destruct Hs as (_ & _ & -> & _). by apply (Hsl b).
  - intros b b' k k' n Hk Hk'. destruct (flags_some _ _ _ _ Hf Hk) as (j & Hj & Hs & _).
    destruct (flags_some _ _ _ _ Hf Hk') as (j' & Hj' & Hs' & _).
    destruct Hs as (_ & _ & -> & _), Hs' as (_ & _ & -> & _). by apply (Hdj b b').
  - intros b Hb'. apply Hnx. by apply (flags_is_some bs).
  - split; [apply Hcl|]. intros b Hb'. apply (flags_is_some bs s); [done|]. by apply Hcl.
  - intros b b' k k' H1 H2 Hk Hk'. destruct (flags_some _ _ _ _ Hf Hk) as (j & Hj & Hs & _).
    destruct (flags_some _ _ _ _ Hf Hk') as (j' & Hj' & Hs' & _).
    destruct Hs as (_ & _ & _ & _ & -> & _), Hs' as (_ & _ & _ & _ & -> & _). by apply Hfr.
  - intros f n b Ht. destruct (Htb f n b Ht) as (Hnz & k & Hk & Hks). split; [done|].
    pose proof (Hf b) as Hfb. rewrite Hk in Hfb. inversion Hfb as [k' ? [Hs _] Hk'|]; subst. exists k'.
    destruct Hs as (_ & -> & _ & _ & _ & _ & -> & ->). done.
  - intros r x Hx. destruct (Hin r x Hx) as (b & i & -> & Hbs & Hpr). exists b, i. split; [done|].
    split; [by apply (flags_is_some bs s)|done].
  - intros p v Hpv Hv. by apply He, Hen.
  - intros r e Hr. simpl. rewrite Hh by done. by apply Hhd.
Qed.

Lemma inv_ptes_users s b k r :
  pager_inv s → blocks s !! b = Some k → r ∈ ptes k → r ∈ users s b.
Proof.
  intros Hi Hk Hr. destruct (decide (b = zero_page)) as [->|Hne].
  - destruct (pi_zero _ Hi) as (k0 & Hk0 & Hz). simplify_eq. pose proof (zo_ptes _ _ Hz). set_solver.
  - rewrite (bo_ptes _ _ _ (pi_block _ Hi b k Hne Hk)) in Hr. set_solver.
Qed.

Lemma inv_user_entry s b r : pager_inv s → r ∈ users s b → is_Some (entries s !! r).
Proof.
  intros Hi Hr%elem_of_users. destruct (pi_infos _ Hi _ _ Hr) as (b' & i & _ & _ & Hp & Hv).
  destruct r as [p v]. apply (pi_entries _ Hi); [by eexists|].
  pose proof (pi_arena _ Hi _ _ Hp). simpl in Hv. lia.
Qed.

Lemma inv_user_block s b r : pager_inv s → r ∈ users s b → is_Some (blocks s !! b).
Proof.
  intros Hi Hr%elem_of_users. destruct (pi_infos _ Hi _ _ Hr) as (b' & i & [= ->] & Hb & _). done.
Qed.

Lemma inv_ptes_hand s b k r : pager_inv s → blocks s !! b = Some k → r ∈ ptes k → r ∉ hand.
Proof.
  intros Hi Hk Hr. destruct (decide (b = zero_page)) as [->|Hne].
  - destruct (pi_zero _ Hi) as (k0 & Hk0 & Hz). simplify_eq. pose proof (zo_ptes _ _ Hz). set_solver.
  - rewrite (bo_ptes _ _ _ (pi_block _ Hi b k Hne Hk)) in Hr. set_solver.
Qed.

Lemma inv_ptes_ok s b k r e :
  pager_inv s → blocks s !! b = Some k → r ∈ ptes k → entries s !! r = Some e → pte_ok b k r e.
Proof.
  intros Hi Hk Hr He. eapply pi_ptes; [done|by eapply inv_ptes_users|by eapply inv_ptes_hand|done..].
Qed.

Lemma inv_ptes_entry s b k r :
  pager_inv s → blocks s !! b = Some k → r ∈ ptes k → is_Some (entries s !! r).
Proof. intros Hi Hk Hr. eapply inv_user_entry; [done|]. by eapply inv_ptes_users. Qed.

(** The flags of one block, and the entries of its pages. *)
Definition with_flags d rf k : mem_block := set_dirty d (set_referenced rf k).

Lemma inv_block_flags s b k d rf es :
  pager_inv s → blocks s !! b = Some k → (dirty k = true → d = true) →
  (b = zero_page → d = false ∧ rf = true) →
  (∀ r, r ∉ ptes k → es !! r = entries s !! r) →
  (∀ r e, r ∈ ptes k → entries s !! r = Some e → ∃ e', es !! r = Some e' ∧ pte_ok b (with_flags d rf k) r e') →
  let s' := flags s (<[b := with_flags d rf k]> (blocks s)) es in
  pager_inv s' ∧ same_view s s'.
Proof.
  intros Hi Hk Hd Hz Hout Hin s'.
  assert (flags_differ (<[b := with_flags d rf k]> (blocks s)) s) as Hf.
  { intros b'. destruct (decide (b' = b)) as [->|Hne].
    - rewrite lookup_insert_eq, Hk. constructor. by repeat split.
    - rewrite lookup_insert_ne by done. destruct (blocks s !! b'); by repeat constructor. }
  split; [|by apply flags_same_view]. apply inv_flags; try done.
  - intros k0 k0' Hk0. destruct (decide (b = zero_page)) as [->|Hne].
    + rewrite lookup_insert_eq. intros [= <-]. by apply Hz.
    + rewrite lookup_insert_ne by done. intros Hk0'. destruct (pi_zero _ Hi) as (k1 & Hk1 & Hzo). simplify_eq.
      by destruct (zo_flags _ _ Hzo) as (? & ? & _).
  - intros r [e He]. destruct (decide (r ∈ ptes k)) as [Hr|Hr]; [|by rewrite Hout].
    destruct (Hin r e Hr He) as (e' & ? & _). by eexists.
  - intros r b' k' e' Hr Hh Hk' He'. destruct (decide (r ∈ ptes k)) as [Hrk|Hrk].
    + assert (b' = b) as -> by (eapply users_unique; [exact Hr|by eapply inv_ptes_users]).
      rewrite lookup_insert_eq in Hk'. injection Hk' as <-.
      destruct (inv_ptes_entry s b k r Hi Hk Hrk) as [e He].
      destruct (Hin r e Hrk He) as (e1 & He1 & Hok). by simplify_eq.
    + rewrite Hout in He' by done. destruct (decide (b' = b)) as [->|Hne].
      * rewrite lookup_insert_eq in Hk'. injection Hk' as <-.
        destruct (decide (b = zero_page)) as [->|Hnz].
        -- destruct (Hz eq_refl) as [-> ->]. destruct (pi_zero _ Hi) as (k1 & Hk1 & Hzo). simplify_eq.
           destruct (zo_flags _ _ Hzo) as (Hd0 & Hr0 & _).
           destruct (pi_ptes _ Hi r _ _ _ Hr Hh Hk He') as [P1 P2 P3 P4].
           split; simpl; try done; intros Hw; [by destruct (P1 Hw)|destruct (P3 Hw) as (? & ? & ?); congruence].
        -- destruct Hrk. rewrite (bo_ptes _ _ _ (pi_block _ Hi b k Hnz Hk)). set_solver.
      * rewrite lookup_insert_ne in Hk' by done. by apply (pi_ptes _ Hi r b' k' e').
  - intros r Hr. apply Hout. intros Hrk. by eapply inv_ptes_hand.
Qed.

(** *** The handlers *)

Lemma alter_insert `{Countable K} {A} (f : A → A) (m : gmap K A) b x : m !! b = Some x → alter f b m = <[b := f x]> m.
Proof.
  intros Hb. apply map_eq. intros b'. destruct (decide (b' = b)) as [->|].
  - by rewrite lookup_alter_eq, lookup_insert_eq, Hb.
  - by rewrite lookup_alter_ne, lookup_insert_ne.
Qed.

Lemma alter_insert2 `{Countable K} {A} (f g : A → A) (m : gmap K A) b x :
  m !! b = Some x → alter f b (alter g b m) = <[b := f (g x)]> m.
Proof.
  intros Hb. rewrite (alter_insert g m b x), (alter_insert f _ b (g x)) by (done || apply lookup_insert_eq).
  apply insert_insert_eq.
Qed.

Lemma with_flags_id k : with_flags (dirty k) (referenced k) k = k.
Proof. by destruct k. Qed.

Definition may_write k : bool := dirty k && ((is_swap k && (size (ptes k) =? 1)%nat) || negb (is_swap k)).

Lemma may_write_sole k r : may_write k = true → r ∈ ptes k → dirty k = true ∧ (is_swap k = true → ptes k = {[r]}).
Proof.
  unfold may_write. rewrite andb_true_iff. intros [Hd Ho] Hr. split; [done|]. intros Hs. rewrite Hs in Ho.
  simpl in Ho. rewrite orb_false_r in Ho. apply Nat.eqb_eq in Ho. apply size_1_elem_of in Ho as [x Hx].
  apply leibniz_equiv in Hx. rewrite Hx in Hr |- *. apply elem_of_singleton in Hr. by subst.
Qed.

Definition read_entries s k : gmap pte_ptr page_table_entry_t :=
  alter_all (set_read true) (ptes k) (if may_write k then alter_all (set_write true) (ptes k) (entries s) else entries s).

Lemma read_fault_handler_eq b k (Q : () → pager → Prop) s :
  blocks s !! b = Some k → resident k = true → (∀ r, r ∈ ptes k → is_Some (entries s !! r)) →
  Q () (flags s (<[b := with_flags (dirty k) true k]> (blocks s)) (read_entries s k)) →
  wp (read_fault_handler b) Q s.
Proof.
  intros Hk Hr He. unfold read_fault_handler. set (s' := flags _ _ _). intros HQ.
  assert (with_flags (dirty k) true k = set_resident true (set_referenced true k)) as Hwf
    by (unfold with_flags, set_dirty, set_referenced, set_resident; simpl; by rewrite Hr).
  apply wp_bind. eapply wp_get_block; [done|]. apply wp_bind. fold (may_write k).
  assert (∀ s1, blocks s1 = blocks s → entries s1 = (if may_write k then alter_all (set_write true) (ptes k) (entries s) else entries s) →
    s1 = set_entries (λ _, entries s1) s →
    wp (_ ← modify_block b (λ k, set_resident true (set_referenced true k)); modify_ptes b (set_read true)) Q s1) as Hrest.
  { intros s1 Hb1 He1 ->. simpl in He1. rewrite He1. apply wp_bind, wp_modify. eapply wp_modify_ptes.
    - simpl. by rewrite lookup_alter_eq, Hk.
    - intros r Hrk. simpl in *. destruct (may_write k); [|by apply He].
      rewrite lookup_alter_all. destruct (He r Hrk) as [e ->]. by eexists.
    - simpl. match goal with |- Q _ ?x => assert (x = s') as -> end; [|done].
      unfold s', flags, read_entries, set_entries, set_blocks. simpl. by rewrite (alter_insert _ _ _ k), Hwf. }
  destruct (may_write k) eqn:Hw.
  - eapply wp_modify_ptes; [done|done|]. by apply Hrest.
  - apply wp_ret. by apply Hrest; [| |destruct s].
Qed.

Lemma inv_zero_flags s k : pager_inv s → blocks s !! zero_page = Some k → dirty k = false ∧ referenced k = true.
Proof.
  intros Hi Hk. destruct (pi_zero _ Hi) as (k1 & Hk1 & Hzo). simplify_eq. by destruct (zo_flags _ _ Hzo) as (? & ? & _).
Qed.

Lemma read_fault_handler_ok b k s :
  pager_inv s → blocks s !! b = Some k → resident k = true →
  wp (read_fault_handler b) (λ _ s', s' = flags s (<[b := with_flags (dirty k) true k]> (blocks s)) (read_entries s k) ∧
    pager_inv s' ∧ same_view s s') s.
Proof.
  intros Hi Hk Hr. eapply read_fault_handler_eq; [done|done|intros r; by eapply inv_ptes_entry|].
  split; [done|]. apply inv_block_flags; try done.
  - intros ->. split; [by eapply inv_zero_flags|done].
  - intros r Hnr. unfold read_entries. rewrite lookup_alter_all, decide_False by done.
    destruct (may_write k); [rewrite lookup_alter_all, decide_False by done|]; by destruct (entries s !! r).
  - intros r e Hrk He. unfold read_entries. rewrite lookup_alter_all, decide_True by done.
    destruct (inv_ptes_ok s b k r e Hi Hk Hrk He) as [P1 P2 P3 P4].
    destruct (may_write k) eqn:Hw.
    + rewrite lookup_alter_all, decide_True, He by done. simpl. eexists. split; [done|].
      destruct (may_write_sole k r Hw Hrk). by split; simpl.
    + rewrite He. simpl. eexists. split; [done|]. split; simpl; try done.
      intros Hwe. destruct (P3 Hwe) as (?&?&?). done.
Qed.

(** Both handlers, for a write to a page that is not shared. *)
Definition write_entries s k : gmap pte_ptr page_table_entry_t :=
  alter_all (λ e, Pte (ppage e) true true) (ptes k) (entries s).

Lemma write_fault_ok b k s :
  pager_inv s → blocks s !! b = Some k → resident k = true → b ≠ zero_page →
  (is_swap k = true → size (ptes k) = 1%nat) →
  wp (_ ← write_fault_handler b; read_fault_handler b)
    (λ _ s', s' = flags s (<[b := with_flags true true k]> (blocks s)) (write_entries s k) ∧
      pager_inv s' ∧ same_view s s') s.
Proof.
  intros Hi Hk Hr Hnz Hsole. unfold write_fault_handler. apply wp_bind, wp_bind.
  eapply wp_modify_ptes; [done|intros r; by eapply inv_ptes_entry|]. apply wp_modify.
  set (s1 := set_blocks _ _). set (k1 := set_dirty true k).
  assert (may_write k1 = true) as Hw.
  { unfold may_write, k1. simpl. destruct (is_swap k); [by rewrite Hsole|done]. }
  apply (read_fault_handler_eq b k1).
  - simpl. by rewrite lookup_alter_eq, Hk.
  - done.
  - intros r Hrk. simpl in *. rewrite lookup_alter_all. destruct (inv_ptes_entry s b k r Hi Hk Hrk) as [e ->]. by eexists.
  - match goal with |- ?x = ?y ∧ _ => assert (x = y) as -> end.
    { unfold s1, flags, set_entries, set_blocks. simpl. f_equal.
      - rewrite (alter_insert _ _ _ k) by done. by rewrite insert_insert_eq.
      - unfold read_entries, write_entries. rewrite Hw. simpl. apply map_eq. intros r.
        rewrite !lookup_alter_all. case_decide; [by destruct (entries s !! r)|by destruct (entries s !! r)]. }
    split; [done|]. apply inv_block_flags; try done.
    + intros r Hnr. unfold write_entries. rewrite lookup_alter_all, decide_False by done. by destruct (entries s !! r).
    + intros r e Hrk He. unfold write_entries. rewrite lookup_alter_all, decide_True, He by done. simpl.
      eexists. split; [done|].
      destruct (inv_ptes_ok s b k r e Hi Hk Hrk He) as [P1 P2 P3 P4].
      destruct (may_write_sole k1 r Hw Hrk). by split; simpl.
Qed.

(** The last page of a block may be written to again, if the block is dirty. *)
Lemma update_block_permissions_eq b k (Q : () → pager → Prop) s `{!SetOrderSpec} :
  blocks s !! b = Some k → (∀ r, r ∈ ptes k → is_Some (entries s !! r)) →
  Q () (flags s (blocks s) (if dirty k && (size (ptes k) =? 1)%nat && referenced k then write_entries s k else entries s)) →
  wp (update_block_permissions b) Q s.
Proof.
  intros Hk He HQ. unfold update_block_permissions. apply wp_bind. eapply wp_get_block; [done|].
  destruct (dirty k && _ && _) eqn:Hc.
  - apply andb_true_iff in Hc as [[_ Hs%Nat.eqb_eq]%andb_true_iff _].
    apply size_1_elem_of in Hs as [r Hx]. apply leibniz_equiv in Hx.
    assert (set_begin (ptes k) = Some r) as Hbeg.
    { destruct (set_begin (ptes k)) as [r'|] eqn:Hb'.
      - apply set_begin_elem in Hb'. rewrite Hx in Hb'. apply elem_of_singleton in Hb'. by subst.
      - apply set_begin_empty in Hb'. rewrite Hx in Hb'. set_solver. }
    apply wp_bind. eapply wp_deref; [exact Hbeg|]. apply wp_modify_pte; [apply He; rewrite Hx; set_solver|].
    match goal with HQ : Q _ ?x |- Q _ ?y => assert (y = x) as -> end; [|done].
    unfold flags, set_entries, set_blocks. simpl. f_equal. apply map_eq. intros r'. unfold write_entries.
    rewrite lookup_alter_all, Hx. destruct (decide (r' = r)) as [->|Hne].
    + rewrite lookup_alter_eq, decide_True by set_solver. by destruct (entries s !! r).
    + rewrite lookup_alter_ne, decide_False by set_solver. by destruct (entries s !! r').
  - apply wp_ret. by destruct s.
Qed.

(** ** Eviction *)

(** What paging leaves alone. *)
Definition same_identity k' k : Prop :=
  is_swap k' = is_swap k ∧ swap_blocks k' = swap_blocks k ∧ ptes k' = ptes k ∧
  filename k' = filename k ∧ block_num k' = block_num k.

Record paging s s' : Prop := {
  pg_infos : infos s' = infos s;
  pg_procs : process_info_mp s' = process_info_mp s;
  pg_curr : curr_pid s' = curr_pid s;
  pg_base : page_table_base_register s' = page_table_base_register s;
  pg_next : next_block s' = next_block s;
  pg_tmp : tmp_buffer s' = tmp_buffer s;
  pg_swap : free_swap_blocks s' = free_swap_blocks s;
  pg_blocks b : option_Forall2 same_identity (blocks s' !! b) (blocks s !! b);
  pg_entries r : is_Some (entries s' !! r) ↔ is_Some (entries s !! r);
  pg_others r : infos s !! r = None → entries s' !! r = entries s !! r;
}.

#[export] Instance paging_preorder : PreOrder paging.
Proof.
  split.
  - intros s. split; try done. intros b. destruct (blocks s !! b); by constructor.
  - intros s1 s2 s3 [A1 A2 A3 A4 A5 A6 A7 A8 A9 A10] [B1 B2 B3 B4 B5 B6 B7 B8 B9 B10]. split; try congruence.
    + intros b. specialize (A8 b). specialize (B8 b).
      destruct A8 as [k2 k1 (E1 & E2 & E3 & E4 & E5)|]; inversion B8 as [k3 ? (F1 & F2 & F3 & F4 & F5)|]; subst; constructor.
      repeat split; congruence.
    + intros r. by rewrite B9.
    + intros r Hr. rewrite B10, A10; congruence.
Qed.

Lemma paging_block s s' b k' :
  paging s s' → blocks s' !! b = Some k' → ∃ k, blocks s !! b = Some k ∧ same_identity k' k.
Proof. intros Hp Hb. pose proof (pg_blocks _ _ Hp b) as Hf. rewrite Hb in Hf. inversion Hf; subst; eauto. Qed.

Lemma paging_block' s s' b k :
  paging s s' → blocks s !! b = Some k → ∃ k', blocks s' !! b = Some k' ∧ same_identity k' k.
Proof. intros Hp Hb. pose proof (pg_blocks _ _ Hp b) as Hf. rewrite Hb in Hf. inversion Hf; subst; eauto. Qed.

Lemma paging_users s s' b : paging s s' → users s' b = users s b.
Proof. intros Hp. apply users_same, Hp. Qed.

(** Pages that are not mapped are in no block. *)
Lemma unmapped_ptes s b k r : pager_inv s → blocks s !! b = Some k → infos s !! r = None → r ∉ ptes k.
Proof. intros Hi Hk Hno Hr. apply (inv_ptes_users s b k) in Hr as Hr%elem_of_users; [congruence|done..]. Qed.

Lemma unmapped_alter f s b k r m :
  pager_inv s → blocks s !! b = Some k → infos s !! r = None → alter_all f (ptes k) m !! r = m !! r.
Proof.
  intros Hi Hk Hno. rewrite lookup_alter_all, decide_False by by eapply unmapped_ptes. by destruct (m !! r).
Qed.

Lemma paging_flags s b k d rf es :
  blocks s !! b = Some k → (∀ r, is_Some (es !! r) ↔ is_Some (entries s !! r)) →
  (∀ r, infos s !! r = None → es !! r = entries s !! r) →
  paging s (flags s (<[b := with_flags d rf k]> (blocks s)) es).
Proof.
  intros Hk He Ho. split; try done. intros b'. simpl. destruct (decide (b' = b)) as [->|].
  - rewrite lookup_insert_eq, Hk. by constructor.
  - rewrite lookup_insert_ne by done. destruct (blocks s !! b'); by constructor.
Qed.

Lemma alter_all_is_Some (f : page_table_entry_t → page_table_entry_t) (X : gset pte_ptr) (m : gmap pte_ptr page_table_entry_t) r : is_Some (alter_all f X m !! r) ↔ is_Some (m !! r).
Proof. rewrite lookup_alter_all. apply fmap_is_Some. Qed.

(** The order of the clock does not matter to the invariant. *)
Lemma inv_clock_perm s l :
  pager_inv s → l ≡ₚ clock_queue s → pager_inv (set_clock l s) ∧ same_view s (set_clock l s) ∧ paging s (set_clock l s).
Proof.
  intros [(k0 & Hk0 & [Z1 Z2 Z3 Z4 Z5 Z6]) Hb Hsl Hdj Hfs Hnx [Hc1 Hc2] Hfr Hfm Haf Htb Hin Har Hen Hpt Hhd] Hl.
  assert (∀ b, b ∈ l ↔ b ∈ clock_queue s) as Hel by (intros b; by rewrite Hl).
  split; [|split; [done|split; try done; intros b; simpl; destruct (blocks s !! b); by constructor]].
  split; try done.
  - exists k0. split; [done|]. split; try done. simpl. by rewrite Hel.
  - intros b k Hnz Hk. destruct (Hb b k Hnz Hk) as [H1 H1' H2 H3 H4 H5 H6 H7 H8 H9].
    split; simpl; try done; rewrite Hel; done.
  - split; simpl; [by rewrite Hl|]. intros b. rewrite Hel. apply Hc2.
  - intros b b' k k'. simpl. rewrite !Hel. apply Hfr.
  - simpl. unfold len in *. by rewrite Hl.
Qed.

Lemma clear_entries_ok s b k d :
  pager_inv s → blocks s !! b = Some k → b ≠ zero_page → d = dirty k →
  let s' := flags s (<[b := with_flags d false k]> (blocks s))
    (alter_all (λ e, set_write false (set_read false e)) (ptes k) (entries s)) in
  pager_inv s' ∧ same_view s s'.
Proof.
  intros Hi Hk Hnz ->. apply inv_block_flags; try done.
  - intros r Hnr. rewrite lookup_alter_all, decide_False by done. by destruct (entries s !! r).
  - intros r e Hrk He. rewrite lookup_alter_all, decide_True, He by done. simpl. eexists. split; [done|].
    destruct (inv_ptes_ok s b k r e Hi Hk Hrk He) as [P1 P2 P3 P4]. by split; simpl.
Qed.

Definition referenced_at s (b : Z) : bool := match blocks s !! b with Some k => referenced k | None => false end.

(** The blocks that have had their second chance are not referenced. *)
Lemma second_chance_ok fuel l1 l2 s :
  pager_inv s → clock_queue s = l1 ++ l2 → l1 ++ l2 ≠ [] → Forall (λ b, referenced_at s b = false) l2 →
  (length l1 < fuel)%nat →
  wp (second_chance fuel) (λ _ s', pager_inv s' ∧ same_view s s' ∧ paging s s' ∧
    clock_queue s' ≡ₚ clock_queue s ∧ free_mem_blocks s' = free_mem_blocks s ∧
    (∀ b k, blocks s !! b = Some k → b ∉ clock_queue s → blocks s' !! b = Some k)) s.
Proof.
  revert l1 l2 s; induction fuel as [|fuel IH]; intros l1 l2 s Hi Hc Hne Hun Hlt; [lia|]. simpl.
  apply wp_bind, wp_get_state. destruct (clock_queue s) as [|b rest] eqn:Hcl; [by destruct (l1 ++ l2)|].
  apply wp_bind. eapply wp_deref; [done|].
  destruct (proj2 (pi_clock _ Hi) b) as [k Hk]; [rewrite Hcl; by left|].
  apply wp_bind. eapply wp_get_block; [done|].
  destruct (referenced k) eqn:Hr.
  2: { apply wp_ret. do 3 (split; [done|]). by rewrite Hcl. }
  assert (b ≠ zero_page) as Hnz.
  { intros ->. destruct (pi_zero _ Hi) as (k0 & Hk0 & Hz). apply (zo_clock _ _ Hz). rewrite Hcl. by left. }
  destruct l1 as [|b' l1]; simpl in Hc.
  { subst l2. inversion Hun as [|?? Hb]; subst. unfold referenced_at in Hb. rewrite Hk in Hb. congruence. }
  injection Hc as <- Hrest.
  apply wp_bind. eapply wp_modify_ptes; [done|intros r; by eapply inv_ptes_entry|].
  apply wp_bind, wp_modify, wp_bind, wp_modify.
  destruct (clear_entries_ok s b k (dirty k) Hi Hk Hnz eq_refl) as [Hi1 Hv1].
  set (s1 := flags s _ _) in *.
  assert (paging s s1) as Hp1 by (apply paging_flags; [done|intros r; apply alter_all_is_Some|intros r; by apply (unmapped_alter _ s b)]).
  match goal with |- wp _ _ ?x => assert (x = set_clock (rest ++ [b]) s1) as -> end.
  { unfold s1, flags, set_clock, set_blocks, set_entries. simpl. rewrite Hcl. simpl. f_equal.
    rewrite (alter_insert _ _ _ k) by done. by destruct k. }
  assert (rest ++ [b] ≡ₚ clock_queue s1) as Hperm.
  { change (clock_queue s1) with (clock_queue s). rewrite Hcl. by rewrite Permutation_app_comm. }
  destruct (inv_clock_perm s1 (rest ++ [b]) Hi1 Hperm) as (Hi2 & Hv2 & Hp2). set (s2 := set_clock _ s1) in *.
  eapply wp_mono; [apply (IH l1 (l2 ++ [b]) s2 Hi2)|].
  - simpl. by rewrite Hrest, app_assoc.
  - by destruct l1, l2.
  - apply Forall_app. split.
    + eapply Forall_impl; [exact Hun|]. intros b2. unfold referenced_at. simpl.
      destruct (decide (b2 = b)) as [->|]; [by rewrite lookup_insert_eq|by rewrite lookup_insert_ne].
    + constructor; [|done]. unfold referenced_at. simpl. by rewrite lookup_insert_eq.
  - simpl in Hlt. lia.
  - simpl. intros [] s' (Hi' & Hv' & Hp' & Hc' & Hf' & Hb'). split; [done|].
    split; [by etransitivity; [exact Hv1|etransitivity]|]. split; [by etransitivity; [exact Hp1|etransitivity]|].
    split; [rewrite Hc'; simpl; by rewrite Permutation_app_comm|]. split; [done|].
    intros b2 k2 Hk2 Hnc. apply Hb'; simpl.
    + rewrite lookup_insert_ne; [done|]. intros ->. apply Hnc. by left.
    + intros Hin. apply Hnc. rewrite elem_of_app, list_elem_of_singleton in Hin. rewrite elem_of_cons. tauto.
Qed.

(** *** The block under the hand of the clock goes out *)

Context `{!FilesSpec} (Hmem : mem <= 2 ^ 16).

Lemma frame_small n : 0 <= n < mem → frame n = n.
Proof.
  intros Hn. unfold frame, wrap32, VM_PAGESIZE. rewrite Z.mod_small by lia. by apply Z.div_mul.
Qed.

Lemma trunc30_small n : 0 <= n < mem → trunc30 n = n.
Proof. intros Hn. unfold trunc30. apply Z.mod_small. lia. Qed.

(** A block with data has its home to itself. *)
Lemma live_home_swap s b k :
  block_ok s b k → is_swap k = true → users s b ≠ ∅ → head (swap_blocks k) = Some (home k) ∧ home k ∈ swap_blocks k.
Proof.
  intros Hb Hs Hu. pose proof (bo_swap _ _ _ Hb Hs) as Hl. unfold home. rewrite Hs.
  destruct (swap_blocks k) as [|n l]; simpl in *; [|split; [done|by left]].
  exfalso. apply Hu. apply leibniz_equiv, size_empty_iff. by symmetry.
Qed.

Lemma clock_block s b k :
  pager_inv s → b ∈ clock_queue s → blocks s !! b = Some k →
  b ≠ zero_page ∧ block_ok s b k ∧ resident k = true ∧ type k = phys ∧ (users s b ≠ ∅ ∨ is_swap k = false).
Proof.
  intros Hi Hin Hk. assert (b ≠ zero_page) as Hnz.
  { intros ->. destruct (pi_zero _ Hi) as (k0 & Hk0 & Hz). by apply (zo_clock _ _ Hz). }
  pose proof (pi_block _ Hi b k Hnz Hk) as Hok. destruct (proj1 (bo_clock _ _ _ Hok) Hin) as [Hr Hu].
  do 3 (split; [done|]). split; [|done]. by rewrite (bo_type _ _ _ Hok), Hr.
Qed.

(** Two blocks with data do not have the same home. *)
Lemma home_unique s b b' k k' :
  pager_inv s → b ≠ zero_page → b' ≠ zero_page → blocks s !! b = Some k → blocks s !! b' = Some k' →
  (b ∈ clock_queue s ∨ users s b ≠ ∅) → (b' ∈ clock_queue s ∨ users s b' ≠ ∅) →
  (file_of k, home k) = (file_of k', home k') → b = b'.
Proof.
  intros Hi Hnz Hnz' Hk Hk' Hl Hl' [= Hf Hh].
  pose proof (pi_block _ Hi b k Hnz Hk) as Hok. pose proof (pi_block _ Hi b' k' Hnz' Hk') as Hok'.
  assert (∀ b k, block_ok s b k → b ∈ clock_queue s ∨ users s b ≠ ∅ → users s b ≠ ∅ ∨ resident k = true) as Hlive.
  { intros b1 k1 Hok1 [Hc|Hu]; [|by left]. right. by apply (bo_clock _ _ _ Hok1). }
  assert (∀ b k, block_ok s b k → b ∈ clock_queue s ∨ users s b ≠ ∅ → is_swap k = true → users s b ≠ ∅) as Husers.
  { intros b1 k1 Hok1 [Hc|Hu] Hs; [|done]. destruct (proj1 (bo_clock _ _ _ Hok1) Hc) as [_ [?|?]]; congruence. }
  unfold file_of in Hf. destruct (is_swap k) eqn:Hs, (is_swap k') eqn:Hs'; try done.
  - destruct (live_home_swap _ _ _ Hok Hs) as [_ Hin]; [by eapply Husers|].
    destruct (live_home_swap _ _ _ Hok' Hs') as [_ Hin']; [by eapply Husers|].
    rewrite <- Hh in Hin'. by eapply (pi_disjoint _ Hi).
  - injection Hf as Hf. unfold home in Hh. rewrite Hs, Hs' in Hh.
    pose proof (proj2 (bo_table _ _ _ Hok Hs) (Hlive _ _ Hok Hl)) as Ht.
    pose proof (proj2 (bo_table _ _ _ Hok' Hs') (Hlive _ _ Hok' Hl')) as Ht'.
    rewrite Hf, Hh in Ht. congruence.
Qed.

Section out.
Context (s : pager) (b : Z) (rest : list Z) (k : mem_block).
Context (Hi : pager_inv s) (Hc : clock_queue s = b :: rest) (Hk : blocks s !! b = Some k).

Definition out_block : mem_block :=
  set_location (home k) (if is_swap k then swap else file) (set_referenced false (set_dirty false (set_resident false k))).

Definition out_disk : files :=
  if dirty k then file_write (disk s) (file_of k) (home k) (read_frame (location k) s) else disk s.

Definition out_table : gmap (bytes * Z) Z :=
  if negb (is_swap k) && bool_decide (ptes k = ∅) then delete (filename k, block_num k) (file_mapping_table s)
  else file_mapping_table s.

Definition out : pager :=
  set_disk out_disk (set_file_table (λ _, out_table) (set_clock rest (set_free_mem (free_mem_blocks s ++ [location k])
    (flags s (<[b := out_block]> (blocks s))
      (alter_all (λ e, set_write false (set_read false e)) (ptes k) (entries s)))))).

Lemma out_self : b ≠ zero_page ∧ block_ok s b k ∧ resident k = true ∧ type k = phys ∧ (users s b ≠ ∅ ∨ is_swap k = false).
Proof. apply clock_block; [done| |done]. rewrite Hc. by left. Qed.

Lemma out_read : file_read out_disk (file_of k) (home k) = Some (read_frame (location k) s).
Proof.
  destruct out_self as (Hnz & Hok & Hr & Ht & Hu). unfold out_disk.
  pose proof (bo_data _ _ _ Hok ltac:(left; rewrite Hc; by left)) as Hd. unfold data_ok in Hd. rewrite Hr in Hd.
  destruct (dirty k); [|done]. unfold file_of, home. destruct (is_swap k) eqn:Hs; [apply file_read_swap|].
  by apply file_read_file, Hd.
Qed.

Lemma out_read_other f n :
  (f, n) ≠ (file_of k, home k) → file_read out_disk f n = file_read (disk s) f n.
Proof. intros Hne. unfold out_disk. destruct (dirty k); [by apply file_read_other|done]. Qed.

Lemma out_read_block b' k' :
  b' ≠ b → b' ≠ zero_page → blocks s !! b' = Some k' → (b' ∈ clock_queue s ∨ users s b' ≠ ∅) →
  file_read out_disk (file_of k') (home k') = file_read (disk s) (file_of k') (home k').
Proof.
  intros Hne Hnz' Hk' Hl. destruct out_self as (Hnz & _). apply out_read_other. intros Heq. apply Hne.
  eapply home_unique; [done|done|exact Hnz|done|done|done| |done]. left. rewrite Hc. by left.
Qed.

Lemma out_data b' k' :
  b' ≠ b → b' ≠ zero_page → blocks s !! b' = Some k' → (b' ∈ clock_queue s ∨ users s b' ≠ ∅) →
  data_ok s k' → data_ok out k'.
Proof.
  intros Hne Hnz' Hk' Hl Hd. pose proof (out_read_block b' k' Hne Hnz' Hk' Hl) as Hrd.
  unfold data_ok in *. change (disk out) with out_disk. change (read_frame (location k') out) with (read_frame (location k') s).
  destruct (resident k').
  - destruct (dirty k'); [|by rewrite Hrd]. intros Hs. specialize (Hd Hs).
    unfold file_of, home in Hrd. rewrite Hs in Hrd. by rewrite Hrd.
  - intros Hs. specialize (Hd Hs). unfold file_of in Hrd. rewrite Hs in Hrd. by rewrite Hrd.
Qed.

Lemma out_table_other b' k' :
  b' ≠ b → block_ok s b' k' → is_swap k' = false →
  out_table !! (filename k', block_num k') = Some b' ↔ file_mapping_table s !! (filename k', block_num k') = Some b'.
Proof.
  intros Hne Hok' Hs'. unfold out_table. destruct (negb (is_swap k) && _) eqn:Hdel; [|done].
  apply andb_true_iff in Hdel as [Hs%negb_true_iff _].
  destruct (decide ((filename k', block_num k') = (filename k, block_num k))) as [Heq|Hneq].
  - rewrite Heq, lookup_delete_eq. split; [done|]. intros Ht.
    destruct out_self as (Hnz & Hok & Hr & _). pose proof (proj2 (bo_table _ _ _ Hok Hs) (or_intror Hr)). congruence.
  - by rewrite lookup_delete_ne.
Qed.

Lemma out_block_ok b' k' :
  b' ≠ b → b' ≠ zero_page → blocks s !! b' = Some k' → block_ok out b' k'.
Proof.
  intros Hne Hnz' Hk'. pose proof (pi_block _ Hi b' k' Hnz' Hk') as Hok. pose proof Hok as [H1 H1' H2 H3 H4 H5 H6 H7 H8 H9].
  destruct out_self as (Hnz & Hokb & _).
  assert (b' ∈ rest ↔ b' ∈ clock_queue s) as Hin by (rewrite Hc, elem_of_cons; naive_solver).
  split; simpl; try done.
  - by rewrite Hin.
  - rewrite Hin. intros Hb'. destruct (H7 Hb') as [Hl Hnf]. split; [done|].
    rewrite elem_of_app, list_elem_of_singleton. intros [?|Hloc]; [done|]. apply Hne.
    eapply (pi_frames _ Hi); [exact Hb'|rewrite Hc; by left|done..].
  - intros Hs. rewrite (out_table_other b' k' Hne Hok Hs). by apply H8.
  - rewrite Hin. intros Hl. by apply (out_data b' k'), H9.
Qed.

Lemma out_new_ok : block_ok out b out_block.
Proof.
  destruct out_self as (Hnz & Hok & Hr & Ht & Hu). pose proof Hok as [H1 H1' H2 H3 H4 H5 H6 H7 H8 H9].
  assert (b ∉ rest) as Hnr by (pose proof (proj1 (pi_clock _ Hi)) as Hn; rewrite Hc in Hn; by apply NoDup_cons in Hn as [? _]).
  split; simpl; try done.
  - split; [done|by intros [? _]].
  - intros Hs. unfold out_table. rewrite Hs. simpl. change (users out b) with (users s b).
    assert (users s b = ptes k) as -> by (rewrite H1; specialize (H1' Hs); set_solver).
    assert (file_mapping_table s !! (filename k, block_num k) = Some b) as Htb by (apply H8; auto).
    case_bool_decide as Hp.
    + rewrite lookup_delete_eq. split; [done|by intros []].
    + rewrite Htb. split; [by left|done].
  - intros [?|Hus]; [done|]. unfold data_ok. simpl. intros Hs. change (disk out) with out_disk.
    change (home out_block) with (home k). pose proof out_read as Hrd. unfold file_of in Hrd. rewrite Hs in Hrd.
    rewrite Hrd. by eexists.
Qed.

Lemma out_inv : pager_inv out.
Proof.
  destruct out_self as (Hnz & Hok & Hr & Ht & Hu). pose proof Hi as [(k0 & Hk0 & [Z1 Z2 Z3 Z4 Z5 Z6]) Hb Hsl Hdj Hfs Hnx [Hc1 Hc2] Hfr [Hm1 Hm2] Haf Htb Hin Har Hen Hpt Hhd].
  pose proof Hc1 as Hc1'. rewrite Hc in Hc1'. apply NoDup_cons in Hc1' as [Hnr Hrest].
  assert (∀ b', b' ∈ rest → b' ∈ clock_queue s ∧ b' ≠ b) as Hsub.
  { intros b' Hb'. rewrite Hc. split; [by right|]. by intros ->. }
  destruct (bo_frame _ _ _ Hok ltac:(rewrite Hc; by left)) as [Hloc Hnf].
  assert (∀ b' k', <[b:=out_block]> (blocks s) !! b' = Some k' →
    ∃ k1, blocks s !! b' = Some k1 ∧ swap_blocks k' = swap_blocks k1 ∧ is_swap k' = is_swap k1 ∧
      filename k' = filename k1 ∧ block_num k' = block_num k1) as Hblk.
  { intros b' k'. destruct (decide (b' = b)) as [->|]; [rewrite lookup_insert_eq|rewrite lookup_insert_ne by done].
    - intros [= <-]. by exists k.
    - intros Hk'. by exists k'. }
  assert (∀ b', is_Some (blocks s !! b') ↔ is_Some (<[b:=out_block]> (blocks s) !! b')) as Hdom.
  { intros b'. destruct (decide (b' = b)) as [->|]; [|by rewrite lookup_insert_ne].
    rewrite lookup_insert_eq. split; eauto. }
  split; simpl; try done.
  - exists k0. split; [by rewrite lookup_insert_ne|]. split; try done. intros Hz. by destruct (Hsub _ Hz).
  - intros b' k' Hnz'. destruct (decide (b' = b)) as [->|Hne].
    + rewrite lookup_insert_eq. intros [= <-]. apply out_new_ok.
    + rewrite lookup_insert_ne by done. by apply out_block_ok.
  - intros b' k' (k1 & Hk1 & Hsw & _)%Hblk. unfold slots_ok. simpl. rewrite Hsw. by apply (Hsl b').
  - intros b1 b2 k1 k2 n H1 H2. destruct (Hblk _ _ H1) as (j1 & Hj1 & Hs1 & _), (Hblk _ _ H2) as (j2 & Hj2 & Hs2 & _).
    rewrite Hs1, Hs2. by eapply Hdj.
  - intros b' Hb'. apply Hnx. by apply Hdom.
  - split; [done|]. intros b' Hb'. apply Hdom, Hc2. by apply Hsub.
  - intros b1 b2 k1 k2 H1 H2 Hk1 Hk2. destruct (Hsub _ H1) as [H1c H1n], (Hsub _ H2) as [H2c H2n].
    rewrite lookup_insert_ne in Hk1 by done. rewrite lookup_insert_ne in Hk2 by done. by eapply Hfr.
  - split.
    + apply NoDup_app. split; [done|]. split; [|apply NoDup_singleton].
      intros n Hn Hn2%list_elem_of_singleton. by subst.
    + intros n. rewrite elem_of_app, list_elem_of_singleton. intros [?| ->]; [by apply Hm2|done].
  - unfold len in *. rewrite length_app. rewrite Hc in Haf. simpl in *. lia.
  - intros f n b'. unfold out_table. intros Hlk.
    assert (file_mapping_table s !! (f, n) = Some b') as Hlk'.
    { destruct (negb (is_swap k) && _); [|done]. by apply lookup_delete_Some in Hlk as [_ ?]. }
    destruct (Htb f n b' Hlk') as (Hnz' & k' & Hk' & Hrest'). split; [done|].
    destruct (decide (b' = b)) as [->|Hne]; [|exists k'; by rewrite lookup_insert_ne].
    rewrite lookup_insert_eq. simplify_eq. exists out_block. by split.
  - intros r x Hx. destruct (Hin r x Hx) as (b' & i & -> & Hbs & Hpr). exists b', i. split; [done|].
    split; [by apply Hdom|done].
  - intros p v Hpv Hv. rewrite alter_all_is_Some. by apply Hen.
  - intros r b' k' e Hr' Hh Hk' He. change (users out b') with (users s b') in Hr'.
    rewrite lookup_alter_all in He. destruct (decide (r ∈ ptes k)) as [Hrk|Hrk].
    + destruct (entries s !! r) as [e0|]; [|done]. injection He as <-.
      assert (b' = b) as -> by (eapply users_unique; [exact Hr'|by eapply inv_ptes_users]).
      rewrite lookup_insert_eq in Hk'. injection Hk' as <-. by split.
    + assert (b' ≠ b) as Hne by (intros ->; apply Hrk; rewrite (bo_ptes _ _ _ Hok); set_solver).
      rewrite lookup_insert_ne in Hk' by done. destruct (entries s !! r) as [e0|] eqn:He0; [|done].
      simpl in He. injection He as <-. by apply (Hpt r b' k' e0).
  - intros r e Hrh He. rewrite lookup_alter_all, decide_False in He by (intros Hrk; by eapply (inv_ptes_hand s b k)).
    destruct (entries s !! r) as [e0|] eqn:He0; [|done]. injection He as <-. by apply (Hhd r).
Qed.

Lemma out_content b' k' :
  b' ≠ b → blocks s !! b' = Some k' → (b' = zero_page ∨ b' ∈ clock_queue s ∨ users s b' ≠ ∅) →
  content out k' = content s k'.
Proof.
  intros Hne Hk' Hl. unfold content. change (disk out) with out_disk.
  change (read_frame (location k') out) with (read_frame (location k') s).
  destruct (resident k') eqn:Hr'; [done|]. destruct (decide (b' = zero_page)) as [->|Hnz'].
  - destruct (pi_zero _ Hi) as (k0 & Hk0 & Hz). simplify_eq. destruct (zo_flags _ _ Hz) as (_ & _ & ? & _). congruence.
  - destruct Hl as [?|Hl]; [done|]. by apply (out_read_block b' k').
Qed.

Lemma out_content_self : content out out_block = content s k.
Proof.
  destruct out_self as (Hnz & Hok & Hr & Ht & Hu). unfold content at 1. simpl.
  change (file_of out_block) with (file_of k). change (home out_block) with (home k). change (disk out) with out_disk.
  rewrite out_read. unfold content. by rewrite Hr.
Qed.

Lemma out_same_view : same_view s out.
Proof.
  destruct out_self as (Hnz & Hok & Hr & Ht & Hu). split.
  - intros r. unfold view. change (infos out) with (infos s).
    destruct (infos s !! r) as [[[] [b'|]]|] eqn:Hr'; try done. unfold view_block. simpl.
    destruct (decide (b' = b)) as [->|Hne].
    + rewrite lookup_insert_eq, Hk. simpl. destruct (is_swap k); [by rewrite out_content_self|done].
    + rewrite lookup_insert_ne by done. destruct (blocks s !! b') as [k'|] eqn:Hk'; [|done]. simpl.
      destruct (is_swap k'); [|done]. rewrite (out_content b' k'); [done|done|done|]. right. right.
      intros Hu'. assert (r ∈ users s b') as Hin by by apply elem_of_users. rewrite Hu' in Hin. set_solver.
  - intros f n. unfold file_content. simpl. destruct (file_mapping_table s !! (f, n)) as [b'|] eqn:Htb.
    + destruct (pi_table _ Hi f n b' Htb) as (Hnz' & k' & Hk' & Hs' & <- & <-). rewrite Hk'.
      pose proof (pi_block _ Hi b' k' Hnz' Hk') as Hok'. destruct (decide (b' = b)) as [->|Hne].
      * simplify_eq. unfold out_table. rewrite Hs'. simpl. case_bool_decide as Hp.
        -- rewrite lookup_delete_eq. pose proof out_read as Hrd. unfold file_of, home in Hrd. rewrite Hs' in Hrd.
           rewrite Hrd. unfold content. by rewrite Hr.
        -- rewrite Htb, lookup_insert_eq. apply out_content_self.
      * rewrite (proj2 (out_table_other b' k' Hne Hok' Hs') Htb), lookup_insert_ne, Hk' by done.
        apply (out_content b' k'); [done|done|]. right.
        destruct (proj1 (bo_table _ _ _ Hok' Hs') Htb) as [?|Hr']; [by right|left]. apply (bo_clock _ _ _ Hok'). auto.
    + assert (out_table !! (f, n) = None) as ->.
      { unfold out_table. destruct (_ && _); [|done]. destruct (decide ((f, n) = (filename k, block_num k))) as [->|];
          [apply lookup_delete_eq|by rewrite lookup_delete_ne]. }
      apply out_read_other. unfold file_of, home. destruct (is_swap k) eqn:Hs; [done|]. intros [= -> ->].
      pose proof (proj2 (bo_table _ _ _ Hok Hs) (or_intror Hr)). congruence.
Qed.

Lemma out_paging : paging s out.
Proof.
  split; try done.
  - intros b'. simpl. destruct (decide (b' = b)) as [->|].
    + rewrite lookup_insert_eq, Hk. by constructor.
    + rewrite lookup_insert_ne by done. destruct (blocks s !! b'); by constructor.
  - intros r. apply alter_all_is_Some.
  - intros r. by apply (unmapped_alter _ s b).
Qed.
End out.

(** *** [evict_phys_page] *)

Context (Hmem2 : 2 <= mem).

(** Paging out: the blocks that are not in memory stay as they are. *)
Record paged_out s s' : Prop := {
  pd_inv : pager_inv s';
  pd_view : same_view s s';
  pd_paging : paging s s';
  pd_free : free_mem_blocks s' ≠ [];
  pd_other b k : blocks s !! b = Some k → b ∉ clock_queue s → blocks s' !! b = Some k;
}.

Lemma evict_phys_page_ok s :
  pager_inv s → clock_queue s ≠ [] → wp evict_phys_page (λ _, paged_out s) s.
Proof.
  intros Hi Hne. unfold evict_phys_page. apply wp_bind, wp_get_state.
  destruct (clock_queue s) as [|b0 rest0] eqn:Hcl; [done|]. apply wp_bind. eapply wp_deref; [done|].
  destruct (proj2 (pi_clock _ Hi) b0) as [k0 Hk0]; [rewrite Hcl; by left|].
  destruct (clock_block s b0 k0 Hi) as (_ & _ & _ & Ht0 & _); [rewrite Hcl; by left|done|].
  apply wp_bind. eapply wp_get_block; [done|]. apply wp_bind, wp_assert; [by apply bool_decide_eq_true|].
  apply wp_bind. eapply wp_mono.
  { apply (second_chance_ok _ (clock_queue s) [] s Hi); rewrite ?app_nil_r, ?Hcl; [done|done|done|simpl; lia]. }
  simpl. intros [] s1 (Hi1 & Hv1 & Hp1 & Hc1 & Hf1 & Hb1). apply wp_bind, wp_get_state.
  destruct (clock_queue s1) as [|b rest] eqn:Hcl1.
  { rewrite Hcl in Hc1. by apply Permutation_nil_cons in Hc1. }
  destruct (proj2 (pi_clock _ Hi1) b) as [k Hk]; [rewrite Hcl1; by left|].
  destruct (out_self s1 b rest k Hi1 Hcl1 Hk) as (Hnz & Hok & Hr & Ht & Hu).
  apply wp_bind. eapply wp_deref; [done|]. apply wp_bind, wp_modify. rewrite Hcl1. simpl tail.
  apply wp_bind. eapply wp_modify_ptes; [done|intros r; by eapply (inv_ptes_entry s1 b k)|].
  apply wp_bind. eapply wp_get_block; [done|]. apply wp_bind, wp_assert; [by apply bool_decide_eq_true|].
  apply wp_bind, wp_modify, wp_bind, wp_modify.
  assert (paged_out s (out s1 b rest k)) as Hpo.
  { split.
    - by apply out_inv.
    - etransitivity; [exact Hv1|]. by apply out_same_view.
    - etransitivity; [exact Hp1|]. by apply out_paging.
    - simpl. by destruct (free_mem_blocks s1).
    - intros b2 k2 Hk2 Hnc. simpl. rewrite lookup_insert_ne; [by apply Hb1|]. intros ->. apply Hnc.
      rewrite <- Hc1. by left. }
  assert (∀ s2 (f : option bytes * Z), f = (file_of k, home k) →
    (if dirty k then set_disk (file_write (disk s2) f.1 f.2 (read_frame (location k) s2)) s2 else s2) = out s1 b rest k →
    wp (if dirty k then modify (λ s, set_disk (file_write (disk s) f.1 f.2 (read_frame (location k) s)) s) else mret ())
      (λ _, paged_out s) s2) as Hend.
  { intros s2 f -> Heq. destruct (dirty k); [apply wp_modify; by rewrite Heq|apply wp_ret; by rewrite <- Heq in Hpo]. }
  apply wp_bind. destruct (is_swap k) eqn:Hs; simpl negb; cbv iota.
  - destruct (live_home_swap s1 b k Hok Hs) as [Hh _]; [by destruct Hu|].
    apply wp_bind. eapply wp_deref; [exact Hh|]. apply wp_bind, wp_modify, wp_ret. apply Hend.
    + unfold file_of. by rewrite Hs.
    + unfold out, out_disk, out_table, out_block, file_of. rewrite Hs. cbn [negb andb].
      destruct (dirty k); apply pager_ext; try reflexivity; exact (alter_insert2 _ _ _ _ _ Hk).
  - apply wp_bind, wp_modify, wp_bind.
    assert (home k = block_num k) as Hh by (unfold home; by rewrite Hs).
    set (s2 := set_blocks _ _).
    assert (∀ s3, s3 = (if bool_decide (ptes k = ∅) then set_file_table (delete (filename k, block_num k)) s2 else s2) →
      (if dirty k then set_disk (file_write (disk s3) (Some (filename k)) (block_num k) (read_frame (location k) s3)) s3 else s3) =
      out s1 b rest k) as Heq.
    { intros s3 ->. unfold s2, out, out_disk, out_table, out_block, file_of. rewrite Hs, Hh. cbn [negb andb].
      destruct (bool_decide (ptes k = ∅)), (dirty k); apply pager_ext; try reflexivity;
        exact (alter_insert2 _ _ _ _ _ Hk). }
    case_bool_decide; [apply wp_modify|apply wp_ret]; apply wp_ret; (apply Hend; [unfold file_of; by rewrite Hs, Hh|by apply Heq]).
Qed.

Lemma ensure_free_page_ok s : pager_inv s → wp ensure_free_page (λ _, paged_out s) s.
Proof.
  intros Hi. unfold ensure_free_page. apply wp_bind, wp_get_state.
  destruct (free_mem_blocks s) as [|n l] eqn:Hf.
  - apply evict_phys_page_ok; [done|]. intros Hc. pose proof (pi_all_frames _ Hi) as Hl.
    rewrite Hf, Hc in Hl. unfold len in Hl. simpl in Hl. lia.
  - apply wp_ret. split; try done. by rewrite Hf.
Qed.

(** ** Page-ins *)

Section load.
Context (s : pager) (b n : Z) (rest : list Z) (k : mem_block) (p : page).
Context (Hi : pager_inv s) (Hk : blocks s !! b = Some k) (Hnr : resident k = false) (Hus : users s b ≠ ∅)
  (Hfree : free_mem_blocks s = n :: rest) (Hread : file_read (disk s) (file_of k) (home k) = Some p).

Definition load_block : mem_block :=
  set_location n phys (set_dirty false (set_resident true (set_referenced true k))).

Definition load : pager :=
  set_clock (clock_queue s ++ [b]) (set_free_mem rest (set_physmem (insert (frame n) p)
    (flags s (<[b := load_block]> (blocks s))
      (alter_all (λ e, set_write false (set_read true (set_ppage n e))) (ptes k) (entries s))))).

Lemma load_self : b ≠ zero_page ∧ block_ok s b k ∧ b ∉ clock_queue s ∧ 1 <= n < mem.
Proof.
  assert (b ≠ zero_page) as Hnz.
  { intros ->. destruct (pi_zero _ Hi) as (k0 & Hk0 & Hz). simplify_eq.
    destruct (zo_flags _ _ Hz) as (_ & _ & ? & _). congruence. }
  pose proof (pi_block _ Hi b k Hnz Hk) as Hok. split; [done|]. split; [done|]. split.
  - intros [? _]%(bo_clock _ _ _ Hok). congruence.
  - apply (pi_free_mem _ Hi). rewrite Hfree. by left.
Qed.

Lemma load_frame : read_frame n load = p.
Proof. unfold read_frame. simpl. by rewrite lookup_insert_eq. Qed.

Lemma load_frame_other m : 0 <= m < mem → m ≠ n → read_frame m load = read_frame m s.
Proof.
  intros Hm Hne. destruct load_self as (_ & _ & _ & Hn). unfold read_frame. simpl.
  rewrite lookup_insert_ne; [done|]. rewrite !frame_small by lia. done.
Qed.

Lemma load_frame_block b' k' :
  b' ∈ clock_queue s → blocks s !! b' = Some k' → read_frame (location k') load = read_frame (location k') s.
Proof.
  intros Hc' Hk'. destruct (clock_block s b' k' Hi Hc' Hk') as (_ & Hok' & _).
  destruct (bo_frame _ _ _ Hok' Hc') as [Hl Hnf]. apply load_frame_other; [lia|].
  intros Heq. apply Hnf. rewrite Heq, Hfree. by left.
Qed.

Lemma load_data b' k' :
  b' ≠ b → b' ≠ zero_page → blocks s !! b' = Some k' → block_ok s b' k' →
  (b' ∈ clock_queue s ∨ users s b' ≠ ∅) → data_ok load k'.
Proof.
  intros Hne Hnz' Hk' Hok' Hl. pose proof (bo_data _ _ _ Hok' Hl) as Hd. unfold data_ok in *.
  change (disk load) with (disk s). destruct (resident k') eqn:Hr'; [|done]. destruct (dirty k'); [done|].
  rewrite load_frame_block with (b' := b'); [done| |done].
  apply (bo_clock _ _ _ Hok'). split; [done|]. destruct Hl as [Hc|?]; [|by left]. by apply (bo_clock _ _ _ Hok').
Qed.

Lemma load_block_ok b' k' : b' ≠ b → b' ≠ zero_page → blocks s !! b' = Some k' → block_ok load b' k'.
Proof.
  intros Hne Hnz' Hk'. pose proof (pi_block _ Hi b' k' Hnz' Hk') as Hok. pose proof Hok as [H1 H1' H2 H3 H4 H5 H6 H7 H8 H9].
  assert (b' ∈ clock_queue s ++ [b] ↔ b' ∈ clock_queue s) as Hin
    by (rewrite elem_of_app, list_elem_of_singleton; tauto).
  split; simpl; try done; rewrite ?Hin; try done.
  - intros Hc'. destruct (H7 Hc') as [Hl Hnf]. split; [done|]. rewrite Hfree in Hnf.
    intros ?. apply Hnf. by right.
  - intros Hl. by apply (load_data b' k').
Qed.

Lemma load_new_ok : block_ok load b load_block.
Proof.
  destruct load_self as (Hnz & Hok & Hnc & Hn). pose proof Hok as [H1 H1' H2 H3 H4 H5 H6 H7 H8 H9].
  assert (b ∈ clock_queue s ++ [b]) as Hin by (apply elem_of_app; right; by left).
  split; simpl; try done.
  - split; [|done]. intros _. split; [done|by left].
  - intros _. split; [done|]. pose proof (proj1 (pi_free_mem _ Hi)) as Hnd. rewrite Hfree in Hnd.
    by apply NoDup_cons in Hnd as [? _].
  - intros Hs. change (users load b) with (users s b). rewrite (H8 Hs). split; [by left|]. intros _. by left.
  - intros _. unfold data_ok. simpl. change (file_of load_block) with (file_of k). change (home load_block) with (home k).
    by rewrite load_frame, Hread.
Qed.

Lemma load_inv : pager_inv load.
Proof.
  destruct load_self as (Hnz & Hok & Hnc & Hn). pose proof Hi as [(k0 & Hk0 & [Z1 Z2 Z3 Z4 Z5 Z6]) Hb Hsl Hdj Hfs Hnx [Hc1 Hc2] Hfr [Hm1 Hm2] Haf Htb Hin Har Hen Hpt Hhd].
  pose proof Hm1 as Hm1'. rewrite Hfree in Hm1'. apply NoDup_cons in Hm1' as [Hnrest Hrest].
  assert (∀ b', b' ∈ clock_queue s ++ [b] ↔ b' ∈ clock_queue s ∨ b' = b) as Hcl
    by (intros b'; by rewrite elem_of_app, list_elem_of_singleton).
  assert (∀ b' k', <[b:=load_block]> (blocks s) !! b' = Some k' →
    ∃ k1, blocks s !! b' = Some k1 ∧ swap_blocks k' = swap_blocks k1) as Hblk.
  { intros b' k'. destruct (decide (b' = b)) as [->|]; [rewrite lookup_insert_eq|rewrite lookup_insert_ne by done].
    - intros [= <-]. by exists k.
    - intros Hk'. by exists k'. }
  assert (∀ b', is_Some (blocks s !! b') ↔ is_Some (<[b:=load_block]> (blocks s) !! b')) as Hdom.
  { intros b'. destruct (decide (b' = b)) as [->|]; [|by rewrite lookup_insert_ne].
    rewrite lookup_insert_eq. split; eauto. }
  assert (∀ b' k', b' ∈ clock_queue s → blocks s !! b' = Some k' → location k' ≠ n) as Hloc.
  { intros b' k' Hb' Hk' Heq. destruct (clock_block s b' k' Hi Hb' Hk') as (_ & Hok' & _).
    destruct (bo_frame _ _ _ Hok' Hb') as [_ Hnf]. apply Hnf. rewrite Heq, Hfree. by left. }
  split; simpl; try done.
  - exists k0. split; [by rewrite lookup_insert_ne|]. split; try done.
    + simpl. rewrite Hcl. intros [?|?]; [done|congruence].
    + rewrite load_frame_other; [done|lia|lia].
  - intros b' k' Hnz'. destruct (decide (b' = b)) as [->|Hne].
    + rewrite lookup_insert_eq. intros [= <-]. apply load_new_ok.
    + rewrite lookup_insert_ne by done. by apply load_block_ok.
  - intros b' k' (k1 & Hk1 & Hsw)%Hblk. unfold slots_ok. simpl. rewrite Hsw. by apply (Hsl b').
  - intros b1 b2 k1 k2 m H1 H2. destruct (Hblk _ _ H1) as (j1 & Hj1 & Hs1), (Hblk _ _ H2) as (j2 & Hj2 & Hs2).
    rewrite Hs1, Hs2. by eapply Hdj.
  - intros b' Hb'. apply Hnx. by apply Hdom.
  - split.
    + apply NoDup_app. split; [done|]. split; [|apply NoDup_singleton].
      intros b' Hb' Hb2%list_elem_of_singleton. by subst.
    + intros b' [Hb'| ->]%Hcl; apply Hdom; [by apply Hc2|by exists k].
  - intros b1 b2 k1 k2 H1%Hcl H2%Hcl Hk1 Hk2 Heq.
    destruct (decide (b1 = b)) as [->|Hn1], (decide (b2 = b)) as [->|Hn2]; try done.
    + rewrite lookup_insert_eq in Hk1. rewrite lookup_insert_ne in Hk2 by done. injection Hk1 as <-. simpl in Heq.
      destruct H2 as [H2|?]; [|done]. by destruct (Hloc b2 k2 H2 Hk2).
    + rewrite lookup_insert_eq in Hk2. rewrite lookup_insert_ne in Hk1 by done. injection Hk2 as <-. simpl in Heq.
      destruct H1 as [H1|?]; [|done]. by destruct (Hloc b1 k1 H1 Hk1).
    + rewrite lookup_insert_ne in Hk1 by done. rewrite lookup_insert_ne in Hk2 by done.
      destruct H1, H2; try done. by eapply Hfr.
  - split; [done|]. intros m Hmr. apply Hm2. rewrite Hfree. by right.
  - unfold len in *. rewrite length_app. rewrite Hfree in Haf. simpl in *. lia.
  - intros f m b' Hlk. destruct (Htb f m b' Hlk) as (Hnz' & k' & Hk' & Hrest'). split; [done|].
    destruct (decide (b' = b)) as [->|Hne]; [|exists k'; by rewrite lookup_insert_ne].
    rewrite lookup_insert_eq. simplify_eq. exists load_block. by split.
  - intros r x Hx. destruct (Hin r x Hx) as (b' & i & -> & Hbs & Hpr). exists b', i. split; [done|].
    split; [by apply Hdom|done].
  - intros q v Hpv Hv. rewrite alter_all_is_Some. by apply Hen.
  - intros r b' k' e Hr' Hh Hk' He. change (users load b') with (users s b') in Hr'.
    rewrite lookup_alter_all in He. destruct (decide (r ∈ ptes k)) as [Hrk|Hrk].
    + destruct (entries s !! r) as [e0|]; [|done]. injection He as <-.
      assert (b' = b) as -> by (eapply users_unique; [exact Hr'|by eapply inv_ptes_users]).
      rewrite lookup_insert_eq in Hk'. injection Hk' as <-. split; simpl; try done. intros _.
      apply trunc30_small. lia.
    + assert (b' ≠ b) as Hne by (intros ->; apply Hrk; rewrite (bo_ptes _ _ _ Hok); set_solver).
      rewrite lookup_insert_ne in Hk' by done. destruct (entries s !! r) as [e0|] eqn:He0; [|done].
      simpl in He. injection He as <-. by apply (Hpt r b' k' e0).
  - intros r e Hrh He. rewrite lookup_alter_all, decide_False in He by (intros Hrk; by eapply (inv_ptes_hand s b k)).
    destruct (entries s !! r) as [e0|] eqn:He0; [|done]. injection He as <-. by apply (Hhd r).
Qed.

(** Resident blocks with data are the zero page and those on the clock. *)
Lemma load_content b' k' :
  b' ≠ b → blocks s !! b' = Some k' → (b' = zero_page ∨ b' ∈ clock_queue s ∨ users s b' ≠ ∅) →
  content load k' = content s k'.
Proof.
  intros Hne Hk' Hl. unfold content. change (disk load) with (disk s). destruct (resident k') eqn:Hr'; [|done].
  f_equal. destruct (decide (b' = zero_page)) as [->|Hnz'].
  - destruct (pi_zero _ Hi) as (k0 & Hk0 & Hz). simplify_eq. destruct (zo_place _ _ Hz) as [-> _].
    destruct load_self as (_ & _ & _ & Hn). apply load_frame_other; lia.
  - pose proof (pi_block _ Hi b' k' Hnz' Hk') as Hok'. apply (load_frame_block b'); [|done].
    destruct Hl as [?|[?|Hu]]; [done|done|]. apply (bo_clock _ _ _ Hok'). auto.
Qed.

Lemma load_content_self : content load load_block = content s k.
Proof. unfold content. rewrite Hnr. simpl. by rewrite load_frame, Hread. Qed.

Lemma load_same_view : same_view s load.
Proof.
  destruct load_self as (Hnz & Hok & Hnc & Hn). split.
  - intros r. unfold view. change (infos load) with (infos s).
    destruct (infos s !! r) as [[[] [b'|]]|] eqn:Hr'; try done. unfold view_block. simpl.
    destruct (decide (b' = b)) as [->|Hne].
    + rewrite lookup_insert_eq, Hk. simpl. by rewrite load_content_self.
    + rewrite lookup_insert_ne by done. destruct (blocks s !! b') as [k'|] eqn:Hk'; [|done]. simpl.
      destruct (is_swap k'); [|done]. rewrite (load_content b' k'); [done|done|done|]. right. right.
      intros Hu'. assert (r ∈ users s b') as Hin by by apply elem_of_users. rewrite Hu' in Hin. set_solver.
  - intros f m. unfold file_content. simpl. destruct (file_mapping_table s !! (f, m)) as [b'|] eqn:Htb; [|done].
    destruct (pi_table _ Hi f m b' Htb) as (Hnz' & k' & Hk' & Hs' & <- & <-). rewrite Hk'.
    pose proof (pi_block _ Hi b' k' Hnz' Hk') as Hok'. destruct (decide (b' = b)) as [->|Hne].
    + rewrite lookup_insert_eq. simplify_eq. apply load_content_self.
    + rewrite lookup_insert_ne, Hk' by done. apply (load_content b' k'); [done|done|]. right.
      destruct (proj1 (bo_table _ _ _ Hok' Hs') Htb) as [?|Hr']; [by right|left]. apply (bo_clock _ _ _ Hok'). auto.
Qed.

Lemma load_paging : paging s load.
Proof.
  split; try done.
  - intros b'. simpl. destruct (decide (b' = b)) as [->|].
    + rewrite lookup_insert_eq, Hk. by constructor.
    + rewrite lookup_insert_ne by done. destruct (blocks s !! b'); by constructor.
  - intros r. apply alter_all_is_Some.
  - intros r. by apply (unmapped_alter _ s b).
Qed.
End load.

(** The page of a block comes in, unless its file cannot be read. *)
Definition cached s (b : Z) (success : bool) s' : Prop :=
  pager_inv s' ∧ same_view s s' ∧ paging s s' ∧
  if success then ∃ k, blocks s' !! b = Some k ∧ resident k = true
  else ∃ k, blocks s !! b = Some k ∧ is_swap k = false ∧ content s k = None.

Lemma cache_nonresident_page_ok b k s :
  pager_inv s → blocks s !! b = Some k → resident k = false → users s b ≠ ∅ →
  wp (cache_nonresident_page b) (cached s b) s.
Proof.
  intros Hi Hk Hr Hu. assert (b ≠ zero_page) as Hnz.
  { intros ->. destruct (pi_zero _ Hi) as (k0 & Hk0 & Hz). simplify_eq.
    destruct (zo_flags _ _ Hz) as (_ & _ & ? & _). congruence. }
  pose proof (pi_block _ Hi b k Hnz Hk) as Hok.
  unfold cache_nonresident_page. apply wp_bind. eapply wp_get_block; [done|].
  apply wp_bind, wp_assert; [by rewrite Hr|].
  apply wp_bind, wp_assert; [apply bool_decide_eq_true; rewrite (bo_type _ _ _ Hok), Hr; by destruct (is_swap k)|].
  apply wp_bind. eapply wp_mono; [by apply ensure_free_page_ok|]. simpl. intros [] s1 [Hi1 Hv1 Hp1 Hf1 Hb1].
  assert (blocks s1 !! b = Some k) as Hk1.
  { apply Hb1; [done|]. intros [? _]%(bo_clock _ _ _ Hok). congruence. }
  assert (users s1 b ≠ ∅) as Hu1 by by rewrite (paging_users s).
  pose proof (pi_block _ Hi1 b k Hnz Hk1) as Hok1.
  apply wp_bind, wp_get_state. destruct (free_mem_blocks s1) as [|n rest] eqn:Hfree; [done|].
  apply wp_bind. eapply wp_deref; [done|]. apply wp_bind. eapply wp_get_block; [done|]. fold (file_of k).
  rewrite (bo_home _ _ _ Hok1 Hr Hu1).
  destruct (file_read (disk s1) (file_of k) (home k)) as [p|] eqn:Hread.
  - apply wp_bind, wp_modify, wp_bind, wp_modify, wp_bind, wp_modify, wp_bind, wp_modify, wp_bind.
    eapply wp_modify_ptes; [simpl; by rewrite lookup_alter_eq, Hk1|intros r; by eapply (inv_ptes_entry s1 b k)|].
    apply wp_ret. match goal with |- cached _ _ _ ?x => assert (x = load s1 b n rest k p) as -> end.
    { apply pager_ext; try reflexivity; simpl; [by rewrite Hfree|by apply alter_insert]. }
    split; [by apply load_inv|]. split; [etransitivity; [exact Hv1|by apply load_same_view]|].
    split; [etransitivity; [exact Hp1|by apply load_paging]|]. exists (load_block n k). simpl.
    by rewrite lookup_insert_eq.
  - apply wp_ret. do 3 (split; [done|]). exists k. split; [done|].
    destruct (is_swap k) eqn:Hs.
    + pose proof (bo_data _ _ _ Hok1 (or_intror Hu1)) as Hd. unfold data_ok in Hd. rewrite Hr in Hd.
      destruct (Hd Hs) as [q Hq]. unfold file_of in Hread. rewrite Hs in Hread. congruence.
    + split; [done|]. pose proof (proj2 (bo_table _ _ _ Hok Hs) (or_introl Hu)) as Ht.
      pose proof (proj2 (bo_table _ _ _ Hok1 Hs) (or_introl Hu1)) as Ht1.
      pose proof (sv_files _ _ Hv1 (filename k) (block_num k)) as Hfc. unfold file_content in Hfc.
      rewrite Ht, Ht1, Hk, Hk1 in Hfc. rewrite <- Hfc. unfold content. by rewrite Hr.
Qed.

End pager_inv.
