(* ===== verification/PagerCow.v ===== *)
(** * The pager: copy-on-write

    The two halves of copy-on-write as changes of the state: a page leaves the
    block that it shares, and gets a block of its own with the same contents.
    Between the two, eviction may run; the page is then in hand. *)
From S2P Require Import Prelude Pager PagerInv.

Local Open Scope Z_scope.

Section faults.
Context `{HF : Files, HO : SetOrder, !FilesSpec, !SetOrderSpec}.
Context (mem swp : Z) (Hmem : mem <= 2 ^ 16) (Hmem2 : 2 <= mem).
Implicit Types s : pager.
Implicit Types k : mem_block.
Implicit Types r : pte_ptr.

Abbreviation Inv h s := (pager_inv mem swp h s).

(** ** A page leaves its block *)

Definition detach s (b : Z) k r : pager := set_blocks (λ _, <[b := set_ptes (ptes k ∖ {[r]}) k]> (blocks s)) s.

Lemma insert_same_is_Some {A} (m : gmap Z A) b x y b' :
  m !! b = Some x → is_Some (<[b := y]> m !! b') ↔ is_Some (m !! b').
Proof.
  intros Hb. destruct (decide (b' = b)) as [->|]; [|by rewrite lookup_insert_ne].
  rewrite lookup_insert_eq, Hb. split; eauto.
Qed.

Lemma detach_blocks s b k r b' k' :
  blocks s !! b = Some k → blocks (detach s b k r) !! b' = Some k' →
  ∃ j, blocks s !! b' = Some j ∧ k' = set_ptes (ptes k') j ∧ (b' ≠ b → k' = j) ∧ (b' = b → k' = set_ptes (ptes k ∖ {[r]}) k).
Proof.
  intros Hk. simpl. destruct (decide (b' = b)) as [->|Hne].
  - rewrite lookup_insert_eq. intros [= <-]. by exists k.
  - rewrite lookup_insert_ne by done. intros Hk'. exists k'. by destruct k'.
Qed.

Lemma detach_inv s b k r :
  Inv ∅ s → blocks s !! b = Some k → r ∈ users s b → is_swap k = true → Inv {[r]} (detach s b k r).
Proof.
  intros Hi Hk Hr Hsw. pose proof Hi as [(k0 & Hk0 & [Z1 Z2 Z3 Z4 Z5 Z6]) Hb Hsl Hdj Hfs Hnx [Hc1 Hc2] Hfr Hfm Haf Htb Hin Har Hen Hpt Hhd].
  assert (∀ b' k', blocks (detach s b k r) !! b' = Some k' →
    ∃ j, blocks s !! b' = Some j ∧ swap_blocks k' = swap_blocks j ∧ location k' = location j) as Hblk.
  { intros b' k' (j & Hj & -> & _)%(detach_blocks s b k r b' k' Hk). eauto. }
  split; try done.
  - destruct (decide (b = zero_page)) as [->|Hne].
    + simplify_eq. exists (set_ptes (ptes k ∖ {[r]}) k). simpl. rewrite lookup_insert_eq. split; [done|].
      split; try done. simpl. change (users (detach s zero_page k r) zero_page) with (users s zero_page). set_solver.
    + exists k0. simpl. rewrite lookup_insert_ne by done. split; [done|]. split; try done.
      change (users (detach s b k r) zero_page) with (users s zero_page).
      assert (r ∉ users s zero_page) by (intros Hr0; by apply Hne, (users_unique s b zero_page r)). set_solver.
  - intros b' k' Hnz Hk'. destruct (detach_blocks s b k r b' k' Hk Hk') as (j & Hj & Hk'j & Hne & Heq).
    destruct (Hb b' j Hnz Hj) as [H1 H1' H2 H3 H4 H5 H6 H7 H8 H9].
    change (block_ok mem {[r]} (detach s b k r) b' k'). rewrite Hk'j. split; simpl; try done.
    + change (users (detach s b k r) b') with (users s b'). destruct (decide (b' = b)) as [->|Hbb].
      * rewrite (Heq eq_refl). simpl. simplify_eq. rewrite H1. set_solver.
      * rewrite (Hne Hbb), H1. assert (r ∉ users s b') by (intros Hr'; by apply Hbb, (users_unique s b' b r)). set_solver.
    + change (users (detach s b k r) b') with (users s b'). intros Hs. destruct (decide (b' = b)) as [->|Hbb].
      * simplify_eq. congruence.
      * assert (r ∉ users s b') by (intros Hr'; by apply Hbb, (users_unique s b' b r)). set_solver.
  - intros b' k' Hk'. destruct (Hblk b' k' Hk') as (j & Hj & Hs & _). unfold slots_ok. rewrite Hs. by apply (Hsl b').
  - intros b1 b2 k1 k2 n H1 H2. destruct (Hblk _ _ H1) as (j1 & Hj1 & Hs1 & _), (Hblk _ _ H2) as (j2 & Hj2 & Hs2 & _).
    rewrite Hs1, Hs2. by eapply Hdj.
  - intros b' Hb'. apply Hnx. simpl in Hb'. by rewrite (insert_same_is_Some _ _ k) in Hb'.
  - split; [done|]. intros b' Hb'. simpl. rewrite (insert_same_is_Some _ _ k) by done. by apply Hc2.
  - intros b1 b2 k1 k2 Hb1 Hb2 H1 H2. destruct (Hblk _ _ H1) as (j1 & Hj1 & _ & Hl1), (Hblk _ _ H2) as (j2 & Hj2 & _ & Hl2).
    rewrite Hl1, Hl2. by apply Hfr.
  - intros f n b' Hlk. destruct (Htb f n b' Hlk) as (Hnz & j & Hj & Hs & Hf). split; [done|]. exists j. simpl.
    rewrite lookup_insert_ne; [done|]. intros ->. congruence.
  - intros r' x Hx. destruct (Hin r' x Hx) as (b' & i & -> & Hbs & Hpr). exists b', i. split; [done|].
    split; [|done]. simpl. by rewrite (insert_same_is_Some _ _ k).
  - intros r' b' k' e Hr' Hh Hk' He. change (users (detach s b k r) b') with (users s b') in Hr'.
    destruct (detach_blocks s b k r b' k' Hk Hk') as (j & Hj & Hk'j & Hne & Heq).
    destruct (Hpt r' b' j e Hr' ltac:(set_solver) Hj He) as [P1 P2 P3 P4].
    destruct (decide (b' = b)) as [->|Hbb]; [|by rewrite (Hne Hbb)].
    rewrite (Heq eq_refl). simplify_eq. split; simpl; try done. intros Hw. destruct (P3 Hw) as (? & ? & Hsole).
    do 2 (split; [done|]). intros _. rewrite (Hsole Hsw). set_solver.
  - intros r' e ->%elem_of_singleton He Hw. by destruct (Hpt r b k e Hr ltac:(set_solver) Hk He) as [_ _ (? & _)%(λ P, P Hw) _].
Qed.

Lemma detach_same_view s b k r : blocks s !! b = Some k → same_view s (detach s b k r).
Proof.
  intros Hk. split.
  - intros r'. unfold view. change (infos (detach s b k r)) with (infos s).
    destruct (infos s !! r') as [[[] [b'|]]|]; try done. unfold view_block. simpl.
    destruct (decide (b' = b)) as [->|]; [by rewrite lookup_insert_eq, Hk|by rewrite lookup_insert_ne].
  - intros f n. unfold file_content. simpl. destruct (file_mapping_table s !! (f, n)) as [b'|]; [|done].
    destruct (decide (b' = b)) as [->|]; [by rewrite lookup_insert_eq, Hk|by rewrite lookup_insert_ne].
Qed.

(** ** A page gets a block of its own *)

Section attach.
Context (s : pager) (b n : Z) (rest : list Z) (k : mem_block) (r : pte_ptr) (slot : Z).
Context (Hi : Inv {[r]} s) (Hk : blocks s !! b = Some k) (Hr : r ∈ users s b) (Hsw : is_swap k = true)
  (Hlive : b = zero_page ∨ ptes k ≠ ∅)
  (Hfree : free_mem_blocks s = n :: rest) (Hslot : last (swap_blocks k) = Some slot).

Definition old_block : mem_block := set_swap_blocks (removelast (swap_blocks k)) k.
Definition own_block : mem_block := MemBlock true true true true [slot] {[r]} n phys [] 0.

Definition attach : pager :=
  set_clock (clock_queue s ++ [next_block s]) (set_free_mem rest (set_physmem (insert (frame n) (tmp_buffer s))
    (set_infos (insert r (KernelPageInfo true (Some (next_block s))))
      (set_entries (alter (set_ppage n) r)
        (set_next (next_block s + 1)
          (set_blocks (λ m, <[b := old_block]> (<[next_block s := own_block]> m)) s)))))).

Lemma slots_split : swap_blocks k = removelast (swap_blocks k) ++ [slot].
Proof.
  apply last_Some in Hslot as [l Hl]. rewrite Hl, removelast_last. done.
Qed.

Lemma next_fresh : blocks s !! next_block s = None.
Proof. apply eq_None_not_Some. intros Hb%(pi_next _ _ _ _ Hi). lia. Qed.

Lemma next_nonzero : next_block s ≠ zero_page.
Proof. intros Heq. pose proof next_fresh as Hn. rewrite Heq in Hn. destruct (pi_zero _ _ _ _ Hi) as (k0 & ? & _). congruence. Qed.

Lemma next_not_b : next_block s ≠ b.
Proof. intros Heq. pose proof next_fresh as Hn. rewrite Heq in Hn. congruence. Qed.

Lemma attach_users b' :
  users attach b' = if decide (b' = next_block s) then {[r]} else if decide (b' = b) then users s b ∖ {[r]} else users s b'.
Proof.
  apply set_eq. intros r'. rewrite elem_of_users. simpl. destruct (decide (r' = r)) as [->|Hne].
  - rewrite lookup_insert_eq. case_decide as H1; [subst; set_solver|]. case_decide as H2; [subst; naive_solver set_solver|].
    split; [congruence|]. intros Hr'. by destruct H2, (users_unique s b' b r).
  - rewrite lookup_insert_ne, <- elem_of_users by done. case_decide as H1.
    + subst b'. split; [|set_solver]. intros Hr'%elem_of_users. destruct (pi_infos _ _ _ _ Hi _ _ Hr') as (b' & i & [= <-] & Hb & _).
      rewrite next_fresh in Hb. by destruct Hb.
    + case_decide as H2; [subst; set_solver|done].
Qed.

Lemma attach_block b' k' :
  blocks attach !! b' = Some k' →
  (b' = b ∧ k' = old_block) ∨ (b' = next_block s ∧ k' = own_block) ∨ (b' ≠ b ∧ b' ≠ next_block s ∧ blocks s !! b' = Some k').
Proof.
  simpl. destruct (decide (b' = b)) as [->|Hne]; [rewrite lookup_insert_eq; naive_solver|].
  rewrite lookup_insert_ne by done. destruct (decide (b' = next_block s)) as [->|Hnn].
  - rewrite lookup_insert_eq. naive_solver.
  - rewrite lookup_insert_ne by done. naive_solver.
Qed.

Lemma attach_is_Some b' : is_Some (blocks attach !! b') ↔ is_Some (blocks s !! b') ∨ b' = next_block s.
Proof.
  simpl. destruct (decide (b' = b)) as [->|Hne]; [rewrite lookup_insert_eq; naive_solver|].
  rewrite lookup_insert_ne by done. destruct (decide (b' = next_block s)) as [->|Hnn].
  - rewrite lookup_insert_eq. naive_solver.
  - rewrite lookup_insert_ne by done. naive_solver.
Qed.

Lemma attach_frames b' k' :
  b' ∈ clock_queue s → blocks s !! b' = Some k' → location k' ≠ n ∧ 1 <= location k' < mem.
Proof.
  intros Hc Hk'. destruct (clock_block mem swp {[r]} s b' k' Hi Hc Hk') as (_ & Hok & _).
  destruct (bo_frame _ _ _ _ _ Hok Hc) as [Hl Hnf]. split; [|done]. intros Heq. apply Hnf. rewrite Heq, Hfree. by left.
Qed.

Lemma attach_n : 1 <= n < mem.
Proof. apply (pi_free_mem _ _ _ _ Hi). rewrite Hfree. by left. Qed.

Lemma attach_frame : read_frame n attach = tmp_buffer s.
Proof. unfold read_frame. simpl. by rewrite lookup_insert_eq. Qed.

Lemma attach_frame_other m : 0 <= m < mem → m ≠ n → read_frame m attach = read_frame m s.
Proof.
  intros Hm Hne. pose proof attach_n. unfold read_frame. simpl.
  rewrite lookup_insert_ne; [done|]. rewrite !(frame_small mem) by lia. done.
Qed.
(** The swap slots of the block and of the new one are those of the old one. *)
Lemma old_slots m : m ∈ swap_blocks k ↔ m ∈ removelast (swap_blocks k) ∨ m = slot.
Proof. rewrite slots_split at 1. by rewrite elem_of_app, list_elem_of_singleton. Qed.

Lemma slot_fresh : NoDup (swap_blocks k) → slot ∉ removelast (swap_blocks k).
Proof. rewrite slots_split at 1. intros (_ & Hd & _)%NoDup_app Hin. by apply (Hd slot Hin), list_elem_of_singleton. Qed.

Lemma attach_slots b' k' m :
  blocks attach !! b' = Some k' → m ∈ swap_blocks k' →
  ∃ b0 k0, blocks s !! b0 = Some k0 ∧ m ∈ swap_blocks k0 ∧
    (b' = b0 ∧ (b' = b → m ≠ slot) ∨ b' = next_block s ∧ b0 = b ∧ m = slot).
Proof.
  intros [[-> ->]|[[-> ->]|(Hb & Hn & Hk')]]%attach_block Hm.
  - exists b, k. split; [done|]. split; [apply old_slots; by left|]. left. split; [done|]. intros _ ->.
    apply slot_fresh; [|done]. by apply (pi_slots _ _ _ _ Hi b k Hk).
  - simpl in Hm. apply list_elem_of_singleton in Hm as ->. exists b, k. split; [done|].
    split; [apply old_slots; by right|]. by right.
  - exists b', k'. split; [done|]. split; [done|]. left. split; [done|]. by intros ->.
Qed.

Lemma old_head : b ≠ zero_page → removelast (swap_blocks k) ≠ [] ∧ home old_block = home k.
Proof.
  intros Hnz. pose proof (pi_block _ _ _ _ Hi b k Hnz Hk) as Hok.
  destruct Hlive as [?|Hp]; [done|]. rewrite (bo_ptes _ _ _ _ _ Hok) in Hp.
  pose proof (bo_swap _ _ _ _ _ Hok Hsw) as Hl.
  assert (removelast (swap_blocks k) ≠ []) as Hne.
  { intros He. rewrite slots_split, He in Hl. simpl in Hl. symmetry in Hl. apply size_1_elem_of in Hl as [x Hx].
    apply leibniz_equiv in Hx. rewrite Hx in Hr, Hp. set_solver. }
  split; [done|]. unfold home, old_block. simpl. rewrite Hsw. rewrite slots_split at 2.
  by destruct (removelast (swap_blocks k)).
Qed.

Lemma attach_file_read f m : file_read (disk attach) f m = file_read (disk s) f m.
Proof. done. Qed.

Lemma attach_data b' k' :
  blocks s !! b' = Some k' → b' ≠ zero_page → b' ∈ clock_queue s ∨ users s b' ≠ ∅ → data_ok s k' → data_ok attach k'.
Proof.
  intros Hk' Hnz Hl Hd. unfold data_ok in *. change (disk attach) with (disk s).
  destruct (resident k') eqn:Hr'; [|done]. destruct (dirty k'); [done|].
  pose proof (pi_block _ _ _ _ Hi b' k' Hnz Hk') as Hok.
  assert (b' ∈ clock_queue s) as Hc.
  { apply (bo_clock _ _ _ _ _ Hok). split; [done|]. destruct Hl as [Hc|?]; [|by left]. by apply (bo_clock _ _ _ _ _ Hok). }
  destruct (attach_frames b' k' Hc Hk'). by rewrite attach_frame_other by lia.
Qed.

Lemma in_attach_clock b' : b' ∈ clock_queue attach ↔ b' ∈ clock_queue s ∨ b' = next_block s.
Proof. simpl. by rewrite elem_of_app, list_elem_of_singleton. Qed.

Lemma attach_old_ok : b ≠ zero_page → block_ok mem ∅ attach b old_block.
Proof.
  intros Hnz. pose proof (pi_block _ _ _ _ Hi b k Hnz Hk) as Hok. pose proof Hok as [H1 H1' H2 H3 H4 H5 H6 H7 H8 H9].
  destruct (old_head Hnz) as [Hne Hh]. pose proof next_not_b as Hnb.
  assert (ptes k ≠ ∅) as Hp by (by destruct Hlive).
  assert (users attach b = ptes k) as Hu by (rewrite attach_users, decide_False, decide_True by done; by rewrite H1).
  assert (users s b ≠ ∅) as Hus by set_solver.
  assert (b ∈ clock_queue attach ↔ b ∈ clock_queue s) as Hc by (rewrite in_attach_clock; naive_solver).
  split; rewrite ?Hu, ?Hc; simpl; try done.
  - set_solver.
  - split; [intros [? _]%H3; auto|]. intros [? _]. apply H3. auto.
  - intros _. pose proof (H4 Hsw) as Hl. rewrite slots_split, length_app in Hl. simpl in Hl.
    rewrite H1, size_difference, size_singleton by set_solver. lia.
  - intros Hs. congruence.
  - intros Hrs _. rewrite Hh. by apply H6.
  - intros Hb'. destruct (H7 Hb') as [? Hnf]. split; [done|]. rewrite Hfree in Hnf. intros ?. apply Hnf. by right.
  - intros Hs. congruence.
  - intros _. pose proof (attach_data b k Hk Hnz (or_intror Hus) (H9 (or_intror Hus))) as Hd.
    unfold data_ok in *. rewrite Hh. exact Hd.
Qed.

Lemma attach_own_ok : block_ok mem ∅ attach (next_block s) own_block.
Proof.
  pose proof attach_n as Hn.
  assert (users attach (next_block s) = {[r]}) as Hu by (rewrite attach_users; by rewrite decide_True).
  assert (next_block s ∈ clock_queue attach) as Hc by (apply in_attach_clock; by right).
  split; rewrite ?Hu; simpl; try done.
  - set_solver.
  - split; [|done]. intros _. split; [done|]. left. set_solver.
  - intros _. symmetry. exact (size_singleton (C := gset pte_ptr) r).
  - intros _. split; [done|]. pose proof (proj1 (pi_free_mem _ _ _ _ Hi)) as Hnd. rewrite Hfree in Hnd.
    by apply NoDup_cons in Hnd as [? _].
Qed.

Lemma attach_other_ok b' k' :
  b' ≠ b → b' ≠ next_block s → b' ≠ zero_page → blocks s !! b' = Some k' → block_ok mem ∅ attach b' k'.
Proof.
  intros Hb Hn Hnz Hk'. pose proof (pi_block _ _ _ _ Hi b' k' Hnz Hk') as Hok. pose proof Hok as [H1 H1' H2 H3 H4 H5 H6 H7 H8 H9].
  assert (users attach b' = users s b') as Hu by (by rewrite attach_users, !decide_False).
  assert (r ∉ users s b') as Hnr by (intros Hr'; by apply Hb, (users_unique s b' b r)).
  assert (b' ∈ clock_queue attach ↔ b' ∈ clock_queue s) as Hc by (rewrite in_attach_clock; naive_solver).
  split; rewrite ?Hu, ?Hc; simpl; try done.
  - rewrite H1. clear -Hnr. set_solver.
  - intros Hb'. destruct (H7 Hb') as [? Hnf]. split; [done|]. rewrite Hfree in Hnf. intros ?. apply Hnf. by right.
  - intros Hl. apply (attach_data b' k'); [done|done|done|]. by apply H9.
Qed.

Lemma attach_inv : Inv ∅ attach.
Proof.
  pose proof Hi as [(k0 & Hk0 & [Z1 Z2 Z3 Z4 Z5 Z6]) Hb Hsl Hdj Hfs Hnx [Hc1 Hc2] Hfr [Hm1 Hm2] Haf Htb Hin Har Hen Hpt Hhd].
  pose proof next_nonzero as Hnn. pose proof next_not_b as Hnb. pose proof attach_n as Hn.
  pose proof Hm1 as Hm1'. rewrite Hfree in Hm1'. apply NoDup_cons in Hm1' as [Hnrest Hrest].
  assert (next_block s ∉ clock_queue s) as Hnc.
  { intros Hc. destruct (Hc2 _ Hc) as [? Hx]. by rewrite next_fresh in Hx. }
  split.
  - destruct (decide (b = zero_page)) as [Hbz|Hbz].
    + exists old_block. split; [rewrite <- Hbz; simpl; by rewrite lookup_insert_eq|].
      rewrite <- Hbz in Hk0, Z3, Z4, Z5. assert (k0 = k) as -> by congruence.
      assert (users attach zero_page = users s b ∖ {[r]}) as Hu
        by (rewrite <- Hbz, attach_users, decide_False, decide_True by done; done).
      split; rewrite ?Hu; simpl; try done.
      * clear -Z3. set_solver.
      * rewrite slots_split, length_app in Z4. simpl in Z4.
        rewrite size_difference, size_singleton by (clear -Hr; set_solver). lia.
      * rewrite <- Hbz, elem_of_app, list_elem_of_singleton. intros [?|?]; [done|congruence].
      * rewrite attach_frame_other by lia. done.
    + exists k0. simpl. rewrite !lookup_insert_ne by done. split; [done|].
      assert (users attach zero_page = users s zero_page) as Hu by (by rewrite attach_users, !decide_False).
      split; rewrite ?Hu; try done.
      * set_solver.
      * simpl. rewrite elem_of_app, list_elem_of_singleton. by intros [?|?].
      * rewrite attach_frame_other by lia. done.
  - intros b' k' Hnz [[-> ->]|[[-> ->]|(Hbb & Hbn & Hk')]]%attach_block;
      [by apply attach_old_ok|apply attach_own_ok|by apply attach_other_ok].
  - intros b' k' Hk'. unfold slots_ok. change (free_swap_blocks attach) with (free_swap_blocks s). split.
    + apply attach_block in Hk' as [[-> ->]|[[-> ->]|(Hbb & Hbn & Hk')]]; [|simpl; apply NoDup_singleton|by apply (Hsl b')].
      simpl. destruct (Hsl b k Hk) as [Hnd _]. rewrite slots_split in Hnd. by apply NoDup_app in Hnd as [? _].
    + intros m (b0 & k1 & Hk1 & Hm & _)%(attach_slots b' k' m Hk'). by apply (Hsl b0 k1 Hk1).
  - intros b1 b2 k1 k2 m H1 H2 (a1 & j1 & Hj1 & Hm1' & Ho1)%(attach_slots b1 k1 m H1) (a2 & j2 & Hj2 & Hm2' & Ho2)%(attach_slots b2 k2 m H2).
    assert (a1 = a2) as -> by by eapply (Hdj a1 a2 j1 j2 m).
    destruct Ho1 as [[-> Hs1]|(-> & -> & ->)], Ho2 as [[-> Hs2]|(-> & Ha & ?)]; try done.
    + subst. by destruct (Hs1 eq_refl).
    + by destruct (Hs2 eq_refl).
  - done.
  - intros b' [Hb'|Hb']%attach_is_Some; simpl; [specialize (Hnx _ Hb'); lia|subst; lia].
  - split.
    + simpl. apply NoDup_app. split; [done|]. split; [|apply NoDup_singleton].
      intros b' Hb' Hb2%list_elem_of_singleton. by subst.
    + intros b' [Hb'|Hb']%in_attach_clock; apply attach_is_Some; [left; by apply Hc2|by right].
  - assert (∀ b' k', b' ∈ clock_queue s → blocks attach !! b' = Some k' → ∃ j, blocks s !! b' = Some j ∧ location k' = location j) as Hloc.
    { intros b' k' Hb' [[-> ->]|[[-> ->]|(Hbb & Hbn & Hk')]]%attach_block; [by exists k|done|by exists k']. }
    assert (∀ k', blocks attach !! next_block s = Some k' → location k' = n) as Hown.
    { intros k' [[? _]|[[_ ->]|(? & ? & _)]]%attach_block; done. }
    intros b1 b2 k1 k2 [H1|H1]%in_attach_clock [H2|H2]%in_attach_clock Hk1 Hk2 Heq.
    + destruct (Hloc _ _ H1 Hk1) as (j1 & Hj1 & Hl1), (Hloc _ _ H2 Hk2) as (j2 & Hj2 & Hl2).
      eapply Hfr; [done|done|done|done|]. congruence.
    + subst b2. destruct (Hloc _ _ H1 Hk1) as (j1 & Hj1 & Hl1). destruct (attach_frames b1 j1 H1 Hj1) as [Hx _].
      rewrite (Hown _ Hk2) in Heq. congruence.
    + subst b1. destruct (Hloc _ _ H2 Hk2) as (j2 & Hj2 & Hl2). destruct (attach_frames b2 j2 H2 Hj2) as [Hx _].
      rewrite (Hown _ Hk1) in Heq. congruence.
    + by subst.
  - simpl. split; [done|]. intros m Hmr. apply Hm2. rewrite Hfree. by right.
  - simpl. unfold len in *. rewrite length_app. rewrite Hfree in Haf. simpl in *. lia.
  - intros f m b' Hlk. destruct (Htb f m b' Hlk) as (Hnz & j & Hj & Hs & Hf). split; [done|]. exists j. simpl.
    rewrite !lookup_insert_ne; [done| |]; intros <-; [rewrite next_fresh in Hj; done|congruence].
  - intros r' x. simpl. destruct (decide (r' = r)) as [->|Hne].
    + rewrite lookup_insert_eq. intros [= <-]. pose proof (proj1 (elem_of_users _ _ _) Hr) as Hr0.
      destruct (Hin r _ Hr0) as (b' & i & _ & _ & Hpr). exists (next_block s), i. split; [done|]. split; [|done].
      apply attach_is_Some. by right.
    + rewrite lookup_insert_ne by done. intros Hx. destruct (Hin r' x Hx) as (b' & i & -> & Hbs & Hpr).
      exists b', i. split; [done|]. split; [|done]. apply attach_is_Some. by left.
  - done.
  - intros p v Hp Hv. simpl. rewrite lookup_alter_is_Some. by apply Hen.
  - intros r' b' k' e Hr' _ Hk' He. rewrite attach_users in Hr'. simpl in He.
    destruct (decide (r' = r)) as [->|Hne].
    + rewrite lookup_alter_eq in He. destruct (entries s !! r) as [e0|] eqn:He0; [|done]. injection He as <-.
      assert (b' = next_block s) as ->.
      { case_decide as H1; [done|]. case_decide as H2; [set_solver|]. by destruct H2, (users_unique s b' b r). }
      apply attach_block in Hk' as [[? _]|[[_ ->]|(? & ? & _)]]; [done| |done].
      split; simpl; try done; [intros _; by apply (trunc30_small mem); lia|]. intros Hw.
      split; [|done]. apply (Hhd r e0); [set_solver|done|done].
    + rewrite lookup_alter_ne in He by done. apply attach_block in Hk' as [[-> ->]|[[-> ->]|(Hbb & Hbn & Hk')]].
      * rewrite decide_False, decide_True in Hr' by done.
        destruct (Hpt r' b k e ltac:(set_solver) ltac:(set_solver) Hk He) as [P1 P2 P3 P4]. by split.
      * rewrite decide_True in Hr' by done. set_solver.
      * rewrite !decide_False in Hr' by done. apply (Hpt r' b' k' e); [done|set_solver|done|done].
  - intros r' e Hr'. set_solver.
Qed.

Lemma attach_content b' k' :
  b' ≠ b → blocks s !! b' = Some k' → (b' = zero_page ∨ b' ∈ clock_queue s ∨ users s b' ≠ ∅) →
  content attach k' = content s k'.
Proof.
  intros Hne Hk' Hl. unfold content. change (disk attach) with (disk s). destruct (resident k') eqn:Hr'; [|done].
  f_equal. pose proof attach_n. destruct (decide (b' = zero_page)) as [->|Hnz'].
  - destruct (pi_zero _ _ _ _ Hi) as (k0 & Hk0 & Hz). simplify_eq. destruct (zo_place _ _ _ Hz) as [-> _].
    apply attach_frame_other; lia.
  - pose proof (pi_block _ _ _ _ Hi b' k' Hnz' Hk') as Hok'.
    assert (b' ∈ clock_queue s) as Hc.
    { destruct Hl as [?|[?|Hu]]; [done|done|]. apply (bo_clock _ _ _ _ _ Hok'). auto. }
    destruct (attach_frames b' k' Hc Hk'). apply attach_frame_other; lia.
Qed.

Lemma attach_content_old : b = zero_page ∨ users s b ∖ {[r]} ≠ ∅ → content attach old_block = content s k.
Proof.
  intros Hl. pose proof attach_n. unfold content. change (disk attach) with (disk s). simpl. destruct (resident k) eqn:Hrs.
  - f_equal. destruct (decide (b = zero_page)) as [Hbz|Hbz].
    + destruct (pi_zero _ _ _ _ Hi) as (k0 & Hk0 & Hz). rewrite <- Hbz in Hk0. assert (k0 = k) as -> by congruence.
      destruct (zo_place _ _ _ Hz) as [-> _]. apply attach_frame_other; lia.
    + pose proof (pi_block _ _ _ _ Hi b k Hbz Hk) as Hok'.
      assert (b ∈ clock_queue s) as Hc by (apply (bo_clock _ _ _ _ _ Hok'); split; [done|left; set_solver]).
      destruct (attach_frames b k Hc Hk). apply attach_frame_other; lia.
  - destruct (decide (b = zero_page)) as [Hbz|Hbz].
    + destruct (pi_zero _ _ _ _ Hi) as (k0 & Hk0 & Hz). rewrite <- Hbz in Hk0. assert (k0 = k) as -> by congruence.
      destruct (zo_flags _ _ _ Hz) as (_ & _ & ? & _). congruence.
    + destruct (old_head Hbz) as [_ ->]. done.
Qed.

(** The page keeps its contents, which are in the buffer. *)
Lemma attach_same_view : content s k = Some (tmp_buffer s) → same_view s attach.
Proof.
  intros Htmp. pose proof next_not_b as Hnb. split.
  - intros r'. unfold view. simpl. destruct (decide (r' = r)) as [->|Hne].
    + rewrite lookup_insert_eq, (proj1 (elem_of_users _ _ _) Hr). unfold view_block. simpl.
      rewrite lookup_insert_ne, lookup_insert_eq, Hk by done. simpl. rewrite Hsw, Htmp. f_equal.
      unfold content. simpl. by rewrite attach_frame.
    + rewrite lookup_insert_ne by done. destruct (infos s !! r') as [[[] [b'|]]|] eqn:Hr'; try done.
      assert (r' ∈ users s b') as Hu by by apply elem_of_users.
      unfold view_block. simpl. destruct (decide (b' = b)) as [->|Hbb].
      * rewrite lookup_insert_eq, Hk. simpl. rewrite attach_content_old; [done|]. right. set_solver.
      * rewrite lookup_insert_ne by done. destruct (decide (b' = next_block s)) as [->|Hbn].
        { destruct (pi_infos _ _ _ _ Hi _ _ Hr') as (b' & i & [= <-] & [? Hx] & _). by rewrite next_fresh in Hx. }
        rewrite lookup_insert_ne by done. destruct (blocks s !! b') as [k'|] eqn:Hk'; [|done]. simpl.
        destruct (is_swap k'); [|done]. rewrite (attach_content b' k'); [done|done|done|]. right. right. set_solver.
  - intros f m. unfold file_content. simpl. destruct (file_mapping_table s !! (f, m)) as [b'|] eqn:Htb; [|done].
    destruct (pi_table _ _ _ _ Hi f m b' Htb) as (Hnz' & k' & Hk' & Hs' & <- & <-). rewrite Hk'.
    pose proof (pi_block _ _ _ _ Hi b' k' Hnz' Hk') as Hok'.
    rewrite lookup_insert_ne by (intros <-; congruence).
    rewrite lookup_insert_ne by (intros <-; rewrite next_fresh in Hk'; done). rewrite Hk'.
    apply (attach_content b' k'); [intros ->; congruence|done|]. right.
    destruct (proj1 (bo_table _ _ _ _ _ Hok' Hs') Htb) as [?|Hr']; [by right|left]. apply (bo_clock _ _ _ _ _ Hok'). auto.
Qed.
End attach.

End faults.
