(* ===== verification/PagerFault.v ===== *)
(** * The pager: faults

    [vm_fault] and its helpers keep the invariant and the arenas of all
    processes, and leave the faulting page accessible. *)
From S2P Require Import Prelude Pager PagerInv PagerCow.

Local Open Scope Z_scope.

Section faults.
Context `{HF : Files, HO : SetOrder, !FilesSpec, !SetOrderSpec}.
Context (mem swp : Z) (Hmem : mem <= 2 ^ 16) (Hmem2 : 2 <= mem).
Implicit Types s : pager.
Implicit Types k : mem_block.
Implicit Types r : pte_ptr.

Abbreviation Inv h s := (pager_inv mem swp h s).

(** [copy_block_handler] does just that. *)
Lemma copy_block_handler_eq s b n rest k r slot i (Q : () → pager → Prop) :
  Inv {[r]} s → blocks s !! b = Some k → r ∈ users s b → free_mem_blocks s = n :: rest →
  last (swap_blocks k) = Some slot → process_info_mp s !! r.1 = Some i →
  Q () (attach s b n rest k r slot) → wp (copy_block_handler r.1 r.2 r) Q s.
Proof.
  intros Hi Hk Hr Hfree Hslot Hp HQ. assert (blocks s !! next_block s = None) as Hfresh by by eapply next_fresh.
  assert (next_block s ≠ b) as Hnb by congruence.
  assert (infos s !! (r.1, r.2) = Some (KernelPageInfo true (Some b))) as Hinfo.
  { rewrite <- surjective_pairing. by apply elem_of_users. }
  unfold copy_block_handler. apply wp_bind. eapply wp_get_page_info; [exact Hp|].
  apply wp_bind. eapply wp_deref; [unfold info_of; by rewrite Hinfo|].
  apply wp_bind, wp_get_state, wp_bind. eapply wp_deref; [by rewrite Hfree|].
  apply wp_bind. unfold make_block. apply wp_bind, wp_get_state, wp_bind, wp_modify, wp_bind, wp_modify, wp_ret.
  apply wp_bind. eapply wp_modify_page_info; [exact Hp|]. apply wp_bind, wp_modify.
  apply wp_bind. eapply wp_get_block.
  { simpl. rewrite lookup_alter_ne, lookup_insert_ne by done. exact Hk. }
  apply wp_bind. eapply wp_deref; [exact Hslot|].
  apply wp_bind, wp_modify, wp_bind, wp_modify, wp_bind, wp_modify.
  apply wp_bind, wp_modify_pte; [by eapply (inv_user_entry mem swp {[r]} s b)|].
  apply wp_bind, wp_modify, wp_bind, wp_modify, wp_bind, wp_modify, wp_bind, wp_get_state. apply wp_modify.
  match goal with |- Q () ?x => assert (x = attach s b n rest k r slot) as -> end; [|done].
  apply pager_ext; try reflexivity; simpl.
  - by rewrite Hfree.
  - apply map_eq. intros b'. destruct (decide (b' = b)) as [->|Hbb].
    + rewrite lookup_insert_eq, !lookup_alter_ne by done. rewrite lookup_alter_eq.
      by rewrite !lookup_alter_ne, lookup_insert_ne, Hk by done.
    + rewrite lookup_insert_ne by done. destruct (decide (b' = next_block s)) as [->|Hbn].
      * rewrite !lookup_alter_eq, lookup_insert_eq, lookup_alter_ne by done.
        rewrite !lookup_alter_eq, lookup_insert_eq.
        assert ({[r]} ∪ ∅ = ({[r]} : gset pte_ptr)) as Hun by (clear; set_solver).
        unfold own_block, new_mem_block, set_ptes, set_swap_blocks, set_referenced, set_resident, set_dirty, set_is_swap.
        simpl. by rewrite Hun.
      * rewrite lookup_insert_ne by done. by rewrite !lookup_alter_ne, lookup_insert_ne.
  - rewrite <- surjective_pairing. f_equal. unfold info_of. simpl. rewrite <- surjective_pairing in Hinfo.
    by rewrite Hinfo.
Qed.

Lemma inv_tmp h s p : Inv h s → Inv h (set_tmp p s).
Proof.
  intros [(k0 & Hk0 & [Z1 Z2 Z3 Z4 Z5 Z6]) Hb Hsl Hdj Hfs Hnx Hc Hfr Hfm Haf Htb Hin Har Hen Hpt Hhd].
  split; try done.
  - exists k0. split; [done|]. by split.
  - intros b k Hnz Hk. destruct (Hb b k Hnz Hk) as [H1 H1' H2 H3 H4 H5 H6 H7 H8 H9]. by split.
Qed.

(** Giving a write permission back to the last page of a block. *)
Lemma update_block_permissions_ok h b k s :
  Inv h s → blocks s !! b = Some k → resident k = true →
  wp (update_block_permissions b) (λ _ s', Inv h s' ∧ same_view s s' ∧ paging s s' ∧
    blocks s' = blocks s ∧ clock_queue s' = clock_queue s ∧ free_mem_blocks s' = free_mem_blocks s ∧
    vm_physmem s' = vm_physmem s) s.
Proof.
  intros Hi Hk Hres. eapply update_block_permissions_eq; [done|done|intros r; by eapply (inv_ptes_entry mem swp h s b k)|].
  set (es := if dirty k && (size (ptes k) =? 1)%nat && referenced k then write_entries s k else entries s).
  assert (<[b := with_flags (dirty k) (referenced k) k]> (blocks s) = blocks s) as Hid
    by (rewrite with_flags_id; by apply insert_id).
  assert (∀ r, is_Some (es !! r) ↔ is_Some (entries s !! r)) as Hes.
  { intros r. unfold es. destruct (_ && _); [apply alter_all_is_Some|done]. }
  destruct (inv_block_flags mem swp h s b k (dirty k) (referenced k) es) as [Hi' Hv']; try done.
  - intros ->. by eapply (inv_zero_flags mem swp h s).
  - intros r Hr. unfold es. destruct (_ && _); [|done]. unfold write_entries. rewrite lookup_alter_all, decide_False by done.
    by destruct (entries s !! r).
  - intros r e Hr He. unfold es. pose proof (inv_ptes_ok mem swp h s b k r e Hi Hk Hr He) as [P1 P2 P3 P4].
    rewrite with_flags_id. destruct (dirty k && _ && _) eqn:Hc; [|by exists e].
    unfold write_entries. rewrite lookup_alter_all, decide_True, He by done. simpl. eexists. split; [done|].
    apply andb_true_iff in Hc as [[Hd Hs%Nat.eqb_eq]%andb_true_iff Hrf].
    apply size_1_elem_of in Hs as [x Hx]. apply leibniz_equiv in Hx.
    split; simpl; try done. intros _. do 2 (split; [done|]). intros _. rewrite Hx in Hr |- *. set_solver.
  - rewrite Hid in Hi', Hv'. split; [done|]. split; [done|]. split; [|done].
    split; try done; [intros b'; simpl; destruct (blocks s !! b'); by constructor|].
    intros r Hr. unfold es. destruct (_ && _); [|done]. by apply (unmapped_alter mem swp h _ s b).
Qed.

(** ** Running processes *)

(** The kernel runs process [p], and the MMU uses its page table. *)
Record current s (p : Z) (i : kernel_process_info) : Prop := {
  cur_pid : curr_pid s = p;
  cur_base : page_table_base_register s = p;
  cur_proc : process_info_mp s !! p = Some i;
}.

Lemma paging_current s s' p i : paging s s' → current s p i → current s' p i.
Proof. intros Hp [H1 H2 H3]. split; by rewrite ?(pg_curr _ _ Hp), ?(pg_base _ _ Hp), ?(pg_procs _ _ Hp). Qed.

(** What faults leave alone: processes and the swap blocks that are free. *)
Record same_processes s s' : Prop := {
  sp_procs : process_info_mp s' = process_info_mp s;
  sp_curr : curr_pid s' = curr_pid s;
  sp_base : page_table_base_register s' = page_table_base_register s;
  sp_swap : free_swap_blocks s' = free_swap_blocks s;
  sp_others r : infos s !! r = None → infos s' !! r = None ∧ entries s' !! r = entries s !! r;
}.

#[export] Instance same_processes_preorder : PreOrder same_processes.
Proof.
  split; [done|]. intros s1 s2 s3 [A1 A2 A3 A4 A5] [B1 B2 B3 B4 B5]. split; try congruence.
  intros r Hr. destruct (A5 r Hr) as [A6 A7], (B5 r (proj1 (A5 r Hr))) as [B6 B7]. split; congruence.
Qed.

Lemma paging_processes s s' : paging s s' → same_processes s s'.
Proof. intros Hp. split; try apply Hp. intros r Hr. split; [by rewrite (pg_infos _ _ Hp)|by apply (pg_others _ _ Hp)]. Qed.

Lemma processes_current s s' p i : same_processes s s' → current s p i → current s' p i.
Proof. intros [A B C D _] [H1 H2 H3]. split; congruence. Qed.

Lemma flags_processes s bs es : (∀ r, infos s !! r = None → es !! r = entries s !! r) → same_processes s (flags s bs es).
Proof. intros Ho. split; try done. intros r Hr. split; [done|by apply Ho]. Qed.

Lemma read_entries_unmapped h s b k r :
  Inv h s → blocks s !! b = Some k → infos s !! r = None → read_entries s k !! r = entries s !! r.
Proof.
  intros Hi Hk Hr. unfold read_entries. rewrite (unmapped_alter mem swp h _ s b) by done.
  destruct (may_write k); [by apply (unmapped_alter mem swp h _ s b)|done].
Qed.

(** The MMU lets nobody reach a page that is not mapped. *)
Definition closed s : Prop := ∀ r e, entries s !! r = Some e → infos s !! r = None → read_enable e = false.

Lemma closed_same h s s' : Inv h s → same_view s s' → same_processes s s' → closed s → closed s'.
Proof.
  intros Hi [Hv _] Hp Hc r e He Hno. destruct (infos s !! r) as [x|] eqn:Hx.
  - destruct (pi_infos _ _ _ _ Hi r x Hx) as (b & _ & -> & [k Hk] & _).
    assert (is_Some (view s r)) as Hs by (unfold view, view_block; rewrite Hx, Hk; by eexists).
    rewrite <- Hv in Hs. unfold view in Hs. rewrite Hno in Hs. by destruct Hs.
  - destruct (sp_others _ _ Hp r Hx) as [_ He']. apply (Hc r e); congruence.
Qed.

(** ** Copy-on-write *)

Lemma cow_block h s b k : Inv h s → blocks s !! b = Some k → resident k = true →
  users s b ≠ ∅ → is_copy_on_writable k = true → is_swap k = true ∧ (b = zero_page ∨ (1 < size (ptes k))%nat).
Proof.
  intros Hi Hk Hr Hu. unfold is_copy_on_writable. rewrite andb_true_iff, orb_true_iff. intros [Hc Hs]. split; [done|].
  destruct Hc as [Hl%Z.eqb_eq|Hl%Nat.ltb_lt]; [|by right]. destruct (decide (b = zero_page)) as [->|Hnz]; [by left|].
  pose proof (pi_block _ _ _ _ Hi b k Hnz Hk) as Hok.
  assert (b ∈ clock_queue s) as Hcl by (apply (bo_clock _ _ _ _ _ Hok); auto).
  destruct (bo_frame _ _ _ _ _ Hok Hcl). lia.
Qed.

Lemma view_private s b k r :
  r ∈ users s b → blocks s !! b = Some k → is_swap k = true → view s r = Some (Private (content s k)).
Proof.
  intros Hr%elem_of_users Hk Hs. unfold view, view_block. rewrite Hr, Hk. simpl. by rewrite Hs.
Qed.

Lemma view_shared s b k r :
  r ∈ users s b → blocks s !! b = Some k → is_swap k = false → view s r = Some (Shared (filename k) (block_num k)).
Proof.
  intros Hr%elem_of_users Hk Hs. unfold view, view_block. rewrite Hr, Hk. simpl. by rewrite Hs.
Qed.

(** The faulting page has a block in memory that it need not share. *)
Definition own s r s' : Prop :=
  Inv ∅ s' ∧ same_view s s' ∧ same_processes s s' ∧
  ∃ b k, r ∈ users s' b ∧ blocks s' !! b = Some k ∧ resident k = true ∧ b ≠ zero_page ∧
    (is_swap k = true → size (ptes k) = 1%nat).

Lemma users_last s b k : is_swap k = true → length (swap_blocks k) = size (users s b) →
  users s b ≠ ∅ → ∃ slot, last (swap_blocks k) = Some slot.
Proof.
  intros Hs Hl Hu. destruct (last (swap_blocks k)) as [slot|] eqn:Hlast; [by eexists|].
  apply last_None in Hlast. rewrite Hlast in Hl. simpl in Hl. exfalso. apply Hu.
  apply leibniz_equiv, size_empty_iff. by symmetry.
Qed.

Lemma copy_on_write_ok p v b k i s :
  Inv ∅ s → current s p i → (p, v) ∈ users s b → blocks s !! b = Some k → resident k = true →
  is_copy_on_writable k = true → wp (copy_on_write v b) (λ _, own s (p, v)) s.
Proof.
  intros Hi Hc Hr Hk Hres Hcow. set (r := (p, v)) in *.
  assert (users s b ≠ ∅) as Hu by (clear -Hr; set_solver).
  destruct (cow_block ∅ s b k Hi Hk Hres Hu Hcow) as [Hs Hlive].
  unfold copy_on_write. apply wp_bind. eapply wp_mono; [by apply (read_fault_handler_ok mem swp ∅)|].
  simpl. intros [] s1 (Hs1 & Hi1 & Hv1). set (k1 := with_flags (dirty k) true k) in *.
  assert (blocks s1 !! b = Some k1) as Hk1 by (rewrite Hs1; apply lookup_insert_eq).
  assert (same_processes s s1) as Hp1 by (rewrite Hs1; by eapply flags_processes; [..|intros r'; eapply read_entries_unmapped]).
  assert (users s1 b = users s b) as Hu1 by by rewrite Hs1.
  apply wp_bind. eapply wp_get_block; [done|]. apply wp_bind, wp_get_state, wp_bind, wp_modify.
  destruct (processes_current _ _ _ _ Hp1 Hc) as [Hc1 Hc2 Hc3]. rewrite Hc1, Hc2. fold r.
  assert (set_blocks (alter (λ k, set_ptes (ptes k ∖ {[r]}) k) b) s1 = detach s1 b k1 r) as ->.
  { apply pager_ext; try reflexivity. simpl. exact (alter_insert _ _ _ _ Hk1). }
  set (k2 := set_ptes (ptes k1 ∖ {[r]}) k1). set (s2 := detach s1 b k1 r).
  assert (Inv {[r]} s2) as Hi2 by (apply detach_inv; by rewrite ?Hu1).
  assert (same_view s1 s2) as Hv2 by by apply detach_same_view.
  assert (blocks s2 !! b = Some k2) as Hk2 by apply lookup_insert_eq.
  apply wp_bind. eapply wp_mono; [by apply (update_block_permissions_ok {[r]} b k2 s2)|].
  simpl. intros [] s3 (Hi3 & Hv3 & Hp3 & Hb3 & Hc3' & Hf3 & Hm3). apply wp_bind, wp_modify.
  set (s4 := set_tmp _ s3). assert (Inv {[r]} s4) as Hi4 by by apply inv_tmp.
  apply wp_bind. eapply wp_mono; [by apply (ensure_free_page_ok mem swp {[r]} Hmem Hmem2 s4)|].
  simpl. intros [] s5 [Hi5 Hv5 Hp5 Hf5 _].
  destruct (paging_block' s4 s5 b k2 Hp5) as (k5 & Hk5 & (E1 & E2 & E3 & E4 & E5));
    [change (blocks s4) with (blocks s3); by rewrite Hb3|].
  assert (users s5 b = users s b) as Hu5.
  { rewrite (paging_users s4) by done. change (users s4 b) with (users s3 b). rewrite (paging_users s2) by done. exact Hu1. }
  assert (r ∈ users s5 b) as Hr5 by by rewrite Hu5.
  assert (is_swap k5 = true) as Hs5 by by rewrite E1.
  assert (same_view s s4) as Hv4.
  { etransitivity; [exact Hv1|]. etransitivity; [exact Hv2|]. etransitivity; [exact Hv3|done]. }
  assert (content s5 k5 = Some (tmp_buffer s5)) as Htmp.
  { pose proof (view_private s5 b k5 r Hr5 Hk5 Hs5) as Hview.
    rewrite (sv_view _ _ Hv5 r), (sv_view _ _ Hv4 r), (view_private s b k r) in Hview by done.
    injection Hview as Hcontent. rewrite <- Hcontent, (pg_tmp _ _ Hp5).
    assert (read_frame (location k1) s3 = read_frame (location k) s) as Hfr
      by (unfold read_frame; rewrite Hm3; simpl; by rewrite Hs1).
    change (tmp_buffer s4) with (read_frame (location k1) s3). rewrite Hfr. unfold content. by rewrite Hres. }
  assert (b = zero_page ∨ ptes k5 ≠ ∅) as Hlive5.
  { destruct Hlive as [?|Hsz]; [by left|right]. rewrite E3. intros He. change (ptes k ∖ {[r]} = ∅) in He.
    assert (ptes k ⊆ {[r]}) as Hsub.
    { intros x Hx. destruct (decide (x = r)) as [->|Hne]; [clear; set_solver|clear -He Hx Hne; set_solver]. }
    apply subseteq_size in Hsub.
    rewrite size_singleton in Hsub. lia. }
  assert (length (swap_blocks k5) = size (users s5 b)) as Hlen.
  { destruct (decide (b = zero_page)) as [Hbz|Hbz].
    - destruct (pi_zero _ _ _ _ Hi5) as (k0 & Hk0 & Hz). rewrite <- Hbz in Hk0. assert (k0 = k5) as -> by congruence.
      pose proof (zo_swap _ _ _ Hz) as Hl. by rewrite <- Hbz in Hl.
    - by apply (bo_swap _ _ _ _ _ (pi_block _ _ _ _ Hi5 b k5 Hbz Hk5)). }
  destruct (users_last s5 b k5 Hs5 Hlen ltac:(by rewrite Hu5)) as [slot Hslot].
  destruct (free_mem_blocks s5) as [|n rest] eqn:Hfree; [done|].
  assert (same_processes s s5) as Hp5'.
  { etransitivity; [exact Hp1|]. transitivity s2; [done|].
    etransitivity; [exact (paging_processes _ _ Hp3)|]. transitivity s4; [done|]. by apply paging_processes. }
  apply (copy_block_handler_eq s5 b n rest k5 r slot i); try done.
  { apply (processes_current _ _ _ _ Hp5' Hc). }
  set (s6 := attach s5 b n rest k5 r slot).
  pose proof (next_fresh mem swp s5 r Hi5) as Hfresh5. pose proof (next_nonzero mem swp s5 r Hi5) as Hnz5.
  assert (next_block s5 ≠ b) as Hnb by congruence.
  split; [by eapply attach_inv|]. split.
  { etransitivity; [exact Hv4|]. etransitivity; [exact Hv5|]. by eapply attach_same_view. }
  assert (same_processes s5 s6) as Hp6.
  { split; try done. intros r' Hno. assert (r' ≠ r) as Hne by (intros ->; apply elem_of_users in Hr5; congruence).
    simpl. by rewrite lookup_insert_ne, lookup_alter_ne. }
  split; [by transitivity s5|]. exists (next_block s5), (own_block n r slot).
  split; [apply elem_of_users; simpl; by rewrite lookup_insert_eq|].
  split; [simpl; by rewrite lookup_insert_ne, lookup_insert_eq|]. split; [done|].
  split; [done|]. intros _. exact (size_singleton (C := gset pte_ptr) r).
Qed.

(** ** The data of a page *)

(** What an application finds in a page of its arena, if the page can be read. *)
Definition page_data s r : option page :=
  match view s r with
  | Some (Private p) => p
  | Some (Shared f n) => file_content s f n
  | None => None
  end.

Lemma same_view_data s s' r : same_view s s' → page_data s' r = page_data s r.
Proof. intros [Hv Hf]. unfold page_data. rewrite Hv. destruct (view s r) as [[|]|]; [done|apply Hf|done]. Qed.

Lemma user_data h s b k r : Inv h s → r ∈ users s b → blocks s !! b = Some k → page_data s r = content s k.
Proof.
  intros Hi Hr Hk. unfold page_data. destruct (is_swap k) eqn:Hs; [by rewrite (view_private s b k)|].
  rewrite (view_shared s b k) by done. assert (b ≠ zero_page) as Hnz.
  { intros ->. destruct (pi_zero _ _ _ _ Hi) as (k0 & Hk0 & Hz). simplify_eq.
    destruct (zo_flags _ _ _ Hz) as (_ & _ & _ & ?). congruence. }
  pose proof (pi_block _ _ _ _ Hi b k Hnz Hk) as Hok. unfold file_content.
  rewrite (proj2 (bo_table _ _ _ _ _ Hok Hs)); [by rewrite Hk|left; clear -Hr; set_solver].
Qed.

(** The MMU lets accesses to the page through, to its data. *)
Definition accessible s r (w : bool) : Prop :=
  ∃ e, entries s !! r = Some e ∧ read_enable e = true ∧ (w = true → write_enable e = true) ∧
    page_data s r = Some (read_frame (ppage e) s).

Lemma accessible_entry s b k r e (w : bool) :
  Inv ∅ s → r ∈ users s b → blocks s !! b = Some k → resident k = true →
  entries s !! r = Some e → read_enable e = true → (w = true → write_enable e = true) → accessible s r w.
Proof.
  intros Hi Hr Hk Hres He Hre Hw. exists e. do 3 (split; [done|]). rewrite (user_data ∅ s b k r) by done.
  unfold content. rewrite Hres. do 2 f_equal. symmetry.
  by apply (po_place _ _ _ _ (pi_ptes _ _ _ _ Hi r b k e Hr ltac:(clear; set_solver) Hk He)).
Qed.

Lemma info_user s p v b : (p, v) ∈ users s b → info_of s (p, v) = KernelPageInfo true (Some b).
Proof. intros Hr%elem_of_users. unfold info_of. by rewrite Hr. Qed.

(** ** Page faults *)

Lemma wp_bind_inv {A B} (m : vm A) (f : A → vm B) Q s : wp (m ≫= f) Q s → wp m (λ a, wp (f a) Q) s.
Proof. unfold wp, mbind, vm_bind. by destruct (m s) as [[]|]. Qed.
Lemma wp_and {A} (m : vm A) (Q Q' : A → pager → Prop) s : wp m Q s → wp m Q' s → wp m (λ a s', Q a s' ∧ Q' a s') s.
Proof. unfold wp. by destruct (m s) as [[]|]. Qed.

Lemma write_fault_handler_frame h b k s : Inv h s → blocks s !! b = Some k →
  wp (write_fault_handler b) (λ _ s', infos s' = infos s ∧ process_info_mp s' = process_info_mp s) s.
Proof.
  intros Hi Hk. apply wp_bind. eapply wp_modify_ptes; [done|intros r; by eapply (inv_ptes_entry mem swp h s b k)|].
  by apply wp_modify.
Qed.

Lemma users_ptes s b k r : Inv ∅ s → blocks s !! b = Some k → b ≠ zero_page → r ∈ users s b → r ∈ ptes k.
Proof.
  intros Hi Hk Hnz Hr. rewrite (bo_ptes _ _ _ _ _ (pi_block _ _ _ _ Hi b k Hnz Hk)). clear -Hr. set_solver.
Qed.

Lemma read_entries_spec s b k r :
  Inv ∅ s → blocks s !! b = Some k → r ∈ users s b → ∃ e, read_entries s k !! r = Some e ∧ read_enable e = true.
Proof.
  intros Hi Hk Hr. destruct (inv_user_entry mem swp ∅ s b r Hi Hr) as [e He].
  unfold read_entries. rewrite lookup_alter_all. case_decide as Hp.
  - destruct (may_write k); [rewrite lookup_alter_all, decide_True by done|]; rewrite He; by eexists.
  - destruct (may_write k); [rewrite lookup_alter_all, decide_False by done|]; rewrite He; eexists; (split; [done|]);
      apply (po_zero _ _ _ _ (pi_ptes _ _ _ _ Hi r b k e Hr ltac:(clear; set_solver) Hk He));
      destruct (decide (b = zero_page)); [done| |done|]; by destruct Hp; eapply users_ptes.
Qed.

(** The page can be accessed, or it has no data: it is not mapped, or its file
    cannot be read. *)
Definition faulted s r (w ok : bool) s' : Prop :=
  Inv ∅ s' ∧ same_view s s' ∧ same_processes s s' ∧ if ok then accessible s' r w else page_data s r = None.

Definition end_fault (p v : Z) : vm bool :=
  i ← get_page_info p v; b ← deref (data_location i); _ ← read_fault_handler b; mret true.

Lemma end_fault_ok p v b k i s :
  Inv ∅ s → process_info_mp s !! p = Some i → (p, v) ∈ users s b → blocks s !! b = Some k → resident k = true →
  wp (end_fault p v) (faulted s (p, v) false) s.
Proof.
  intros Hi Hp Hr Hk Hres. apply wp_bind. eapply wp_get_page_info; [done|]. rewrite (info_user s p v b) by done.
  apply wp_bind. eapply wp_deref; [done|]. apply wp_bind.
  eapply wp_mono; [by apply (read_fault_handler_ok mem swp ∅)|]. simpl. intros [] s' (Hs' & Hi' & Hv').
  apply wp_ret. split; [done|]. split; [done|]. split; [rewrite Hs'; apply flags_processes; intros r'; by apply (read_entries_unmapped ∅ s b)|].
  destruct (read_entries_spec s b k (p, v)) as (e & He & Hre); [done..|].
  apply (accessible_entry s' b (with_flags (dirty k) true k) _ e); try done.
  - by rewrite Hs'.
  - rewrite Hs'. apply lookup_insert_eq.
  - by rewrite Hs'.
Qed.

Lemma end_write_ok p v b k i s :
  Inv ∅ s → process_info_mp s !! p = Some i → (p, v) ∈ users s b → blocks s !! b = Some k → resident k = true →
  b ≠ zero_page → (is_swap k = true → size (ptes k) = 1%nat) →
  wp (_ ← write_fault_handler b; end_fault p v) (faulted s (p, v) true) s.
Proof.
  intros Hi Hp Hr Hk Hres Hnz Hsole. apply wp_bind.
  eapply wp_mono; [apply wp_and; [by apply (write_fault_handler_frame ∅ b k)|by apply (wp_bind_inv _ (λ _, read_fault_handler b)), (write_fault_ok mem swp ∅ b k)]|].
  simpl. intros [] s1 [[Hin Hpr] Hw]. unfold end_fault. rewrite <- Hpr in Hp. apply wp_bind. eapply wp_get_page_info; [done|].
  rewrite (info_user s1 p v b) by by rewrite (users_same s). apply wp_bind. eapply wp_deref; [done|]. apply wp_bind.
  eapply wp_mono; [exact Hw|]. simpl. intros [] s' (Hs' & Hi' & Hv').
  apply wp_ret. split; [done|]. split; [done|]. split; [rewrite Hs'; apply flags_processes; intros r'; by apply (unmapped_alter mem swp ∅ _ s b)|].
  assert ((p, v) ∈ ptes k) as Hpt by exact (users_ptes s b k _ Hi Hk Hnz Hr).
  destruct (inv_user_entry mem swp ∅ s b (p, v) Hi Hr) as [e He].
  apply (accessible_entry s' b (with_flags true true k) _ (Pte (ppage e) true true)); try done.
  - by rewrite Hs'.
  - rewrite Hs'. apply lookup_insert_eq.
  - rewrite Hs'. simpl. unfold write_entries. by rewrite lookup_alter_all, decide_True, He.
Qed.

Lemma faulted_trans s s1 r w ok s' :
  same_view s s1 → same_processes s s1 → faulted s1 r w ok s' → faulted s r w ok s'.
Proof.
  intros Hv Hp (Hi' & Hv' & Hp' & Ha). split; [done|]. split; [by transitivity s1|]. split; [by transitivity s1|].
  destruct ok; [done|]. by rewrite <- (same_view_data s s1).
Qed.

Lemma not_shared_own s b k r :
  Inv ∅ s → r ∈ users s b → blocks s !! b = Some k → resident k = true → is_copy_on_writable k = false → own s r s.
Proof.
  intros Hi Hr Hk Hres Hc. split; [done|]. split; [done|]. split; [done|]. exists b, k. do 3 (split; [done|]).
  assert (b ≠ zero_page) as Hnz.
  { intros ->. destruct (pi_zero _ _ _ _ Hi) as (k0 & Hk0 & [(_ & _ & _ & Z1) [Z2 _] _ _ _ _]). simplify_eq.
    unfold is_copy_on_writable in Hc. by rewrite Z1, Z2 in Hc. }
  split; [done|]. intros Hs. unfold is_copy_on_writable in Hc. rewrite Hs, andb_true_r, orb_false_iff in Hc.
  destruct Hc as [_ Hc%Nat.ltb_ge]. assert (r ∈ ptes k) as Hp by exact (users_ptes s b k _ Hi Hk Hnz Hr).
  assert (size (ptes k) ≠ 0%nat); [|lia]. intros He%size_empty_inv. clear -Hp He. set_solver.
Qed.

Lemma write_branch_ok p v b k i s :
  Inv ∅ s → current s p i → (p, v) ∈ users s b → blocks s !! b = Some k → resident k = true →
  wp (_ ← (if is_copy_on_writable k then copy_on_write v b else mret ());
      x ← get_page_info p v; b ← deref (data_location x);
      _ ← write_fault_handler b; end_fault p v) (faulted s (p, v) true) s.
Proof.
  intros Hi Hc Hr Hk Hres. apply wp_bind. eapply (wp_mono _ (λ _, own s (p, v))).
  - destruct (is_copy_on_writable k) eqn:Hcow; [by eapply copy_on_write_ok|]. apply wp_ret. by eapply not_shared_own.
  - intros [] s1 (Hi1 & Hv1 & Hp1 & b1 & k1 & Hr1 & Hk1 & Hres1 & Hnz1 & Hsole).
    destruct (processes_current _ _ _ _ Hp1 Hc) as [_ _ Hproc].
    apply wp_bind. eapply wp_get_page_info; [done|]. rewrite (info_user s1 p v b1) by done.
    apply wp_bind. eapply wp_deref; [done|]. eapply wp_mono; [by eapply end_write_ok|].
    intros ok s'. by apply faulted_trans.
Qed.

Lemma vm_bind_assoc {A B C} (m : vm A) (f : A → vm B) (g : B → vm C) s :
  ((m ≫= f) ≫= g) s = (m ≫= (λ a, f a ≫= g)) s.
Proof. unfold mbind, vm_bind. by destruct (m s) as [[]|]. Qed.

Lemma info_valid h s r : Inv h s →
  (∃ b, r ∈ users s b) ∨ (infos s !! r = None ∧ view s r = None).
Proof.
  intros Hi. destruct (infos s !! r) as [x|] eqn:Hx; [left|right; split; [done|unfold view; by rewrite Hx]].
  destruct (pi_infos _ _ _ _ Hi r x Hx) as (b & _ & -> & _). exists b. by apply elem_of_users.
Qed.

Lemma vm_fault_ok addr w p i s :
  Inv ∅ s → current s p i → wp (vm_fault addr w) (faulted s (p, addr_to_index addr) w) s.
Proof.
  intros Hi Hc. pose proof Hc as [Hcp Hcb Hproc]. unfold vm_fault. apply wp_bind, wp_get_state. rewrite Hcp.
  apply wp_bind. eapply wp_get_process; [done|]. apply wp_bind. eapply wp_get_page_info; [done|].
  set (v := addr_to_index addr).
  destruct (info_valid ∅ s (p, v) Hi) as [[b Hr]|[Hno Hnv]].
  2: { unfold info_of. rewrite Hno. simpl. rewrite orb_true_r. apply wp_ret. do 3 (split; [done|]).
       unfold page_data. by rewrite Hnv. }
  pose proof (proj1 (elem_of_users _ _ _) Hr) as Hinfo.
  destruct (pi_infos _ _ _ _ Hi _ _ Hinfo) as (b' & i' & _ & _ & Hi' & Hv). simpl in Hi'. simplify_eq.
  rewrite (info_user s _ v b) by done. simpl. destruct (Z.leb_spec (next_invalid_page i) v) as [?|_]; [simpl in Hv; lia|].
  simpl. apply wp_bind. eapply wp_deref; [done|]. apply wp_bind. destruct (inv_user_block mem swp ∅ s b _ Hi Hr) as [k Hk].
  eapply wp_get_block; [done|]. apply wp_bind.
  eapply (wp_mono _ (λ (ok : bool) s', Inv ∅ s' ∧ same_view s s' ∧ paging s s' ∧
    if ok then ∃ k, blocks s' !! b = Some k ∧ resident k = true else page_data s (curr_pid s, v) = None)).
  { destruct (resident k) eqn:Hres; simpl.
    - apply wp_ret. do 3 (split; [done|]). by exists k.
    - eapply wp_mono; [eapply (cache_nonresident_page_ok mem swp ∅); [by idtac..|clear -Hr; set_solver]|].
      intros [] s' (? & ? & ? & Hok); (do 3 (split; [done|])); [done|].
      destruct Hok as (k' & Hk' & _ & Hno). by rewrite (user_data ∅ s b k'). }
  simpl. intros ok s1 (Hi1 & Hv1 & Hp1 & Hok). destruct ok; simpl.
  2: { apply wp_ret. split; [done|]. split; [done|]. split; [by apply paging_processes|done]. }
  destruct Hok as (k1 & Hk1 & Hres1). assert ((curr_pid s, v) ∈ users s1 b) as Hr1 by by rewrite (paging_users s).
  pose proof (paging_current _ _ _ _ Hp1 Hc) as Hc1.
  eapply wp_mono; [|intros ok s'; apply (faulted_trans s s1); [done|by apply paging_processes]].
  destruct w.
  - apply wp_bind. apply wp_bind. eapply wp_get_block; [done|].
    pose proof (write_branch_ok _ v b k1 i s1 Hi1 Hc1 Hr1 Hk1 Hres1) as Hwr.
    apply wp_bind. apply wp_bind_inv in Hwr. eapply wp_mono; [exact Hwr|]. simpl. intros [] s2 H2.
    apply wp_bind. apply wp_bind_inv in H2. eapply wp_mono; [exact H2|]. simpl. intros x s3 H3.
    apply wp_bind. apply wp_bind_inv in H3. eapply wp_mono; [exact H3|]. simpl. intros b3 s4 H4.
    apply wp_bind_inv in H4. exact H4.
  - apply wp_bind, wp_ret. destruct Hc1 as [_ _ Hproc1]. by eapply end_fault_ok.
Qed.

End faults.
