(* ===== verification/PagerMap.v ===== *)
(** * The pager: new pages

    A page joins a block: the step that [vm_map] and [vm_create] have in common,
    and what it does to the invariant and to the arenas. *)
From S2P Require Import Prelude Pager PagerInv PagerCow PagerFault.

Local Open Scope Z_scope.

Section map.
Context `{HF : Files, HO : SetOrder}.
Context (mem swp : Z).
Implicit Types s : pager.
Implicit Types k : mem_block.
Implicit Types r : pte_ptr.

Abbreviation Inv h s := (pager_inv mem swp h s).

(** ** A page joins a block *)

Definition file_key k : bytes * Z := (filename k, block_num k).

Definition joined (X : gset pte_ptr) (slots : list Z) k : mem_block := set_swap_blocks slots (set_ptes X k).

Definition join s r (i' : kernel_process_info) (b : Z) (k' : mem_block) (fs : list Z)
    (tb : gmap (bytes * Z) Z) (es : gmap pte_ptr page_table_entry_t) : pager :=
  set_procs (insert r.1 i') (set_infos (insert r (KernelPageInfo true (Some b))) (set_entries (λ _, es)
    (set_free_swap fs (set_file_table (λ _, tb) (set_blocks (insert b k') s))))).

(** Page [r] is the next one of its process, and block [b] is in use. *)
Record can_join s r (i i' : kernel_process_info) (b : Z) k (X : gset pte_ptr) (slots fs : list Z)
    (tb : gmap (bytes * Z) Z) (es : gmap pte_ptr page_table_entry_t) : Prop := {
  cj_proc : process_info_mp s !! r.1 = Some i;
  cj_page : r.2 = next_invalid_page i ∧ next_invalid_page i' = r.2 + 1 ∧ 0 <= r.2 < num_virt_addr;
  cj_block : blocks s !! b = Some k;
  cj_ptes : X = {[r]} ∪ ptes k ∨ (b = zero_page ∧ X ⊆ {[r]} ∪ ptes k);
  cj_swap : is_swap k = true → (∃ n, free_swap_blocks s = n :: fs ∧ slots = swap_blocks k ++ [n]) ∧
    (b = zero_page ∨ users s b ≠ ∅) ∧ tb = file_mapping_table s;
  cj_file : is_swap k = false → fs = free_swap_blocks s ∧ slots = swap_blocks k ∧
    tb = <[file_key k := b]> (file_mapping_table s) ∧
    (file_mapping_table s !! file_key k = Some b ∨
     file_mapping_table s !! file_key k = None ∧ location k = block_num k);
  cj_some r' : is_Some (entries s !! r') → is_Some (es !! r');
  cj_other r' : r' ∉ users s b → r' ≠ r → es !! r' = entries s !! r';
  cj_ok r' e : r' ∈ users s b ∨ r' = r → es !! r' = Some e → pte_ok b (joined X slots k) r' e;
}.

Section join.
Context (s : pager) (r : pte_ptr) (i i' : kernel_process_info) (b : Z) (k : mem_block) (X : gset pte_ptr)
  (slots fs : list Z) (tb : gmap (bytes * Z) Z) (es : gmap pte_ptr page_table_entry_t).
Context (Hi : Inv ∅ s) (Hj : can_join s r i i' b k X slots fs tb es).

Abbreviation k' := (joined X slots k).
Abbreviation s' := (join s r i' b k' fs tb es).

Lemma join_fresh b' : r ∉ users s b'.
Proof.
  intros Hr%elem_of_users. destruct (pi_infos _ _ _ _ Hi _ _ Hr) as (? & j & _ & _ & Hp & Hv).
  rewrite (cj_proc _ _ _ _ _ _ _ _ _ _ _ Hj) in Hp. injection Hp as <-.
  destruct (cj_page _ _ _ _ _ _ _ _ _ _ _ Hj) as (? & _). lia.
Qed.

Lemma join_users b' : users s' b' = if decide (b' = b) then {[r]} ∪ users s b else users s b'.
Proof.
  apply set_eq. intros r'. rewrite elem_of_users. simpl. pose proof (join_fresh b') as Hf.
  destruct (decide (r' = r)) as [->|Hne].
  - rewrite lookup_insert_eq. case_decide as Hb; [subst; split; [set_solver|done]|]. split; [congruence|done].
  - rewrite lookup_insert_ne, <- elem_of_users by done. case_decide as Hb; [subst; set_solver|done].
Qed.

Lemma join_users_ne b' : b' ≠ b → users s' b' = users s b'.
Proof. intros. by rewrite join_users, decide_False. Qed.

Lemma join_is_Some b' : is_Some (blocks s' !! b') ↔ is_Some (blocks s !! b').
Proof. exact (insert_same_is_Some _ b k k' b' (cj_block _ _ _ _ _ _ _ _ _ _ _ Hj)). Qed.

Lemma join_block b' j : blocks s' !! b' = Some j → (b' = b ∧ j = k') ∨ (b' ≠ b ∧ blocks s !! b' = Some j).
Proof.
  simpl. destruct (decide (b' = b)) as [->|Hne].
  - rewrite lookup_insert_eq. intros [= <-]. by left.
  - rewrite lookup_insert_ne by done. by right.
Qed.

Lemma join_nonzero : is_swap k = false → b ≠ zero_page.
Proof.
  intros Hs ->. destruct (pi_zero _ _ _ _ Hi) as (k0 & Hk0 & Hz). destruct (zo_flags _ _ _ Hz) as (_ & _ & _ & ?).
  pose proof (cj_block _ _ _ _ _ _ _ _ _ _ _ Hj). congruence.
Qed.

Lemma join_ok : b ≠ zero_page → block_ok mem ∅ s b k.
Proof. intros Hnz. exact (pi_block _ _ _ _ Hi b k Hnz (cj_block _ _ _ _ _ _ _ _ _ _ _ Hj)). Qed.


Lemma join_home : b ≠ zero_page → home k' = home k.
Proof.
  intros Hnz. unfold home. simpl. destruct (is_swap k) eqn:Hs; [|done].
  destruct (cj_swap _ _ _ _ _ _ _ _ _ _ _ Hj Hs) as ((n & _ & Hsl) & [?|Hu] & _); [done|].
  rewrite Hsl. destruct (live_home_swap mem ∅ s b k (join_ok Hnz) Hs Hu) as [Hh _]. by destruct (swap_blocks k).
Qed.

Lemma join_data j : data_ok s j → data_ok s' j.
Proof. done. Qed.

Lemma join_table_other b' j : b' ≠ b → block_ok mem ∅ s b' j → is_swap j = false →
  tb !! file_key j = Some b' ↔ file_mapping_table s !! file_key j = Some b'.
Proof.
  intros Hne Hok Hs'. destruct (is_swap k) eqn:Hs.
  - destruct (cj_swap _ _ _ _ _ _ _ _ _ _ _ Hj Hs) as (_ & _ & Htb). by rewrite Htb.
  - destruct (cj_file _ _ _ _ _ _ _ _ _ _ _ Hj Hs) as (_ & _ & Htb & Hlk). rewrite Htb.
    destruct (decide (file_key j = file_key k)) as [->|Hd]; [|by rewrite lookup_insert_ne].
    rewrite lookup_insert_eq. split; [congruence|]. destruct Hlk as [?|[? _]]; congruence.
Qed.

Lemma join_block_ok b' j : b' ≠ b → b' ≠ zero_page → blocks s !! b' = Some j → block_ok mem ∅ s' b' j.
Proof.
  intros Hne Hnz Hk. pose proof (pi_block _ _ _ _ Hi b' j Hnz Hk) as Hok. pose proof Hok as [H1 H1' H2 H3 H4 H5 H6 H7 H8 H9].
  split; rewrite ?(join_users_ne b' Hne); try done.
  intros Hs. change (file_mapping_table s') with tb. change (filename j, block_num j) with (file_key j).
  rewrite join_table_other by done. by apply H8.
Qed.

Lemma join_new_ok : b ≠ zero_page → block_ok mem ∅ s' b k'.
Proof.
  intros Hnz. pose proof (join_ok Hnz) as Hok. pose proof Hok as [H1 H1' H2 H3 H4 H5 H6 H7 H8 H9].
  pose proof (join_fresh b) as Hfr. pose proof (join_home Hnz) as Hh.
  assert (users s' b = {[r]} ∪ users s b) as Hu by by rewrite join_users, decide_True.
  assert ({[r]} ∪ users s b ≠ ∅) as Hne by (clear; set_solver).
  assert (resident k = true → users s b ≠ ∅ ∨ is_swap k = false) as Hr.
  { intros _. destruct (is_swap k) eqn:Hs; [|by right]. left.
    by destruct (cj_swap _ _ _ _ _ _ _ _ _ _ _ Hj Hs) as (_ & [?|?] & _). }
  assert (data_ok s k) as Hd.
  { destruct (resident k) eqn:Hres; [apply H9; left; apply H3; auto|].
    destruct (is_swap k) eqn:Hs; [|unfold data_ok; rewrite Hres; congruence]. apply H9. right.
    by destruct (cj_swap _ _ _ _ _ _ _ _ _ _ _ Hj Hs) as (_ & [?|?] & _). }
  split; rewrite ?Hu; simpl; try done.
  - destruct (cj_ptes _ _ _ _ _ _ _ _ _ _ _ Hj) as [HX|[? _]]; [|done]. rewrite HX, H1. clear. set_solver.
  - rewrite H3. split; [|intros [? _]; auto]. intros [? _]. auto.
  - intros Hs. destruct (cj_swap _ _ _ _ _ _ _ _ _ _ _ Hj Hs) as ((n & _ & Hsl) & _).
    rewrite Hsl, length_app, size_union, (size_singleton (C := gset pte_ptr)), H4 by (done || (clear -Hfr; set_solver)). simpl. lia.
  - intros Hs. destruct (cj_file _ _ _ _ _ _ _ _ _ _ _ Hj Hs) as (_ & Hsl & _). rewrite Hsl. by apply H5.
  - intros Hres _. rewrite Hh. destruct (decide (users s b = ∅)) as [Hu0|Hu0]; [|by apply H6].
    destruct (is_swap k) eqn:Hs.
    + by destruct (cj_swap _ _ _ _ _ _ _ _ _ _ _ Hj Hs) as (_ & [?|?] & _).
    + destruct (cj_file _ _ _ _ _ _ _ _ _ _ _ Hj Hs) as (_ & _ & _ & [Ht|[_ ->]]); [|unfold home; by rewrite Hs].
      apply H8 in Ht as [?|?]; [done|congruence|done].
  - intros Hs. destruct (cj_file _ _ _ _ _ _ _ _ _ _ _ Hj Hs) as (_ & _ & Htb & _).
    change (filename k, block_num k) with (file_key k). rewrite Htb, lookup_insert_eq. split; [by left|done].
  - intros _. unfold data_ok in *. rewrite Hh. exact Hd.
Qed.

Lemma join_slots b' j m :
  blocks s' !! b' = Some j → m ∈ swap_blocks j →
  (∃ j0, blocks s !! b' = Some j0 ∧ m ∈ swap_blocks j0) ∨ (b' = b ∧ free_swap_blocks s = m :: fs).
Proof.
  intros [[-> ->]|[Hne Hk]]%join_block Hm; [|left; by exists j]. simpl in Hm.
  pose proof (cj_block _ _ _ _ _ _ _ _ _ _ _ Hj) as Hk. destruct (is_swap k) eqn:Hs.
  - destruct (cj_swap _ _ _ _ _ _ _ _ _ _ _ Hj Hs) as ((n & Hn & Hsl) & _). rewrite Hsl in Hm.
    apply elem_of_app in Hm as [Hm| ->%list_elem_of_singleton]; [left; by exists k|by right].
  - destruct (cj_file _ _ _ _ _ _ _ _ _ _ _ Hj Hs) as (_ & Hsl & _). rewrite Hsl in Hm. left. by exists k.
Qed.

Lemma join_free_swap : NoDup fs ∧ (∀ n, n ∈ fs → n ∈ free_swap_blocks s) ∧ (∀ n, free_swap_blocks s = n :: fs → n ∉ fs).
Proof.
  destruct (pi_free_swap _ _ _ _ Hi) as [Hnd _]. destruct (is_swap k) eqn:Hs.
  - destruct (cj_swap _ _ _ _ _ _ _ _ _ _ _ Hj Hs) as ((n & Hn & _) & _). rewrite Hn in *.
    apply NoDup_cons in Hnd as [Hnn Hnd]. split; [done|]. split; [intros; by right|]. by intros m [= <-].
  - destruct (cj_file _ _ _ _ _ _ _ _ _ _ _ Hj Hs) as (Hfs & _). rewrite Hfs. split; [done|]. split; [done|].
    intros n Hn. exfalso. apply (f_equal length) in Hn. simpl in Hn. lia.
Qed.
Lemma join_inv : Inv ∅ s'.
Proof.
  pose proof Hi as [(k0 & Hk0 & [Z1 Z2 Z3 Z4 Z5 Z6]) Hb Hsl Hdj [Hfs1 Hfs2] Hnx [Hc1 Hc2] Hfr Hfm Haf Htb Hin Har Hen Hpt Hhd].
  pose proof Hj as [Jp (Jr & Ji & Ja) Jb Jx Js Jf Je1 Je2 Je3]. destruct join_free_swap as (Hnd & Hsub & Hnew).
  assert (∀ b' k1 k2, b' ∈ clock_queue s → blocks s !! b' = Some k1 → blocks s' !! b' = Some k2 → location k2 = location k1) as Hloc.
  { intros b' k1 k2 _ H1 [[-> ->]|[_ H2]]%join_block; [simpl|]; congruence. }
  split; try done.
  - destruct (decide (b = zero_page)) as [Hbz|Hbz].
    + exists k'. assert (k0 = k) as -> by (rewrite Hbz in Jb; congruence).
      split; [rewrite <- Hbz; apply lookup_insert_eq|].
      assert (users s' zero_page = {[r]} ∪ users s zero_page) as Hu by (rewrite join_users, decide_True by done; by rewrite Hbz).
      pose proof (join_fresh zero_page) as Hf. destruct Z1 as (Zd & Zr & Zres & Zs).
      split; rewrite ?Hu; simpl; try done.
      * destruct Jx as [HX|[_ HX]]; clear -HX Z3; set_solver.
      * destruct (Js Zs) as ((n & _ & Hslots) & _). rewrite Hslots, length_app.
        rewrite size_union, (size_singleton (C := gset pte_ptr)), Z4 by (clear -Hf; set_solver). simpl. lia.
    + exists k0. simpl. rewrite lookup_insert_ne by done. split; [done|].
      split; rewrite ?(join_users_ne zero_page) by done; done.
  - intros b' j Hnz [[-> ->]|[Hne Hkb]]%join_block; [by apply join_new_ok|by apply join_block_ok].
  - intros b' j Hkb. split.
    + apply join_block in Hkb as [[-> ->]|[_ Hkb]]; [|by apply (Hsl b')]. simpl. destruct (Hsl b k Jb) as [Hn0 Hn1].
      destruct (is_swap k) eqn:Hs.
      * destruct (Js eq_refl) as ((n & Hn & Hslots) & _). rewrite Hslots. apply NoDup_app. split; [done|].
        split; [|apply NoDup_singleton]. intros m Hm ->%list_elem_of_singleton. apply (Hn1 n Hm). rewrite Hn. by left.
      * destruct (Jf eq_refl) as (_ & Hslots & _). by rewrite Hslots.
    + intros m Hm. destruct (join_slots b' j m Hkb Hm) as [(j0 & Hj0 & Hm0)|[-> Hm0]].
      * destruct (proj2 (Hsl b' j0 Hj0) m Hm0) as [? Hnf]. split; [done|]. intros ?. by apply Hnf, Hsub.
      * split; [apply Hfs2; rewrite Hm0; by left|by apply Hnew].
  - intros b1 b2 k1 k2 m H1 H2 Hm1 Hm2.
    destruct (join_slots b1 k1 m H1 Hm1) as [(j1 & Hj1 & Hs1)|[-> Hs1]], (join_slots b2 k2 m H2 Hm2) as [(j2 & Hj2 & Hs2)|[-> Hs2]].
    + by apply (Hdj b1 b2 j1 j2 m).
    + destruct (proj2 (Hsl b1 j1 Hj1) m Hs1) as [_ []]. rewrite Hs2. by left.
    + destruct (proj2 (Hsl b2 j2 Hj2) m Hs2) as [_ []]. rewrite Hs1. by left.
    + done.
  - split; [done|]. intros n Hn. by apply Hfs2, Hsub.
  - intros b' Hb'. apply Hnx. by apply join_is_Some.
  - split; [done|]. intros b' Hb'. apply join_is_Some. by apply Hc2.
  - intros b1 b2 k1 k2 H1 H2 Hk1 Hk2 Heq. destruct (Hc2 _ H1) as [j1 Hj1], (Hc2 _ H2) as [j2 Hj2].
    apply (Hfr b1 b2 j1 j2); try done. by rewrite <- (Hloc b1 j1 k1), <- (Hloc b2 j2 k2).
  - intros f n b' Hlk. change (file_mapping_table s') with tb in Hlk.
    assert ((is_swap k = false ∧ (f, n) = file_key k ∧ b' = b) ∨ file_mapping_table s !! (f, n) = Some b') as Hor.
    { destruct (is_swap k) eqn:Hs.
      - destruct (Js eq_refl) as (_ & _ & Ht). rewrite Ht in Hlk. by right.
      - destruct (Jf eq_refl) as (_ & _ & Ht & _). rewrite Ht in Hlk.
        apply lookup_insert_Some in Hlk as [[? ?]|[_ ?]]; [by left|by right]. }
    destruct Hor as [(Hs & [= -> ->] & ->)|Hlk'].
    + split; [by apply join_nonzero|]. exists k'. split; [apply lookup_insert_eq|done].
    + destruct (Htb f n b' Hlk') as (Hnz & j & Hkb & Hrest). split; [done|].
      destruct (decide (b' = b)) as [->|Hne]; [|exists j; split; [by simpl; rewrite lookup_insert_ne|done]].
      exists k'. split; [apply lookup_insert_eq|]. assert (j = k) as -> by congruence. done.
  - intros r' x. simpl. destruct (decide (r' = r)) as [->|Hne].
    + rewrite lookup_insert_eq. intros [= <-]. exists b, i'. split; [done|]. split; [apply join_is_Some; by exists k|].
      split; [apply lookup_insert_eq|lia].
    + rewrite lookup_insert_ne by done. intros Hx. destruct (Hin r' x Hx) as (b' & j & -> & Hbs & Hpr & Hv).
      destruct (decide (r'.1 = r.1)) as [He|He].
      * exists b', i'. split; [done|]. split; [by apply join_is_Some|]. rewrite He, lookup_insert_eq. split; [done|].
        rewrite He, Jp in Hpr. injection Hpr as <-. lia.
      * exists b', j. split; [done|]. split; [by apply join_is_Some|]. by rewrite lookup_insert_ne.
  - intros p j. simpl. destruct (decide (p = r.1)) as [->|Hne]; [rewrite lookup_insert_eq|rewrite lookup_insert_ne by done; apply Har].
    intros [= <-]. lia.
  - intros p v Hpv Hv. apply Je1, Hen; [|done]. simpl in Hpv. apply lookup_insert_is_Some in Hpv as [<-|[_ ?]]; [by exists i|done].
  - intros r' b' j e Hr' _ Hkb He. rewrite join_users in Hr'. change (entries s') with es in He.
    destruct (decide (b' = b)) as [->|Hne].
    + apply join_block in Hkb as [[_ ->]|[? _]]; [|done]. apply Je3; [|done]. clear -Hr'. set_solver.
    + apply join_block in Hkb as [[? _]|[_ Hkb]]; [done|].
      rewrite Je2 in He; [by apply (Hpt r' b' j e)| |].
      * intros Hr2. by apply Hne, (users_unique s b' b r').
      * intros ->. by apply (join_fresh b').
Qed.

Lemma join_content : (b = zero_page → resident k = true) → content s' k' = content s k.
Proof.
  intros Hz. unfold content. change (resident k') with (resident k). destruct (resident k) eqn:Hres; [done|].
  rewrite join_home; [done|]. intros ->. by specialize (Hz eq_refl).
Qed.

Lemma join_zero : b = zero_page → resident k = true.
Proof.
  intros ->. destruct (pi_zero _ _ _ _ Hi) as (k0 & Hk0 & Hz). pose proof (cj_block _ _ _ _ _ _ _ _ _ _ _ Hj).
  simplify_eq. by destruct (zo_flags _ _ _ Hz) as (_ & _ & ? & _).
Qed.

(** The new page shows the block; the others show what they did. *)
Lemma join_view r' : view s' r' =
  if decide (r' = r) then Some (if is_swap k then Private (content s k) else Shared (filename k) (block_num k)) else view s r'.
Proof.
  pose proof (cj_block _ _ _ _ _ _ _ _ _ _ _ Hj) as Hkb. pose proof (join_content join_zero) as Hc.
  assert (∀ b', view_block s' b' = view_block s b') as Hvb.
  { intros b'. unfold view_block. simpl. destruct (decide (b' = b)) as [->|Hne]; [|by rewrite lookup_insert_ne].
    rewrite lookup_insert_eq, Hkb. simpl. by rewrite Hc. }
  unfold view. change (infos s') with (<[r := KernelPageInfo true (Some b)]> (infos s)). case_decide as Hr.
  - subst r'. rewrite lookup_insert_eq, Hvb. unfold view_block. by rewrite Hkb.
  - rewrite lookup_insert_ne by done. destruct (infos s !! r') as [[[] [b'|]]|]; by rewrite ?Hvb.
Qed.

Lemma join_files f n : file_content s' f n = file_content s f n.
Proof.
  pose proof (cj_block _ _ _ _ _ _ _ _ _ _ _ Hj) as Hkb. pose proof (join_content join_zero) as Hc.
  assert (∀ b', match blocks s' !! b' with Some j => content s' j | None => None end =
    match blocks s !! b' with Some j => content s j | None => None end) as Hbc.
  { intros b'. simpl. destruct (decide (b' = b)) as [->|Hne]; [|by rewrite lookup_insert_ne].
    by rewrite lookup_insert_eq, Hkb, Hc. }
  unfold file_content. change (file_mapping_table s') with tb. destruct (is_swap k) eqn:Hs.
  - destruct (cj_swap _ _ _ _ _ _ _ _ _ _ _ Hj Hs) as (_ & _ & Ht). rewrite Ht.
    destruct (file_mapping_table s !! (f, n)); [apply Hbc|done].
  - destruct (cj_file _ _ _ _ _ _ _ _ _ _ _ Hj Hs) as (_ & _ & Ht & Hlk). rewrite Ht.
    destruct (decide ((f, n) = file_key k)) as [Heq|Hne].
    + rewrite Heq, lookup_insert_eq, Hbc, Hkb. destruct Hlk as [Hlk|[Hlk _]]; rewrite Hlk; [by rewrite Hkb|].
      pose proof (join_ok (join_nonzero Hs)) as Hok. unfold content.
      destruct (resident k) eqn:Hres.
      * pose proof (proj2 (bo_table _ _ _ _ _ Hok Hs) (or_intror Hres)) as Ht'. unfold file_key in Hlk. congruence.
      * unfold file_of, home. rewrite Hs. by injection Heq as -> ->.
    + rewrite lookup_insert_ne by done. destruct (file_mapping_table s !! (f, n)); [apply Hbc|done].
Qed.

Lemma join_closed : (∀ r', r' ≠ r → infos s !! r' = None → es !! r' = entries s !! r') → closed s → closed s'.
Proof.
  intros Hes Hc r' e He Hno. simpl in *. apply lookup_insert_None in Hno as [Hno Hne].
  apply (Hc r'); [|done]. by rewrite <- Hes.
Qed.
End join.
(** ** [vm_map] *)

(** The last steps of [vm_map]. *)
Definition end_map (p v : Z) : vm (option Z) :=
  _ ← modify_process p (λ i, set_next_invalid (next_invalid_page i + 1) i);
  _ ← modify_page_info p v set_valid;
  mret (Some (index_to_addr v)).

Lemma alter_twice `{Countable K} {A} (f g : A → A) (m : gmap K A) p : alter f p (alter g p m) = alter (λ x, f (g x)) p m.
Proof. apply map_eq. intros p'. destruct (decide (p' = p)) as [->|];
  [rewrite !lookup_alter_eq; by destruct (m !! p)|by rewrite !lookup_alter_ne]. Qed.

(** The process after a page was mapped, and its page table entry. *)
Definition one_more (i : kernel_process_info) (n : Z) : kernel_process_info := KernelProcessInfo (next_invalid_page i + 1) n.
Definition zero_entry : page_table_entry_t := Pte 0 true false.

Lemma map_swap_block_eq p v i k n fs e (Q : option Z → pager → Prop) s :
  process_info_mp s !! p = Some i → page_table_base_register s = p → infos s !! (p, v) = None →
  blocks s !! zero_page = Some k → is_swap k = true → free_swap_blocks s = n :: fs → entries s !! (p, v) = Some e →
  Q (Some (index_to_addr v)) (join s (p, v) (one_more i (wrap32 (num_swap_blocks i + 1))) zero_page
    (joined (ptes k) (swap_blocks k ++ [n]) k) fs (file_mapping_table s) (<[(p, v) := zero_entry]> (entries s))) →
  wp (_ ← map_swap_block p v; end_map p v) Q s.
Proof.
  intros Hp Hbase Hno Hk Hs Hf He HQ. unfold map_swap_block. apply wp_bind, wp_bind, wp_get_state. rewrite Hbase.
  apply wp_bind, wp_modify_pte; [by rewrite He|]. apply wp_bind, wp_modify_pte; [simpl; by rewrite lookup_alter_eq, He|].
  apply wp_bind. eapply wp_modify_page_info; [exact Hp|]. apply wp_bind, wp_get_state, wp_bind.
  eapply wp_deref; [simpl; by rewrite Hf|]. apply wp_bind, wp_modify, wp_bind, wp_modify, wp_bind, wp_modify, wp_bind, wp_modify.
  apply wp_modify_pte; [simpl; by rewrite !lookup_alter_eq, He|].
  unfold end_map. apply wp_bind, wp_modify, wp_bind. eapply wp_modify_page_info.
  { simpl. rewrite alter_twice, lookup_alter_eq, Hp. reflexivity. }
  apply wp_ret. match goal with |- Q _ ?x => match type of HQ with Q _ ?y => assert (x = y) as -> end end; [|done].
  apply pager_ext; try reflexivity; simpl.
  - by rewrite Hf.
  - rewrite alter_twice. by rewrite (alter_insert _ _ _ i).
  - rewrite alter_twice. rewrite (alter_insert _ _ _ k) by done. f_equal.
    unfold joined, set_is_swap, set_swap_blocks, set_ptes. simpl. by rewrite <- Hs.
  - unfold info_of. simpl. by rewrite lookup_insert_eq, Hno, insert_insert_eq.
  - apply map_eq. intros r. destruct (decide (r = (p, v))) as [->|Hne].
    + by rewrite !lookup_alter_eq, lookup_insert_eq, He.
    + by rewrite !lookup_alter_ne, lookup_insert_ne.
Qed.

(** A block that is in its file, with no page yet. *)
Definition fresh_file (f : bytes) (n : Z) : mem_block := MemBlock false false false false [] ∅ n file f n.
Definition with_file s (f : bytes) (n : Z) : pager :=
  set_next (next_block s + 1) (set_blocks (insert (next_block s) (fresh_file f n)) s).

Lemma map_file_block_eq f n v p i e (Q : option Z → pager → Prop) s :
  current s p i → infos s !! (p, v) = None → entries s !! (p, v) = Some e →
  Q (Some (index_to_addr v)) (join (with_file s f n) (p, v) (one_more i (num_swap_blocks i)) (next_block s)
    (joined ({[(p, v)]} ∪ ∅) [] (fresh_file f n)) (free_swap_blocks s)
    (<[(f, n) := next_block s]> (file_mapping_table s)) (<[(p, v) := Pte (trunc30 n) false false]> (entries s))) →
  wp (_ ← map_file_block f n v; end_map p v) Q s.
Proof.
  intros [Hcur Hbase Hp] Hno He HQ. unfold map_file_block. apply wp_bind, wp_bind. unfold make_block.
  apply wp_bind, wp_get_state, wp_bind, wp_modify, wp_bind, wp_modify, wp_ret, wp_bind, wp_get_state.
  apply wp_bind. eapply wp_modify_page_info; [simpl; by rewrite Hcur|]. apply wp_bind, wp_modify.
  apply wp_bind. eapply wp_get_block; [simpl; by rewrite lookup_alter_eq, lookup_insert_eq|]. simpl location.
  simpl page_table_base_register. rewrite Hbase.
  apply wp_bind, wp_modify_pte; [simpl; by rewrite He|].
  apply wp_bind, wp_modify, wp_bind, wp_modify, wp_bind, wp_modify_pte; [simpl; by rewrite lookup_alter_eq, He|].
  apply wp_modify_pte; [simpl; by rewrite !lookup_alter_eq, He|].
  unfold end_map. apply wp_bind, wp_modify, wp_bind. eapply wp_modify_page_info.
  { simpl. rewrite lookup_alter_eq, Hp. reflexivity. }
  apply wp_ret. match goal with |- Q _ ?x => match type of HQ with Q _ ?y => assert (x = y) as -> end end; [|done].
  apply pager_ext; try reflexivity; simpl.
  - by rewrite (alter_insert _ _ _ i).
  - rewrite alter_twice. rewrite (alter_insert _ _ _ (new_mem_block n file)) by apply lookup_insert_eq.
    by rewrite !insert_insert_eq.
  - unfold info_of. simpl. by rewrite Hcur, lookup_insert_eq, Hno, insert_insert_eq.
  - apply map_eq. intros r. destruct (decide (r = (p, v))) as [->|Hne].
    + by rewrite !lookup_alter_eq, lookup_insert_eq, He.
    + by rewrite !lookup_alter_ne, lookup_insert_ne.
Qed.
(** The page table entry of a new page of file block [k], [e0] the one before. *)
Definition file_entry s k (e0 : page_table_entry_t) : page_table_entry_t :=
  match set_begin (ptes k) with
  | Some r => match entries s !! r with Some e => Pte (trunc30 (ppage e)) (read_enable e) (write_enable e) | None => e0 end
  | None => Pte (if resident k then trunc30 (location k) else ppage e0) (resident k && referenced k)
              (resident k && referenced k && dirty k)
  end.

Lemma update_file_block_eq b k v p i e (Q : option Z → pager → Prop) s :
  current s p i → infos s !! (p, v) = None → blocks s !! b = Some k → entries s !! (p, v) = Some e →
  (∀ r, set_begin (ptes k) = Some r → r ≠ (p, v) ∧ is_Some (entries s !! r)) →
  Q (Some (index_to_addr v)) (join s (p, v) (one_more i (num_swap_blocks i)) b
    (joined ({[(p, v)]} ∪ ptes k) (swap_blocks k) k) (free_swap_blocks s)
    (file_mapping_table s) (<[(p, v) := file_entry s k e]> (entries s))) →
  wp (_ ← update_file_block b v; end_map p v) Q s.
Proof.
  intros [Hcur Hbase Hp] Hno Hk He Href HQ.
  assert (∀ es', es' = <[(p, v) := file_entry s k e]> (entries s) →
    wp (_ ← (_ ← modify_block b (λ k, set_ptes ({[(p, v)]} ∪ ptes k) k);
             modify_page_info (curr_pid s) v (set_data_location b)); end_map p v) Q (set_entries (λ _, es') s)) as Hend.
  { intros es' ->. apply wp_bind, wp_bind, wp_modify. eapply wp_modify_page_info; [simpl; by rewrite Hcur|].
    unfold end_map. apply wp_bind, wp_modify, wp_bind. eapply wp_modify_page_info; [simpl; rewrite lookup_alter_eq, Hp; reflexivity|].
    apply wp_ret. match goal with |- Q _ ?x => match type of HQ with Q _ ?y => assert (x = y) as -> end end; [|done].
    apply pager_ext; try reflexivity; simpl.
    - by rewrite (alter_insert _ _ _ i).
    - rewrite (alter_insert _ _ _ k) by done. reflexivity.
    - unfold info_of. simpl. by rewrite Hcur, lookup_insert_eq, Hno, insert_insert_eq. }
  clear HQ. unfold update_file_block. apply wp_bind, wp_bind, wp_get_state. rewrite Hbase.
  apply wp_bind. eapply wp_get_block; [done|]. apply wp_bind.
  eapply (wp_mono _ (λ _ s', s' = set_entries (λ _, <[(p, v) :=
    Pte (if resident k then trunc30 (location k) else ppage e) (read_enable e) (write_enable e)]> (entries s)) s)).
  { destruct (resident k).
    - apply wp_modify_pte; [by rewrite He|]. apply pager_ext; try reflexivity; exact (alter_insert _ _ _ _ He).
    - apply wp_ret. apply pager_ext; try reflexivity; symmetry; apply insert_id; by destruct e. }
  intros [] s1 ->. apply wp_bind.
  eapply (wp_mono _ (λ _ s', s' = set_entries (λ _, <[(p, v) := file_entry s k e]> (entries s)) s)).
  2: { intros [] s2 ->. specialize (Hend _ eq_refl). apply wp_bind_inv in Hend. exact Hend. }
  unfold file_entry. set (e1 := Pte (if resident k then trunc30 (location k) else ppage e) (read_enable e) (write_enable e)). destruct (set_begin (ptes k)) as [r|] eqn:Hbeg.
  - destruct (Href r eq_refl) as [Hne [er Her]]. rewrite Her. apply wp_bind, wp_get_state, wp_bind.
    eapply wp_deref; [simpl; by rewrite lookup_insert_ne|].
    apply wp_bind, wp_modify_pte; [simpl; by rewrite lookup_insert_eq|].
    apply wp_bind, wp_modify_pte; [simpl; by rewrite lookup_alter_eq, lookup_insert_eq|].
    apply wp_modify_pte; [simpl; by rewrite !lookup_alter_eq, lookup_insert_eq|].
    apply pager_ext; try reflexivity. simpl. rewrite !alter_twice.
    rewrite (alter_insert _ _ _ e1) by apply lookup_insert_eq. by rewrite insert_insert_eq.
  - apply wp_bind, wp_modify_pte; [simpl; by rewrite lookup_insert_eq|].
    apply wp_bind, wp_modify_pte; [simpl; by rewrite lookup_alter_eq, lookup_insert_eq|].
    assert (∀ f, alter f (p, v) (alter (set_write false) (p, v) (alter (set_read false) (p, v) (<[(p, v) := e1]> (entries s)))) =
      <[(p, v) := f (set_write false (set_read false e1))]> (entries s)) as Halt.
    { intros f. rewrite !alter_twice. rewrite (alter_insert _ _ _ e1) by apply lookup_insert_eq. by rewrite insert_insert_eq. }
    destruct (resident k && referenced k).
    + apply wp_bind, wp_modify_pte; [simpl; by rewrite !lookup_alter_eq, lookup_insert_eq|]. simpl. destruct (dirty k).
      * apply wp_modify_pte; [simpl; by rewrite !lookup_alter_eq, lookup_insert_eq|].
        apply pager_ext; try reflexivity. simpl. rewrite (alter_twice (set_write true)). apply Halt.
      * apply wp_ret. apply pager_ext; try reflexivity. apply (Halt (set_read true)).
    + apply wp_ret. apply pager_ext; try reflexivity. simpl. rewrite alter_twice.
      rewrite (alter_insert _ _ _ e1) by apply lookup_insert_eq. by rewrite insert_insert_eq.
Qed.
Definition is_private (bk : backing) : bool := match bk with Private _ => true | Shared _ _ => false end.

(** Process [p] has one more page, which shows [bk]. *)
Record mapped s (p : Z) (i : kernel_process_info) (bk : backing) s' : Prop := {
  mp_inv : Inv ∅ s';
  mp_view r : view s' r = if decide (r = (p, next_invalid_page i)) then Some bk else view s r;
  mp_files f n : file_content s' f n = file_content s f n;
  mp_procs : process_info_mp s' =
    <[p := one_more i (if is_private bk then wrap32 (num_swap_blocks i + 1) else num_swap_blocks i)]> (process_info_mp s);
  mp_curr : curr_pid s' = curr_pid s ∧ page_table_base_register s' = page_table_base_register s;
  mp_swap : free_swap_blocks s' = if is_private bk then tail (free_swap_blocks s) else free_swap_blocks s;
  mp_closed : closed s → closed s';
}.

(** The next page of a process is not in use. *)
Lemma next_unused s p i : Inv ∅ s → process_info_mp s !! p = Some i → infos s !! (p, next_invalid_page i) = None.
Proof.
  intros Hi Hp. apply eq_None_not_Some. intros [x Hx]. destruct (pi_infos _ _ _ _ Hi _ _ Hx) as (b & j & _ & _ & Hj & Hv).
  simpl in *. simplify_eq. lia.
Qed.

Lemma next_entry s p i :
  Inv ∅ s → process_info_mp s !! p = Some i → next_invalid_page i < num_virt_addr →
  0 <= next_invalid_page i ∧ ∃ e, entries s !! (p, next_invalid_page i) = Some e.
Proof.
  intros Hi Hp Hlt. pose proof (pi_arena _ _ _ _ Hi p i Hp) as Hr. split; [lia|].
  apply (pi_entries _ _ _ _ Hi); [by exists i|lia].
Qed.

Lemma zero_block s : Inv ∅ s → ∃ k, blocks s !! zero_page = Some k ∧ is_swap k = true ∧ resident k = true ∧
  referenced k = true ∧ dirty k = false ∧ location k = 0 ∧ content s k = Some zeroes.
Proof.
  intros Hi. destruct (pi_zero _ _ _ _ Hi) as (k & Hk & [(Zd & Zr & Zres & Zs) [Zl Zt] Zp Zsw Zc Zdata]).
  exists k. repeat (split; [done|]). unfold content. by rewrite Zres, Zl, Zdata.
Qed.

Lemma map_swap_block_ok p i n fs s :
  Inv ∅ s → current s p i → next_invalid_page i < num_virt_addr → free_swap_blocks s = n :: fs →
  wp (_ ← map_swap_block p (next_invalid_page i); end_map p (next_invalid_page i))
    (λ a s', a = Some (index_to_addr (next_invalid_page i)) ∧ mapped s p i (Private (Some zeroes)) s') s.
Proof.
  intros Hi [Hc1 Hc2 Hp] Hlt Hf. destruct (next_entry s p i Hi Hp Hlt) as [Hge [e He]].
  destruct (zero_block s Hi) as (k & Hk & Hs & Hres & Hrf & Hd & Hl & Hcont).
  eapply map_swap_block_eq; [done|done|by apply next_unused|done|done|done|done|]. split; [done|].
  assert (can_join s (p, next_invalid_page i) i (one_more i (wrap32 (num_swap_blocks i + 1))) zero_page k (ptes k)
    (swap_blocks k ++ [n]) fs (file_mapping_table s) (<[(p, next_invalid_page i) := zero_entry]> (entries s))) as Hj.
  { split; simpl; try done.
    - right. split; [done|]. clear. set_solver.
    - intros _. split; [by exists n|]. split; [by left|done].
    - intros Hs'. congruence.
    - intros r' ?. destruct (decide (r' = (p, next_invalid_page i))) as [->|?];
        [rewrite lookup_insert_eq; by eexists|by rewrite lookup_insert_ne].
    - intros r' _ Hne. by rewrite lookup_insert_ne.
    - intros r' e' Hr' He'. destruct (decide (r' = (p, next_invalid_page i))) as [->|Hne].
      + rewrite lookup_insert_eq in He'. injection He' as <-. by split.
      + rewrite lookup_insert_ne in He' by done. destruct Hr' as [Hr'|?]; [|done].
        destruct (pi_ptes _ _ _ _ Hi r' zero_page k e' Hr' ltac:(clear; set_solver) Hk He') as [P1 P2 P3 P4].
        split; try done. }
  split; simpl; try done.
  - by eapply join_inv.
  - intros r'. rewrite (join_view s _ i _ zero_page k) by done. by rewrite Hs, Hcont.
  - intros f m. by eapply join_files.
  - by rewrite Hf.
  - apply join_closed. intros r' Hne _. by rewrite lookup_insert_ne.
Qed.

(** A file block without a page is no news to anyone. *)
Lemma with_file_inv s f n : Inv ∅ s → Inv ∅ (with_file s f n) ∧ same_view s (with_file s f n).
Proof.
  intros Hi. pose proof Hi as [(k0 & Hk0 & [Z1 Z2 Z3 Z4 Z5 Z6]) Hb Hsl Hdj Hfs Hnx [Hc1 Hc2] Hfr Hfm Haf Htb Hin Har Hen Hpt Hhd].
  assert (blocks s !! next_block s = None) as Hfresh.
  { apply eq_None_not_Some. intros Hx%Hnx. lia. }
  assert (∀ b, is_Some (blocks s !! b) → b ≠ next_block s) as Hne by (intros b [k Hk] ->; congruence).
  assert (users s (next_block s) = ∅) as Hu.
  { apply leibniz_equiv. intros r. split; [|clear; set_solver]. intros Hr%elem_of_users.
    destruct (Hin _ _ Hr) as (b & i & [= <-] & Hbs & _). by destruct (Hne _ Hbs). }
  assert (∀ b k, blocks (with_file s f n) !! b = Some k → (b = next_block s ∧ k = fresh_file f n) ∨ blocks s !! b = Some k) as Hblk.
  { intros b k. simpl. destruct (decide (b = next_block s)) as [->|?]; [rewrite lookup_insert_eq|rewrite lookup_insert_ne by done; by right].
    intros [= <-]. by left. }
  assert (∀ b, is_Some (blocks s !! b) → blocks (with_file s f n) !! b = blocks s !! b) as Hold.
  { intros b Hbs. simpl. rewrite lookup_insert_ne; [done|]. intros <-. by destruct (Hne _ Hbs). }
  split.
  - split; try done.
    + exists k0. rewrite Hold by (by eexists). split; [done|]. by split.
    + intros b k Hnz [[-> ->]|Hk]%Hblk.
      * assert (next_block s ∉ clock_queue s) as Hnc by (intros Hc; by destruct (Hne _ (Hc2 _ Hc))).
        change (users (with_file s f n) (next_block s)) with (users s (next_block s)) in *.
        split; change (users (with_file s f n) (next_block s)) with (users s (next_block s)); rewrite ?Hu; simpl; try done.
        -- split; [done|by intros [? _]].
        -- intros _. split; [|by intros []]. intros Ht. destruct (Htb f n _ Ht) as (_ & k & Hk & _). congruence.
      * destruct (Hb b k Hnz Hk) as [H1 H1' H2 H3 H4 H5 H6 H7 H8 H9]. by split.
    + intros b k [[-> ->]|Hk]%Hblk; [split; [constructor|]|by apply (Hsl b)]. intros m Hm. simpl in Hm. by apply not_elem_of_nil in Hm.
    + intros b b' k k' m [[-> ->]|Hk]%Hblk [[-> ->]|Hk']%Hblk Hm Hm'; simpl in *; try (by apply not_elem_of_nil in Hm || by apply not_elem_of_nil in Hm').
      by eapply Hdj.
    + intros b [k Hk]. apply Hblk in Hk as [[-> ->]|Hk]; simpl; [lia|]. assert (is_Some (blocks s !! b)) as Hx by by eexists.
      apply Hnx in Hx. lia.
    + split; [done|]. intros b Hc. rewrite Hold; by apply Hc2.
    + intros b b' k k' Hc Hc' Hk Hk'. rewrite Hold in Hk by by apply Hc2. rewrite Hold in Hk' by by apply Hc2. by eapply Hfr.
    + intros g m b Ht. destruct (Htb g m b Ht) as (? & k & Hk & ?). split; [done|]. exists k. by rewrite Hold by by eexists.
    + intros r x Hx. destruct (Hin r x Hx) as (b & i & -> & Hbs & ?). exists b, i. split; [done|]. by rewrite Hold.
    + intros r b k e Hr Hh Hk He. apply Hblk in Hk as [[-> ->]|Hk]; [|by apply (Hpt r b k e)].
      change (users (with_file s f n) (next_block s)) with (users s (next_block s)) in Hr. rewrite Hu in Hr. clear -Hr. set_solver.
  - split.
    + intros r. unfold view. change (infos (with_file s f n)) with (infos s). destruct (infos s !! r) as [[[] [b|]]|] eqn:Hr; try done.
      destruct (Hin _ _ Hr) as (b' & i & [= <-] & Hbs & _). unfold view_block. by rewrite Hold.
    + intros g m. unfold file_content. change (file_mapping_table (with_file s f n)) with (file_mapping_table s).
      destruct (file_mapping_table s !! (g, m)) as [b|] eqn:Ht; [|done]. destruct (Htb g m b Ht) as (_ & k & Hk & _).
      rewrite Hold by by eexists. by rewrite Hk.
Qed.
Lemma map_file_block_ok f n p i s :
  Inv ∅ s → current s p i → next_invalid_page i < num_virt_addr → file_mapping_table s !! (f, n) = None →
  wp (_ ← map_file_block f n (next_invalid_page i); end_map p (next_invalid_page i))
    (λ a s', a = Some (index_to_addr (next_invalid_page i)) ∧ mapped s p i (Shared f n) s') s.
Proof.
  intros Hi Hc Hlt Ht. pose proof Hc as [Hc1 Hc2 Hp]. destruct (next_entry s p i Hi Hp Hlt) as [Hge [e He]].
  destruct (with_file_inv s f n Hi) as [Hi1 [Hv1 Hf1]]. set (r := (p, next_invalid_page i)).
  assert (next_block s ≠ zero_page) as Hnz.
  { intros Hz. destruct (pi_zero _ _ _ _ Hi) as (k0 & Hk0 & _).
    pose proof (pi_next _ _ _ _ Hi zero_page ltac:(by exists k0)). lia. }
  eapply map_file_block_eq; [done|by apply next_unused|done|]. split; [done|]. fold r.
  assert (can_join (with_file s f n) r i (one_more i (num_swap_blocks i)) (next_block s) (fresh_file f n) ({[r]} ∪ ∅) []
    (free_swap_blocks s) (<[(f, n) := next_block s]> (file_mapping_table s))
    (<[r := Pte (trunc30 n) false false]> (entries s))) as Hj.
  { split; simpl; try done.
    - apply lookup_insert_eq.
    - by left.
    - intros _. do 3 (split; [done|]). by right.
    - intros r' ?. destruct (decide (r' = r)) as [->|?]; [rewrite lookup_insert_eq; by eexists|by rewrite lookup_insert_ne].
    - intros r' _ Hne. by rewrite lookup_insert_ne.
    - intros r' e' Hr' He'. destruct (decide (r' = r)) as [->|Hne].
      + rewrite lookup_insert_eq in He'. injection He' as <-. by split.
      + destruct Hr' as [Hr'|?]; [|done]. destruct (inv_user_block mem swp ∅ _ _ _ Hi1 Hr') as [k Hk].
        assert (is_Some (blocks s !! next_block s)) as Hx; [|pose proof (pi_next _ _ _ _ Hi _ Hx); lia].
        apply (inv_user_block mem swp ∅ s _ r' Hi). exact Hr'. }
  split; simpl; try done.
  - by eapply join_inv.
  - intros r'. rewrite (join_view (with_file s f n) r i _ (next_block s) (fresh_file f n)) by done. simpl. by rewrite Hv1.
  - intros g m. rewrite (join_files (with_file s f n) r i _ (next_block s) (fresh_file f n)) by done. apply Hf1.
  - apply (join_closed (with_file s f n)). intros r' Hne _. by rewrite lookup_insert_ne.
Qed.

Lemma update_file_block_ok f n b p i s `{!SetOrderSpec} (Hmem : mem <= 2 ^ 16) :
  Inv ∅ s → current s p i → next_invalid_page i < num_virt_addr → file_mapping_table s !! (f, n) = Some b →
  wp (_ ← update_file_block b (next_invalid_page i); end_map p (next_invalid_page i))
    (λ a s', a = Some (index_to_addr (next_invalid_page i)) ∧ mapped s p i (Shared f n) s') s.
Proof.
  intros Hi Hc Hlt Ht. pose proof Hc as [Hc1 Hc2 Hp]. destruct (next_entry s p i Hi Hp Hlt) as [Hge [e He]].
  set (r := (p, next_invalid_page i)) in *.
  destruct (pi_table _ _ _ _ Hi f n b Ht) as (Hnz & k & Hk & Hs & <- & <-).
  pose proof (pi_block _ _ _ _ Hi b k Hnz Hk) as Hok.
  assert (∀ r', r' ∈ ptes k → r' ∈ users s b ∧ r' ≠ r ∧ is_Some (entries s !! r')) as Hpt.
  { intros r' Hr'. assert (r' ∈ users s b) as Hu by by apply (inv_ptes_users mem swp ∅ s b k).
    split; [done|]. split; [|by apply (inv_ptes_entry mem swp ∅ s b k)].
    intros ->. apply elem_of_users in Hu. pose proof (next_unused s p i Hi Hp). unfold r in Hu. congruence. }
  assert (∀ r', set_begin (ptes k) = Some r' → r' ∈ ptes k) as Hbeg by (intros r'; apply set_begin_elem).
  eapply update_file_block_eq; [done|by apply next_unused|done|exact He| |].
  { intros r' Hr'%Hbeg. by apply Hpt. }
  split; [done|]. fold r.
  assert (can_join s r i (one_more i (num_swap_blocks i)) b k ({[r]} ∪ ptes k) (swap_blocks k)
    (free_swap_blocks s) (file_mapping_table s) (<[r := file_entry s k e]> (entries s))) as Hj.
  { split; simpl; try done.
    - by left.
    - intros Hs'. congruence.
    - intros _. do 2 (split; [done|]). split; [symmetry; by apply insert_id|by left].
    - intros r' ?. destruct (decide (r' = r)) as [->|?]; [rewrite lookup_insert_eq; by eexists|by rewrite lookup_insert_ne].
    - intros r' _ Hne. by rewrite lookup_insert_ne.
    - intros r' e' Hr' He'. destruct (decide (r' = r)) as [->|Hne].
      + rewrite lookup_insert_eq in He'. injection He' as <-. unfold file_entry.
        destruct (set_begin (ptes k)) as [r1|] eqn:Hb1.
        * destruct (Hpt r1 (Hbeg _ eq_refl)) as (Hu1 & _ & e1 & He1). rewrite He1.
          destruct (pi_ptes _ _ _ _ Hi r1 b k e1 Hu1 ltac:(clear; set_solver) Hk He1) as [P1 P2 P3 P4].
          split; simpl; try done.
          -- intros Hres. rewrite (P2 Hres). apply (trunc30_small mem); [done|].
             destruct (bo_frame _ _ _ _ _ Hok); [|lia]. apply (bo_clock _ _ _ _ _ Hok). auto.
          -- intros Hw. destruct (P3 Hw) as (? & ? & _). do 2 (split; [done|]). intros Hs'. congruence.
        * split; simpl; try done.
          -- intros [? ?]%andb_true_iff. done.
          -- intros Hres. rewrite Hres. apply (trunc30_small mem); [done|].
             destruct (bo_frame _ _ _ _ _ Hok); [|lia]. apply (bo_clock _ _ _ _ _ Hok). auto.
          -- intros [Hrr Hd]%andb_true_iff. do 2 (split; [done|]). intros Hs'. congruence.
      + rewrite lookup_insert_ne in He' by done. destruct Hr' as [Hr'|?]; [|done].
        destruct (pi_ptes _ _ _ _ Hi r' b k e' Hr' ltac:(clear; set_solver) Hk He') as [P1 P2 P3 P4].
        split; try done. intros Hw. destruct (P3 Hw) as (? & ? & _). do 2 (split; [done|]). intros Hs'. simpl in Hs'. congruence. }
  split; simpl; try done.
  - by eapply join_inv.
  - intros r'. rewrite (join_view s r i _ b k) by done. by rewrite Hs.
  - intros g m. by eapply join_files.
  - apply join_closed. intros r' Hne _. by rewrite lookup_insert_ne.
Qed.
End map.
