(* ===== verification/PagerString.v ===== *)
(** * The pager: names of files, and [vm_map]

    The name of a file to map is a string in the arena of the process, read page
    by page; then the new page joins its block. *)
From S2P Require Import Prelude Pager PagerInv PagerCow PagerFault PagerMap.

Local Open Scope Z_scope.

Section strings.
Context `{HF : Files, HO : SetOrder, !FilesSpec, !SetOrderSpec}.
Context (mem swp : Z) (Hmem : mem <= 2 ^ 16) (Hmem2 : 2 <= mem).
Implicit Types s : pager.
Implicit Types k : mem_block.
Implicit Types r : pte_ptr.

Abbreviation Inv h s := (pager_inv mem swp h s).

(** ** Strings in an arena *)

(** The byte that process [p] has at an address, if there is one. *)
Definition byte_at s (p a : Z) : option ascii :=
  if num_virt_addr <=? addr_to_index a then None
  else match page_data s (p, addr_to_index a) with
       | Some pg => Some (pg (calculate_page_offset a))
       | None => None
       end.

(** Characters of a string, and a string with its NUL. *)
Definition chars_at s (p a : Z) (f : bytes) : Prop :=
  ∀ j c, f !! j = Some c → byte_at s p (a + Z.of_nat j) = Some c ∧ is_nul c = false.

Definition string_at s (p a : Z) (f : bytes) : Prop :=
  chars_at s p a f ∧ byte_at s p (a + len f) = Some NUL.

Lemma same_view_byte s s' p a : same_view s s' → byte_at s' p a = byte_at s p a.
Proof. intros Hv. unfold byte_at. by rewrite (same_view_data s s'). Qed.

Lemma chars_at_nil s p a : chars_at s p a [].
Proof. intros j c Hj. by rewrite lookup_nil in Hj. Qed.

Lemma chars_at_snoc s p a f c :
  chars_at s p a f → byte_at s p (a + len f) = Some c → is_nul c = false → chars_at s p a (f ++ [c]).
Proof.
  intros Hf Hc Hn j c' Hj. apply lookup_app_Some in Hj as [Hj|[Hl Hj]]; [by apply Hf|].
  apply list_lookup_singleton_Some in Hj as [Hj ->]. assert (j = length f) as -> by lia. done.
Qed.

Lemma chars_at_app s p a f g : chars_at s p a f → chars_at s p (a + len f) g → chars_at s p a (f ++ g).
Proof.
  intros Hf Hg j c Hj. apply lookup_app_Some in Hj as [Hj|[Hl Hj]]; [by apply Hf|].
  apply Hg in Hj. unfold len in Hj. by replace (a + Z.of_nat j) with (a + Z.of_nat (length f) + Z.of_nat (j - length f)) by lia.
Qed.

Lemma is_nul_NUL c : is_nul c = true → c = NUL.
Proof. by intros Hc%Ascii.eqb_eq. Qed.

(** There is at most one string at an address. *)
Lemma chars_prefix s p a f g : chars_at s p a f → string_at s p a g → (length f <= length g)%nat ∧ f = take (length f) g.
Proof.
  intros Hf [Hg Hend].
  assert (length f <= length g)%nat as Hl.
  { destruct (decide (length f <= length g)%nat) as [?|Hlt]; [done|].
    destruct (lookup_lt_is_Some_2 f (length g) ltac:(lia)) as [c Hc]. destruct (Hf _ _ Hc) as [Hb Hn].
    unfold len in Hend. rewrite Hend in Hb. injection Hb as <-. done. }
  split; [done|]. apply list_eq. intros j. destruct (decide (j < length f)%nat) as [Hj|Hj].
  - rewrite lookup_take_lt by done. destruct (lookup_lt_is_Some_2 f j Hj) as [c Hc], (lookup_lt_is_Some_2 g j ltac:(lia)) as [d Hd].
    rewrite Hc, Hd. destruct (Hf _ _ Hc) as [H1 _], (Hg _ _ Hd) as [H2 _]. congruence.
  - rewrite lookup_take_ge by lia. apply lookup_ge_None. lia.
Qed.

Lemma string_at_unique s p a f g : string_at s p a f → string_at s p a g → f = g.
Proof.
  intros Hf Hg. destruct (chars_prefix s p a f g (proj1 Hf) Hg) as [Hl1 Heq], (chars_prefix s p a g f (proj1 Hg) Hf) as [Hl2 _].
  rewrite Heq. apply take_ge. lia.
Qed.

Lemma no_string s p a f : chars_at s p a f → byte_at s p (a + len f) = None → ∀ g, ¬ string_at s p a g.
Proof.
  intros Hf Hn g Hg. destruct (chars_prefix s p a f g Hf Hg) as [Hl Heq]. destruct Hg as [Hg Hend].
  destruct (decide (length f = length g)) as [He|Hne].
  - unfold len in *. rewrite He in Hn. congruence.
  - destruct (lookup_lt_is_Some_2 g (length f) ltac:(lia)) as [c Hc]. destruct (Hg _ _ Hc) as [Hb _]. unfold len in Hn. congruence.
Qed.

(** ** Reading *)

(** What reading does to the pager: pages come in, and go out for them. *)
Definition read_only s s' : Prop := Inv ∅ s' ∧ same_view s s' ∧ paging s s'.

Lemma read_only_refl s : Inv ∅ s → read_only s s.
Proof. done. Qed.

Lemma get_data_ok p a i b s :
  Inv ∅ s → process_info_mp s !! p = Some i → (p, addr_to_index a) ∈ users s b → addr_to_index a < num_virt_addr →
  wp (get_data a p) (λ c s', read_only s s' ∧ c = byte_at s p a) s.
Proof.
  intros Hi Hp Hr Hlt. set (v := addr_to_index a) in *.
  unfold get_data. fold v. apply wp_bind. eapply wp_get_page_info; [done|]. rewrite (info_user s p v b) by done.
  apply wp_bind. eapply wp_deref; [done|]. destruct (inv_user_block mem swp ∅ s b _ Hi Hr) as [k Hk].
  apply wp_bind. eapply wp_get_block; [done|]. apply wp_bind.
  assert (∀ s', byte_at s' p a = match page_data s' (p, v) with Some pg => Some (pg (calculate_page_offset a)) | None => None end) as Hbyte.
  { intros s'. unfold byte_at. fold v. by destruct (Z.leb_spec num_virt_addr v); [lia|]. }
  eapply (wp_mono _ (λ (ok : bool) s', read_only s s' ∧
    if ok then ∃ k, blocks s' !! b = Some k ∧ resident k = true else byte_at s p a = None)).
  { destruct (resident k) eqn:Hres; simpl.
    - apply wp_ret. split; [done|]. by exists k.
    - eapply wp_mono; [eapply (cache_nonresident_page_ok mem swp ∅); [by idtac..|clear -Hr; set_solver]|].
      intros [] s' (? & ? & ? & Hok); (split; [done|]); [done|]. destruct Hok as (k' & Hk' & _ & Hno).
      rewrite Hbyte, (user_data mem swp ∅ s b k' (p, v)) by done. by rewrite Hno. }
  simpl. intros [] s1 [[Hi1 [Hv1 Hp1]] Hok]; [|by apply wp_ret].
  destruct Hok as (k1 & Hk1 & Hres1). apply wp_bind. eapply wp_get_block; [done|]. apply wp_bind, wp_get_state, wp_ret.
  split; [done|]. rewrite <- (same_view_byte s s1) by done. rewrite Hbyte.
  rewrite (user_data mem swp ∅ s1 b k1) by (done || by rewrite (paging_users s)). unfold content. by rewrite Hres1.
Qed.

(** The next address and the characters so far, or the result. *)
Definition step_spec s (p a : Z) (acc : bytes) : Z * bytes + option bytes :=
  match byte_at s p a with
  | None => inr None
  | Some c => if is_nul c then inr (Some acc) else inl (a + 1, acc ++ [c])
  end.

Lemma read_filename_step_ok p a acc i s :
  Inv ∅ s → process_info_mp s !! p = Some i →
  wp (read_filename_step p a acc) (λ x s', read_only s s' ∧ x = step_spec s p a acc) s.
Proof.
  intros Hi Hp. unfold read_filename_step, step_spec. apply wp_bind. eapply wp_get_page_info; [done|].
  destruct (info_valid mem swp ∅ s (p, addr_to_index a) Hi) as [[b Hr]|[Hno Hnv]].
  - rewrite (info_user s _ _ b) by done. simpl. rewrite orb_false_r.
    destruct (Z.leb_spec num_virt_addr (addr_to_index a)) as [Hge|Hlt].
    + apply wp_ret. split; [done|]. unfold byte_at. by destruct (Z.leb_spec num_virt_addr (addr_to_index a)); [|lia].
    + apply wp_bind. eapply wp_mono; [by eapply get_data_ok|]. intros c s' [Hs' ->].
      destruct (byte_at s p a) as [c|]; [destruct (is_nul c)|]; by apply wp_ret.
  - unfold info_of. rewrite Hno. simpl. rewrite orb_true_r. apply wp_ret. split; [done|].
    unfold byte_at, page_data. rewrite Hnv. by destruct (_ <=? _).
Qed.

(** Some rounds of the loop: all their characters were read, or the loop ended. *)
Definition rounds_spec s (p a : Z) (n : Z) (acc : bytes) (x : Z * bytes + option bytes) : Prop :=
  match x with
  | inl (a', acc') => ∃ f, acc' = acc ++ f ∧ a' = a + len f ∧ len f = n ∧ chars_at s p a f
  | inr (Some g) => ∃ f, g = acc ++ f ∧ string_at s p a f
  | inr None => ∀ f, ¬ string_at s p a f
  end.

Lemma string_at_app s p a f g : chars_at s p a f → string_at s p (a + len f) g → string_at s p a (f ++ g).
Proof.
  intros Hf [Hg Hend]. split; [by apply chars_at_app|]. unfold len in *. rewrite length_app.
  by replace (a + Z.of_nat (length f + length g)) with (a + Z.of_nat (length f) + Z.of_nat (length g)) by lia.
Qed.

Lemma string_at_suffix s p a f g : chars_at s p a f → string_at s p a g → ∃ h, string_at s p (a + len f) h.
Proof.
  intros Hf Hg. destruct (chars_prefix s p a f g Hf Hg) as [Hl Heq]. exists (drop (length f) g). destruct Hg as [Hg Hend]. split.
  - intros j c Hj. rewrite lookup_drop in Hj. apply Hg in Hj. unfold len.
    by replace (a + Z.of_nat (length f) + Z.of_nat j) with (a + Z.of_nat (length f + j)) by lia.
  - unfold len in *. rewrite length_drop.
    by replace (a + Z.of_nat (length f) + Z.of_nat (length g - length f)) with (a + Z.of_nat (length g)) by lia.
Qed.

Lemma same_view_rounds s s' p a n acc x : same_view s s' → rounds_spec s' p a n acc x → rounds_spec s p a n acc x.
Proof.
  intros Hv. assert (∀ a f, chars_at s' p a f ↔ chars_at s p a f) as Hc.
  { intros a0 f. unfold chars_at. split; intros Hx j c Hj; specialize (Hx j c Hj); by rewrite (same_view_byte s s') in *. }
  assert (∀ a f, string_at s' p a f ↔ string_at s p a f) as Hst.
  { intros a0 f. unfold string_at. by rewrite Hc, (same_view_byte s s'). }
  unfold rounds_spec. destruct x as [[a' acc']|[g|]]; [setoid_rewrite Hc|setoid_rewrite Hst|setoid_rewrite Hst]; done.
Qed.

Lemma read_only_trans s s1 s2 : read_only s s1 → read_only s1 s2 → read_only s s2.
Proof. intros (_ & ? & ?) (? & ? & ?). split; [done|]. split; by transitivity s1. Qed.

Lemma read_only_proc s s' p i : read_only s s' → process_info_mp s !! p = Some i → process_info_mp s' !! p = Some i.
Proof. intros (_ & _ & Hp). by rewrite (pg_procs _ _ Hp). Qed.

Lemma read_filename_rounds_ok n p a acc i s :
  Inv ∅ s → process_info_mp s !! p = Some i →
  wp (read_filename_rounds n p a acc) (λ x s', read_only s s' ∧ rounds_spec s p a (2 ^ Z.of_nat n) acc x) s.
Proof.
  revert a acc s; induction n as [|n IH]; intros a acc s Hi Hp; simpl read_filename_rounds.
  - eapply wp_mono; [by eapply read_filename_step_ok|]. intros x s' [Hro ->]. split; [done|]. unfold step_spec.
    destruct (byte_at s p a) as [c|] eqn:Hb; [destruct (is_nul c) eqn:Hn|]; simpl.
    + exists []. rewrite app_nil_r. split; [done|]. split; [apply chars_at_nil|]. unfold len. simpl. rewrite Z.add_0_r.
      by rewrite Hb, (is_nul_NUL c).
    + exists [c]. do 3 (split; [done|]). apply (chars_at_snoc s p a []); [apply chars_at_nil| |done]. unfold len. simpl.
      by rewrite Z.add_0_r.
    + apply (no_string s p a []); [apply chars_at_nil|]. unfold len. simpl. by rewrite Z.add_0_r.
  - apply wp_bind. eapply wp_mono; [by apply IH|]. simpl. intros x s1 [Hro Hx]. pose proof Hro as (Hi1 & Hv1 & _).
    pose proof (read_only_proc s s1 p i Hro Hp) as Hp1. destruct x as [[a1 acc1]|r]; [|apply wp_ret; split; [done|by destruct r]].
    destruct Hx as (f & -> & -> & Hl & Hf). eapply wp_mono; [by apply IH|]. simpl. intros x s2 [Hro2 Hx].
    split; [by eapply read_only_trans|]. apply (same_view_rounds s s1) in Hx; [|done]. unfold rounds_spec in *.
    destruct x as [[a2 acc2]|[g|]].
    + destruct Hx as (g & -> & -> & Hg & Hcg). exists (f ++ g). rewrite app_assoc. unfold len in *. rewrite length_app.
      split; [done|]. split; [lia|]. split; [rewrite Nat2Z.inj_succ, Z.pow_succ_r by lia; lia|by apply chars_at_app].
    + destruct Hx as (h & -> & Hh). exists (f ++ h). rewrite app_assoc. split; [done|by apply string_at_app].
    + intros g Hg. destruct (string_at_suffix s p a f g Hf Hg) as [h Hh]. by apply (Hx h).
Qed.

(** Addresses of applications, below 2 ^ 47: the index is the quotient. *)
Lemma addr_to_index_user a : VM_ARENA_BASEADDR <= a < 2 ^ 47 + 2 ^ 26 → addr_to_index a = (a - VM_ARENA_BASEADDR) / VM_PAGESIZE.
Proof.
  unfold addr_to_index, wrap_ptrdiff, wrap32, VM_ARENA_BASEADDR, VM_PAGESIZE. intros Ha.
  rewrite (Z.mod_small (_ + 2 ^ 63)) by lia.
  replace (a - 0x600000000 + 2 ^ 63 - 2 ^ 63) with (a - 0x600000000) by lia. rewrite Z.quot_div_nonneg by lia.
  rewrite Z.mod_small; [done|]. split; [apply Z.div_pos; lia|]. apply Z.div_lt_upper_bound; lia.
Qed.

(** The index of a 64-bit address: the arena again, wherever 32 bits make it so; one
    size of the arena further on is no page of it. *)
Lemma index_shift q : wrap32 q < num_virt_addr → wrap32 (q + num_virt_addr) = wrap32 q + num_virt_addr.
Proof.
  unfold wrap32. change num_virt_addr with 256. intros Hq. pose proof (Z.mod_pos_bound q (2 ^ 32) ltac:(lia)).
  rewrite <- Z.add_mod_idemp_l by lia. apply Z.mod_small. lia.
Qed.

Lemma arena_after a :
  VM_ARENA_BASEADDR <= a < 2 ^ 64 → addr_to_index a < num_virt_addr → num_virt_addr <= addr_to_index (a + 2 ^ 24).
Proof.
  unfold addr_to_index. set (d := a - VM_ARENA_BASEADDR). intros Ha.
  replace (a + 2 ^ 24 - VM_ARENA_BASEADDR) with (d + 2 ^ 24) by (unfold d; lia).
  assert (0 <= d < 2 ^ 64 - VM_ARENA_BASEADDR) as Hd by (unfold d; lia). clearbody d.
  unfold VM_ARENA_BASEADDR in *. unfold wrap_ptrdiff. destruct (Z_lt_le_dec d (2 ^ 63 - 2 ^ 24)) as [Hlow|Hhigh].
  - rewrite !(Z.mod_small (_ + 2 ^ 63)) by lia. rewrite !Z.add_simpl_r, !Z.quot_div_nonneg by (unfold VM_PAGESIZE; lia).
    replace (d + 2 ^ 24) with (d + num_virt_addr * VM_PAGESIZE) by done. rewrite Z.div_add by done.
    intros Hi. rewrite index_shift by done. pose proof (Z.mod_pos_bound (d / VM_PAGESIZE) (2 ^ 32) ltac:(lia)). unfold wrap32. lia.
  - destruct (Z_lt_le_dec d (2 ^ 63)) as [Hmid|Htop].
    + rewrite (Z.mod_small (d + 2 ^ 63)) by lia. rewrite Z.add_simpl_r, Z.quot_div_nonneg by (unfold VM_PAGESIZE; lia).
      intros Hi. exfalso. unfold wrap32 in Hi. change num_virt_addr with 256 in Hi. unfold VM_PAGESIZE in Hi.
      assert (2 ^ 47 - 256 <= d / 0x10000 < 2 ^ 47) as Hq
        by (split; [apply Z.div_le_lower_bound|apply Z.div_lt_upper_bound]; lia).
      replace (d / 0x10000) with (d / 0x10000 - (2 ^ 47 - 2 ^ 32) + (2 ^ 15 - 1) * 2 ^ 32) in Hi by lia.
      rewrite Z.mod_add, Z.mod_small in Hi by lia. lia.
    + assert (∀ x, 2 ^ 63 <= x < 2 ^ 64 → (x + 2 ^ 63) `mod` 2 ^ 64 - 2 ^ 63 = - (2 ^ 64 - x)) as Hneg.
      { intros x Hx. replace (x + 2 ^ 63) with (x - 2 ^ 63 + 1 * 2 ^ 64) by lia. rewrite Z.mod_add, Z.mod_small by lia. lia. }
      rewrite !Hneg by lia. rewrite !Z.quot_opp_l, !Z.quot_div_nonneg by (unfold VM_PAGESIZE; lia).
      intros Hi. replace (2 ^ 64 - d) with (2 ^ 64 - (d + 2 ^ 24) + num_virt_addr * VM_PAGESIZE) in Hi by (change (num_virt_addr * VM_PAGESIZE) with (2 ^ 24); lia).
      rewrite Z.div_add in Hi by done. set (m := (2 ^ 64 - (d + 2 ^ 24)) / VM_PAGESIZE) in *.
      replace (- m) with (- (m + num_virt_addr) + num_virt_addr) by lia. rewrite index_shift by done.
      pose proof (Z.mod_pos_bound (- (m + num_virt_addr)) (2 ^ 32) ltac:(lia)). unfold wrap32. lia.
Qed.

Lemma arena_end s p a n f : VM_ARENA_BASEADDR <= a < 2 ^ 64 → chars_at s p a f → len f = 2 ^ 25 + n → 0 <= n → False.
Proof.
  intros Ha Hf Hl Hn.
  assert (∀ j, 0 <= j < len f → addr_to_index (a + j) < num_virt_addr) as Hin.
  { intros j Hj. destruct (lookup_lt_is_Some_2 f (Z.to_nat j)) as [c Hc]; [unfold len in Hj; lia|].
    destruct (Hf _ _ Hc) as [Hb _]. rewrite Z2Nat.id in Hb by lia. unfold byte_at in Hb.
    destruct (Z.leb_spec num_virt_addr (addr_to_index (a + j))); [done|lia]. }
  pose proof (Hin 0 ltac:(lia)) as Hfirst. rewrite Z.add_0_r in Hfirst.
  pose proof (Hin (2 ^ 24) ltac:(lia)). pose proof (arena_after a Ha Hfirst). lia.
Qed.
Lemma read_filename_str_ok p a i s :
  Inv ∅ s → current s p i → a < 2 ^ 64 →
  wp (read_filename_str a) (λ x s', read_only s s' ∧
    match x with
    | Some f => VM_ARENA_BASEADDR <= a ∧ string_at s p a f
    | None => a < VM_ARENA_BASEADDR ∨ ∀ f, ¬ string_at s p a f
    end) s.
Proof.
  intros Hi [Hcur _ Hp] Ha. unfold read_filename_str. apply wp_bind, wp_get_state. rewrite Hcur.
  apply wp_bind. eapply wp_get_process; [done|]. destruct (Z.ltb_spec a VM_ARENA_BASEADDR) as [Hlt|Hge].
  { apply wp_ret. split; [done|by left]. }
  apply wp_bind. eapply wp_mono; [by eapply (read_filename_rounds_ok read_filename_fuel)|]. simpl.
  intros x s' [Hro Hx]. destruct x as [[a' acc']|[g|]].
  - destruct Hx as (f & _ & _ & Hl & Hf). exfalso. apply (arena_end s p a 0 f); try done; lia.
  - apply wp_ret. split; [done|]. destruct Hx as (f & -> & Hf). done.
  - apply wp_ret. split; [done|by right].
Qed.

(** ** [vm_map] *)

Lemma mapped_after s s1 p i bk s' : Inv ∅ s → read_only s s1 → mapped mem swp s1 p i bk s' → mapped mem swp s p i bk s'.
Proof.
  intros Hi (Hi1 & [Hv Hf] & Hp) [M1 M2 M3 M4 [M5 M5'] M6 M7]. split; try done.
  - intros r. by rewrite M2, Hv.
  - intros f n. by rewrite M3, Hf.
  - by rewrite M4, (pg_procs _ _ Hp).
  - by rewrite M5, M5', (pg_curr _ _ Hp), (pg_base _ _ Hp).
  - by rewrite M6, (pg_swap _ _ Hp).
  - intros Hc. apply M7. eapply (closed_same mem swp ∅ s); try done. by apply paging_processes.
Qed.

(** Why [vm_map] returns a null pointer, and what a new page shows. *)
Definition map_refused s (p : Z) (i : kernel_process_info) (filename : option Z) : Prop :=
  num_virt_addr <= next_invalid_page i ∨
  match filename with
  | None => free_swap_blocks s = []
  | Some a => a < VM_ARENA_BASEADDR ∨ ∀ f, ¬ string_at s p a f
  end.

Definition map_shows s (p : Z) (filename : option Z) (block : Z) (bk : backing) : Prop :=
  match filename with
  | None => bk = Private (Some zeroes) ∧ free_swap_blocks s ≠ []
  | Some a => ∃ f, VM_ARENA_BASEADDR <= a ∧ string_at s p a f ∧ bk = Shared f block
  end.

Definition map_result s (p : Z) (i : kernel_process_info) (filename : option Z) (block : Z) (a : option Z) s' : Prop :=
  match a with
  | None => map_refused s p i filename ∧ read_only s s'
  | Some a => next_invalid_page i < num_virt_addr ∧ a = index_to_addr (next_invalid_page i) ∧
      ∃ bk, map_shows s p filename block bk ∧ mapped mem swp s p i bk s'
  end.

Lemma vm_map_ok filename block p i s :
  Inv ∅ s → current s p i → (∀ a, filename = Some a → a < 2 ^ 64) →
  wp (vm_map filename block) (map_result s p i filename block) s.
Proof.
  intros Hi Hc Ha. pose proof Hc as [Hcur Hbase Hp]. unfold vm_map. apply wp_bind, wp_get_state. rewrite Hcur.
  apply wp_bind. eapply wp_get_process; [done|].
  destruct (Z.leb_spec num_virt_addr (next_invalid_page i)) as [Hfull|Hlt].
  { apply wp_ret. split; [by left|done]. }
  apply wp_bind. destruct filename as [a|].
  - specialize (Ha a eq_refl). apply wp_bind. eapply wp_mono; [by eapply read_filename_str_ok|]. simpl.
    intros [f|] s1 [Hro Hx].
    2: { apply wp_ret, wp_ret. split; [by right|done]. }
    destruct Hx as [Hge Hstr]. pose proof Hro as (Hi1 & Hv1 & Hp1). pose proof (paging_current _ _ _ _ Hp1 Hc) as Hc1.
    apply wp_bind, wp_get_state, wp_bind.
    destruct (file_mapping_table s1 !! (f, block)) as [b|] eqn:Ht.
    + pose proof (update_file_block_ok mem swp f block b p i s1 Hmem Hi1 Hc1 Hlt Ht) as Hw.
      apply wp_bind_inv in Hw. eapply wp_mono; [exact Hw|]. simpl. intros [] s2 H2. apply wp_ret.
      eapply wp_mono; [exact H2|]. intros a' s' [-> Hm]. split; [done|]. split; [done|]. exists (Shared f block).
      split; [by exists f|by eapply mapped_after].
    + pose proof (map_file_block_ok mem swp f block p i s1 Hi1 Hc1 Hlt Ht) as Hw.
      apply wp_bind_inv in Hw. eapply wp_mono; [exact Hw|]. simpl. intros [] s2 H2. apply wp_ret.
      eapply wp_mono; [exact H2|]. intros a' s' [-> Hm]. split; [done|]. split; [done|]. exists (Shared f block).
      split; [by exists f|by eapply mapped_after].
  - destruct (free_swap_blocks s) as [|n fs] eqn:Hf.
    { apply wp_ret, wp_ret. split; [by right|done]. }
    pose proof (map_swap_block_ok mem swp p i n fs s Hi Hc Hlt Hf) as Hw.
    apply wp_bind. apply wp_bind_inv in Hw.
    eapply wp_mono; [exact Hw|]. simpl. intros [] s2 H2. apply wp_ret.
    eapply wp_mono; [exact H2|]. intros a' s' [-> Hm]. split; [done|]. split; [done|]. exists (Private (Some zeroes)).
    split; [|done]. simpl. by rewrite Hf.
Qed.
End strings.
