(* ===== verification/PagerFork.v ===== *)
(** * The pager: [vm_create]

    A child gets the arena of its parent, page by page; private pages share
    their block, and a swap block is reserved for each. *)
From S2P Require Import Prelude Pager PagerInv PagerCow PagerFault PagerMap.

Local Open Scope Z_scope.

Section fork.
Context `{HF : Files, HO : SetOrder, !FilesSpec, !SetOrderSpec}.
Context (mem swp : Z) (Hmem : mem <= 2 ^ 16).
Implicit Types s : pager.
Implicit Types k : mem_block.
Implicit Types r : pte_ptr.

Abbreviation Inv h s := (pager_inv mem swp h s).

(** ** New processes *)

Lemma lookup_delete_all {A} (p : Z) (l : list Z) (m : gmap pte_ptr A) r :
  foldr (λ v, delete (p, v)) m l !! r = if decide (r.1 = p ∧ r.2 ∈ l) then None else m !! r.
Proof.
  destruct r as [q v]. simpl. induction l as [|v' l IH]; simpl.
  - rewrite decide_False by (intros [_ Hv]; by apply not_elem_of_nil in Hv). done.
  - destruct (decide ((p, v') = (q, v))) as [[= -> ->]|Hne].
    + rewrite lookup_delete_eq, decide_True; [done|]. split; [done|by left].
    + rewrite lookup_delete_ne, IH by done. apply decide_ext. rewrite elem_of_cons. naive_solver congruence.
Qed.

Lemma lookup_fill_all (p : Z) (l : list Z) (m : gmap pte_ptr page_table_entry_t) r :
  foldr (λ v, <[(p, v) := default_entry]>) m l !! r = if decide (r.1 = p ∧ r.2 ∈ l) then Some default_entry else m !! r.
Proof.
  destruct r as [q v]. simpl. induction l as [|v' l IH]; simpl.
  - rewrite decide_False by (intros [_ Hv]; by apply not_elem_of_nil in Hv). done.
  - destruct (decide ((p, v') = (q, v))) as [[= -> ->]|Hne].
    + rewrite lookup_insert_eq, decide_True; [done|]. split; [done|by left].
    + rewrite lookup_insert_ne, IH by done. apply decide_ext. rewrite elem_of_cons. naive_solver congruence.
Qed.

Lemma lookup_fill (p : Z) m r :
  fill_page_table p m !! r = if decide (r.1 = p ∧ 0 <= r.2 < num_virt_addr) then Some default_entry else m !! r.
Proof. unfold fill_page_table. rewrite lookup_fill_all. apply decide_ext. rewrite elem_of_seqZ. lia. Qed.

Lemma lookup_drop {A} (p : Z) (m : gmap pte_ptr A) r :
  drop_array p m !! r = if decide (r.1 = p ∧ 0 <= r.2 < num_virt_addr) then None else m !! r.
Proof. unfold drop_array. rewrite lookup_delete_all. apply decide_ext. rewrite elem_of_seqZ. lia. Qed.

Lemma drop_unused {A} (p : Z) (m : gmap pte_ptr A) : (∀ v, m !! (p, v) = None) → drop_array p m = m.
Proof.
  intros Hm. apply map_eq. intros [q v]. rewrite lookup_drop. simpl. case_decide as Hd; [|done].
  destruct Hd as [-> _]. by rewrite Hm.
Qed.

#[local] Opaque fill_page_table drop_array.

Lemma no_process_infos s p v : Inv ∅ s → process_info_mp s !! p = None → infos s !! (p, v) = None.
Proof.
  intros Hi Hp. apply eq_None_not_Some. intros [x Hx]. destruct (pi_infos _ _ _ _ Hi _ _ Hx) as (b & i & _ & _ & Hpi & _).
  simpl in Hpi. congruence.
Qed.

Definition created s (p garbage : Z) : pager :=
  set_entries (fill_page_table p) (set_infos (drop_array p) (set_procs (insert p (new_process garbage)) s)).

Lemma created_ok s p garbage :
  Inv ∅ s → process_info_mp s !! p = None → Inv ∅ (created s p garbage) ∧ infos (created s p garbage) = infos s.
Proof.
  intros Hi Hp.
  assert (infos (created s p garbage) = infos s) as Hinf by (apply drop_unused; intros v; by apply no_process_infos).
  split; [|done]. pose proof Hi as [(k0 & Hk0 & [Z1 Z2 Z3 Z4 Z5 Z6]) Hb Hsl Hdj Hfs Hnx Hc Hfr Hfm Haf Htb Hin Har Hen Hpt Hhd].
  assert (∀ b, users (created s p garbage) b = users s b) as Hu by (intros b; by apply users_same).
  split; try done.
  - exists k0. split; [done|]. by split; rewrite ?Hu.
  - intros b k Hnz Hk. destruct (Hb b k Hnz Hk) as [H1 H1' H2 H3 H4 H5 H6 H7 H8 H9]. by split; rewrite ?Hu.
  - rewrite Hinf. intros r x Hx. destruct (Hin r x Hx) as (b & i & -> & Hbs & Hpi & Hv). exists b, i. split; [done|].
    split; [done|]. simpl. destruct (decide (r.1 = p)) as [He|?]; [rewrite He in Hpi; congruence|]. by rewrite lookup_insert_ne.
  - intros q i. simpl. destruct (decide (q = p)) as [->|?]; [rewrite lookup_insert_eq|rewrite lookup_insert_ne by done; apply Har].
    intros [= <-]. by split.
  - intros q v Hq Hv. simpl in *. rewrite lookup_fill. simpl. case_decide as Hd; [by eexists|]. apply Hen; [|done].
    apply lookup_insert_is_Some in Hq as [Hq|[_ Hq]]; [|done]. by destruct Hd.
  - intros r b k e. rewrite Hu. intros Hr Hh Hk. simpl. rewrite lookup_fill. case_decide as Hd; [|by apply Hpt].
    apply elem_of_users in Hr. destruct r as [q v]. destruct Hd as [Hd _]. simpl in Hd. subst q. by rewrite no_process_infos in Hr.
Qed.

(** ** Copying a page *)

(** The child while its pages are being copied: [n] of them are there. *)
Definition ghost (p n : Z) s : pager := set_procs (alter (set_next_invalid n) p) s.

Lemma ghost_view p n s r : view (ghost p n s) r = view s r.
Proof. done. Qed.

(** The entries after page [r] has joined block [b], [e] an entry of another page. *)
Definition copied_entries s (b : Z) k r (e : page_table_entry_t) : gmap pte_ptr page_table_entry_t :=
  let m := <[r := Pte (trunc30 (ppage e)) (read_enable e) (negb (is_swap k) && write_enable e)]> (entries s) in
  if is_swap k && bool_decide (b ≠ zero_page) then alter_all (set_write false) ({[r]} ∪ ptes k) m else m.

Lemma copy_virtual_page_eq parent child v ip ic b k e s (Q : () → pager → Prop) :
  process_info_mp s !! parent = Some ip → process_info_mp s !! child = Some ic → parent ≠ child →
  infos s !! (child, v) = None → infos s !! (parent, v) = Some (KernelPageInfo true (Some b)) →
  blocks s !! b = Some k → entries s !! (parent, v) = Some e → entries s !! (child, v) = Some default_entry →
  (∀ r, r ∈ ptes k → is_Some (entries s !! r)) → (is_swap k = true → free_swap_blocks s ≠ []) →
  Q () (join s (child, v) ic b (joined ({[(child, v)]} ∪ ptes k)
      (if is_swap k then swap_blocks k ++ take 1 (free_swap_blocks s) else swap_blocks k) k)
      (if is_swap k then tail (free_swap_blocks s) else free_swap_blocks s) (file_mapping_table s)
      (copied_entries s b k (child, v) e)) →
  wp (copy_virtual_page parent child v) Q s.
Proof.
  intros Hip Hic Hpc Hno Hinfo Hk He He0 Hpt Hfree HQ. set (r := (child, v)) in *.
  assert ((parent, v) ≠ r) as Hne by (unfold r; congruence).
  unfold copy_virtual_page. apply wp_bind. eapply wp_modify_page_info; [exact Hic|]. change (child, v) with r. apply wp_bind, wp_get_state.
  apply wp_bind. eapply wp_deref; [exact He|]. apply wp_bind, wp_modify_pte; [simpl; by rewrite He0|].
  apply wp_bind. eapply wp_get_page_info; [exact Hip|]. fold r.
  match goal with |- wp _ _ ?x => set (s1 := x) end.
  assert (info_of s1 (parent, v) = KernelPageInfo true (Some b)) as ->
    by (unfold info_of, s1; simpl; by rewrite lookup_insert_ne, Hinfo).
  apply wp_bind. eapply wp_deref; [done|]. apply wp_bind. eapply wp_modify_page_info; [exact Hic|]. fold r.
  apply wp_bind, wp_modify, wp_bind, wp_modify_pte; [simpl; by rewrite lookup_alter_eq, He0|]. fold r.
  set (k1 := set_ptes ({[r]} ∪ ptes k) k).
  match goal with |- wp _ _ ?x => set (s2 := x) end.
  assert (blocks s2 !! b = Some k1) as Hk1 by (unfold s2, s1; simpl; by rewrite lookup_alter_eq, Hk).
  assert (infos s2 = <[r := KernelPageInfo true (Some b)]> (infos s)) as Hinf2
    by (unfold s2, s1, info_of; simpl; by rewrite lookup_insert_eq, insert_insert_eq, Hno).
  set (m := <[r := Pte (trunc30 (ppage e)) (read_enable e) false]> (entries s)).
  assert (entries s2 = m) as Hm2.
  { unfold s2, s1. simpl. rewrite alter_twice. by rewrite (alter_insert _ _ _ default_entry). }
  assert (<[child := ic]> (process_info_mp s) = process_info_mp s) as Hid by by apply insert_id.
  assert (blocks s2 = <[b := k1]> (blocks s)) as Hb2 by (unfold s2, s1; simpl; by rewrite (alter_insert _ _ _ k)).
  apply wp_bind. eapply wp_get_block; [done|]. simpl is_swap. destruct (is_swap k) eqn:Hs.
  - specialize (Hfree eq_refl). destruct (free_swap_blocks s) as [|n fs] eqn:Hf; [done|].
    apply wp_bind, wp_get_state, wp_bind. eapply wp_deref; [unfold s2, s1; simpl; by rewrite Hf|].
    apply wp_bind, wp_modify, wp_bind, wp_modify. unfold copied_entries in HQ. rewrite Hs in HQ. cbn [negb andb] in HQ. fold m in HQ.
    set (k2 := joined ({[r]} ∪ ptes k) (swap_blocks k ++ [n]) k) in *.
    assert (∀ es, set_entries (λ _, es) (set_free_swap fs (set_blocks (alter (λ k, set_swap_blocks (swap_blocks k ++ [n]) k) b) s2)) =
      join s r ic b k2 fs (file_mapping_table s) es) as Heq.
    { intros es. apply pager_ext; try reflexivity; [by simpl; rewrite Hid| |exact Hinf2].
      simpl. rewrite alter_twice. by rewrite (alter_insert _ _ _ k). }
    destruct (decide (b = zero_page)) as [Hz|Hz].
    + rewrite bool_decide_eq_false_2 in HQ by tauto. rewrite bool_decide_eq_true_2 by done. apply wp_ret. rewrite <- Heq in HQ.
      match goal with |- Q _ ?x => match type of HQ with Q _ ?y => assert (x = y) as -> end end; [|done].
      apply pager_ext; try reflexivity; [|exact Hm2]. unfold s2, s1. simpl. by rewrite Hf.
    + rewrite bool_decide_eq_true_2 in HQ by done. rewrite bool_decide_eq_false_2 by done. eapply (wp_modify_ptes b _ k2).
      * simpl. by rewrite alter_twice, lookup_alter_eq, Hk.
      * intros r' Hr'. change (is_Some (entries s2 !! r')). rewrite Hm2. unfold m.
        destruct (decide (r' = r)) as [->|Hnr]; [rewrite lookup_insert_eq; by eexists|rewrite lookup_insert_ne by done].
        apply Hpt. clear -Hr' Hnr. simpl in Hr'. set_solver.
      * rewrite <- Heq in HQ. match goal with |- Q _ ?x => match type of HQ with Q _ ?y => assert (x = y) as -> end end; [|done].
        apply pager_ext; try reflexivity; [unfold s2, s1; simpl; by rewrite Hf|]. simpl. by rewrite <- Hm2.
  - apply wp_bind, wp_get_state, wp_bind.
    eapply wp_deref; [rewrite Hm2; unfold m; by rewrite lookup_insert_ne|].
    apply wp_modify_pte; [rewrite Hm2; unfold m; by rewrite lookup_insert_eq|]. fold r.
    unfold copied_entries in HQ. rewrite Hs in HQ. cbn [negb andb] in HQ.
    match goal with |- Q _ ?x => match type of HQ with Q _ ?y => assert (x = y) as -> end end; [|done].
    apply pager_ext; try reflexivity; [by simpl; rewrite Hid| |exact Hinf2|].
    + simpl. rewrite (alter_insert _ _ _ k) by done. reflexivity.
    + simpl. rewrite !alter_twice. by rewrite (alter_insert _ _ _ default_entry).
Qed.
Lemma ghost_proc p n s i : process_info_mp s !! p = Some i → process_info_mp (ghost p n s) !! p = Some (set_next_invalid n i).
Proof. intros Hp. simpl. by rewrite lookup_alter_eq, Hp. Qed.

Lemma copied_entry_ok s b k r r' e e0 :
  Inv ∅ s → blocks s !! b = Some k → r' ∈ users s b → entries s !! r' = Some e →
  e0 = Pte (trunc30 (ppage e)) (read_enable e) (negb (is_swap k) && write_enable e) →
  ∀ X slots, pte_ok b (joined X slots k) r e0.
Proof.
  intros Hi Hk Hr He -> X slots.
  destruct (pi_ptes _ _ _ _ Hi r' b k e Hr ltac:(clear; set_solver) Hk He) as [P1 P2 P3 P4].
  split; simpl; try done.
  - intros Hres. rewrite (P2 Hres). apply (trunc30_small mem); [done|].
    destruct (decide (b = zero_page)) as [->|Hnz].
    + destruct (pi_zero _ _ _ _ Hi) as (k0 & Hk0 & Hz). simplify_eq. destruct (zo_place _ _ _ Hz) as [-> _].
      pose proof (pi_all_frames _ _ _ _ Hi) as Hf. unfold len in Hf. lia.
    + pose proof (pi_block _ _ _ _ Hi b k Hnz Hk) as Hok. destruct (bo_frame _ _ _ _ _ Hok); [|lia].
      apply (bo_clock _ _ _ _ _ Hok). split; [done|]. left. clear -Hr. set_solver.
  - intros [Hs Hw]%andb_true_iff. destruct (P3 Hw) as (? & ? & _). do 2 (split; [done|]). intros Hs'.
    by rewrite Hs' in Hs.
Qed.

Lemma zero_not_writable s k r e : Inv ∅ s → blocks s !! zero_page = Some k → pte_ok zero_page k r e → write_enable e = false.
Proof.
  intros Hi Hk Hok. destruct (write_enable e) eqn:Hw; [|done]. destruct (po_write _ _ _ _ Hok Hw) as (_ & Hd & _).
  destruct (pi_zero _ _ _ _ Hi) as (k0 & Hk0 & Hz). simplify_eq. destruct (zo_flags _ _ _ Hz). congruence.
Qed.

(** All of it, for the ghost state. *)
Lemma copy_can_join s b k r r' e i i' :
  Inv ∅ s → process_info_mp s !! r.1 = Some i → r.2 = next_invalid_page i → next_invalid_page i' = r.2 + 1 →
  0 <= r.2 < num_virt_addr → blocks s !! b = Some k → r' ∈ users s b → entries s !! r' = Some e →
  (is_swap k = true → free_swap_blocks s ≠ []) →
  can_join s r i i' b k ({[r]} ∪ ptes k)
    (if is_swap k then swap_blocks k ++ take 1 (free_swap_blocks s) else swap_blocks k)
    (if is_swap k then tail (free_swap_blocks s) else free_swap_blocks s) (file_mapping_table s)
    (copied_entries s b k r e).
Proof.
  intros Hi Hp Hr2 Hi' Hrange Hk Hr' He Hfree. set (e0 := Pte (trunc30 (ppage e)) (read_enable e) (negb (is_swap k) && write_enable e)).
  assert (∀ q, copied_entries s b k r e !! q =
    (if is_swap k && bool_decide (b ≠ zero_page) && bool_decide (q ∈ {[r]} ∪ ptes k) then fmap (set_write false) else id)
      (<[r := e0]> (entries s) !! q)) as Hes.
  { intros q. unfold copied_entries. fold e0. destruct (is_swap k && _) eqn:Hc; simpl; [|done].
    rewrite lookup_alter_all. destruct (decide (q ∈ {[r]} ∪ ptes k)) as [Hq|Hq];
      [by rewrite (bool_decide_eq_true_2 _ Hq)|rewrite (bool_decide_eq_false_2 _ Hq)]. apply option_fmap_id. }
  assert (users s b ≠ ∅) as Hu by (clear -Hr'; set_solver).
  split; try done.
  - by left.
  - intros Hs. rewrite Hs. specialize (Hfree Hs). destruct (free_swap_blocks s) as [|n fs]; [done|].
    split; [by exists n|]. split; [by right|done].
  - intros Hs. rewrite Hs. do 2 (split; [done|]).
    assert (b ≠ zero_page) as Hnz.
    { intros ->. destruct (zero_block mem swp s Hi) as (k0 & Hk0 & Hs0 & _). congruence. }
    pose proof (proj2 (bo_table _ _ _ _ _ (pi_block _ _ _ _ Hi b k Hnz Hk) Hs) (or_introl Hu)) as Ht.
    split; [symmetry; by apply insert_id|by left].
  - assert (∀ (c : bool) x, is_Some x → is_Some ((if c then fmap (set_write false) else id) x)) as Hsome
      by (intros [] x [? ->]; by eexists).
    intros q Hq. rewrite Hes. apply Hsome. apply lookup_insert_is_Some'. by right.
  - intros q Hq Hne. rewrite Hes, lookup_insert_ne by done. rewrite (bool_decide_eq_false_2 (q ∈ _)); [by rewrite andb_false_r|].
    rewrite elem_of_union, elem_of_singleton. intros [?|Hqp]; [done|]. apply Hq. by apply (inv_ptes_users mem swp ∅ s b k).
  - intros q eq Hq Hqe. rewrite Hes in Hqe.
    assert (∃ e1, <[r := e0]> (entries s) !! q = Some e1 ∧ pte_ok b (joined ({[r]} ∪ ptes k)
      (if is_swap k then swap_blocks k ++ take 1 (free_swap_blocks s) else swap_blocks k) k) q
      (if is_swap k && bool_decide (b ≠ zero_page) then set_write false e1 else e1)) as (e1 & He1 & Hok).
    { destruct (decide (q = r)) as [->|Hne].
      - exists e0. rewrite lookup_insert_eq. split; [done|].
        pose proof (copied_entry_ok s b k r r' e e0 Hi Hk Hr' He eq_refl ({[r]} ∪ ptes k)
          (if is_swap k then swap_blocks k ++ take 1 (free_swap_blocks s) else swap_blocks k)) as [P1 P2 P3 P4].
        destruct (is_swap k && bool_decide (b ≠ zero_page)); by split.
      - destruct Hq as [Hq|?]; [|done]. rewrite lookup_insert_ne by done.
        destruct (inv_user_entry mem swp ∅ s b q Hi Hq) as [e1 He1]. exists e1. split; [done|].
        pose proof (pi_ptes _ _ _ _ Hi q b k e1 Hq ltac:(clear; set_solver) Hk He1) as Hpte. pose proof Hpte as [P1 P2 P3 P4].
        destruct (is_swap k) eqn:Hs; simpl.
        + destruct (decide (b = zero_page)) as [Hz|Hz];
            [rewrite bool_decide_eq_false_2 by tauto; subst b|by rewrite bool_decide_eq_true_2 by done; split].
          assert (write_enable e1 = false) as Hw by by eapply zero_not_writable. split; simpl; try done. congruence.
        + split; simpl; try done. intros Hw. destruct (P3 Hw) as (? & ? & _). do 2 (split; [done|]). congruence. }
    rewrite He1 in Hqe. destruct (is_swap k && bool_decide (b ≠ zero_page)) eqn:Hc; simpl in Hqe; [|by injection Hqe as <-].
    case_bool_decide as Hin; [by injection Hqe as <-|]. exfalso. apply Hin.
    apply andb_true_iff in Hc as [_ Hc%bool_decide_eq_true]. rewrite elem_of_union, elem_of_singleton.
    destruct Hq as [Hq|?]; [right|by left]. by apply (users_ptes mem swp s b k).
Qed.
(** ** Copying an arena *)

Definition shows_private s r : bool := match view s r with Some (Private _) => true | _ => false end.

(** How many of the pages in [l] the swap file backs. *)
Fixpoint swap_pages s (p : Z) (l : list Z) : Z :=
  match l with
  | [] => 0
  | v :: l => (if shows_private s (p, v) then 1 else 0) + swap_pages s p l
  end.

Lemma swap_pages_nonneg s p l : 0 <= swap_pages s p l.
Proof. induction l as [|v l IH]; simpl; [done|]. destruct (shows_private s (p, v)); lia. Qed.

Lemma swap_pages_ext s s' p l : (∀ v, v ∈ l → view s' (p, v) = view s (p, v)) → swap_pages s' p l = swap_pages s p l.
Proof.
  induction l as [|v l IH]; intros Hv; simpl; [done|]. unfold shows_private. rewrite Hv by by left.
  rewrite IH; [done|]. intros v' Hv'. apply Hv. by right.
Qed.

Lemma view_user s b k r : r ∈ users s b → blocks s !! b = Some k →
  view s r = Some (if is_swap k then Private (content s k) else Shared (filename k) (block_num k)).
Proof. intros Hr Hk. destruct (is_swap k) eqn:Hs; [by apply (view_private s b)|by apply (view_shared s b)]. Qed.

Lemma view_is_user h s r : Inv h s → is_Some (view s r) → ∃ b k, r ∈ users s b ∧ blocks s !! b = Some k.
Proof.
  intros Hi Hv. destruct (info_valid mem swp h s r Hi) as [[b Hr]|[_ Hn]]; [|rewrite Hn in Hv; by destruct Hv].
  destruct (inv_user_block mem swp h s b r Hi Hr) as [k Hk]. by exists b, k.
Qed.

Lemma ghost_same p n i s : process_info_mp s !! p = Some i → next_invalid_page i = n → ghost p n s = s.
Proof.
  intros Hp <-. apply pager_ext; try reflexivity. simpl. rewrite (alter_insert _ _ _ i) by done.
  apply insert_id. rewrite Hp. by destruct i.
Qed.

(** What copying some pages has done. *)
Record copied s (parent child v m : Z) (l : list Z) s' : Prop := {
  cp_inv : Inv ∅ s';
  cp_view r : view s' r = if decide (r.1 = child ∧ v <= r.2 < v + m) then view s (parent, r.2) else view s r;
  cp_files f n : file_content s' f n = file_content s f n;
  cp_procs : process_info_mp s' = process_info_mp s;
  cp_curr : curr_pid s' = curr_pid s ∧ page_table_base_register s' = page_table_base_register s;
  cp_swap : len (free_swap_blocks s') = len (free_swap_blocks s) - swap_pages s parent l;
  cp_closed : closed s → closed s';
}.

Lemma copied_other s b k r e r' : Inv ∅ s → blocks s !! b = Some k → r' ≠ r → infos s !! r' = None →
  copied_entries s b k r e !! r' = entries s !! r'.
Proof.
  intros Hi Hk Hne Hno. unfold copied_entries. destruct (is_swap k && bool_decide (b ≠ zero_page)); [|by rewrite lookup_insert_ne].
  rewrite lookup_alter_all, decide_False, lookup_insert_ne; [by destruct (entries s !! r')|done|].
  rewrite elem_of_union, elem_of_singleton. intros [?|Hin]; [done|]. by apply (unmapped_ptes mem swp ∅ s b k r').
Qed.

(** One page. *)
Lemma copy_virtual_page_ok parent child v ip ic s :
  Inv ∅ (ghost child v s) → process_info_mp s !! parent = Some ip → process_info_mp s !! child = Some ic →
  parent ≠ child → 0 <= v < num_virt_addr → is_Some (view s (parent, v)) →
  (∀ v', v <= v' < num_virt_addr → entries s !! (child, v') = Some default_entry) →
  swap_pages s parent [v] <= len (free_swap_blocks s) →
  wp (copy_virtual_page parent child v) (λ _ s', Inv ∅ (ghost child (v + 1) s') ∧
    (∀ r, view s' r = if decide (r = (child, v)) then view s (parent, v) else view s r) ∧
    (∀ f n, file_content s' f n = file_content s f n) ∧ process_info_mp s' = process_info_mp s ∧
    curr_pid s' = curr_pid s ∧ page_table_base_register s' = page_table_base_register s ∧
    len (free_swap_blocks s') = len (free_swap_blocks s) - swap_pages s parent [v] ∧
    (∀ v', v + 1 <= v' < num_virt_addr → entries s' !! (child, v') = Some default_entry) ∧ (closed s → closed s')) s.
Proof.
  intros Hi Hip Hic Hpc Hv Hview Hent Hswap. set (g := ghost child v s) in *. set (r := (child, v)) in *.
  destruct (view_is_user ∅ g (parent, v) Hi Hview) as (b & k & Hr & Hk).
  destruct (inv_user_entry mem swp ∅ g b _ Hi Hr) as [e He].
  assert (process_info_mp g !! child = Some (set_next_invalid v ic)) as Hgic by exact (ghost_proc child v s ic Hic).
  assert (infos s !! (parent, v) = Some (KernelPageInfo true (Some b))) as Hinfo by by apply elem_of_users in Hr.
  assert (infos s !! r = None) as Hno.
  { exact (next_unused mem swp g child _ Hi Hgic). }
  assert (view s (parent, v) = Some (if is_swap k then Private (content s k) else Shared (filename k) (block_num k))) as Hvp
    by exact (view_user g b k (parent, v) Hr Hk).
  assert (swap_pages s parent [v] = if is_swap k then 1 else 0) as Hsw
    by (simpl; unfold shows_private; rewrite Hvp; by destruct (is_swap k)).
  assert (is_swap k = true → free_swap_blocks s ≠ []) as Hfree.
  { intros Hs Hf. rewrite Hsw, Hs, Hf in Hswap. unfold len in Hswap. simpl in Hswap. lia. }
  assert (∀ v', v <= v' → (child, v') ∉ ptes k) as Hnp.
  { intros v' Hv' Hin. apply (inv_ptes_users mem swp ∅ g b k) in Hin as Hin%elem_of_users; [|done|done].
    destruct (pi_infos _ _ _ _ Hi _ _ Hin) as (_ & i & _ & _ & Hpi & Hlt). simpl in Hlt. simpl fst in Hpi.
    rewrite Hgic in Hpi. injection Hpi as <-. simpl in Hlt. lia. }
  eapply (copy_virtual_page_eq parent child v ip ic b k e s); try done.
  { apply Hent. lia. }
  { intros r' Hr'. exact (inv_ptes_entry mem swp ∅ g b k r' Hi Hk Hr'). }
  assert (can_join g r (set_next_invalid v ic) (set_next_invalid (v + 1) ic) b k ({[r]} ∪ ptes k)
    (if is_swap k then swap_blocks k ++ take 1 (free_swap_blocks s) else swap_blocks k)
    (if is_swap k then tail (free_swap_blocks s) else free_swap_blocks s) (file_mapping_table s)
    (copied_entries s b k r e)) as Hj by exact (copy_can_join g b k r (parent, v) e _ (set_next_invalid (v + 1) ic) Hi Hgic eq_refl eq_refl Hv Hk Hr He Hfree).
  fold r. set (k' := joined _ _ k). set (s' := join s r ic b k' _ _ _).
  assert (ghost child (v + 1) s' = join g r (set_next_invalid (v + 1) ic) b k'
    (if is_swap k then tail (free_swap_blocks s) else free_swap_blocks s) (file_mapping_table s) (copied_entries s b k r e)) as Hg.
  { apply pager_ext; try reflexivity. simpl. apply map_eq. intros p. destruct (decide (p = child)) as [->|?].
    - by rewrite lookup_alter_eq, !lookup_insert_eq.
    - by rewrite lookup_alter_ne, !lookup_insert_ne, lookup_alter_ne. }
  split; [rewrite Hg; by eapply join_inv|].
  split.
  { intros r'. change (view s' r') with (view (ghost child (v + 1) s') r').
    rewrite Hg, (join_view mem swp g r _ _ b k _ _ _ _ _ Hi Hj). by rewrite Hvp. }
  split.
  { intros f n. change (file_content s' f n) with (file_content (ghost child (v + 1) s') f n).
    rewrite Hg. exact (join_files mem swp g r _ _ b k _ _ _ _ _ Hi Hj f n). }
  split; [by apply insert_id|]. do 2 (split; [done|]). split.
  - rewrite Hsw. unfold s'. simpl. destruct (is_swap k); [|lia]. specialize (Hfree eq_refl).
    destruct (free_swap_blocks s) as [|n fs]; [done|]. unfold len. simpl. lia.
  - split.
    2: { intros Hcl. apply (join_closed s r ic b k); [|done]. intros r' Hne' Hno'. by apply (copied_other g b k r e r'). }
    intros v' Hv'. change (copied_entries s b k r e !! (child, v') = Some default_entry).
    assert ((child, v') ≠ r) as Hne by (intros [= ->]; lia).
    unfold copied_entries. destruct (is_swap k && _); [|rewrite lookup_insert_ne by done; apply Hent; lia].
    rewrite lookup_alter_all, decide_False, lookup_insert_ne, Hent by (done || lia || (
      rewrite elem_of_union, elem_of_singleton; intros [?|?]; [done|]; apply (Hnp v'); [lia|done])). done.
Qed.

Lemma copy_virtual_pages_ok parent child l ip ic v m s :
  l = seqZ v m → 0 <= v → 0 <= m → v + m <= num_virt_addr → next_invalid_page ic = v + m →
  Inv ∅ (ghost child v s) → process_info_mp s !! parent = Some ip → process_info_mp s !! child = Some ic →
  parent ≠ child → (∀ v', v <= v' < v + m → is_Some (view s (parent, v'))) →
  (∀ v', v <= v' < num_virt_addr → entries s !! (child, v') = Some default_entry) →
  swap_pages s parent l <= len (free_swap_blocks s) →
  wp (copy_virtual_pages parent child l) (λ _, copied s parent child v m l) s.
Proof.
  revert v m s; induction l as [|v0 l IH]; intros v m s Hl Hv Hm Hvm Hnext Hi Hip Hic Hpc Hview Hent Hswap.
  - assert (m = 0) as -> by (apply (f_equal length) in Hl; rewrite length_seqZ in Hl; simpl in Hl; lia).
    apply wp_ret. rewrite (ghost_same child v ic) in Hi by (done || lia). split; try done.
    + intros r. by rewrite decide_False by lia.
    + simpl. lia.
  - assert (0 < m) as Hm0 by (apply (f_equal length) in Hl; rewrite length_seqZ in Hl; simpl in Hl; lia).
    rewrite seqZ_cons in Hl by lia. injection Hl as -> Hl. simpl copy_virtual_pages.
    simpl in Hswap. pose proof (swap_pages_nonneg s parent l) as Hnn.
    apply wp_bind. eapply wp_mono; [eapply (copy_virtual_page_ok parent child v ip ic s); try done|].
    { lia. } { apply Hview. lia. } { simpl. lia. }
    simpl. intros [] s1 (Hi1 & Hv1 & Hf1 & Hp1 & Hc1 & Hb1 & Hs1 & He1 & Hcl1).
    assert (∀ v', view s1 (parent, v') = view s (parent, v')) as Hvp by (intros v'; rewrite Hv1, decide_False by congruence; done).
    assert (swap_pages s1 parent l = swap_pages s parent l) as Hsl by (apply swap_pages_ext; intros; apply Hvp).
    eapply wp_mono; [eapply (IH (v + 1) (m - 1) s1)|]; try done; try lia.
    { by rewrite Hp1. } { by rewrite Hp1. } { intros v' Hv'. rewrite Hvp. apply Hview. lia. }
    simpl. intros [] s2 [C1 C2 C3 C4 [C5 C5'] C6 C7]. split; try done.
    + intros r. rewrite C2. destruct (decide (r.1 = child ∧ v + 1 <= r.2 < v + 1 + (m - 1))) as [Hin|Hout].
      * rewrite decide_True by lia. apply Hvp.
      * rewrite Hv1. destruct r as [p v']. simpl in *. destruct (decide ((p, v') = (child, v))) as [[= -> ->]|Hne].
        -- by rewrite decide_True by lia.
        -- rewrite decide_False; [done|]. intros [-> ?]. apply Hout. split; [done|]. assert (v' ≠ v) by congruence. lia.
    + intros f n. by rewrite C3, Hf1.
    + by rewrite C4.
    + by rewrite C5, C5', Hc1, Hb1.
    + simpl. lia.
    + intros Hcl. by apply C7, Hcl1.
Qed.
(** ** [vm_create] *)

(** The arena of a process is what it should be, and its count of swap blocks is right
    but for what was in the memory of the count when the process, or the one it was forked
    from, was created: that is at most [slack]. *)
Record arena_ok (slack : Z) s (p : Z) (i : kernel_process_info) : Prop := {
  ar_pages v : 0 <= v < next_invalid_page i → is_Some (view s (p, v));
  ar_swap : 0 <= num_swap_blocks i - swap_pages s p (seqZ 0 (next_invalid_page i)) <= slack;
}.

Record forked s (garbage parent child : Z) (ok : bool) s' : Prop := {
  fk_inv : Inv ∅ s';
  fk_files f n : file_content s' f n = file_content s f n;
  fk_curr : curr_pid s' = curr_pid s ∧ page_table_base_register s' = page_table_base_register s;
  fk_others r : r.1 ≠ child → view s' r = view s r;
  fk_closed : closed s → closed s';
  fk_child : match process_info_mp s !! parent with
    | Some i =>
        let n := swap_pages s parent (seqZ 0 (next_invalid_page i)) in
        ok = (num_swap_blocks i <=? len (free_swap_blocks s)) ∧
        if ok then
          process_info_mp s' = <[child := i]> (process_info_mp s) ∧
          (∀ v, view s' (child, v) = view s (parent, v)) ∧
          len (free_swap_blocks s') = len (free_swap_blocks s) - n
        else
          process_info_mp s' = <[child := new_process garbage]> (process_info_mp s) ∧
          (∀ v, view s' (child, v) = None) ∧ free_swap_blocks s' = free_swap_blocks s
    | None =>
        ok = true ∧ process_info_mp s' = <[child := new_process garbage]> (process_info_mp s) ∧
        (∀ v, view s' (child, v) = None) ∧ free_swap_blocks s' = free_swap_blocks s
    end;
}.

Lemma created_view s p garbage r : Inv ∅ s → process_info_mp s !! p = None →
  view (created s p garbage) r = view s r ∧ (r.1 = p → view s r = None).
Proof.
  intros Hi Hp. split.
  - unfold view. rewrite (proj2 (created_ok s p garbage Hi Hp)). done.
  - destruct r as [q v]. simpl. intros ->. unfold view. by rewrite no_process_infos.
Qed.

Lemma view_bound s p i v : Inv ∅ s → process_info_mp s !! p = Some i → is_Some (view s (p, v)) → 0 <= v < next_invalid_page i.
Proof.
  intros Hi Hp Hv. destruct (view_is_user ∅ s (p, v) Hi Hv) as (b & k & Hr%elem_of_users & _).
  destruct (pi_infos _ _ _ _ Hi _ _ Hr) as (_ & j & _ & _ & Hj & Hlt). simpl in *. by simplify_eq.
Qed.

Lemma vm_create_ok garbage slack parent child s :
  Inv ∅ s → process_info_mp s !! child = None →
  (∀ i, process_info_mp s !! parent = Some i → arena_ok slack s parent i) →
  parent ≠ child → wp (vm_create garbage parent child) (forked s garbage parent child) s.
Proof.
  intros Hi Hchild Hparent Hpc. unfold vm_create. apply wp_bind, wp_modify, wp_bind, wp_modify, wp_bind, wp_modify.
  apply wp_bind, wp_get_state. fold (created s child garbage). set (s0 := created s child garbage).
  destruct (created_ok s child garbage Hi Hchild) as [Hi0 Hinf0]. fold s0 in Hi0, Hinf0.
  assert (∀ r, view s0 r = view s r) as Hv0 by (intros r; by apply created_view).
  assert (∀ v, view s (child, v) = None) as Hnone by (intros v; by apply (created_view s child garbage (child, v))).
  assert (process_info_mp s0 !! parent = process_info_mp s !! parent) as Hpar by by (simpl; rewrite lookup_insert_ne).
  assert (closed s → closed s0) as Hcl0.
  { intros Hcl r e He Hno. rewrite Hinf0 in Hno. change (fill_page_table child (entries s) !! r = Some e) in He.
    rewrite lookup_fill in He. case_decide; [by injection He as <-|by apply (Hcl r)]. }
  rewrite Hpar. destruct (process_info_mp s !! parent) as [i|] eqn:Hp.
  2: { apply wp_ret. split; try done. rewrite Hp. do 2 (split; [done|]).
       split; [intros v; by rewrite Hv0|done]. }
  destruct (Hparent i eq_refl) as [Hpages Hswap]. set (n := next_invalid_page i) in *.
  change (free_swap_blocks s0) with (free_swap_blocks s). fold (len (free_swap_blocks s)).
  destruct (Z.ltb_spec (len (free_swap_blocks s)) (num_swap_blocks i)) as [Hlt|Hge].
  { apply wp_ret. split; try done. rewrite Hp. fold n. split; [lia|]. split; [done|].
    split; [intros v; by rewrite Hv0|done]. }
  apply wp_bind, wp_modify, wp_bind, wp_modify.
  match goal with |- wp _ _ ?x => set (s1 := x) end.
  assert (process_info_mp s1 = <[child := i]> (process_info_mp s)) as Hp1.
  { unfold s1. simpl. rewrite alter_twice. rewrite (alter_insert _ _ _ (new_process garbage)) by apply lookup_insert_eq.
    rewrite insert_insert_eq. unfold set_next_invalid, set_num_swap. simpl. by destruct i. }
  assert (ghost child 0 s1 = set_procs (λ _, <[child := KernelProcessInfo 0 (num_swap_blocks i)]> (process_info_mp s)) s0) as Hg.
  { apply pager_ext; try reflexivity. simpl. rewrite !alter_twice.
    rewrite (alter_insert _ _ _ (new_process garbage)) by apply lookup_insert_eq. rewrite insert_insert_eq.
    reflexivity. }
  assert (Inv ∅ (ghost child 0 s1)) as Hi1.
  { rewrite Hg. exact (proj1 (created_ok s child (num_swap_blocks i) Hi Hchild)). }
  pose proof (pi_arena _ _ _ _ Hi parent i Hp) as Har. fold n in Har.
  assert (∀ l, swap_pages s1 parent l = swap_pages s parent l) as Hsp by (intros l; apply swap_pages_ext; intros; apply Hv0).
  apply wp_bind. eapply wp_mono; [eapply (copy_virtual_pages_ok parent child (seqZ 0 n) i i 0 n s1)|]; try done; try lia.
  { by rewrite Hp1, lookup_insert_ne. } { rewrite Hp1. apply lookup_insert_eq. }
  { intros v' Hv'. change (is_Some (view s0 (parent, v'))). rewrite Hv0. by apply Hpages. }
  { intros v' Hv'. change (fill_page_table child (entries s) !! (child, v') = Some default_entry).
    by rewrite lookup_fill, decide_True. }
  { rewrite Hsp. change (swap_pages s parent (seqZ 0 n) <= len (free_swap_blocks s)). lia. }
  simpl. intros [] s' [C1 C2 C3 C4 C5 C6 C7]. apply wp_ret. split; try done.
  - intros r Hr. rewrite C2, decide_False by tauto. apply Hv0.
  - intros Hcl. apply C7. exact (Hcl0 Hcl).
  - rewrite Hp. fold n. split; [symmetry; by apply Z.leb_le|]. split; [by rewrite C4|]. split.
    + intros v. rewrite C2. simpl. case_decide as Hd; [apply Hv0|].
      change (view s0 (child, v) = view s (parent, v)). rewrite Hv0, Hnone. symmetry. apply eq_None_not_Some. intros Hv.
      apply Hd. split; [done|]. by apply (view_bound s parent i v).
    + rewrite C6, Hsp. done.
Qed.
End fork.
