(* ===== verification/PagerExit.v ===== *)
(** * The pager: [vm_destroy]

    A process leaves: each of its pages leaves its block, the swap blocks that
    were reserved for them and the physical pages that only they used are free
    again, and nobody else notices. *)
From S2P Require Import Prelude Pager PagerInv PagerCow PagerFault PagerMap PagerFork.

Local Open Scope Z_scope.

Section exit.
Context `{HF : Files, HO : SetOrder}.
Context (mem swp : Z).
Implicit Types s : pager.
Implicit Types k : mem_block.
Implicit Types r : pte_ptr.

Abbreviation Inv h s := (pager_inv mem swp h s).

(** ** A page leaves a block *)

Definition leave s r (b : Z) (k' : mem_block) (fs fm cq : list Z) (tb : gmap (bytes * Z) Z)
    (es : gmap pte_ptr page_table_entry_t) : pager :=
  set_infos (delete r) (set_entries (λ _, es) (set_free_swap fs (set_free_mem fm (set_clock cq
    (set_file_table (λ _, tb) (set_blocks (insert b k') s)))))).

(** The block has no page left and is in memory for nobody. *)
Definition useless (b : Z) k r : bool :=
  is_swap k && resident k && bool_decide (b ≠ zero_page) && bool_decide (ptes k ∖ {[r]} = ∅).

Record can_leave s r (b : Z) k (slots fs fm cq : list Z) (tb : gmap (bytes * Z) Z)
    (es : gmap pte_ptr page_table_entry_t) : Prop := {
  cl_user : r ∈ users s b;
  cl_block : blocks s !! b = Some k;
  cl_swap : is_swap k = true → tb = file_mapping_table s ∧
    ∃ back, last (swap_blocks k) = Some back ∧ slots = removelast (swap_blocks k) ∧ fs = free_swap_blocks s ++ [back];
  cl_file : is_swap k = false → slots = swap_blocks k ∧ fs = free_swap_blocks s ∧
    tb = if bool_decide (ptes k ∖ {[r]} = ∅) && negb (resident k)
         then delete (file_key k) (file_mapping_table s) else file_mapping_table s;
  cl_frames : if useless b k r then fm = free_mem_blocks s ++ [location k] ∧ cq = filter (λ b', b' ≠ b) (clock_queue s)
    else fm = free_mem_blocks s ∧ cq = clock_queue s;
  cl_some r' : is_Some (es !! r') ↔ is_Some (entries s !! r');
  cl_other r' : r' ∉ users s b → es !! r' = entries s !! r';
  cl_ok r' e : r' ∈ users s b → r' ≠ r → es !! r' = Some e → pte_ok b (joined (ptes k ∖ {[r]}) slots k) r' e;
}.

Section leave.
Context (s : pager) (r : pte_ptr) (b : Z) (k : mem_block) (slots fs fm cq : list Z) (tb : gmap (bytes * Z) Z)
  (es : gmap pte_ptr page_table_entry_t).
Context (Hi : Inv ∅ s) (Hl : can_leave s r b k slots fs fm cq tb es).

Abbreviation k' := (joined (ptes k ∖ {[r]}) slots k).
Abbreviation s' := (leave s r b k' fs fm cq tb es).

Lemma leave_users b' : users s' b' = users s b' ∖ {[r]}.
Proof.
  apply set_eq. intros r'. rewrite elem_of_difference, !elem_of_users, elem_of_singleton. simpl.
  destruct (decide (r' = r)) as [->|Hne]; [rewrite lookup_delete_eq; naive_solver|rewrite lookup_delete_ne by done; naive_solver].
Qed.

Lemma leave_users_ne b' : b' ≠ b → users s' b' = users s b'.
Proof.
  intros Hne. rewrite leave_users. assert (r ∉ users s b') as Hn.
  { intros Hr. apply Hne. apply (users_unique s b' b r); [done|]. by apply (cl_user _ _ _ _ _ _ _ _ _ _ Hl). }
  clear -Hn. set_solver.
Qed.

Lemma leave_is_Some b' : is_Some (blocks s' !! b') ↔ is_Some (blocks s !! b').
Proof. exact (insert_same_is_Some _ b k k' b' (cl_block _ _ _ _ _ _ _ _ _ _ Hl)). Qed.

Lemma leave_block b' j : blocks s' !! b' = Some j → (b' = b ∧ j = k') ∨ (b' ≠ b ∧ blocks s !! b' = Some j).
Proof.
  simpl. destruct (decide (b' = b)) as [->|Hne].
  - rewrite lookup_insert_eq. intros [= <-]. by left.
  - rewrite lookup_insert_ne by done. by right.
Qed.

Lemma leave_ok : b ≠ zero_page → block_ok mem ∅ s b k.
Proof. intros Hnz. exact (pi_block _ _ _ _ Hi b k Hnz (cl_block _ _ _ _ _ _ _ _ _ _ Hl)). Qed.

Lemma leave_size : size (users s b ∖ {[r]}) = (size (users s b) - 1)%nat.
Proof.
  pose proof (cl_user _ _ _ _ _ _ _ _ _ _ Hl) as Hu.
  rewrite size_difference by (clear -Hu; set_solver). by rewrite (size_singleton (C := gset pte_ptr)).
Qed.

Lemma leave_slots_len : is_swap k = true → length (swap_blocks k) = S (length slots).
Proof.
  intros Hs. destruct (cl_swap _ _ _ _ _ _ _ _ _ _ Hl Hs) as (_ & back & Hb & Hsl & _). rewrite Hsl.
  rewrite (slots_split k back Hb) at 1. rewrite length_app. simpl. lia.
Qed.

(** A block that still has a page keeps its home. *)
Lemma leave_home : b ≠ zero_page → users s b ∖ {[r]} ≠ ∅ ∨ is_swap k = false → home k' = home k.
Proof.
  intros Hnz Hu. unfold home. simpl. destruct (is_swap k) eqn:Hs; [|done].
  destruct Hu as [Hu|?]; [|done]. pose proof (leave_ok Hnz) as Hok. pose proof (bo_swap _ _ _ _ _ Hok Hs) as Hlen.
  pose proof (leave_slots_len Hs) as Hsl. pose proof leave_size as Hsz.
  assert (size (users s b ∖ {[r]}) ≠ 0%nat) as Hne by (intros He; by apply Hu, size_empty_iff_L in He || (apply Hu; apply leibniz_equiv; by apply size_empty_iff)).
  destruct (cl_swap _ _ _ _ _ _ _ _ _ _ Hl Hs) as (_ & back & Hb & Hslots & _).
  pose proof (slots_split k back Hb) as Hsplit. rewrite <- Hslots in Hsplit. rewrite Hsplit.
  destruct slots as [|x l]; [simpl in *; lia|done].
Qed.

Lemma useless_true : useless b k r = true → is_swap k = true ∧ resident k = true ∧ b ≠ zero_page ∧ ptes k ∖ {[r]} = ∅.
Proof.
  unfold useless. intros [[[Hs Hr]%andb_true_iff Hz%bool_decide_eq_true]%andb_true_iff Hp%bool_decide_eq_true]%andb_true_iff. done.
Qed.

Lemma leave_clock b' : b' ∈ cq ↔ b' ∈ clock_queue s ∧ (useless b k r = true → b' ≠ b).
Proof.
  pose proof (cl_frames _ _ _ _ _ _ _ _ _ _ Hl) as Hf. destruct (useless b k r).
  - destruct Hf as [_ Hcq]. rewrite Hcq, list_elem_of_filter. naive_solver.
  - destruct Hf as [_ Hcq]. rewrite Hcq. naive_solver.
Qed.

Lemma leave_ptes : b ≠ zero_page → ptes k = users s b.
Proof. intros Hnz. rewrite (bo_ptes _ _ _ _ _ (leave_ok Hnz)). clear. set_solver. Qed.

Lemma useless_iff : b ≠ zero_page → useless b k r = true ↔ is_swap k = true ∧ resident k = true ∧ users s b ∖ {[r]} = ∅.
Proof.
  intros Hnz. rewrite <- leave_ptes by done. split; [intros (? & ? & _ & ?)%useless_true; done|].
  intros (Hs & Hr & Hp). unfold useless. rewrite Hs, Hr, !bool_decide_eq_true_2 by done. done.
Qed.

Lemma leave_table_other b' j : b' ≠ b → block_ok mem ∅ s b' j → is_swap j = false →
  tb !! file_key j = Some b' ↔ file_mapping_table s !! file_key j = Some b'.
Proof.
  intros Hne Hok Hs'. destruct (is_swap k) eqn:Hs.
  - destruct (cl_swap _ _ _ _ _ _ _ _ _ _ Hl Hs) as (Htb & _). by rewrite Htb.
  - destruct (cl_file _ _ _ _ _ _ _ _ _ _ Hl Hs) as (_ & _ & Htb). rewrite Htb. destruct (_ && _); [|done].
    destruct (decide (file_key j = file_key k)) as [Heq|Hd]; [|by rewrite lookup_delete_ne].
    rewrite Heq, lookup_delete_eq. split; [done|]. intros Ht.
    assert (b ≠ zero_page) as Hnz.
    { intros Hz. destruct (pi_zero _ _ _ _ Hi) as (k0 & Hk0 & Hzo). destruct (zo_flags _ _ _ Hzo) as (_ & _ & _ & ?).
      pose proof (cl_block _ _ _ _ _ _ _ _ _ _ Hl) as Hkb. rewrite Hz in Hkb. congruence. }
    pose proof (cl_user _ _ _ _ _ _ _ _ _ _ Hl) as Hu.
    assert (file_mapping_table s !! file_key k = Some b) as Htk; [|congruence].
    apply (bo_table _ _ _ _ _ (leave_ok Hnz) Hs). left. clear -Hu. set_solver.
Qed.

Lemma leave_free_mem b' j : b' ∈ cq → blocks s !! b' = Some j → location j ∉ free_mem_blocks s → location j ∉ fm.
Proof.
  intros Hc Hk Hnf. pose proof (cl_frames _ _ _ _ _ _ _ _ _ _ Hl) as Hf. apply leave_clock in Hc as [Hc Hne].
  destruct (useless b k r) eqn:Hu; [|by destruct Hf as [-> _]]. destruct Hf as [Hfm _]. rewrite Hfm.
  apply useless_true in Hu as (Hs & Hr & Hnz & Hp). rewrite elem_of_app, list_elem_of_singleton. intros [?|Heq]; [done|].
  apply (Hne eq_refl). apply (pi_frames _ _ _ _ Hi b' b j k); try done; [|by apply (cl_block _ _ _ _ _ _ _ _ _ _ Hl)].
  apply (bo_clock _ _ _ _ _ (leave_ok Hnz)). split; [done|]. left. pose proof (cl_user _ _ _ _ _ _ _ _ _ _ Hl) as Hu. clear -Hu. set_solver.
Qed.

Lemma leave_block_ok b' j : b' ≠ b → b' ≠ zero_page → blocks s !! b' = Some j → block_ok mem ∅ s' b' j.
Proof.
  intros Hne Hnz Hk. pose proof (pi_block _ _ _ _ Hi b' j Hnz Hk) as Hok. pose proof Hok as [H1 H1' H2 H3 H4 H5 H6 H7 H8 H9].
  assert (b' ∈ cq ↔ b' ∈ clock_queue s) as Hc by (rewrite leave_clock; naive_solver).
  split; rewrite ?(leave_users_ne b' Hne); try done.
  - change (clock_queue s') with cq. by rewrite Hc.
  - change (clock_queue s') with cq. intros Hcq. destruct (H7 (proj1 Hc Hcq)) as [? Hnf]. split; [done|].
    by apply (leave_free_mem b' j).
  - intros Hs. change (file_mapping_table s') with tb. change (filename j, block_num j) with (file_key j).
    rewrite leave_table_other by done. by apply H8.
  - change (clock_queue s') with cq. rewrite Hc. exact H9.
Qed.

Lemma leave_new_ok : b ≠ zero_page → block_ok mem ∅ s' b k'.
Proof.
  intros Hnz. pose proof (leave_ok Hnz) as Hok. pose proof Hok as [H1 H1' H2 H3 H4 H5 H6 H7 H8 H9].
  pose proof (cl_user _ _ _ _ _ _ _ _ _ _ Hl) as Hr. pose proof (cl_block _ _ _ _ _ _ _ _ _ _ Hl) as Hk.
  assert (users s b ≠ ∅) as Hus by (clear -Hr; set_solver).
  assert (b ∈ cq ↔ resident k = true ∧ (users s b ∖ {[r]} ≠ ∅ ∨ is_swap k = false)) as Hc.
  { rewrite leave_clock, H3, useless_iff by done. split.
    - intros [[Hres _] Hn]. split; [done|]. destruct (is_swap k); [left|by right]. intros He. by apply Hn.
    - intros [Hres Hor]. split; [auto|]. intros (Hs & _ & He) _. destruct Hor; congruence. }
  assert (users s b ∖ {[r]} ≠ ∅ ∨ is_swap k = false → data_ok s k → data_ok s' k') as Hd.
  { intros Hu. pose proof (leave_home Hnz Hu) as Hh. unfold data_ok. rewrite Hh. done. }
  split; rewrite ?leave_users; change (clock_queue s') with cq; try done.
  - simpl. rewrite H1. clear. set_solver.
  - intros Hs. rewrite leave_size. pose proof (leave_slots_len Hs). simpl. rewrite <- H4 by done. lia.
  - intros Hs. simpl in *. destruct (cl_file _ _ _ _ _ _ _ _ _ _ Hl Hs) as (Hsl & _). rewrite Hsl. by apply H5.
  - intros Hres Hu. rewrite leave_home by auto. by apply H6.
  - intros Hcq. pose proof (proj1 (leave_clock b) Hcq) as [Hcs _]. destruct (H7 Hcs). split; [done|]. by apply (leave_free_mem b k).
  - intros Hs. simpl in Hs. change (file_mapping_table s') with tb. change (filename k', block_num k') with (file_key k).
    destruct (cl_file _ _ _ _ _ _ _ _ _ _ Hl Hs) as (_ & _ & Htb). rewrite Htb, <- (leave_ptes Hnz). simpl.
    destruct (resident k) eqn:Hres; [rewrite andb_false_r|rewrite andb_true_r; simpl; case_bool_decide as Hp].
    + rewrite (H8 Hs). split; intros _; by right.
    + rewrite lookup_delete_eq. split; [done|]. by intros [?|?].
    + rewrite (H8 Hs). split; intros _; by left.
  - intros Hor. assert (b ∈ clock_queue s ∨ users s b ≠ ∅) as Hin by by right. specialize (H9 Hin).
    apply Hd; [|done]. destruct Hor as [Hcq|?]; [|by left]. by apply Hc.
Qed.
Lemma leave_slots b' j m : blocks s' !! b' = Some j → m ∈ swap_blocks j →
  (∃ j0, blocks s !! b' = Some j0 ∧ m ∈ swap_blocks j0) ∧ m ∉ fs.
Proof.
  intros Hkb Hm. pose proof (cl_block _ _ _ _ _ _ _ _ _ _ Hl) as Hk.
  assert (∃ j0, blocks s !! b' = Some j0 ∧ m ∈ swap_blocks j0) as (j0 & Hj0 & Hm0).
  { apply leave_block in Hkb as [[-> ->]|[_ Hkb]]; [|by exists j]. exists k. split; [done|]. simpl in Hm.
    destruct (is_swap k) eqn:Hs.
    - destruct (cl_swap _ _ _ _ _ _ _ _ _ _ Hl Hs) as (_ & back & Hb & Hsl & _). rewrite Hsl in Hm.
      rewrite (slots_split k back Hb). apply elem_of_app. by left.
    - destruct (cl_file _ _ _ _ _ _ _ _ _ _ Hl Hs) as (Hsl & _). by rewrite Hsl in Hm. }
  split; [by exists j0|]. destruct (proj2 (pi_slots _ _ _ _ Hi b' j0 Hj0) m Hm0) as [_ Hnf].
  destruct (is_swap k) eqn:Hs.
  - destruct (cl_swap _ _ _ _ _ _ _ _ _ _ Hl Hs) as (_ & back & Hb & Hsl & Hfs). rewrite Hfs, elem_of_app, list_elem_of_singleton.
    intros [?|Heq]; [done|]. assert (m ∈ swap_blocks k) as Hmk by (rewrite (slots_split k back Hb), elem_of_app, list_elem_of_singleton; by right).
    assert (b' = b) as Hbb by by apply (pi_disjoint _ _ _ _ Hi b' b j0 k m).
    apply leave_block in Hkb as [[_ ->]|[? _]]; [|done]. simpl in Hm. rewrite Hsl in Hm.
    destruct (pi_slots _ _ _ _ Hi b k Hk) as [Hnd _]. rewrite (slots_split k back Hb) in Hnd.
    apply NoDup_app in Hnd as (_ & Hd & _). apply (Hd m Hm). rewrite Heq. by apply list_elem_of_singleton.
  - destruct (cl_file _ _ _ _ _ _ _ _ _ _ Hl Hs) as (_ & Hfs & _). by rewrite Hfs.
Qed.

Lemma leave_free_swap : NoDup fs ∧ ∀ n, n ∈ fs → 0 <= n < swp.
Proof.
  destruct (pi_free_swap _ _ _ _ Hi) as [Hnd Hr]. destruct (is_swap k) eqn:Hs.
  - destruct (cl_swap _ _ _ _ _ _ _ _ _ _ Hl Hs) as (_ & back & Hb & _ & Hfs). rewrite Hfs.
    assert (back ∈ swap_blocks k) as Hin by (rewrite (slots_split k back Hb), elem_of_app, list_elem_of_singleton; by right).
    destruct (proj2 (pi_slots _ _ _ _ Hi b k (cl_block _ _ _ _ _ _ _ _ _ _ Hl)) back Hin) as [Hrange Hnf]. split.
    + apply NoDup_app. split; [done|]. split; [|apply NoDup_singleton]. by intros n Hn ->%list_elem_of_singleton.
    + intros n. rewrite elem_of_app, list_elem_of_singleton. intros [?| ->]; [by apply Hr|done].
  - destruct (cl_file _ _ _ _ _ _ _ _ _ _ Hl Hs) as (_ & Hfs & _). by rewrite Hfs.
Qed.

Lemma filter_length_ne (l : list Z) (x : Z) : NoDup l → x ∈ l → S (length (filter (λ y, y ≠ x) l)) = length l.
Proof.
  induction l as [|y l IH]; [intros _ []%not_elem_of_nil|]. intros [Hy Hnd]%NoDup_cons. rewrite elem_of_cons.
  destruct (decide (y = x)) as [->|Hne].
  - intros _. rewrite filter_cons_False by tauto. clear IH Hnd. simpl. f_equal.
    induction l as [|z l IH]; [done|]. apply not_elem_of_cons in Hy as [Hz Hy].
    rewrite filter_cons_True by congruence. simpl. by rewrite IH.
  - intros [->|Hx]; [done|]. rewrite filter_cons_True by done. simpl. by rewrite IH.
Qed.

Lemma leave_all_frames : NoDup fm ∧ (∀ n, n ∈ fm → 1 <= n < mem) ∧ len fm + len cq = mem - 1.
Proof.
  pose proof (pi_free_mem _ _ _ _ Hi) as [Hnd Hr]. pose proof (pi_all_frames _ _ _ _ Hi) as Hall.
  pose proof (cl_frames _ _ _ _ _ _ _ _ _ _ Hl) as Hf. destruct (useless b k r) eqn:Hu; [|by destruct Hf as [-> ->]].
  apply useless_true in Hu as (Hs & Hres & Hnz & Hp). destruct Hf as [Hfm Hcq]. rewrite Hfm, Hcq.
  pose proof (cl_user _ _ _ _ _ _ _ _ _ _ Hl) as Hru.
  assert (b ∈ clock_queue s) as Hc.
  { apply (bo_clock _ _ _ _ _ (leave_ok Hnz)). split; [done|]. left. clear -Hru. set_solver. }
  destruct (bo_frame _ _ _ _ _ (leave_ok Hnz) Hc) as [Hloc Hnf]. split; [|split].
  - apply NoDup_app. split; [done|]. split; [|apply NoDup_singleton]. by intros n Hn ->%list_elem_of_singleton.
  - intros n. rewrite elem_of_app, list_elem_of_singleton. intros [?| ->]; [by apply Hr|done].
  - pose proof (filter_length_ne (clock_queue s) b (proj1 (pi_clock _ _ _ _ Hi)) Hc). unfold len in *.
    rewrite length_app. simpl. lia.
Qed.

Lemma leave_clock_nodup : NoDup cq.
Proof.
  pose proof (proj1 (pi_clock _ _ _ _ Hi)) as Hnd. pose proof (cl_frames _ _ _ _ _ _ _ _ _ _ Hl) as Hf.
  destruct (useless b k r); destruct Hf as [_ Hcq]; rewrite Hcq; [by apply NoDup_filter|done].
Qed.

Lemma leave_inv : Inv ∅ s'.
Proof.
  pose proof Hi as [(k0 & Hk0 & [Z1 Z2 Z3 Z4 Z5 Z6]) Hb Hsl Hdj Hfs Hnx [Hc1 Hc2] Hfr Hfm Haf Htb Hin Har Hen Hpt Hhd].
  pose proof (cl_block _ _ _ _ _ _ _ _ _ _ Hl) as Hk. pose proof (cl_user _ _ _ _ _ _ _ _ _ _ Hl) as Hr.
  destruct leave_all_frames as (Hfm1 & Hfm2 & Hall).
  assert (∀ b' k2, blocks s' !! b' = Some k2 → ∃ k1, blocks s !! b' = Some k1 ∧ location k2 = location k1) as Hloc.
  { intros b' k2 [[-> ->]|[_ H2]]%leave_block; [by exists k|by exists k2]. }
  split; try done.
  - destruct (decide (b = zero_page)) as [Hbz|Hbz].
    + exists k'. assert (k0 = k) as -> by (rewrite Hbz in Hk; congruence).
      split; [rewrite <- Hbz; apply lookup_insert_eq|]. destruct Z1 as (Zd & Zr & Zres & Zs).
      rewrite <- Hbz in Z3, Z4, Z5.
      split; rewrite <- ?Hbz; rewrite ?leave_users; try done.
      * simpl. clear -Z3. set_solver.
      * rewrite leave_size. pose proof (leave_slots_len Zs). simpl. lia.
      * change (clock_queue s') with cq. rewrite leave_clock. by intros [? _].
    + exists k0. split; [simpl; by rewrite lookup_insert_ne|].
      split; rewrite ?(leave_users_ne zero_page) by done; try done.
      change (clock_queue s') with cq. rewrite leave_clock. by intros [? _].
  - intros b' j Hnz [[-> ->]|[Hne Hkb]]%leave_block; [by apply leave_new_ok|by apply leave_block_ok].
  - intros b' j Hkb. split.
    + apply leave_block in Hkb as [[-> ->]|[_ Hkb]]; [|by apply (Hsl b')]. simpl. destruct (Hsl b k Hk) as [Hn0 _].
      destruct (is_swap k) eqn:Hs.
      * destruct (cl_swap _ _ _ _ _ _ _ _ _ _ Hl Hs) as (_ & back & Hback & Hslots & _). rewrite Hslots.
        rewrite (slots_split k back Hback) in Hn0. by apply NoDup_app in Hn0 as [? _].
      * destruct (cl_file _ _ _ _ _ _ _ _ _ _ Hl Hs) as (Hslots & _). by rewrite Hslots.
    + intros m Hm. destruct (leave_slots b' j m Hkb Hm) as [(j0 & Hj0 & Hm0) Hnf].
      split; [by apply (proj2 (Hsl b' j0 Hj0))|done].
  - intros b1 b2 k1 k2 m H1 H2 Hm1 Hm2.
    destruct (leave_slots b1 k1 m H1 Hm1) as [(j1 & Hj1 & Hs1) _], (leave_slots b2 k2 m H2 Hm2) as [(j2 & Hj2 & Hs2) _].
    by apply (Hdj b1 b2 j1 j2 m).
  - exact leave_free_swap.
  - intros b' Hb'. apply Hnx. by apply leave_is_Some.
  - split; [exact leave_clock_nodup|]. intros b' Hb'. apply leave_is_Some, Hc2. by apply leave_clock in Hb' as [? _].
  - intros b1 b2 k1 k2 H1 H2 Hk1 Hk2 Heq. apply leave_clock in H1 as [H1 _], H2 as [H2 _].
    destruct (Hloc _ _ Hk1) as (j1 & Hj1 & E1), (Hloc _ _ Hk2) as (j2 & Hj2 & E2).
    apply (Hfr b1 b2 j1 j2); try done. congruence.
  - intros f n b' Hlk. change (file_mapping_table s') with tb in Hlk.
    assert (file_mapping_table s !! (f, n) = Some b') as Hlk'.
    { destruct (is_swap k) eqn:Hs.
      - destruct (cl_swap _ _ _ _ _ _ _ _ _ _ Hl Hs) as (Ht & _). by rewrite Ht in Hlk.
      - destruct (cl_file _ _ _ _ _ _ _ _ _ _ Hl Hs) as (_ & _ & Ht). rewrite Ht in Hlk.
        destruct (_ && _); [|done]. by apply lookup_delete_Some in Hlk as [_ ?]. }
    destruct (Htb f n b' Hlk') as (Hnz & j & Hkb & Hrest). split; [done|].
    destruct (decide (b' = b)) as [->|Hne]; [|exists j; split; [by simpl; rewrite lookup_insert_ne|done]].
    exists k'. split; [apply lookup_insert_eq|]. assert (j = k) as -> by congruence. done.
  - intros r' x Hx. simpl in Hx. apply lookup_delete_Some in Hx as [_ Hx].
    destruct (Hin r' x Hx) as (b' & j & -> & Hbs & Hpr). exists b', j. split; [done|]. split; [by apply leave_is_Some|done].
  - intros p v Hpv Hv. apply (cl_some _ _ _ _ _ _ _ _ _ _ Hl), Hen; done.
  - intros r' b' j e Hr' _ Hkb He. rewrite leave_users in Hr'. change (entries s') with es in He.
    apply elem_of_difference in Hr' as [Hr' Hne]. rewrite elem_of_singleton in Hne.
    apply leave_block in Hkb as [[-> ->]|[Hbb Hkb]]; [by apply (cl_ok _ _ _ _ _ _ _ _ _ _ Hl)|].
    rewrite (cl_other _ _ _ _ _ _ _ _ _ _ Hl) in He; [by apply (Hpt r' b' j e)|].
    intros Hr2. by apply Hbb, (users_unique s b' b r').
Qed.

(** The page is gone; the others show what they did. *)
Lemma leave_view r' : view s' r' = if decide (r' = r) then None else view s r'.
Proof.
  pose proof (cl_block _ _ _ _ _ _ _ _ _ _ Hl) as Hk. unfold view. change (infos s') with (delete r (infos s)).
  case_decide as Hr; [subst; by rewrite lookup_delete_eq|]. rewrite lookup_delete_ne by done.
  destruct (infos s !! r') as [[[] [b'|]]|] eqn:Hx; try done. unfold view_block. simpl.
  destruct (decide (b' = b)) as [->|Hne]; [|by rewrite lookup_insert_ne].
  rewrite lookup_insert_eq, Hk. simpl. destruct (is_swap k) eqn:Hs; [|done]. do 2 f_equal. unfold content.
  change (resident k') with (resident k). destruct (resident k) eqn:Hres; [done|].
  assert (r' ∈ users s b ∖ {[r]}) as Hu by (apply elem_of_difference; split; [by apply elem_of_users|by rewrite elem_of_singleton]).
  rewrite leave_home; [done| |left; clear -Hu; set_solver].
  intros ->. destruct (pi_zero _ _ _ _ Hi) as (k0 & Hk0 & Hz). destruct (zo_flags _ _ _ Hz) as (_ & _ & ? & _). congruence.
Qed.

Lemma leave_files f n : file_content s' f n = file_content s f n.
Proof.
  pose proof (cl_block _ _ _ _ _ _ _ _ _ _ Hl) as Hk. unfold file_content. change (file_mapping_table s') with tb.
  assert (∀ b', file_mapping_table s !! (f, n) = Some b' →
    match blocks s' !! b' with Some j => content s' j | None => None end =
    match blocks s !! b' with Some j => content s j | None => None end) as Hbc.
  { intros b' Ht. destruct (pi_table _ _ _ _ Hi f n b' Ht) as (Hnz & j & Hj & Hs & _). simpl.
    destruct (decide (b' = b)) as [->|Hne]; [|by rewrite lookup_insert_ne]. rewrite lookup_insert_eq, Hk.
    assert (j = k) as -> by congruence. unfold content. change (resident k') with (resident k).
    destruct (resident k); [done|]. rewrite leave_home; [done|done|by right]. }
  destruct (is_swap k) eqn:Hs.
  - destruct (cl_swap _ _ _ _ _ _ _ _ _ _ Hl Hs) as (Ht & _). rewrite Ht.
    destruct (file_mapping_table s !! (f, n)) as [b'|] eqn:Hlk; [by apply Hbc|done].
  - destruct (cl_file _ _ _ _ _ _ _ _ _ _ Hl Hs) as (_ & _ & Ht). rewrite Ht.
    destruct (bool_decide _ && negb (resident k)) eqn:Hdel.
    + apply andb_true_iff in Hdel as [_ Hres%negb_true_iff].
      destruct (decide ((f, n) = file_key k)) as [Heq|Hne].
      * rewrite Heq, lookup_delete_eq. assert (b ≠ zero_page) as Hnz.
        { intros ->. destruct (pi_zero _ _ _ _ Hi) as (k0 & Hk0 & Hz). destruct (zo_flags _ _ _ Hz) as (_ & _ & _ & ?). congruence. }
        assert (file_mapping_table s !! file_key k = Some b) as Htk.
        { apply (bo_table _ _ _ _ _ (leave_ok Hnz) Hs). left. pose proof (cl_user _ _ _ _ _ _ _ _ _ _ Hl) as Hu.
          clear -Hu. set_solver. }
        rewrite Htk, Hk. unfold content, file_of, home. rewrite Hres, Hs. by injection Heq as -> ->.
      * rewrite lookup_delete_ne by done. destruct (file_mapping_table s !! (f, n)) as [b'|] eqn:Hlk; [by apply Hbc|done].
    + destruct (file_mapping_table s !! (f, n)) as [b'|] eqn:Hlk; [by apply Hbc|done].
Qed.
End leave.
(** ** One page of [vm_destroy] *)

(** The page infos of the process and the clock are only cleaned up at the end. *)
Definition around s (I : gmap pte_ptr kernel_page_info) (C : list Z) : pager := set_clock C (set_infos (λ _, I) s).

(** What has become of the pages of a block when one leaves. *)
Lemma remaining_ok s b k r r' e slots :
  Inv ∅ s → blocks s !! b = Some k → r' ∈ users s b → r' ≠ r → entries s !! r' = Some e →
  pte_ok b (joined (ptes k ∖ {[r]}) slots k) r' e.
Proof.
  intros Hi Hk Hr Hne He. destruct (pi_ptes _ _ _ _ Hi r' b k e Hr ltac:(clear; set_solver) Hk He) as [P1 P2 P3 P4].
  split; try done. intros Hw. destruct (P3 Hw) as (? & ? & Hsole). do 2 (split; [done|]). intros Hs. simpl.
  rewrite (Hsole Hs). clear -Hne. set_solver.
Qed.

Definition after_leave (s : pager) (k : mem_block) (X : gset pte_ptr) : gmap pte_ptr page_table_entry_t :=
  if dirty k && (size X =? 1)%nat && referenced k
  then alter_all (λ e, Pte (ppage e) true true) X (entries s) else entries s.

Lemma after_leave_some s k X r : is_Some (after_leave s k X !! r) ↔ is_Some (entries s !! r).
Proof. unfold after_leave. destruct (_ && _); [apply alter_all_is_Some|done]. Qed.

Lemma after_leave_ok s b k r r' e slots :
  Inv ∅ s → blocks s !! b = Some k → b ≠ zero_page → resident k = true → r' ∈ users s b → r' ≠ r →
  after_leave s k (ptes k ∖ {[r]}) !! r' = Some e → pte_ok b (joined (ptes k ∖ {[r]}) slots k) r' e.
Proof.
  intros Hi Hk Hnz Hres Hr Hne He. unfold after_leave in He.
  destruct (dirty k && _ && _) eqn:Hc; [|by eapply remaining_ok].
  apply andb_true_iff in Hc as [[Hd Hsz%Nat.eqb_eq]%andb_true_iff Hrf].
  assert (r' ∈ ptes k ∖ {[r]}) as Hin.
  { rewrite (bo_ptes _ _ _ _ _ (pi_block _ _ _ _ Hi b k Hnz Hk)). clear -Hr Hne. set_solver. }
  rewrite lookup_alter_all, decide_True in He by done. destruct (entries s !! r') as [e0|] eqn:He0; [|done].
  injection He as <-. destruct (pi_ptes _ _ _ _ Hi r' b k e0 Hr ltac:(clear; set_solver) Hk He0) as [P1 P2 P3 P4].
  split; simpl; try done. intros _. do 2 (split; [done|]). intros _.
  apply size_1_elem_of in Hsz as [x Hx]. apply leibniz_equiv in Hx. rewrite Hx in Hin |- *. clear -Hin. set_solver.
Qed.

Lemma destroy_page_ok `{!SetOrderSpec} p v b k i U I C s :
  Inv ∅ s → process_info_mp s !! p = Some i → page_table_base_register s = p →
  I !! (p, v) = infos s !! (p, v) → (p, v) ∈ users s b → blocks s !! b = Some k →
  wp (destroy_page p v U) (λ U' t, ∃ slots fs fm cq tb es,
    can_leave s (p, v) b k slots fs fm cq tb es ∧
    t = around (leave s (p, v) b (joined (ptes k ∖ {[(p, v)]}) slots k) fs fm cq tb es) I C ∧
    U' = if useless b k (p, v) then {[location k]} ∪ U else U) (around s I C).
Proof.
  intros Hi Hp Hbase HI Hr Hk. set (r := (p, v)) in *. pose proof (proj1 (elem_of_users _ _ _) Hr) as Hinfo.
  unfold destroy_page. apply wp_bind. eapply wp_get_page_info; [exact Hp|].
  assert (info_of (around s I C) (p, v) = KernelPageInfo true (Some b)) as ->
    by (unfold info_of; simpl; fold r; by rewrite HI, Hinfo).
  apply wp_bind. eapply wp_deref; [done|]. apply wp_bind, wp_get_state. simpl page_table_base_register. rewrite Hbase. fold r.
  apply wp_bind, wp_modify. set (k1 := set_ptes (ptes k ∖ {[r]}) k).
  apply wp_bind. eapply (wp_get_block b k1); [simpl; by rewrite lookup_alter_eq, Hk|]. simpl is_swap.
  destruct (is_swap k) eqn:Hs; simpl negb; cbv iota.
  2: { apply wp_bind.
    set (tb := if bool_decide (ptes k ∖ {[r]} = ∅) && negb (resident k) then delete (file_key k) (file_mapping_table s)
               else file_mapping_table s).
    assert (can_leave s r b k (swap_blocks k) (free_swap_blocks s) (free_mem_blocks s) (clock_queue s) tb (entries s)) as Hcl.
    { split; try done; [congruence|unfold useless; by rewrite Hs|]. intros r' e Hr' Hne He. by eapply remaining_ok. }
    assert (useless b k r = false) as Hul by (unfold useless; by rewrite Hs).
    eapply (wp_mono _ (λ _ t, t = around (leave s r b (joined (ptes k ∖ {[r]}) (swap_blocks k) k) (free_swap_blocks s)
      (free_mem_blocks s) (clock_queue s) tb (entries s)) I C)).
    - assert (∀ t', file_mapping_table t' = tb → t' = set_file_table (λ _, tb) (set_blocks (alter (λ k, set_ptes (ptes k ∖ {[r]}) k) b) (around s I C)) →
        t' = around (leave s r b (joined (ptes k ∖ {[r]}) (swap_blocks k) k) (free_swap_blocks s)
          (free_mem_blocks s) (clock_queue s) tb (entries s)) I C) as Heq.
      { intros t' _ ->. apply pager_ext; try reflexivity. simpl. rewrite (alter_insert _ _ _ k) by done. reflexivity. }
      simpl ptes. simpl resident. unfold tb in Heq |- *.
      destruct (bool_decide (ptes k ∖ {[r]} = ∅) && negb (resident k)); [apply wp_modify|apply wp_ret]; by apply Heq.
    - intros u t Ht. apply wp_ret. do 6 eexists. split; [exact Hcl|]. split; [exact Ht|]. by rewrite Hul. }
  assert (∃ back, last (swap_blocks k) = Some back) as [back Hback].
  { apply (users_last s b k Hs); [|clear -Hr; set_solver]. destruct (decide (b = zero_page)) as [->|Hnz].
    - destruct (pi_zero _ _ _ _ Hi) as (k0 & Hk0 & Hz). simplify_eq. apply (zo_swap _ _ _ Hz).
    - by apply (bo_swap _ _ _ _ _ (pi_block _ _ _ _ Hi b k Hnz Hk)). }
  apply wp_bind. eapply wp_deref; [exact Hback|]. apply wp_bind, wp_modify, wp_bind, wp_modify.
  set (slots := removelast (swap_blocks k)). set (k2 := joined (ptes k ∖ {[r]}) slots k).
  match goal with |- wp _ _ ?x => set (t := x) end.
  assert (blocks t = <[b := k2]> (blocks s)) as Hbt.
  { unfold t. simpl. rewrite alter_twice. rewrite (alter_insert _ _ _ k) by done. reflexivity. }
  assert (∀ fm cq es, can_leave s r b k slots (free_swap_blocks s ++ [back]) fm cq (file_mapping_table s) es →
    set_free_mem fm (set_entries (λ _, es) t) = around (leave s r b k2 (free_swap_blocks s ++ [back]) fm cq (file_mapping_table s) es) I C) as Heq.
  { intros fm cq es _. apply pager_ext; try reflexivity. exact Hbt. }
  assert (∀ fm cq es, (if useless b k r then fm = free_mem_blocks s ++ [location k] ∧ cq = filter (λ b', b' ≠ b) (clock_queue s)
      else fm = free_mem_blocks s ∧ cq = clock_queue s) →
    es = entries s ∨ (b ≠ zero_page ∧ resident k = true ∧ es = after_leave s k (ptes k ∖ {[r]})) →
    can_leave s r b k slots (free_swap_blocks s ++ [back]) fm cq (file_mapping_table s) es) as Hcl.
  { intros fm cq es Hframes Hes. split; try done.
    - intros _. split; [done|]. by exists back.
    - intros Hs'. congruence.
    - intros r'. destruct Hes as [->|(_ & _ & ->)]; [done|apply after_leave_some].
    - intros r' Hr'. destruct Hes as [->|(Hnz & _ & ->)]; [done|]. unfold after_leave. destruct (_ && _); [|done].
      rewrite lookup_alter_all, decide_False; [by destruct (entries s !! r')|].
      rewrite (bo_ptes _ _ _ _ _ (pi_block _ _ _ _ Hi b k Hnz Hk)). clear -Hr'. set_solver.
    - intros r' e Hr' Hne He. destruct Hes as [->|(Hnz & Hres & ->)]; [by eapply remaining_ok|by eapply after_leave_ok]. }
  destruct (negb (resident k) || bool_decide (b = zero_page)) eqn:Hstay.
  { assert (useless b k r = false) as Hul.
    { apply not_true_iff_false. intros (_ & Hres & Hnz & _)%useless_true. rewrite Hres in Hstay. simpl in Hstay.
      by rewrite bool_decide_eq_false_2 in Hstay. }
    apply wp_ret. pose proof (Hcl (free_mem_blocks s) (clock_queue s) (entries s)) as Hcl1. rewrite Hul in Hcl1.
    specialize (Hcl1 (conj eq_refl eq_refl) (or_introl eq_refl)).
    do 6 eexists. split; [exact Hcl1|]. split; [|by rewrite Hul]. rewrite <- Heq by exact Hcl1.
    by apply pager_ext. }
  apply orb_false_iff in Hstay as [Hres%negb_false_iff Hnz%bool_decide_eq_false].
  apply wp_bind. apply (update_block_permissions_eq b k2); [done|change (blocks t !! b = Some k2); rewrite Hbt; apply lookup_insert_eq| |].
  { intros r' Hr'. change (is_Some (entries s !! r')). apply (inv_ptes_entry mem swp ∅ s b k r' Hi Hk). clear -Hr'. simpl in Hr'. set_solver. }
  change (write_entries t k2) with (alter_all (λ e, Pte (ppage e) true true) (ptes k ∖ {[r]}) (entries s)).
  change (entries t) with (entries s). simpl dirty. simpl referenced. simpl ptes.
  fold (after_leave s k (ptes k ∖ {[r]})). set (es := after_leave s k (ptes k ∖ {[r]})).
  assert (flags t (blocks t) es = set_entries (λ _, es) t) as -> by by apply pager_ext.
  case_bool_decide as Hemp.
  - assert (useless b k r = true) as Hul by (unfold useless; by rewrite Hs, Hres, !bool_decide_eq_true_2).
    pose proof (Hcl (free_mem_blocks s ++ [location k]) (filter (λ b', b' ≠ b) (clock_queue s)) es) as Hcl1.
    rewrite Hul in Hcl1. specialize (Hcl1 (conj eq_refl eq_refl) (or_intror (conj Hnz (conj Hres eq_refl)))).
    apply wp_bind, wp_modify, wp_ret. do 6 eexists. split; [exact Hcl1|]. split; [|by rewrite Hul].
    rewrite <- Heq by exact Hcl1. by apply pager_ext.
  - assert (useless b k r = false) as Hul by (unfold useless; by rewrite (bool_decide_eq_false_2 (_ = ∅)), andb_false_r).
    pose proof (Hcl (free_mem_blocks s) (clock_queue s) es) as Hcl1.
    rewrite Hul in Hcl1. specialize (Hcl1 (conj eq_refl eq_refl) (or_intror (conj Hnz (conj Hres eq_refl)))).
    apply wp_ret. do 6 eexists. split; [exact Hcl1|]. split; [|by rewrite Hul].
    rewrite <- Heq by exact Hcl1. by apply pager_ext.
Qed.
(** ** All pages *)

Lemma filter_ext_in (P Q : Z → Prop) `{!∀ x, Decision (P x), !∀ x, Decision (Q x)} (l : list Z) :
  (∀ x, x ∈ l → P x ↔ Q x) → filter P l = filter Q l.
Proof.
  induction l as [|x l IH]; intros Hpq; [done|].
  assert (filter P l = filter Q l) as Hl by (apply IH; intros y Hy; apply Hpq; by right).
  destruct (decide (P x)) as [Hp|Hp].
  - rewrite !filter_cons_True, Hl by (done || by apply Hpq; [left|]). done.
  - rewrite !filter_cons_False; [done| |done]. intros Hq. apply Hp. by apply Hpq; [left|].
Qed.

(** The block is in one of the physical pages [U]. *)
Definition at_frame s (U : gset Z) (b : Z) : bool :=
  match blocks s !! b with Some k => bool_decide (location k ∈ U) | None => false end.

(** The clock with the blocks that are no longer of use, and without them. *)
Record swept s (U : gset Z) (C : list Z) : Prop := {
  sw_clock : clock_queue s = filter (λ b, at_frame s U b = false) C;
  sw_some b : b ∈ C → is_Some (blocks s !! b);
  sw_zero : 0 ∉ U;
}.

Lemma leave_swept s r b k slots fs fm cq tb es U C :
  Inv ∅ s → can_leave s r b k slots fs fm cq tb es → swept s U C →
  swept (leave s r b (joined (ptes k ∖ {[r]}) slots k) fs fm cq tb es) (if useless b k r then {[location k]} ∪ U else U) C.
Proof.
  intros Hi Hl [Hc Hsome Hz]. set (s' := leave _ _ _ _ _ _ _ _ _). pose proof (cl_block _ _ _ _ _ _ _ _ _ _ Hl) as Hk.
  assert (∀ V b', at_frame s' V b' = at_frame s V b') as Hat.
  { intros V b'. unfold at_frame, s'. simpl. destruct (decide (b' = b)) as [->|Hne]; [|by rewrite lookup_insert_ne].
    by rewrite lookup_insert_eq, Hk. }
  pose proof (cl_frames _ _ _ _ _ _ _ _ _ _ Hl) as Hf.
  assert (∀ b', b' ∈ C → is_Some (blocks s' !! b')) as Hsome'.
  { intros b' Hb'. unfold s'. rewrite (leave_is_Some s r b k slots fs fm cq tb es Hl). by apply Hsome. }
  destruct (useless b k r) eqn:Hu; destruct Hf as [_ Hcq].
  2: { split; [|done|done]. change (clock_queue s') with cq. rewrite Hcq, Hc. apply filter_ext_in. intros b' _. by rewrite Hat. }
  apply useless_true in Hu as (Hs & Hres & Hnz & Hp). pose proof (pi_block _ _ _ _ Hi b k Hnz Hk) as Hok.
  pose proof (cl_user _ _ _ _ _ _ _ _ _ _ Hl) as Hr.
  assert (b ∈ clock_queue s) as Hbc by (apply (bo_clock _ _ _ _ _ Hok); split; [done|]; left; clear -Hr; set_solver).
  split; [|done|].
  - change (clock_queue s') with cq. rewrite Hcq. rewrite Hc at 1. rewrite list_filter_filter. apply filter_ext_in. intros b' Hb'.
    rewrite Hat. unfold at_frame. destruct (Hsome b' Hb') as [j Hj]. rewrite Hj, !bool_decide_eq_false, elem_of_union, elem_of_singleton.
    split; [|intros Hn; split; [intros ->; rewrite Hk in Hj; injection Hj as <-; tauto|tauto]].
    intros [Hne Hn] [Heq|?]; [|done]. apply Hne. apply (pi_frames _ _ _ _ Hi b' b j k); try done.
    rewrite Hc, list_elem_of_filter. split; [|done]. unfold at_frame. rewrite Hj. by apply bool_decide_eq_false.
  - rewrite elem_of_union, elem_of_singleton. intros [Heq|?]; [|done]. destruct (bo_frame _ _ _ _ _ Hok Hbc). lia.
Qed.

Record destroyed_pages s (p v m : Z) (l : list Z) (U : gset Z) (I : gmap pte_ptr kernel_page_info) (C : list Z) (t : pager) s' : Prop := {
  dp_state : t = around s' I C;
  dp_inv : Inv ∅ s';
  dp_swept : swept s' U C;
  dp_view r : view s' r = if decide (r.1 = p ∧ v <= r.2 < v + m) then None else view s r;
  dp_infos r : infos s' !! r = if decide (r.1 = p ∧ v <= r.2 < v + m) then None else infos s !! r;
  dp_files f n : file_content s' f n = file_content s f n;
  dp_same : process_info_mp s' = process_info_mp s ∧ curr_pid s' = curr_pid s ∧
    page_table_base_register s' = page_table_base_register s;
  dp_swap : len (free_swap_blocks s') = len (free_swap_blocks s) + swap_pages s p l;
  dp_others r : infos s !! r = None → entries s' !! r = entries s !! r;
}.

Lemma destroy_pages_ok `{!SetOrderSpec} p l i v m U I C s :
  l = seqZ v m → 0 <= m → Inv ∅ s → process_info_mp s !! p = Some i → page_table_base_register s = p →
  swept s U C → (∀ v', v <= v' < v + m → is_Some (view s (p, v')) ∧ I !! (p, v') = infos s !! (p, v')) →
  wp (destroy_pages p l U) (λ U' t, ∃ s', destroyed_pages s p v m l U' I C t s') (around s I C).
Proof.
  revert v m U s; induction l as [|v0 l IH]; intros v m U s Hl Hm Hi Hp Hbase Hsw Hpages.
  - assert (m = 0) as -> by (apply (f_equal length) in Hl; rewrite length_seqZ in Hl; simpl in Hl; lia).
    apply wp_ret. exists s. split; try done; try (intros r; by rewrite decide_False by lia). simpl. lia.
  - assert (0 < m) as Hm0 by (apply (f_equal length) in Hl; rewrite length_seqZ in Hl; simpl in Hl; lia).
    rewrite seqZ_cons in Hl by lia. injection Hl as -> Hl. simpl destroy_pages.
    destruct (Hpages v ltac:(lia)) as [Hview HI].
    destruct (view_is_user mem swp ∅ s (p, v) Hi Hview) as (b & k & Hr & Hk).
    apply wp_bind. eapply wp_mono; [by eapply (destroy_page_ok p v b k i U I C s)|].
    intros U1 t (slots & fs & fm & cq & tb & es & Hcl & -> & ->). set (s1 := leave _ _ _ _ _ _ _ _ _) in *.
    pose proof (leave_inv s _ b k slots fs fm cq tb es Hi Hcl) as Hi1. fold s1 in Hi1.
    pose proof (leave_swept s _ b k slots fs fm cq tb es U C Hi Hcl Hsw) as Hsw1. fold s1 in Hsw1.
    assert (∀ r, view s1 r = if decide (r = (p, v)) then None else view s r) as Hv1
      by exact (leave_view s _ b k slots fs fm cq tb es Hi Hcl).
    assert (∀ v', v' ≠ v → view s1 (p, v') = view s (p, v')) as Hvo by (intros v' Hne; rewrite Hv1, decide_False; congruence).
    assert (∀ v', v' ≠ v → infos s1 !! (p, v') = infos s !! (p, v')) as Hio by (intros v' Hne; simpl; rewrite lookup_delete_ne; congruence).
    eapply wp_mono; [eapply (IH (v + 1) (m - 1) _ s1); try done; try lia|].
    { intros v' Hv'. rewrite Hvo, Hio by lia. apply Hpages. lia. }
    intros U2 t2 (s2 & [D1 D2 D3 D4 D5 D6 (D7 & D7' & D7'') D8 D9]). exists s2.
    assert (swap_pages s1 p l = swap_pages s p l) as Hspl.
    { apply swap_pages_ext. intros v' Hv'. apply Hvo. rewrite Hl, elem_of_seqZ in Hv'. lia. }
    split; try done.
    + intros r. rewrite D4. destruct r as [q v']. simpl.
      destruct (decide (q = p ∧ v + 1 <= v' < v + 1 + (m - 1))) as [Hin|Hout]; [by rewrite decide_True by lia|].
      rewrite Hv1. destruct (decide ((q, v') = (p, v))) as [[= -> ->]|Hne]; [by rewrite decide_True by lia|].
      rewrite decide_False; [done|]. intros [-> ?]. apply Hout. split; [done|]. assert (v' ≠ v) by congruence. lia.
    + intros r. rewrite D5. destruct r as [q v']. simpl.
      destruct (decide (q = p ∧ v + 1 <= v' < v + 1 + (m - 1))) as [Hin|Hout]; [by rewrite decide_True by lia|].
      destruct (decide ((q, v') = (p, v))) as [[= -> ->]|Hne]; [by rewrite lookup_delete_eq, decide_True by lia|].
      rewrite lookup_delete_ne, decide_False by (congruence || (intros [-> ?]; apply Hout; split; [done|]; assert (v' ≠ v) by congruence; lia)).
      done.
    + intros f n. rewrite D6. exact (leave_files s _ b k slots fs fm cq tb es Hi Hcl f n).
    + rewrite D8, Hspl. simpl swap_pages. change (free_swap_blocks s1) with fs. unfold shows_private.
      rewrite (view_user s b k (p, v) Hr Hk). destruct (is_swap k) eqn:Hs.
      * destruct (cl_swap _ _ _ _ _ _ _ _ _ _ Hcl Hs) as (_ & back & _ & _ & Hfs). rewrite Hfs. unfold len. rewrite length_app. simpl. lia.
      * destruct (cl_file _ _ _ _ _ _ _ _ _ _ Hcl Hs) as (_ & Hfs & _). rewrite Hfs. lia.
    + intros r Hno. rewrite D9 by (simpl; by apply lookup_delete_None; right).
      apply (cl_other _ _ _ _ _ _ _ _ _ _ Hcl). intros Hu%elem_of_users. congruence.
Qed.
(** ** The clock, and the end of the process *)

Lemma inspect_clock_ok (U : gset Z) l acc s :
  clock_queue s = l ++ acc → (∀ b, b ∈ l → is_Some (blocks s !! b)) →
  wp (inspect_clock (length l) U) (λ _ s', s' = set_clock (acc ++ filter (λ b, at_frame s U b = false) l) s) s.
Proof.
  revert acc s; induction l as [|b l IH]; intros acc s Hc Hsome; simpl inspect_clock.
  - apply wp_ret. rewrite app_nil_r. apply pager_ext; try reflexivity. exact Hc.
  - apply wp_bind, wp_get_state, wp_bind. rewrite Hc. eapply wp_deref; [done|].
    destruct (Hsome b ltac:(by left)) as [k Hk]. apply wp_bind. eapply wp_get_block; [done|]. apply wp_bind.
    assert (at_frame s U b = bool_decide (location k ∈ U)) as Hat by (unfold at_frame; by rewrite Hk).
    destruct (bool_decide (location k ∈ U)) eqn:Hb; [apply wp_ret|apply wp_modify]; apply wp_bind, wp_modify.
    + eapply wp_mono; [apply (IH acc)|]; [simpl; by rewrite Hc|intros b' Hb'; apply (Hsome b'); by right|].
      intros [] s' ->. rewrite filter_cons_False by congruence. done.
    + eapply wp_mono; [apply (IH (acc ++ [b]))|];
        [simpl; rewrite Hc; simpl; by rewrite app_assoc|intros b' Hb'; apply (Hsome b'); by right|].
      intros [] s' ->. rewrite filter_cons_True by congruence.
      apply pager_ext; try reflexivity. simpl. by rewrite <- app_assoc.
Qed.

#[local] Opaque drop_array.

Record destroyed s (p : Z) (i : kernel_process_info) s' : Prop := {
  dt_inv : Inv ∅ s';
  dt_procs : process_info_mp s' = delete p (process_info_mp s);
  dt_view r : view s' r = if decide (r.1 = p) then None else view s r;
  dt_files f n : file_content s' f n = file_content s f n;
  dt_swap : len (free_swap_blocks s') = len (free_swap_blocks s) + swap_pages s p (seqZ 0 (next_invalid_page i));
  dt_closed : closed s → closed s';
}.

(** A process without pages can go. *)
Definition gone s (p : Z) (I : gmap pte_ptr kernel_page_info) : pager :=
  set_entries (drop_array p) (set_infos (λ _, I) (set_procs (delete p) s)).

Lemma gone_ok s p I : Inv ∅ s → (∀ v, infos s !! (p, v) = None) → I = infos s →
  Inv ∅ (gone s p I) ∧ (∀ r, view (gone s p I) r = view s r) ∧ (∀ f n, file_content (gone s p I) f n = file_content s f n).
Proof.
  intros Hi Hno ->. split; [|done].
  pose proof Hi as [(k0 & Hk0 & [Z1 Z2 Z3 Z4 Z5 Z6]) Hb Hsl Hdj Hfs Hnx Hc Hfr Hfm Haf Htb Hin Har Hen Hpt Hhd].
  split; try done.
  - exists k0. split; [done|]. by split.
  - intros b k Hnz Hk. destruct (Hb b k Hnz Hk) as [H1 H1' H2 H3 H4 H5 H6 H7 H8 H9]. by split.
  - intros [q v] x Hx. simpl in Hx. destruct (Hin _ x Hx) as (b & i & -> & Hbs & Hpi & Hv). exists b, i. do 2 (split; [done|]).
    simpl in *. rewrite lookup_delete_ne; [done|]. intros <-. congruence.
  - intros q i Hq. simpl in Hq. apply lookup_delete_Some in Hq as [_ Hq]. by eapply Har.
  - intros q v [i Hq] Hv. simpl in *. apply lookup_delete_Some in Hq as [Hne Hq]. rewrite lookup_drop. simpl.
    rewrite decide_False by (intros [-> _]; done). apply Hen; [by exists i|done].
  - intros r b k e Hr Hh Hk He. simpl in He. rewrite lookup_drop in He. case_decide; [done|]. by apply (Hpt r b k e).
Qed.

Lemma vm_destroy_ok `{!SetOrderSpec} p i s :
  Inv ∅ s → current s p i → (∀ v, 0 <= v < next_invalid_page i → is_Some (view s (p, v))) →
  wp vm_destroy (λ _, destroyed s p i) s.
Proof.
  intros Hi [Hcur Hbase Hp] Hpages. unfold vm_destroy. apply wp_bind, wp_get_state. rewrite Hcur.
  apply wp_bind. eapply wp_get_process; [done|]. set (n := next_invalid_page i) in *.
  pose proof (pi_arena _ _ _ _ Hi p i Hp) as Har. fold n in Har.
  assert (swept s ∅ (clock_queue s)) as Hsw.
  { split; [|apply (proj2 (pi_clock _ _ _ _ Hi))|done]. symmetry.
    rewrite (filter_ext_in _ (λ _, True)); [by induction (clock_queue s) as [|x l IH]; [|rewrite filter_cons_True, IH]|].
    intros b _. unfold at_frame. destruct (blocks s !! b); [|done]. split; [done|]. intros _. by apply bool_decide_eq_false. }
  apply wp_bind. eapply wp_mono.
  { assert (s = around s (infos s) (clock_queue s)) as Hs by by apply pager_ext.
    rewrite Hs at 1. eapply (destroy_pages_ok p (seqZ 0 n) i 0 n ∅ (infos s) (clock_queue s) s); try done; [lia|].
    intros v Hv. split; [apply Hpages; lia|done]. }
  simpl. intros U t (s1 & [-> D2 [Hc1 Hc2 Hc3] D4 D5 D6 (D7 & D7' & D7'') D8 D9]).
  assert (∀ v, infos s1 !! (p, v) = None) as Hno.
  { intros v. rewrite D5. simpl. case_decide as Hd; [done|]. apply eq_None_not_Some. intros [x Hx].
    destruct (pi_infos _ _ _ _ Hi _ _ Hx) as (b & j & _ & _ & Hj & Hv). simpl in *. simplify_eq. by apply Hd. }
  assert (drop_array p (infos s) = infos s1) as Hdrop.
  { apply map_eq. intros [q v]. rewrite lookup_drop, D5. simpl. destruct (decide (q = p ∧ 0 <= v < num_virt_addr)) as [Hd|Hd].
    - destruct Hd as [-> Hv]. case_decide as Hd'; [done|]. symmetry. apply eq_None_not_Some. intros [x Hx].
      destruct (pi_infos _ _ _ _ Hi _ _ Hx) as (b & j & _ & _ & Hj & Hjv). simpl in *. simplify_eq. by apply Hd'.
    - rewrite decide_False; [done|]. intros [-> ?]. apply Hd. split; [done|]. lia. }
  apply wp_bind. unfold inspect_clock_queue. apply wp_bind, wp_get_state.
  eapply wp_mono; [apply (inspect_clock_ok _ (clock_queue s) [] (around s1 (infos s) (clock_queue s)))|].
  { by rewrite app_nil_r. } { exact Hc2. }
  simpl. intros [] s2 ->. apply wp_bind, wp_modify, wp_bind, wp_modify, wp_modify.
  match goal with |- destroyed _ _ _ ?x => assert (x = gone s1 p (infos s1)) as -> end.
  { apply pager_ext; try reflexivity; [|exact Hdrop]. simpl. rewrite Hc1. apply filter_ext_in. intros b Hb.
    unfold at_frame. simpl. destruct (blocks s1 !! b) as [k|] eqn:Hk; [|done].
    rewrite !bool_decide_eq_false, elem_of_union, elem_of_singleton. split; [tauto|]. intros HU [Hz|?]; [|done].
    assert (b ∈ clock_queue s1) as Hbc.
    { rewrite Hc1, list_elem_of_filter. unfold at_frame. rewrite Hk. by rewrite bool_decide_eq_false. }
    destruct (clock_block mem swp ∅ s1 b k D2 Hbc Hk) as (_ & Hok & _). destruct (bo_frame _ _ _ _ _ Hok Hbc). lia. }
  destruct (gone_ok s1 p (infos s1) D2 Hno eq_refl) as (G1 & G2 & G3). split; try done.
  - simpl. by rewrite D7.
  - intros r. rewrite G2, D4. destruct r as [q v]. simpl. destruct (decide (q = p)) as [->|Hne].
    + case_decide as Hd; [done|]. apply eq_None_not_Some. intros Hv. apply Hd. split; [done|].
      destruct (view_is_user mem swp ∅ s (p, v) Hi Hv) as (b & k & Hr%elem_of_users & _).
      destruct (pi_infos _ _ _ _ Hi _ _ Hr) as (_ & j & _ & _ & Hj & Hlt). simpl in *. by simplify_eq.
    + by rewrite decide_False by tauto.
  - intros Hcl [q v] e He Hno'. change (drop_array p (entries s1) !! (q, v) = Some e) in He.
    change (infos s1 !! (q, v) = None) in Hno'. rewrite lookup_drop in He. simpl in He.
    case_decide as Hd; [done|]. assert (infos s !! (q, v) = None) as Hns.
    { rewrite D5 in Hno'. simpl in Hno'. case_decide as Hd'; [|done]. exfalso. apply Hd. destruct Hd' as [? ?]. split; [done|lia]. }
    apply (Hcl (q, v)); [|done]. by rewrite <- D9.
Qed.
End exit.
