(* ===== verification/PagerStore.v ===== *)
(** * The pager: what applications do

    Loads and stores of an application go through the page table of its process:
    [vm_pager.h] says when they fault.  A store changes the page it is for and,
    for a page of a file, what everyone sees of that block; nothing else. *)
From S2P Require Import Prelude Pager PagerInv PagerCow PagerFault.

Local Open Scope Z_scope.

Section store.
Context `{HF : Files, HO : SetOrder, !FilesSpec, !SetOrderSpec}.
Context (mem swp : Z) (Hmem : mem <= 2 ^ 16) (Hmem2 : 2 <= mem).
Implicit Types s : pager.
Implicit Types k : mem_block.
Implicit Types r : pte_ptr.

Abbreviation Inv h s := (pager_inv mem swp h s).

(** ** The MMU *)

Definition update_page (p : page) (o : Z) (c : ascii) : page := λ x, if bool_decide (x = o) then c else p x.

(** The entry that translates an address for the process whose table is in use;
    an access that the entry does not let through faults, and is tried again. *)
Definition mmu_entry (addr : Z) : vm page_table_entry_t :=
  s ← get_state; deref (entries s !! (page_table_base_register s, addr_to_index addr)).

Definition mmu_access (addr : Z) (write : bool) : vm (option Z) :=
  e ← mmu_entry addr;
  if read_enable e && (negb write || write_enable e) then mret (Some (ppage e))
  else
    ok ← vm_fault addr write;
    if (ok : bool) then
      e ← mmu_entry addr;
      if read_enable e && (negb write || write_enable e) then mret (Some (ppage e)) else undefined
    else mret None.

(** [None]: the access is an error of the application. *)
Definition mmu_load (addr : Z) : vm (option ascii) :=
  n ← mmu_access addr false;
  match n with
  | Some n => s ← get_state; mret (Some (read_frame n s (calculate_page_offset addr)))
  | None => mret None
  end.

Definition mmu_store (addr : Z) (c : ascii) : vm bool :=
  n ← mmu_access addr true;
  match n with
  | Some n =>
      s ← get_state;
      _ ← write_frame n (update_page (read_frame n s) (calculate_page_offset addr) c);
      mret true
  | None => mret false
  end.

(** ** Access *)

Lemma mmu_access_ok addr w p i s :
  Inv ∅ s → current s p i → 0 <= addr_to_index addr < num_virt_addr →
  wp (mmu_access addr w) (λ n s', Inv ∅ s' ∧ same_view s s' ∧ same_processes s s' ∧
    match n with
    | Some n => ∃ e, entries s' !! (p, addr_to_index addr) = Some e ∧ n = ppage e ∧ read_enable e = true ∧
        (w = true → write_enable e = true)
    | None => page_data s (p, addr_to_index addr) = None
    end) s.
Proof.
  intros Hi Hc Hv. pose proof Hc as [Hcur Hbase Hp]. set (v := addr_to_index addr) in *.
  destruct (pi_entries _ _ _ _ Hi p v ltac:(by exists i) Hv) as [e He].
  unfold mmu_access, mmu_entry. apply wp_bind, wp_bind, wp_get_state. rewrite Hbase. fold v. eapply wp_deref; [done|].
  destruct (read_enable e && (negb w || write_enable e)) eqn:Hre.
  - apply wp_ret. do 3 (split; [done|]). exists e. apply andb_true_iff in Hre as [Hre Hw]. do 3 (split; [done|]).
    intros ->. done.
  - apply wp_bind. eapply wp_mono; [by eapply (vm_fault_ok mem swp)|]. simpl. intros ok s1 (Hi1 & Hv1 & Hp1 & Hok).
    fold v in Hok. destruct ok; [|by apply wp_ret]. destruct Hok as (e1 & He1 & Hr1 & Hw1 & _).
    apply wp_bind, wp_bind, wp_get_state. destruct (processes_current _ _ _ _ Hp1 Hc) as [_ Hb1 _]. rewrite Hb1. fold v.
    eapply wp_deref; [done|]. assert (read_enable e1 && (negb w || write_enable e1) = true) as ->.
    { rewrite Hr1. destruct w; [by rewrite Hw1|done]. }
    apply wp_ret. do 3 (split; [done|]). by exists e1.
Qed.

(** ** A store *)

(** A page shows block [n] of file [f]. *)
Definition shows_file (x : option backing) (f : bytes) (n : Z) : bool :=
  match x with Some (Shared f' n') => bool_decide (f' = f ∧ n' = n) | _ => false end.

Definition stored s (n o : Z) (c : ascii) : pager :=
  set_physmem (insert (frame n) (update_page (read_frame n s) o c)) s.

Section stored.
Context (s : pager) (r : pte_ptr) (b : Z) (k : mem_block) (e : page_table_entry_t) (o : Z) (c : ascii).
Context (Hi : Inv ∅ s) (Hr : r ∈ users s b) (Hk : blocks s !! b = Some k) (He : entries s !! r = Some e)
  (Hw : write_enable e = true).

Abbreviation s' := (stored s (ppage e) o c).

Lemma stored_block : b ≠ zero_page ∧ resident k = true ∧ dirty k = true ∧ ppage e = location k ∧ b ∈ clock_queue s ∧
  1 <= location k < mem ∧ (is_swap k = true → users s b = {[r]}).
Proof.
  destruct (pi_ptes _ _ _ _ Hi r b k e Hr ltac:(clear; set_solver) Hk He) as [P1 P2 P3 P4].
  destruct (P3 Hw) as (Hre & Hd & Hsole). destruct (P1 Hre) as [Hres Hrf].
  assert (b ≠ zero_page) as Hnz.
  { intros ->. destruct (pi_zero _ _ _ _ Hi) as (k0 & Hk0 & Hz). simplify_eq. destruct (zo_flags _ _ _ Hz). congruence. }
  pose proof (pi_block _ _ _ _ Hi b k Hnz Hk) as Hok.
  assert (b ∈ clock_queue s) as Hc by (apply (bo_clock _ _ _ _ _ Hok); split; [done|]; left; clear -Hr; set_solver).
  split; [done|]. split; [done|]. split; [done|]. split; [auto|]. split; [done|].
  split; [apply (bo_frame _ _ _ _ _ Hok Hc)|]. intros Hs. rewrite <- (Hsole Hs), (bo_ptes _ _ _ _ _ Hok). clear. set_solver.
Qed.

Lemma stored_frame : read_frame (location k) s' = update_page (read_frame (location k) s) o c.
Proof.
  destruct stored_block as (_ & _ & _ & Hl & _). unfold read_frame at 1. simpl. by rewrite Hl, lookup_insert_eq.
Qed.

Lemma stored_other m : 0 <= m < mem → m ≠ location k → read_frame m s' = read_frame m s.
Proof.
  destruct stored_block as (_ & _ & _ & Hl & _ & Hloc & _). intros Hm Hne. unfold read_frame at 1. simpl. rewrite Hl.
  rewrite lookup_insert_ne; [done|]. rewrite !(frame_small mem) by lia. done.
Qed.

Lemma stored_other_block b' k' : b' ≠ b → b' ∈ clock_queue s → blocks s !! b' = Some k' →
  read_frame (location k') s' = read_frame (location k') s.
Proof.
  intros Hne Hc Hk'. destruct stored_block as (_ & _ & _ & _ & Hbc & _).
  destruct (clock_block mem swp ∅ s b' k' Hi Hc Hk') as (_ & Hok & _). destruct (bo_frame _ _ _ _ _ Hok Hc) as [Hl _].
  apply stored_other; [lia|]. intros Heq. apply Hne. by apply (pi_frames _ _ _ _ Hi b' b k' k).
Qed.

Lemma stored_inv : Inv ∅ s'.
Proof.
  pose proof Hi as [(k0 & Hk0 & [Z1 Z2 Z3 Z4 Z5 Z6]) Hb Hsl Hdj Hfs Hnx Hc Hfr Hfm Haf Htb Hin Har Hen Hpt Hhd].
  destruct stored_block as (Hnz & Hres & Hd & Hl & Hbc & Hloc & Hsole). split; try done.
  - exists k0. split; [done|]. split; try done. rewrite stored_other by lia. done.
  - intros b' k' Hnz' Hk'. change (blocks s !! b' = Some k') in Hk'. pose proof (Hb b' k' Hnz' Hk') as Hok. pose proof Hok as [H1 H1' H2 H3 H4 H5 H6 H7 H8 H9].
    split; try done. intros Hlive. specialize (H9 Hlive). unfold data_ok in *. destruct (resident k') eqn:Hr'; [|done].
    destruct (dirty k') eqn:Hd'; [done|]. change (disk s') with (disk s). rewrite H9. f_equal. symmetry. apply (stored_other_block b'); [|..|done].
    + intros ->. congruence.
    + apply H3. destruct Hlive as [Hcl|?]; [by apply H3 in Hcl|]. auto.
Qed.

Lemma stored_content b' k' : b' ≠ b → blocks s !! b' = Some k' → (b' = zero_page ∨ b' ∈ clock_queue s ∨ users s b' ≠ ∅) →
  content s' k' = content s k'.
Proof.
  intros Hne Hk' Hlive. unfold content. change (disk s') with (disk s). destruct (resident k') eqn:Hr'; [|done]. f_equal.
  destruct stored_block as (_ & _ & _ & _ & _ & Hloc & _). destruct (decide (b' = zero_page)) as [->|Hnz'].
  - destruct (pi_zero _ _ _ _ Hi) as (k0 & Hk0 & Hz). simplify_eq. destruct (zo_place _ _ _ Hz) as [-> _]. apply stored_other; lia.
  - apply (stored_other_block b'); [done| |done]. destruct Hlive as [?|[?|Hu]]; [done|done|].
    apply (bo_clock _ _ _ _ _ (pi_block _ _ _ _ Hi b' k' Hnz' Hk')). auto.
Qed.

Lemma stored_content_self : content s k = Some (read_frame (ppage e) s) ∧
  content s' k = Some (update_page (read_frame (ppage e) s) o c).
Proof.
  destruct stored_block as (_ & Hres & _ & Hl & _). unfold content. rewrite Hres. split; [by rewrite Hl|].
  rewrite stored_frame. by rewrite Hl.
Qed.

Lemma stored_view r' : view s' r' =
  if decide (r' = r ∧ is_swap k = true) then Some (Private (Some (update_page (read_frame (ppage e) s) o c))) else view s r'.
Proof.
  destruct stored_block as (_ & _ & _ & _ & _ & _ & Hsole). destruct stored_content_self as [_ Hc'].
  unfold view. change (infos s') with (infos s). case_decide as Hd.
  - destruct Hd as [-> Hs]. rewrite (proj1 (elem_of_users _ _ _) Hr). unfold view_block. change (blocks s') with (blocks s).
    rewrite Hk. simpl. by rewrite Hs, Hc'.
  - destruct (infos s !! r') as [[[] [b'|]]|] eqn:Hx; try done. unfold view_block. change (blocks s') with (blocks s).
    destruct (blocks s !! b') as [k'|] eqn:Hk'; [|done]. simpl. destruct (is_swap k') eqn:Hs'; [|done]. do 2 f_equal.
    assert (r' ∈ users s b') as Hu by by apply elem_of_users. destruct (decide (b' = b)) as [->|Hne].
    + assert (k' = k) as -> by congruence. rewrite (Hsole Hs') in Hu. apply elem_of_singleton in Hu. by destruct Hd.
    + apply (stored_content b'); [done|done|]. right. right. clear -Hu. set_solver.
Qed.

Lemma shows_file_true x f n : shows_file x f n = true ↔ x = Some (Shared f n).
Proof. destruct x as [[|f' n']|]; simpl; [done| |done]. rewrite bool_decide_eq_true. naive_solver. Qed.

Lemma stored_files f n : file_content s' f n =
  if shows_file (view s r) f n then Some (update_page (read_frame (ppage e) s) o c) else file_content s f n.
Proof.
  destruct stored_block as (Hnz & Hres & _). destruct stored_content_self as [_ Hc'].
  unfold file_content. change (file_mapping_table s') with (file_mapping_table s). change (blocks s') with (blocks s).
  pose proof (pi_block _ _ _ _ Hi b k Hnz Hk) as Hok. destruct (shows_file (view s r) f n) eqn:Hd.
  - apply shows_file_true in Hd. destruct (is_swap k) eqn:Hs; [by rewrite (view_private s b k) in Hd|].
    rewrite (view_shared s b k) in Hd by done. injection Hd as <- <-.
    rewrite (proj2 (bo_table _ _ _ _ _ Hok Hs)) by (left; clear -Hr; set_solver). by rewrite Hk.
  - destruct (file_mapping_table s !! (f, n)) as [b'|] eqn:Ht; [|done].
    destruct (pi_table _ _ _ _ Hi f n b' Ht) as (Hnz' & k' & Hk' & Hs' & <- & <-). rewrite Hk'.
    apply (stored_content b'); [|done|].
    + intros ->. assert (k' = k) as -> by congruence. rewrite (view_shared s b k) in Hd by done.
      apply not_true_iff_false in Hd. apply Hd. by apply shows_file_true.
    + right. pose proof (pi_block _ _ _ _ Hi b' k' Hnz' Hk') as Hok'.
      destruct (proj1 (bo_table _ _ _ _ _ Hok' Hs') Ht) as [?|?]; [by right|left]. apply (bo_clock _ _ _ _ _ Hok'). auto.
Qed.
End stored.

(** What a store of [c] at offset [o] of page [r] does to the arenas. *)
Record store_seen s r (o : Z) (c : ascii) s' : Prop := {
  ss_page : ∃ p, page_data s r = Some p ∧ page_data s' r = Some (update_page p o c);
  ss_view r' : view s' r' = if decide (r' = r) then
      match view s r with Some (Private _) => Some (Private (page_data s' r)) | x => x end else view s r';
  ss_files f n : file_content s' f n = if shows_file (view s r) f n then page_data s' r else file_content s f n;
}.

Lemma stored_seen s r b k e o c :
  Inv ∅ s → r ∈ users s b → blocks s !! b = Some k → entries s !! r = Some e → write_enable e = true →
  Inv ∅ (stored s (ppage e) o c) ∧ store_seen s r o c (stored s (ppage e) o c).
Proof.
  intros Hi Hr Hk He Hw. pose proof (stored_inv s r b k e o c Hi Hr Hk He Hw) as Hi'. split; [done|].
  destruct (stored_content_self s r b k e o c Hi Hr Hk He Hw) as [Hc Hc'].
  assert (page_data (stored s (ppage e) o c) r = Some (update_page (read_frame (ppage e) s) o c)) as Hp'
    by (rewrite (user_data mem swp ∅ _ b k r Hi' Hr Hk); exact Hc').
  split.
  - exists (read_frame (ppage e) s). split; [by rewrite (user_data mem swp ∅ s b k)|done].
  - intros r'. rewrite (stored_view s r b k e o c) by done. rewrite Hp'. destruct (is_swap k) eqn:Hs.
    + rewrite (view_private s b k r) by done. destruct (decide (r' = r)) as [->|Hne]; [by rewrite decide_True|].
      by rewrite decide_False by tauto.
    + rewrite decide_False by (intros [_ ?]; congruence). rewrite (view_shared s b k r) by done.
      case_decide as Hd; [|done]. subst. exact (view_shared s b k r Hr Hk Hs).
  - intros f n. rewrite (stored_files s r b k e o c) by done. by rewrite Hp'.
Qed.

Lemma stored_processes s n o c : same_processes s (stored s n o c) ∧ (closed s → closed (stored s n o c)).
Proof. done. Qed.

Lemma mmu_load_ok addr p i s :
  Inv ∅ s → current s p i → closed s → 0 <= addr_to_index addr < num_virt_addr →
  wp (mmu_load addr) (λ c s', Inv ∅ s' ∧ same_view s s' ∧ same_processes s s' ∧
    c = match page_data s (p, addr_to_index addr) with Some pg => Some (pg (calculate_page_offset addr)) | None => None end) s.
Proof.
  intros Hi Hc Hcl Hv. unfold mmu_load. apply wp_bind. eapply wp_mono; [by eapply mmu_access_ok|]. simpl.
  intros n s1 (Hi1 & Hv1 & Hp1 & Hn). destruct n as [n|]; [|apply wp_ret; by rewrite Hn].
  destruct Hn as (e & He & -> & Hre & _). apply wp_bind, wp_get_state, wp_ret. do 3 (split; [done|]).
  pose proof (closed_same mem swp ∅ s s1 Hi Hv1 Hp1 Hcl) as Hcl1. set (r := (p, addr_to_index addr)) in *.
  destruct (info_valid mem swp ∅ s1 r Hi1) as [[b Hr]|[Hno _]].
  2: { rewrite (Hcl1 r e He Hno) in Hre. done. }
  destruct (inv_user_block mem swp ∅ s1 b r Hi1 Hr) as [k Hk].
  rewrite <- (same_view_data s s1) by done. rewrite (user_data mem swp ∅ s1 b k r) by done.
  destruct (pi_ptes _ _ _ _ Hi1 r b k e Hr ltac:(clear; set_solver) Hk He) as [P1 P2 P3 P4].
  destruct (P1 Hre) as [Hres _]. unfold content. by rewrite Hres, (P2 Hres).
Qed.

Lemma mmu_store_ok addr c p i s :
  Inv ∅ s → current s p i → closed s → 0 <= addr_to_index addr < num_virt_addr →
  wp (mmu_store addr c) (λ ok s', Inv ∅ s' ∧ same_processes s s' ∧ closed s' ∧
    if ok then store_seen s (p, addr_to_index addr) (calculate_page_offset addr) c s'
    else same_view s s' ∧ page_data s (p, addr_to_index addr) = None) s.
Proof.
  intros Hi Hc Hcl Hv. unfold mmu_store. apply wp_bind. eapply wp_mono; [by eapply mmu_access_ok|]. simpl.
  intros n s1 (Hi1 & Hv1 & Hp1 & Hn). pose proof (closed_same mem swp ∅ s s1 Hi Hv1 Hp1 Hcl) as Hcl1.
  destruct n as [n|]; [|by apply wp_ret]. destruct Hn as (e & He & -> & Hre & Hw). specialize (Hw eq_refl).
  apply wp_bind, wp_get_state, wp_bind, wp_modify, wp_ret. set (r := (p, addr_to_index addr)) in *.
  destruct (info_valid mem swp ∅ s1 r Hi1) as [[b Hr]|[Hno _]].
  2: { rewrite (Hcl1 r e He Hno) in Hre. done. }
  destruct (inv_user_block mem swp ∅ s1 b r Hi1 Hr) as [k Hk].
  destruct (stored_seen s1 r b k e (calculate_page_offset addr) c Hi1 Hr Hk He Hw) as [Hi2 [S1 S2 S3]].
  fold (stored s1 (ppage e) (calculate_page_offset addr) c) in *.
  destruct Hv1 as [Hv1 Hf1]. split; [exact Hi2|]. split; [etransitivity; [exact Hp1|apply stored_processes]|].
  split; [by apply stored_processes|]. split.
  - by rewrite <- (same_view_data s s1).
  - intros r'. rewrite S2, !Hv1. done.
  - intros f m. rewrite S3, Hv1, Hf1. done.
Qed.
End store.
