(* ===== verification/PagerCorrect.v ===== *)
(** * The pager: correctness

    What the pager promises in [vm_pager.h], as theorems about its entry points:
    the kernel may call them in any order that obeys the protocol, and every
    process sees the arena that its own calls, stores and parent gave it. *)
From S2P Require Import Prelude Pager PagerInv PagerCow PagerFault PagerMap PagerString PagerFork PagerExit PagerStore.

Local Open Scope Z_scope.

Section correct.
Context `{HF : Files, HO : SetOrder, !FilesSpec, !SetOrderSpec}.
Context (mem swp slack : Z).
Implicit Types s : pager.

(** ** Good states

    [slack] bounds what [vm_create] may find in the memory of the counter that it
    does not initialise: 0 if that is always zero. *)

Record good s : Prop := {
  gd_inv : pager_inv mem swp ∅ s;
  gd_closed : closed s;
  gd_arenas p i : process_info_mp s !! p = Some i → arena_ok slack s p i;
}.

Lemma arena_ok_ext s s' p i : (∀ v, view s' (p, v) = view s (p, v)) → arena_ok slack s p i → arena_ok slack s' p i.
Proof.
  intros Hv [H1 H2]. split; [intros v; rewrite Hv; apply H1|]. by rewrite (swap_pages_ext s s').
Qed.

Lemma good_same s s' :
  pager_inv mem swp ∅ s' → same_view s s' → process_info_mp s' = process_info_mp s → closed s' → good s → good s'.
Proof.
  intros Hi [Hv _] Hp Hc [_ _ Ha]. split; [done|done|]. intros p i. rewrite Hp. intros Hpi.
  apply (arena_ok_ext s); [done|by apply Ha].
Qed.

(** *** Initialisation *)

Lemma vm_init_ok p d : 2 <= mem <= 2 ^ 16 → 0 <= swp → wp (vm_init mem swp) (λ _, good) (initial_pager p d).
Proof.
  intros Hm Hs. unfold vm_init. apply wp_bind, wp_modify, wp_bind, wp_modify, wp_bind, wp_get_state, wp_bind, wp_assert.
  { simpl. rewrite length_seqZ. apply Z.eqb_eq. lia. }
  apply wp_modify. set (s := set_physmem _ _).
  assert (∀ b, users s b = ∅) as Hu.
  { intros b. apply leibniz_equiv. intros r. split; [intros Hr%elem_of_users; done|intros Hr; clear -Hr; set_solver]. }
  assert (∀ b k, blocks s !! b = Some k → b = zero_page ∧ k = new_mem_block 0 phys) as Hb.
  { intros b k. simpl. intros Hk. by apply lookup_singleton_Some in Hk as [<- <-]. }
  split; [|by intros r e He|by intros q i Hq].
  split; try done.
  - exists (new_mem_block 0 phys). split; [done|]. split; try done; simpl.
    + set_solver.
    + unfold read_frame. simpl. by rewrite lookup_insert_eq.
  - intros b k Hnz Hk. by destruct (Hb b k Hk).
  - intros b k Hk. destruct (Hb b k Hk) as [_ ->]. split; [constructor|]. intros n Hn. by apply not_elem_of_nil in Hn.
  - intros b b' k k' n Hk Hk'. by destruct (Hb b k Hk) as [-> _], (Hb b' k' Hk') as [-> _].
  - split; simpl; [apply NoDup_seqZ|]. intros n Hn. apply elem_of_seqZ in Hn. lia.
  - intros b [k Hk]. destruct (Hb b k Hk) as [-> _]. done.
  - split; simpl; [constructor|]. intros b Hn. by apply not_elem_of_nil in Hn.
  - intros b b' k k' Hn. by apply not_elem_of_nil in Hn.
  - split; simpl; [apply NoDup_seqZ|]. intros n Hn. apply elem_of_seqZ in Hn. lia.
  - simpl. unfold len. rewrite length_seqZ. simpl. lia.
  - by intros q v [i Hq].
Qed.

(** *** The entry points *)

Lemma vm_fault_good addr w i s : mem <= 2 ^ 16 → 2 <= mem → good s → current s (curr_pid s) i → wp (vm_fault addr w) (λ _, good) s.
Proof.
  intros Hm Hm2 Hg Hc. pose proof Hg as [Hi Hcl Ha].
  eapply wp_mono; [by eapply (vm_fault_ok mem swp)|]. intros ok s' (Hi' & Hv & Hp & _).
  apply (good_same s); try done; [apply Hp|by eapply (closed_same mem swp ∅ s)].
Qed.

Lemma swap_pages_app s p l l' : swap_pages s p (l ++ l') = swap_pages s p l + swap_pages s p l'.
Proof. induction l as [|v l IH]; simpl; [done|]. rewrite IH. lia. Qed.

Lemma swap_pages_le s p l : swap_pages s p l <= len l.
Proof. induction l as [|v l IH]; simpl; [done|]. unfold len in *. simpl. destruct (shows_private s (p, v)); lia. Qed.

Lemma mapped_good s p i bk s' :
  slack < 2 ^ 32 - num_virt_addr →
  good s → process_info_mp s !! p = Some i → next_invalid_page i < num_virt_addr → mapped mem swp s p i bk s' → good s'.
Proof.
  intros Hslack [Hi Hcl Ha] Hp Hlt [M1 M2 M3 M4 M5 M6 M7]. split; [done|auto|]. intros q j. rewrite M4.
  set (n := next_invalid_page i) in *. destruct (Ha p i Hp) as [H1 H2]. fold n in H1, H2.
  destruct (decide (q = p)) as [->|Hne].
  - rewrite lookup_insert_eq. intros [= <-]. pose proof (pi_arena _ _ _ _ Hi p i Hp) as Har. fold n in Har.
    split; simpl; fold n.
    + intros v Hv. rewrite M2. destruct (decide ((p, v) = (p, n))) as [|Hvn]; [by eexists|]. apply H1.
      assert (v ≠ n) by congruence. lia.
    + assert (seqZ 0 (n + 1) = seqZ 0 n ++ [n]) as ->.
      { rewrite (seqZ_app 0 n 1) by lia. f_equal. }
      rewrite swap_pages_app.
      assert (swap_pages s' p (seqZ 0 n) = swap_pages s p (seqZ 0 n)) as ->.
      { apply swap_pages_ext. intros v Hv. rewrite M2. apply elem_of_seqZ in Hv. rewrite decide_False; [done|]. intros [= ->]. lia. }
      simpl. unfold shows_private. rewrite M2, decide_True by done.
      pose proof (swap_pages_nonneg s p (seqZ 0 n)) as Hnn. pose proof (swap_pages_le s p (seqZ 0 n)) as Hle.
      unfold len in Hle. rewrite length_seqZ in Hle. unfold num_virt_addr in *. change (VM_ARENA_SIZE / VM_PAGESIZE) with 256 in *.
      destruct bk; simpl; [|lia]. unfold wrap32. rewrite Z.mod_small by lia. lia.
  - rewrite lookup_insert_ne by done. intros Hq. apply (arena_ok_ext s); [|by apply Ha]. intros v. rewrite M2.
    rewrite decide_False; [done|]. congruence.
Qed.

Lemma vm_map_good filename block i s :
  slack < 2 ^ 32 - num_virt_addr →
  mem <= 2 ^ 16 → 2 <= mem → good s → current s (curr_pid s) i → (∀ a, filename = Some a → a < 2 ^ 64) →
  wp (vm_map filename block) (λ _, good) s.
Proof.
  intros Hslack Hm Hm2 Hg Hc Ha. pose proof Hg as [Hi Hcl Har]. pose proof Hc as [_ _ Hp].
  eapply wp_mono; [by eapply (vm_map_ok mem swp)|]. intros [a|] s'; simpl.
  - intros (Hlt & _ & bk & _ & Hm'). by eapply mapped_good.
  - intros [_ (Hi' & Hv & Hpg)]. pose proof (paging_processes _ _ Hpg) as Hpp.
    apply (good_same s); try done; [apply Hpp|by eapply (closed_same mem swp ∅ s)].
Qed.

Lemma vm_create_good garbage parent child s :
  0 <= garbage <= slack →
  mem <= 2 ^ 16 → good s → process_info_mp s !! child = None → parent ≠ child →
  wp (vm_create garbage parent child) (λ _, good) s.
Proof.
  intros Hgarb Hm Hg Hch Hne. pose proof Hg as [Hi Hcl Ha].
  eapply wp_mono; [apply (vm_create_ok mem swp Hm garbage slack parent child s Hi Hch); [intros i; apply Ha|done]|].
  intros ok s' [F1 F2 F3 F4 F5 F6]. split; [done|auto|]. intros q j Hq.
  assert (∀ f, process_info_mp s' = <[child := f]> (process_info_mp s) → arena_ok slack s' child f → arena_ok slack s' q j) as Hcase.
  { intros f Hps Hf. rewrite Hps in Hq. apply lookup_insert_Some in Hq as [[<- <-]|[Hn Hq]]; [done|].
    apply (arena_ok_ext s); [intros v; by apply F4|by apply Ha]. }
  assert (arena_ok slack s' child (new_process garbage)) as Hnew by (split; simpl; lia).
  destruct (process_info_mp s !! parent) as [i|] eqn:Hp.
  - destruct F6 as [_ F6]. destruct ok; [|apply (Hcase (new_process garbage)); [by apply F6|done]].
    destruct F6 as (Hps & Hv & _). apply (Hcase i Hps). destruct (Ha parent i Hp) as [H1 H2].
    assert (∀ l, swap_pages s' child l = swap_pages s parent l) as Hsp.
    { intros l. induction l as [|v l IH]; simpl; [done|]. unfold shows_private. by rewrite Hv, IH. }
    split; [intros v; rewrite Hv; apply H1|by rewrite Hsp].
  - destruct F6 as (_ & Hps & _). by apply (Hcase (new_process garbage)).
Qed.

Lemma vm_destroy_good i s : good s → current s (curr_pid s) i → wp vm_destroy (λ _, good) s.
Proof.
  intros Hg Hc. pose proof Hg as [Hi Hcl Ha]. pose proof Hc as [_ _ Hp].
  eapply wp_mono; [eapply (vm_destroy_ok mem swp (curr_pid s) i s Hi Hc); apply (Ha _ i Hp)|].
  intros [] s' [D1 D2 D3 D4 D5 D6]. split; [done|auto|]. intros q j. rewrite D2. intros [Hne Hq]%lookup_delete_Some.
  apply (arena_ok_ext s); [|by apply Ha]. intros v. rewrite D3. by rewrite decide_False by (simpl; congruence).
Qed.

Lemma switched_good p s : good s → good (set_curr p s).
Proof.
  intros Hg. pose proof Hg as [Hi Hcl Ha].
  assert (pager_inv mem swp ∅ (set_curr p s)) as Hi'; [|by apply (good_same s)].
  destruct Hi as [(k0 & Hk0 & [Z1 Z2 Z3 Z4 Z5 Z6]) Hb Hsl Hdj Hfs Hnx Hc Hfr Hfm Haf Htb Hin Har Hen Hpt Hhd].
  split; try done.
  - exists k0. split; [done|]. by split.
  - intros b k Hnz Hk. destruct (Hb b k Hnz Hk) as [H1 H1' H2 H3 H4 H5 H6 H7 H8 H9]. by split.
Qed.

Lemma vm_switch_good p s : good s → wp (vm_switch p) (λ _, good) s.
Proof.
  intros Hg. unfold vm_switch. apply wp_bind, wp_get_state. destruct (process_info_mp s !! p); [|by apply wp_ret].
  apply wp_modify. by apply switched_good.
Qed.

Lemma mmu_store_good addr c i s :
  mem <= 2 ^ 16 → 2 <= mem → good s → current s (curr_pid s) i → 0 <= addr_to_index addr < num_virt_addr →
  wp (mmu_store addr c) (λ _, good) s.
Proof.
  intros Hm Hm2 Hg Hc Hv. pose proof Hg as [Hi Hcl Ha].
  eapply wp_mono; [by eapply (mmu_store_ok mem swp)|]. intros ok s' (Hi' & Hp & Hcl' & Hok).
  destruct ok; [|destruct Hok as [Hsv _]; apply (good_same s); try done; apply Hp].
  destruct Hok as [(pg & S1 & S2) S3 S4]. split; [done|done|]. intros q j. rewrite (sp_procs _ _ Hp). intros Hq.
  assert (∀ r, is_Some (view s' r) ↔ is_Some (view s r)) as Hsome.
  { intros r. rewrite S3. case_decide; [|done]. subst. destruct (view s _) as [[]|]; split; by eauto. }
  assert (∀ r, shows_private s' r = shows_private s r) as Hpriv.
  { intros r. unfold shows_private. rewrite S3. case_decide; [|done]. subst. by destruct (view s _) as [[]|]. }
  destruct (Ha q j Hq) as [H1 H2]. split; [intros v Hv'; by apply Hsome, H1|].
  assert (∀ l, swap_pages s' q l = swap_pages s q l) as ->; [|done].
  intros l. induction l as [|v l IH]; simpl; [done|]. by rewrite Hpriv, IH.
Qed.

Lemma mmu_load_good addr i s :
  mem <= 2 ^ 16 → 2 <= mem → good s → current s (curr_pid s) i → 0 <= addr_to_index addr < num_virt_addr →
  wp (mmu_load addr) (λ _, good) s.
Proof.
  intros Hm Hm2 Hg Hc Hv. pose proof Hg as [Hi Hcl Ha].
  eapply wp_mono; [by eapply (mmu_load_ok mem swp)|]. intros c s' (Hi' & Hsv & Hp & _).
  apply (good_same s); try done; [apply Hp|by eapply (closed_same mem swp ∅ s)].
Qed.
(** ** Sequences of calls *)

(** What the kernel and the running process do; [garbage] is what [vm_create]
    finds in the memory of the counter that it does not initialise. *)
Inductive event :=
  | Create (garbage parent child : Z)
  | Switch (pid : Z)
  | Fault (addr : Z) (write_flag : bool)
  | Map (filename : option Z) (block : Z)
  | Destroy
  | Load (addr : Z)
  | Store (addr : Z) (c : ascii).

Definition run_event (e : event) : vm () :=
  match e with
  | Create garbage parent child => _ ← vm_create garbage parent child; mret ()
  | Switch pid => vm_switch pid
  | Fault addr w => _ ← vm_fault addr w; mret ()
  | Map filename block => _ ← vm_map filename block; mret ()
  | Destroy => vm_destroy
  | Load addr => _ ← mmu_load addr; mret ()
  | Store addr c => _ ← mmu_store addr c; mret ()
  end.

Fixpoint run_events (l : list event) : vm () :=
  match l with [] => mret () | e :: l => _ ← run_event e; run_events l end.

(** The protocol: the child's pid is new; only a process that was switched to
    faults, maps, exits, loads and stores, the latter in the arena; the name of a file
    is any 64-bit pointer.  The memory of the new counter holds at most [slack]. *)
Definition runs_process s : bool :=
  (page_table_base_register s =? curr_pid s) && match process_info_mp s !! curr_pid s with Some _ => true | None => false end.

Definition in_arena (a : Z) : bool := (VM_ARENA_BASEADDR <=? a) && (a <? VM_ARENA_BASEADDR + VM_ARENA_SIZE).

Definition allowed (e : event) s : bool :=
  match e with
  | Create garbage parent child =>
      (0 <=? garbage) && (garbage <=? slack) &&
      (negb (parent =? child) && match process_info_mp s !! child with Some _ => false | None => true end)
  | Switch _ => true
  | Fault _ _ | Destroy => runs_process s
  | Map filename _ => runs_process s && match filename with Some a => a <? 2 ^ 64 | None => true end
  | Load a | Store a _ => runs_process s && in_arena a
  end.

Fixpoint obeys (l : list event) s : bool :=
  match l with
  | [] => true
  | e :: l => allowed e s && match run_event e s with Some (_, s') => obeys l s' | None => true end
  end.

Lemma runs_current s : runs_process s = true → ∃ i, current s (curr_pid s) i.
Proof.
  unfold runs_process. intros [Hb%Z.eqb_eq Hp]%andb_true_iff.
  destruct (process_info_mp s !! curr_pid s) as [i|] eqn:Hi; [|done]. by exists i.
Qed.

Lemma in_arena_index a : in_arena a = true → 0 <= addr_to_index a < num_virt_addr.
Proof.
  unfold in_arena. intros [H1%Z.leb_le H2%Z.ltb_lt]%andb_true_iff.
  unfold VM_ARENA_BASEADDR, VM_ARENA_SIZE in *. rewrite addr_to_index_user by (unfold VM_ARENA_BASEADDR; lia).
  unfold num_virt_addr, VM_ARENA_BASEADDR, VM_ARENA_SIZE, VM_PAGESIZE.
  split; [apply Z.div_pos; lia|]. apply Z.div_lt_upper_bound; [lia|].
  change (0x10000 * (0x1000000 / 0x10000)) with 0x1000000. lia.
Qed.

Lemma run_event_good e s :
  slack < 2 ^ 32 - num_virt_addr → 2 <= mem <= 2 ^ 16 → good s → allowed e s = true → wp (run_event e) (λ _, good) s.
Proof.
  intros Hslack [Hm2 Hm] Hg Ha. destruct e as [g a b|p|a w|f n| |a|a c]; simpl in Ha.
  - apply andb_true_iff in Ha as [[Hg1%Z.leb_le Hg2%Z.leb_le]%andb_true_iff [Hne%negb_true_iff%Z.eqb_neq Hb]%andb_true_iff].
    apply wp_bind. eapply wp_mono; [apply vm_create_good; try done; by destruct (process_info_mp s !! b)|]. done.
  - by apply vm_switch_good.
  - destruct (runs_current s Ha) as [i Hc]. apply wp_bind. eapply wp_mono; [by eapply vm_fault_good|]. done.
  - apply andb_true_iff in Ha as [Hr Hf]. destruct (runs_current s Hr) as [i Hc]. apply wp_bind.
    eapply wp_mono; [eapply vm_map_good; try done; intros a ->; by apply Z.ltb_lt|]. done.
  - destruct (runs_current s Ha) as [i Hc]. by eapply vm_destroy_good.
  - apply andb_true_iff in Ha as [Hr Hf]. destruct (runs_current s Hr) as [i Hc]. apply wp_bind.
    eapply wp_mono; [eapply mmu_load_good; try done; by apply in_arena_index|]. done.
  - apply andb_true_iff in Ha as [Hr Hf]. destruct (runs_current s Hr) as [i Hc]. apply wp_bind.
    eapply wp_mono; [eapply mmu_store_good; try done; by apply in_arena_index|]. done.
Qed.

Lemma run_events_good l s :
  slack < 2 ^ 32 - num_virt_addr → 2 <= mem <= 2 ^ 16 → good s → obeys l s = true → wp (run_events l) (λ _, good) s.
Proof.
  intros Hslack Hm. revert s; induction l as [|e l IH]; intros s Hg Ho; simpl in *; [by apply wp_ret|].
  apply andb_true_iff in Ho as [Ha Ho]. apply wp_bind. pose proof (run_event_good e s Hslack Hm Hg Ha) as He.
  unfold wp in He |- *. destruct (run_event e s) as [[[] s1]|]; [|done]. by apply IH.
Qed.

(** From the start. *)
Definition boot (l : list event) : vm () := _ ← vm_init mem swp; run_events l.

Definition obeys_from_start (p : gmap Z page) (d : files) (l : list event) : bool :=
  match vm_init mem swp (initial_pager p d) with Some (_, s) => obeys l s | None => true end.

Lemma boot_good p d l :
  slack < 2 ^ 32 - num_virt_addr → 2 <= mem <= 2 ^ 16 → 0 <= swp → obeys_from_start p d l = true → wp (boot l) (λ _, good) (initial_pager p d).
Proof.
  intros Hslack Hm Hs Ho. apply wp_bind. pose proof (vm_init_ok p d Hm Hs) as Hi. unfold obeys_from_start in Ho.
  unfold wp in Hi |- *. destruct (vm_init mem swp (initial_pager p d)) as [[[] s]|]; [|done]. by apply run_events_good.
Qed.

(** ** The theorems *)

(** (C30) Whatever is in memory and on disk at first, every sequence of calls of
    [vm_create], [vm_switch], [vm_fault], [vm_map] and [vm_destroy], and of loads and
    stores of the running process, that obeys the kernel's protocol runs without a failed
    assertion, a null pointer or an empty queue, and keeps the invariant: blocks, page
    tables, queues and tables agree, no entry lets an access reach a page that is not mapped
    or a place where its data is not, and every process has the pages and the swap blocks it
    should have.  The counter [num_swap_blocks], which the constructor does not
    initialise, may start with anything up to [slack], less than 2^32 - 256, as
    then it does not wrap while the 256 pages of the arena are mapped; how the
    other values break the pager is [uninitialised_counter_wraps] below. *)
Theorem pager_never_fails p d l :
  slack < 2 ^ 32 - num_virt_addr → 2 <= mem <= 2 ^ 16 → 0 <= swp → obeys_from_start p d l = true →
  ∃ s, boot l (initial_pager p d) = Some ((), s) ∧ good s.
Proof.
  intros Hslack Hm Hs Ho. pose proof (boot_good p d l Hslack Hm Hs Ho) as Hw. unfold wp in Hw.
  destruct (boot l (initial_pager p d)) as [[[] s]|]; [by exists s|done].
Qed.

(** (C32) [vm_fault] returns 0 exactly if the page is mapped and its data can be
    read; then the MMU lets the access through, to the data of the page.  No arena, no
    file, no other process and no swap reservation changes, though blocks may have been paged
    out and in and a shared block copied. *)
Theorem vm_fault_correct addr w pid i s :
  2 <= mem <= 2 ^ 16 → good s → current s pid i →
  wp (vm_fault addr w) (λ ok s', good s' ∧ same_view s s' ∧ process_info_mp s' = process_info_mp s ∧
    free_swap_blocks s' = free_swap_blocks s ∧
    (ok = true ↔ is_Some (page_data s (pid, addr_to_index addr))) ∧
    (ok = true → accessible s' (pid, addr_to_index addr) w)) s.
Proof.
  intros [Hm2 Hm] Hg Hc. pose proof Hg as [Hi Hcl Ha]. assert (pid = curr_pid s) as -> by by destruct Hc.
  eapply wp_mono; [by eapply (vm_fault_ok mem swp)|]. intros ok s' (Hi' & Hv & Hp & Hok).
  split; [apply (good_same s); try done; [apply Hp|by eapply (closed_same mem swp ∅ s)]|].
  split; [done|]. split; [apply Hp|]. split; [apply Hp|]. destruct ok.
  - split; [|done]. split; [intros _|done]. destruct Hok as (e & _ & _ & _ & Hd).
    rewrite <- (same_view_data s s') by done. rewrite Hd. by eexists.
  - split; [|done]. split; [done|]. rewrite Hok. by intros [? ?].
Qed.

(** (C31) A store of the running process changes its byte in its page, and, if
    the page shows a block of a file, in that block, whoever else shows it; every other page of
    every process and every other file block is as before, also those that shared a block of
    memory with the page (copy-on-write).  A store to a page that is not mapped, or whose
    file cannot be read, changes nothing. *)
Theorem store_isolated addr c pid i s :
  2 <= mem <= 2 ^ 16 → good s → current s pid i → in_arena addr = true →
  wp (mmu_store addr c) (λ ok s', good s' ∧ process_info_mp s' = process_info_mp s ∧
    if ok then store_seen s (pid, addr_to_index addr) (calculate_page_offset addr) c s'
    else same_view s s' ∧ page_data s (pid, addr_to_index addr) = None) s.
Proof.
  intros [Hm2 Hm] Hg Hc Ha%in_arena_index. pose proof Hg as [Hi Hcl Har]. assert (pid = curr_pid s) as -> by by destruct Hc.
  eapply wp_mono; [apply wp_and; [by eapply mmu_store_good|by eapply (mmu_store_ok mem swp)]|].
  intros ok s' [Hg' (_ & Hp & _ & Hok)]. split; [done|]. split; [apply Hp|done].
Qed.

(** (C33) [vm_map] returns a null pointer exactly if the arena is full, or no swap
    block is left for a swap-backed page, or the name, any 64-bit pointer, is not a string
    of the process, and then no arena changes; otherwise it returns the address of the lowest
    invalid page, which from now on shows zeroes or the block of the file that the name,
    read from the arena, says, and nothing else changes.  A string of the process
    is one at an address not below the arena that [addr_to_index] takes for the
    arena: besides the arena itself these are its images 2^48 bytes apart, where
    [vm_pager.h] asks for a null pointer ([far_name_is_accepted] below). *)
Theorem vm_map_correct filename block pid i s :
  slack < 2 ^ 32 - num_virt_addr → 2 <= mem <= 2 ^ 16 → good s → current s pid i →
  (∀ a, filename = Some a → a < 2 ^ 64) →
  wp (vm_map filename block) (λ a s', good s' ∧ map_result mem swp s pid i filename block a s') s.
Proof.
  intros Hslack [Hm2 Hm] Hg Hc Ha. pose proof Hg as [Hi Hcl Har]. assert (pid = curr_pid s) as -> by by destruct Hc.
  apply wp_and; [by eapply vm_map_good|by eapply (vm_map_ok mem swp)].
Qed.

(** (C34) [vm_create] gives the child the arena of the parent, or an empty one if
    the kernel does not manage the parent, and a swap block for each of its swap-backed pages;
    it fails exactly if fewer swap blocks are free than the counter of the parent says,
    and then leaves the child with an empty arena.  No other arena changes.  The
    counter of a process is the number of its swap-backed pages plus what its
    uninitialised memory held, at most [slack]: exactly that number if [slack]
    is 0, and otherwise a fork may fail although there are enough blocks
    ([uninitialised_counter] below), but never succeeds without them. *)
Theorem vm_create_correct garbage parent child s :
  2 <= mem <= 2 ^ 16 → 0 <= garbage <= slack → good s → process_info_mp s !! child = None → parent ≠ child →
  wp (vm_create garbage parent child) (λ ok s', good s' ∧ forked mem swp s garbage parent child ok s') s.
Proof.
  intros [Hm2 Hm] Hgarb Hg Hch Hne. pose proof Hg as [Hi Hcl Ha].
  apply wp_and; [by apply vm_create_good|].
  apply (vm_create_ok mem swp Hm garbage slack parent child s Hi Hch); [intros i; apply Ha|done].
Qed.

(** (C35) [vm_destroy] removes the running process: its pages are gone, the swap
    blocks that were reserved for them are free again, no physical page is lost, and no
    other arena and no file changes. *)
Theorem vm_destroy_correct pid i s :
  good s → current s pid i → wp vm_destroy (λ _ s', good s' ∧ destroyed mem swp s pid i s') s.
Proof.
  intros Hg Hc. pose proof Hg as [Hi Hcl Ha]. assert (pid = curr_pid s) as -> by by destruct Hc.
  apply wp_and; [by eapply vm_destroy_good|]. pose proof Hc as [_ _ Hp].
  apply (vm_destroy_ok mem swp _ i s Hi Hc). apply (Ha _ i Hp).
Qed.

(** (C36) The clock finds a block to evict however many of them were referenced, and
    eviction frees a physical page; what every process and every file shows is the same,
    the evicted page being in its file or swap block if it was dirty. *)
Theorem evict_phys_page_correct s :
  2 <= mem <= 2 ^ 16 → good s → clock_queue s ≠ [] →
  wp evict_phys_page (λ _ s', good s' ∧ same_view s s' ∧ free_mem_blocks s' ≠ []) s.
Proof.
  intros [Hm2 Hm] Hg Hc. pose proof Hg as [Hi Hcl Ha].
  eapply wp_mono; [by apply (evict_phys_page_ok mem swp ∅)|]. intros [] s' [H1 H2 H3 H4 _]. split; [|done].
  pose proof (paging_processes _ _ H3) as Hp. apply (good_same s); try done; [apply Hp|by eapply (closed_same mem swp ∅ s)].
Qed.
End correct.

(** The address of a page in the arena is translated back to the page and its
    offset; addresses of the arena are those of its pages. *)
Theorem index_addr_round_trip v o :
  0 <= v < num_virt_addr → 0 <= o < VM_PAGESIZE →
  addr_to_index (index_to_addr v + o) = v ∧ calculate_page_offset (index_to_addr v + o) = o ∧
  in_arena (index_to_addr v + o) = true.
Proof.
  unfold num_virt_addr, in_arena, index_to_addr, VM_PAGESIZE, VM_ARENA_SIZE, VM_ARENA_BASEADDR.
  change (0x1000000 / 0x10000) with 256. intros Hv Ho.
  assert (wrap32 (v * 0x10000) = v * 0x10000) as -> by (unfold wrap32; apply Z.mod_small; lia). split; [|split].
  - rewrite addr_to_index_user by (unfold VM_ARENA_BASEADDR; lia). unfold VM_PAGESIZE, VM_ARENA_BASEADDR.
    replace (0x600000000 + v * 0x10000 + o - 0x600000000) with (o + v * 0x10000) by lia.
    rewrite Z.div_add by done. rewrite Z.div_small by lia. lia.
  - unfold calculate_page_offset, VM_PAGESIZE. replace (0x600000000 + v * 0x10000 + o) with (o + (0x60000 + v) * 0x10000) by lia.
    rewrite Z.mod_add by done. by apply Z.mod_small.
  - apply andb_true_iff. split; [apply Z.leb_le|apply Z.ltb_lt]; lia.
Qed.

(** ** What the code does with odd arguments *)

(** [addr_to_index] keeps 32 bits of the page number: an address far behind the arena
    is taken for one in its first page. *)
Lemma far_address_is_first_page : addr_to_index (VM_ARENA_BASEADDR + 2 ^ 48) = 0.
Proof. reflexivity. Qed.

(** [location * VM_PAGESIZE] has 32 bits: physical page 65536 is page 0. *)
Lemma frames_alias n : frame (n + 2 ^ 16) = frame n.
Proof.
  unfold frame, wrap32, VM_PAGESIZE. replace ((n + 2 ^ 16) * 0x10000) with (n * 0x10000 + 1 * 2 ^ 32) by lia.
  by rewrite Z.mod_add.
Qed.

(** ** Concrete runs *)

Module Witness.

(** Files in memory, and the least element of a set. *)
#[local] Instance memory_files : Files := {|
  files := option bytes * Z → option page;
  file_read d f n := d (f, n);
  file_write d f n p := λ k, if decide (k = (f, n)) then Some p else d k;
|}.
#[local] Instance memory_files_spec : FilesSpec.
Proof.
  split; simpl.
  - intros d n p. by rewrite decide_True.
  - intros d f n p _. by rewrite decide_True.
  - intros d f n p f' n' Hne. by rewrite decide_False.
Qed.
#[local] Instance least : SetOrder := λ X, head (elements X).
#[local] Instance least_spec : SetOrderSpec.
Proof.
  split; unfold set_begin, least.
  - intros X r Hr. apply elem_of_elements. destruct (elements X); [done|]. injection Hr as ->. by left.
  - intros X Hr. destruct (elements X) eqn:He; [|done]. apply leibniz_equiv. by apply elements_empty_inv.
Qed.

(** Two physical pages beside the page of zeroes, four swap blocks, and a file. *)
Definition name : bytes := ["f"%char].
Definition one_file : files := λ k, if decide (k = (Some name, 7)) then Some (λ _, "x"%char) else None.
Definition start : pager := initial_pager ∅ one_file.

(** A process with two pages of its own and one of the file forks; the child writes
    to a page that it shares with the parent, and to the file. *)
Definition script : list event :=
  [Create 0 0 1; Switch 1; Map None 0; Map None 0; Store VM_ARENA_BASEADDR "f"%char;
   Map (Some VM_ARENA_BASEADDR) 7; Store (VM_ARENA_BASEADDR + 0x10005) "a"%char;
   Create 5 1 2; Switch 2; Store (VM_ARENA_BASEADDR + 0x10005) "b"%char; Load (VM_ARENA_BASEADDR + 0x20000);
   Store (VM_ARENA_BASEADDR + 0x20000) "y"%char].

Definition after (l : list event) : pager :=
  match boot 3 4 l start with Some (_, s) => s | None => start end.

Lemma after_good l : obeys_from_start 3 4 5 ∅ one_file l = true → good 3 4 5 (after l).
Proof.
  intros Ho. pose proof (boot_good 3 4 5 ∅ one_file l ltac:(done) ltac:(lia) ltac:(lia) Ho) as Hw. unfold wp in Hw. unfold after, start.
  destruct (boot 3 4 l (initial_pager ∅ one_file)) as [[[] s]|]; done.
Qed.

Lemma after_current l p i :
  curr_pid (after l) = p → page_table_base_register (after l) = p → process_info_mp (after l) !! p = Some i → current (after l) p i.
Proof. by split. Qed.

Example script_obeys : obeys_from_start 3 4 5 ∅ one_file script = true.
Proof. vm_compute. reflexivity. Qed.

Lemma script_good : good 3 4 5 (after script).
Proof. exact (after_good script script_obeys). Qed.

(** The parent sees its own page unchanged and the file's new byte. *)
Example script_result :
  (match page_data (after script) (1, 1) with Some p => p 5 | None => NUL end,
   match page_data (after script) (2, 1) with Some p => p 5 | None => NUL end,
   match page_data (after script) (1, 2) with Some p => p 0 | None => NUL end) = ("a"%char, "b"%char, "y"%char).
Proof. vm_compute. reflexivity. Qed.

Lemma pager_never_fails_witness : ∃ s, boot 3 4 script start = Some ((), s) ∧ good 3 4 5 s.
Proof. apply (pager_never_fails 3 4 5 ∅ one_file script); [done|lia|lia|vm_compute; reflexivity]. Defined.

Lemma vm_fault_correct_witness :
  let s := after script in
  wp (vm_fault (VM_ARENA_BASEADDR + 0x10007) false) (λ ok s', good 3 4 5 s' ∧ same_view s s' ∧
    process_info_mp s' = process_info_mp s ∧ free_swap_blocks s' = free_swap_blocks s ∧
    (ok = true ↔ is_Some (page_data s (2, addr_to_index (VM_ARENA_BASEADDR + 0x10007)))) ∧
    (ok = true → accessible s' (2, addr_to_index (VM_ARENA_BASEADDR + 0x10007)) false)) s.
Proof.
  intros s. apply (vm_fault_correct 3 4 5 _ false 2 (KernelProcessInfo 3 2)); [lia|exact script_good|].
  apply after_current; vm_compute; reflexivity.
Defined.

Lemma store_isolated_witness :
  let s := after script in let a := VM_ARENA_BASEADDR + 5 in
  wp (mmu_store a "z"%char) (λ ok s', good 3 4 5 s' ∧ process_info_mp s' = process_info_mp s ∧
    if ok then store_seen s (2, addr_to_index a) (calculate_page_offset a) "z"%char s'
    else same_view s s' ∧ page_data s (2, addr_to_index a) = None) s.
Proof.
  intros s a. apply (store_isolated 3 4 5 _ _ 2 (KernelProcessInfo 3 2)); [lia|exact script_good| |reflexivity].
  apply after_current; vm_compute; reflexivity.
Defined.

Lemma vm_map_correct_witness :
  let s := after script in
  wp (vm_map (Some VM_ARENA_BASEADDR) 7) (λ a s', good 3 4 5 s' ∧
    map_result 3 4 s 2 (KernelProcessInfo 3 2) (Some VM_ARENA_BASEADDR) 7 a s') s.
Proof.
  intros s. apply (vm_map_correct 3 4 5 (Some VM_ARENA_BASEADDR) 7 2 (KernelProcessInfo 3 2)); [done|lia|exact script_good| |].
  - apply after_current; vm_compute; reflexivity.
  - intros a [= <-]. reflexivity.
Defined.

Lemma vm_create_correct_witness :
  let s := after script in
  wp (vm_create 3 1 3) (λ ok s', good 3 4 5 s' ∧ forked 3 4 s 3 1 3 ok s') s.
Proof.
  intros s. apply (vm_create_correct 3 4 5 3 1 3); [lia|lia|exact script_good|vm_compute; reflexivity|done].
Defined.

Lemma vm_destroy_correct_witness :
  let s := after script in
  wp vm_destroy (λ _ s', good 3 4 5 s' ∧ destroyed 3 4 s 2 (KernelProcessInfo 3 2) s') s.
Proof.
  intros s. apply (vm_destroy_correct 3 4 5 2 (KernelProcessInfo 3 2)); [exact script_good|].
  apply after_current; vm_compute; reflexivity.
Defined.

Lemma evict_phys_page_correct_witness :
  let s := after script in
  wp evict_phys_page (λ _ s', good 3 4 5 s' ∧ same_view s s' ∧ free_mem_blocks s' ≠ []) s.
Proof.
  intros s. apply (evict_phys_page_correct 3 4 5); [lia|exact script_good|].
  assert (length (clock_queue (after script)) = 2%nat) as Hl by (vm_compute; reflexivity). intros Hc.
  pose proof (f_equal length Hc : length (clock_queue (after script)) = 0%nat) as H0. congruence.
Defined.

Lemma index_addr_round_trip_witness :
  addr_to_index (index_to_addr 255 + 0xffff) = 255 ∧ calculate_page_offset (index_to_addr 255 + 0xffff) = 0xffff ∧
  in_arena (index_to_addr 255 + 0xffff) = true.
Proof. apply (index_addr_round_trip 255 0xffff); [by vm_compute|by vm_compute]. Defined.

(** The counter that was not initialised: a process without pages cannot fork, though
    all swap blocks are free. *)
Example uninitialised_counter :
  match (_ ← vm_init 3 4; _ ← vm_create 100 0 1; vm_create 100 1 2) start with
  | Some (ok, s) => ok = false ∧ len (free_swap_blocks s) = 4
  | None => False
  end.
Proof. vm_compute. done. Qed.

(** With 2^32 - 1 in the counter, mapping a page makes it 0, and the fork takes a swap block
    from an empty queue. *)
Example uninitialised_counter_wraps :
  boot 3 1 [Create (2 ^ 32 - 1) 0 1; Switch 1; Map None 0] start ≠ None ∧
  boot 3 1 [Create (2 ^ 32 - 1) 0 1; Switch 1; Map None 0; Create 0 1 2] start = None.
Proof. split; vm_compute; done. Qed.

(** A name 2^48 bytes behind the arena is accepted: the page gets an address. *)
Example far_name_is_accepted :
  match vm_map (Some (VM_ARENA_BASEADDR + 2 ^ 48)) 7 (after script) with
  | Some (a, _) => a = Some (index_to_addr 3)
  | None => False
  end.
Proof. vm_compute. reflexivity. Qed.

End Witness.
