(* ===== verification/Pizza.v ===== *)
(** * The pizza dispatcher: model

    [testapp/]: drivers deliver pizzas to customers, and a manager matches them.
    Every driver, every customer and the manager is a thread; they share two
    vectors of objects under [pizza_lock] and wake each other through condition
    variables.  A step is what a thread does between two places where another
    one can run: the constructor of [cpu] got one CPU and no timer, so that a
    thread runs on until it waits (the steps here are finer: every [lock],
    [unlock] and [wait] is such a place).  Every condition variable has one
    thread that waits on it, so that a signal ends that thread's wait.  The
    output functions of [pizza.h] belong to the course library: their calls are
    recorded in the order in which they are made. *)
From stdpp Require Import functions.
From S2P Require Import Prelude Request.

Local Open Scope Z_scope.

(** ** Data *)

Record location_t := Location { x : Z; y : Z }.

Inductive Status := Available | Unavailable | Finished.

#[export] Instance location_t_eq_dec : EqDecision location_t.
Proof. solve_decision. Defined.
#[export] Instance Status_eq_dec : EqDecision Status.
Proof. solve_decision. Defined.

(** Identifiers count the elements of the vectors, so they are natural numbers. *)
Record customer := Customer {
  c_id : nat;
  c_status : Status;
  c_location : location_t;
  requests : list location_t;
  assigned_driver : nat;
  has_pizza : bool;
  c_matched : bool;
}.

Record driver := Driver {
  d_id : nat;
  d_status : Status;
  d_location : location_t;
  assigned_customer : nat;
  paid : bool;
  d_matched : bool;
}.

(** Calls of the library functions of [pizza.h]. *)
Inductive pizza_call :=
| DriverReady (driver : nat) (location : location_t)
| Drive (driver : nat) (start end_ : location_t)
| CustomerReady (customer : nat) (location : location_t)
| Pay (customer driver : nat)
| Match (customer driver : nat).

(** ** Methods of [customer] *)

(** The constructor leaves three fields as it finds them in memory. *)
Definition new_customer (garbage : location_t * nat * bool) (id_in : nat) (reqs : list location_t) : customer :=
  Customer id_in Unavailable garbage.1.1 reqs garbage.1.2 garbage.2 false.

Definition customer_ready_up (c : customer) : list pizza_call * customer :=
  match requests c with
  | [] => ([], Customer (c_id c) Finished (c_location c) (requests c) (assigned_driver c) (has_pizza c) (c_matched c))
  | front :: rest =>
      ([CustomerReady (c_id c) front], Customer (c_id c) Available front rest (assigned_driver c) false false)
  end.

Definition customer_is_ready (c : customer) : bool := bool_decide (c_status c = Available).
Definition is_done (c : customer) : bool := bool_decide (c_status c = Finished).
Definition pay_driver (c : customer) (delivery_driver : driver) : list pizza_call :=
  [Pay (c_id c) (d_id delivery_driver)].
Definition customer_set_unavailable (c : customer) : customer :=
  Customer (c_id c) Unavailable (c_location c) (requests c) (assigned_driver c) (has_pizza c) (c_matched c).
Definition receive_pizza (c : customer) : customer :=
  Customer (c_id c) (c_status c) (c_location c) (requests c) (assigned_driver c) true (c_matched c).
Definition set_driver (driver_id : nat) (c : customer) : customer :=
  Customer (c_id c) (c_status c) (c_location c) (requests c) driver_id (has_pizza c) true.

(** ** Methods of [driver] *)

Definition new_driver (garbage id_in : nat) : driver :=
  Driver id_in Unavailable (Location 0 0) garbage false false.

Definition driver_ready_up (d : driver) : list pizza_call * driver :=
  ([DriverReady (d_id d) (d_location d)], Driver (d_id d) Available (d_location d) (assigned_customer d) false false).

Definition deliver_pizza (d : driver) (recipient : customer) : list pizza_call :=
  [Drive (d_id d) (d_location d) (c_location recipient)].

Definition driver_is_ready (d : driver) : bool := bool_decide (d_status d = Available).
Definition driver_set_unavailable (d : driver) : driver :=
  Driver (d_id d) Unavailable (d_location d) (assigned_customer d) (paid d) (d_matched d).
Definition recieve_payment (d : driver) : driver :=
  Driver (d_id d) (d_status d) (d_location d) (assigned_customer d) true (d_matched d).
Definition set_customer (customer_id : nat) (d : driver) : driver :=
  Driver (d_id d) (d_status d) (d_location d) customer_id (paid d) true.
Definition set_location (new_location : location_t) (d : driver) : driver :=
  Driver (d_id d) (d_status d) new_location (assigned_customer d) (paid d) (d_matched d).

(** ** Reading the input *)

(** An [unsigned int] converted to [int]. *)
Definition UINT_MAX : Z := 2 ^ 32 - 1.
Definition to_int (z : Z) : Z := (z + 2 ^ 31) `mod` 2 ^ 32 - 2 ^ 31.

(** [file >> n] for an [unsigned int]: [None] when the stream fails.  A number
    with a minus sign is converted like an [unsigned int]. *)
Definition read_unsigned (s : bytes) : option (Z * bytes) :=
  let '(negative, s) := read_sign (skip_space s) in
  let ds := span_digits s in
  match ds with
  | [] => None
  | _ => let n := digits_value ds in
         if UINT_MAX <? n then None
         else Some (if negative then wrap32 (- n) else n, drop (length ds) s)
  end.

(** [while (requests_file >> x_pos >> y_pos)] *)
Fixpoint read_requests (fuel : nat) (s : bytes) : list location_t :=
  match fuel with
  | O => []
  | S fuel =>
      match read_unsigned s with
      | None => []
      | Some (x_pos, s) =>
          match read_unsigned s with
          | None => []
          | Some (y_pos, s) => Location x_pos y_pos :: read_requests fuel s
          end
      end
  end.

(** What [main] comes to: the program runs, [exit(1)], or an exception that
    nobody catches. *)
Inductive started (A : Type) :=
| Started (a : A)
| ExitFailure
| Uncaught.
Arguments Started {A} _.
Arguments ExitFailure {A}.
Arguments Uncaught {A}.

#[export] Instance started_bind : MBind started := λ A B f m,
  match m with Started a => f a | ExitFailure => ExitFailure | Uncaught => Uncaught end.

(** Every request has at least two digits; [open_file] gives the contents of a file. *)
Definition create_requests (open_file : bytes → option bytes) (requests_file_name : bytes) : started (list location_t) :=
  match open_file requests_file_name with
  | None => ExitFailure
  | Some text => Started (read_requests (S (length text)) text)
  end.

(** Only [std::invalid_argument] is caught. *)
Definition load_input (argv : list bytes) : started (Z * Z) :=
  let argc := len argv in
  match argv with
  | _ :: argv1 :: _ =>
      match stoi argv1 with
      | None => ExitFailure
      | Some None => Uncaught
      | Some (Some num_drivers) =>
          let num_customers := argc - 2 in
          if (num_customers <=? 0) || (num_drivers <=? 0) then ExitFailure
          else Started (num_drivers, num_customers)
      end
  | _ => ExitFailure
  end.

(** ** Matching *)

(** [None] is undefined: an overflow of [int]. *)
Definition calc_dist (start end_ : location_t) : option Z :=
  let x_dist := to_int (if x end_ <? x start then x start - x end_ else x end_ - x start) in
  let y_dist := to_int (if y end_ <? y start then y start - y end_ else y end_ - y start) in
  if is_int (x_dist + y_dist) then Some (wrap32 (x_dist + y_dist)) else None.

(** The best pair so far, by the positions of its elements in the vectors, and its
    distance. *)
Abbreviation best := (Z * option (nat * nat))%type.

(** The inner loop, over the drivers from position [j] on. *)
Fixpoint match_drivers (i : nat) (recipient : customer) (j : nat) (ds : list driver) (b : best) : option best :=
  match ds with
  | [] => Some b
  | delivery_driver :: ds =>
      if negb (driver_is_ready delivery_driver) then match_drivers i recipient (S j) ds b
      else
        curr_dist ← calc_dist (c_location recipient) (d_location delivery_driver);
        match_drivers i recipient (S j) ds (if curr_dist <? b.1 then (curr_dist, Some (i, j)) else b)
  end.

(** The outer loop. *)
Fixpoint match_customers (i : nat) (cs : list customer) (ds : list driver) (b : best) : option best :=
  match cs with
  | [] => Some b
  | recipient :: cs =>
      if negb (customer_is_ready recipient) then match_customers (S i) cs ds b
      else b' ← match_drivers i recipient 0 ds b; match_customers (S i) cs ds b'
  end.

(** The pair, and the call of [match]; [None] is undefined, a null pointer among
    others. *)
Definition match_delivery (customers : list customer) (drivers : list driver) : option (list pizza_call * (nat * nat)) :=
  b ← match_customers 0 customers drivers (UINT_MAX, None);
  '(i, j) ← b.2;
  min_customer ← customers !! i;
  min_driver ← drivers !! j;
  Some ([Match (c_id min_customer) (d_id min_driver)], (i, j)).

Definition has_available_delivery (customers : list customer) (drivers : list driver) : bool :=
  existsb customer_is_ready customers && existsb driver_is_ready drivers.

(** ** State *)

(** Where the threads are: before their first statement; about to test the
    condition of a loop; waiting in the loop; about to call [deliver_pizza];
    about to lock behind it. *)
Inductive driver_point := DriverStart | TestMatched | WaitMatched | Deliver (c : nat) | Arrive (c : nat) | TestPaid | WaitPaid.
Inductive customer_point := CustomerStart | CustomerTest | CustomerWait | CustomerDone.
Inductive manager_point := ManagerTest | ManagerWait.

#[export] Instance driver_point_eq_dec : EqDecision driver_point.
Proof. solve_decision. Defined.
#[export] Instance customer_point_eq_dec : EqDecision customer_point.
Proof. solve_decision. Defined.
#[export] Instance manager_point_eq_dec : EqDecision manager_point.
Proof. solve_decision. Defined.

(** The vectors, the places of the threads of their elements, and of the manager's, and
    the calls so far. *)
Record dispatch := Dispatch {
  customers : list customer;
  drivers : list driver;
  customer_at : nat → customer_point;
  driver_at : nat → driver_point;
  manager_at : manager_point;
  calls : list pizza_call;
}.

Definition on_customer (i : nat) (f : customer → customer) (s : dispatch) : dispatch :=
  Dispatch (alter f i (customers s)) (drivers s) (customer_at s) (driver_at s) (manager_at s) (calls s).
Definition on_driver (i : nat) (f : driver → driver) (s : dispatch) : dispatch :=
  Dispatch (customers s) (alter f i (drivers s)) (customer_at s) (driver_at s) (manager_at s) (calls s).
Definition move_customer (i : nat) (p : customer_point) (s : dispatch) : dispatch :=
  Dispatch (customers s) (drivers s) (<[i := p]> (customer_at s)) (driver_at s) (manager_at s) (calls s).
Definition move_driver (i : nat) (p : driver_point) (s : dispatch) : dispatch :=
  Dispatch (customers s) (drivers s) (customer_at s) (<[i := p]> (driver_at s)) (manager_at s) (calls s).
Definition move_manager (p : manager_point) (s : dispatch) : dispatch :=
  Dispatch (customers s) (drivers s) (customer_at s) (driver_at s) p (calls s).
Definition emit (l : list pizza_call) (s : dispatch) : dispatch :=
  Dispatch (customers s) (drivers s) (customer_at s) (driver_at s) (manager_at s) (calls s ++ l).

(** [signal]: a thread that waits tests its condition again. *)
Definition woken_manager (p : manager_point) : manager_point := match p with ManagerWait => ManagerTest | p => p end.
Definition woken_customer (p : customer_point) : customer_point := match p with CustomerWait => CustomerTest | p => p end.
Definition woken_driver (p : driver_point) : driver_point :=
  match p with WaitMatched => TestMatched | WaitPaid => TestPaid | p => p end.

Definition signal_manager (s : dispatch) : dispatch := move_manager (woken_manager (manager_at s)) s.
Definition signal_customer (i : nat) (s : dispatch) : dispatch := move_customer i (woken_customer (customer_at s i)) s.
Definition signal_driver (i : nat) (s : dispatch) : dispatch := move_driver i (woken_driver (driver_at s i)) s.

(** [ready_up] of an element of a vector. *)
Definition ready_driver (i : nat) (d : driver) (s : dispatch) : dispatch :=
  emit (driver_ready_up d).1 (on_driver i (λ _, (driver_ready_up d).2) s).
Definition ready_customer (i : nat) (c : customer) (s : dispatch) : dispatch :=
  emit (customer_ready_up c).1 (on_customer i (λ _, (customer_ready_up c).2) s).

(** ** Threads *)

(** A thread's step: it runs up to the next place; it is blocked or has
    returned; its behaviour is undefined. *)
Inductive outcome :=
| Next (s : dispatch)
| Blocked
| Undefined.

(** [while (!delivery_driver->is_paid())] and the rest of the loop's body. *)
Definition driver_until_paid (i : nat) (s : dispatch) : outcome :=
  match drivers s !! i with
  | None => Undefined
  | Some delivery_driver =>
      if negb (paid delivery_driver) then Next (move_driver i WaitPaid s)
      else Next (move_driver i TestMatched (signal_manager (ready_driver i delivery_driver s)))
  end.

Definition run_driver (i : nat) (s : dispatch) : outcome :=
  match drivers s !! i with
  | None => Undefined
  | Some delivery_driver =>
      match driver_at s i with
      | DriverStart => Next (move_driver i TestMatched (signal_manager (ready_driver i delivery_driver s)))
      | TestMatched =>
          if negb (d_matched delivery_driver) then Next (move_driver i WaitMatched s)
          else
            let customer_id := assigned_customer delivery_driver in
            match customers s !! customer_id with
            | None => Undefined
            | Some _ => Next (move_driver i (Deliver customer_id) s)
            end
      | Deliver customer_id =>
          match customers s !! customer_id with
          | None => Undefined
          | Some recipient => Next (move_driver i (Arrive customer_id) (emit (deliver_pizza delivery_driver recipient) s))
          end
      | Arrive customer_id =>
          match customers s !! customer_id with
          | None => Undefined
          | Some recipient =>
              driver_until_paid i
                (signal_customer customer_id
                  (on_customer customer_id receive_pizza
                    (on_driver i (set_location (c_location recipient)) s)))
          end
      | TestPaid => driver_until_paid i s
      | WaitMatched | WaitPaid => Blocked
      end
  end.

(** [while (!recipient->is_done())]; a turn that does not wait takes a request or
    ends the loop. *)
Fixpoint customer_loop (fuel : nat) (i : nat) (s : dispatch) : outcome :=
  match fuel with
  | O => Undefined
  | S fuel =>
      match customers s !! i with
      | None => Undefined
      | Some recipient =>
          if is_done recipient then Next (move_customer i CustomerDone s)
          else if negb (has_pizza recipient) || negb (c_matched recipient) then Next (move_customer i CustomerWait s)
          else
            let driver_id := assigned_driver recipient in
            match drivers s !! driver_id with
            | None => Undefined
            | Some delivery_driver =>
                customer_loop fuel i
                  (signal_manager
                    (ready_customer i recipient
                      (signal_driver driver_id
                        (on_driver driver_id recieve_payment
                          (emit (pay_driver recipient delivery_driver) s)))))
            end
      end
  end.

Definition run_customer (i : nat) (s : dispatch) : outcome :=
  match customers s !! i with
  | None => Undefined
  | Some recipient =>
      match customer_at s i with
      | CustomerStart => Next (move_customer i CustomerTest (signal_manager (ready_customer i recipient s)))
      | CustomerTest => customer_loop (S (S (length (requests recipient)))) i s
      | CustomerWait | CustomerDone => Blocked
      end
  end.

(** One turn of the manager's last loop. *)
Definition run_manager (s : dispatch) : outcome :=
  match manager_at s with
  | ManagerWait => Blocked
  | ManagerTest =>
      if negb (has_available_delivery (customers s) (drivers s)) then Next (move_manager ManagerWait s)
      else
        match match_delivery (customers s) (drivers s) with
        | None => Undefined
        | Some (l, (i, j)) =>
            match customers s !! i, drivers s !! j with
            | Some pizza_recipient, Some pizza_deliverer =>
                let customer_id := c_id pizza_recipient in
                let driver_id := d_id pizza_deliverer in
                Next (signal_customer customer_id
                       (signal_driver driver_id
                         (on_customer i (λ c, set_driver driver_id (customer_set_unavailable c))
                           (on_driver j (λ d, set_customer customer_id (driver_set_unavailable d))
                             (emit l s)))))
            | _, _ => Undefined
            end
        end
  end.

(** The manager up to its last loop: it starts the other threads, which do not run
    before it waits. *)
Fixpoint load_customers (open_file : bytes → option bytes) (garbage : nat → location_t * nat * bool)
    (i : nat) (names : list bytes) : started (list customer) :=
  match names with
  | [] => Started []
  | name :: names =>
      reqs ← create_requests open_file name;
      cs ← load_customers open_file garbage (S i) names;
      Started (new_customer (garbage i) i reqs :: cs)
  end.

Definition start_dispatch (open_file : bytes → option bytes) (garbage : nat → location_t * nat * bool)
    (garbage_d : nat → nat) (argv : list bytes) : started dispatch :=
  '(num_drivers, _) ← load_input argv;
  let ds := (λ i, new_driver (garbage_d i) i) <$> seq 0 (Z.to_nat num_drivers) in
  cs ← load_customers open_file garbage 0 (drop 2 argv);
  Started (Dispatch cs ds (λ _, CustomerStart) (λ _, DriverStart) ManagerTest []).

(** ** Steps of the program *)

Inductive pizza_thread := TManager | TDriver (i : nat) | TCustomer (i : nat).

Definition run_thread (t : pizza_thread) (s : dispatch) : outcome :=
  match t with
  | TManager => run_manager s
  | TDriver i => run_driver i s
  | TCustomer i => run_customer i s
  end.

(** The threads that exist. *)
Definition exists_thread (s : dispatch) (t : pizza_thread) : Prop :=
  match t with
  | TManager => True
  | TDriver i => (i < length (drivers s))%nat
  | TCustomer i => (i < length (customers s))%nat
  end.

Inductive pizza_steps : dispatch → list pizza_thread → dispatch → Prop :=
| steps_nil s : pizza_steps s [] s
| steps_cons s t s1 ts s2 : exists_thread s t → run_thread t s = Next s1 → pizza_steps s1 ts s2 → pizza_steps s (t :: ts) s2.

(** No thread can go on. *)
Definition stuck (s : dispatch) : Prop := ∀ t, exists_thread s t → run_thread t s = Blocked.
