(* ===== verification/PizzaMatch.v ===== *)
(** * The pizza dispatcher: matching and reading requests

    [calc_dist] is the rectilinear distance as long as it does not overflow, and
    [match_delivery] finds the first of the closest ready pairs. *)
From stdpp Require Import functions.
From S2P Require Import Prelude Request Pizza.

Local Open Scope Z_scope.

(** ** Distances *)

(** Coordinates for which [calc_dist] does not overflow. *)
Definition near (l : location_t) : Prop := 0 ≤ x l < 2 ^ 30 ∧ 0 ≤ y l < 2 ^ 30.

Definition dist (a b : location_t) : Z := Z.abs (x a - x b) + Z.abs (y a - y b).

Lemma to_int_small n : 0 ≤ n < 2 ^ 31 → to_int n = n.
Proof. intros Hn. unfold to_int. rewrite Z.mod_small; lia. Qed.

Lemma dist_bound a b : near a → near b → 0 ≤ dist a b < 2 ^ 31.
Proof. intros [? ?] [? ?]. unfold dist. lia. Qed.

Lemma abs_branch a b : (if b <? a then a - b else b - a) = Z.abs (a - b).
Proof. destruct (Z.ltb_spec b a); lia. Qed.

Lemma calc_dist_near a b : near a → near b → calc_dist a b = Some (dist a b).
Proof.
  intros Ha Hb. pose proof (dist_bound a b Ha Hb) as Hd. destruct Ha as [? ?], Hb as [? ?]. unfold calc_dist.
  rewrite !abs_branch, !to_int_small by lia. fold (dist a b). unfold is_int, INT_MAX.
  destruct (Z.leb_spec (- 2 ^ 31) (dist a b)); [|lia]. destruct (Z.leb_spec (dist a b) (2 ^ 31 - 1)); [|lia].
  simpl. f_equal. apply wrap32_small. unfold is_u32. lia.
Qed.

(** ** The closest pair *)

Section closest.
Context (cs : list customer) (ds : list driver).
Context (Hcs : ∀ i c, cs !! i = Some c → c_status c = Available → near (c_location c)).
Context (Hds : ∀ j d, ds !! j = Some d → near (d_location d)).

(** The distance of a ready pair. *)
Definition pair_dist (i j : nat) : option Z :=
  c ← cs !! i; d ← ds !! j;
  if customer_is_ready c && driver_is_ready d then Some (dist (c_location c) (d_location d)) else None.

(** The order in which the loops visit the pairs. *)
Definition before (i j i' j' : nat) : Prop := (i < i' ∨ i = i' ∧ j < j')%nat.

(** [b] is the best of the pairs before [(i, j)], and the first of them. *)
Record is_best (i j : nat) (b : best) : Prop := {
  ib_least i' j' n : before i' j' i j → pair_dist i' j' = Some n → b.1 ≤ n;
  ib_found : match b.2 with
             | None => b.1 = UINT_MAX
             | Some (bi, bj) => before bi bj i j ∧ pair_dist bi bj = Some b.1 ∧
                 ∀ i' j' n, before i' j' bi bj → pair_dist i' j' = Some n → b.1 < n
             end;
}.

Lemma before_next i j i' j' : before i' j' i (S j) ↔ before i' j' i j ∨ (i' = i ∧ j' = j).
Proof. unfold before. lia. Qed.

Lemma is_best_skip i j b : is_best i j b → pair_dist i j = None → is_best i (S j) b.
Proof.
  intros [Hl Hf] Hn. split.
  - intros i' j' n [Hb|[-> ->]]%before_next Hp; [eauto|congruence].
  - destruct b.2 as [[bi bj]|]; [|done]. destruct Hf as [Hb Hf]. split; [|done]. apply before_next. by left.
Qed.

Lemma is_best_next i j b n :
  is_best i j b → pair_dist i j = Some n → is_best i (S j) (if n <? b.1 then (n, Some (i, j)) else b).
Proof.
  intros [Hl Hf] Hn. destruct (Z.ltb_spec n b.1) as [Hlt|Hge]; split; simpl.
  - intros i' j' n' [Hb|[-> ->]]%before_next Hp; [pose proof (Hl _ _ _ Hb Hp); lia|]. rewrite Hn in Hp. injection Hp. lia.
  - split; [apply before_next; by right|]. split; [done|]. intros i' j' n' Hb Hp. pose proof (Hl _ _ _ Hb Hp). lia.
  - intros i' j' n' [Hb|[-> ->]]%before_next Hp; [eauto|]. rewrite Hn in Hp. injection Hp. lia.
  - destruct b.2 as [[bi bj]|]; [|done]. destruct Hf as [Hb Hf]. split; [|done]. apply before_next. by left.
Qed.

Lemma pair_dist_inv i j n :
  pair_dist i j = Some n → ∃ c d, cs !! i = Some c ∧ ds !! j = Some d ∧ c_status c = Available ∧
    d_status d = Available ∧ n = dist (c_location c) (d_location d).
Proof.
  unfold pair_dist, customer_is_ready, driver_is_ready. intros (c & Hc & (d & Hd & Hn)%bind_Some)%bind_Some.
  destruct (bool_decide_reflect (c_status c = Available)), (bool_decide_reflect (d_status d = Available)); try done.
  simplify_eq/=. eauto 10.
Qed.

Lemma is_best_row i b : is_best i (length ds) b → is_best (S i) 0 b.
Proof.
  intros [Hl Hf]. split.
  - intros i' j' n Hb Hp. apply (Hl i' j'); [|done]. apply pair_dist_inv in Hp as (c & d & _ & Hd & _).
    apply lookup_lt_Some in Hd. unfold before in *. lia.
  - destruct b.2 as [[bi bj]|]; [|done]. destruct Hf as [Hb Hf]. split; [|done]. unfold before in *. lia.
Qed.

Lemma is_best_rows i b : (∀ j, pair_dist i j = None) → is_best i 0 b → is_best (S i) 0 b.
Proof.
  intros Hn [Hl Hf]. split.
  - intros i' j' n Hb Hp. apply (Hl i' j'); [|done]. assert (i' ≠ i) by (intros ->; by rewrite Hn in Hp). unfold before in *. lia.
  - destruct b.2 as [[bi bj]|]; [|done]. destruct Hf as [Hb Hf]. split; [|done]. unfold before in *. lia.
Qed.

Lemma match_drivers_ok i c k j b :
  cs !! i = Some c → customer_is_ready c = true → drop j ds = k → is_best i j b →
  ∃ b', match_drivers i c j k b = Some b' ∧ is_best i (length ds) b'.
Proof.
  intros Hc Hr. revert j b. induction k as [|d k IH]; intros j b Hk Hb; simpl.
  - exists b. split; [done|]. assert (length ds <= j)%nat as Hj.
    { apply (f_equal length) in Hk. rewrite length_drop in Hk. simpl in Hk. lia. }
    destruct Hb as [Hl Hf]. split.
    + intros i' j' n Hbf. apply Hl. unfold before in *. lia.
    + destruct b.2 as [[bi bj]|]; [|done]. destruct Hf as (Hb & Hp & Hf). split; [|done].
      pose proof (pair_dist_inv _ _ _ Hp) as (? & ? & _ & Hd%lookup_lt_Some & _). unfold before in *. lia.
  - assert (ds !! j = Some d) as Hd by (rewrite <- (Nat.add_0_r j), <- lookup_drop, Hk; done).
    assert (drop (S j) ds = k) as Hk' by (replace (S j) with (j + 1)%nat by lia; rewrite <- drop_drop, Hk; done).
    assert (pair_dist i j = if driver_is_ready d then Some (dist (c_location c) (d_location d)) else None) as Hp.
    { unfold pair_dist. rewrite Hc. simpl. rewrite Hd. simpl. by rewrite Hr. }
    destruct (driver_is_ready d); simpl.
    + rewrite calc_dist_near; [|by eapply Hcs, bool_decide_eq_true|by eapply Hds]. simpl.
      apply IH; [done|]. by apply is_best_next.
    + apply IH; [done|]. by apply is_best_skip.
Qed.

Lemma match_customers_ok i k b :
  drop i cs = k → is_best i 0 b →
  ∃ b', match_customers i k ds b = Some b' ∧ is_best (length cs) 0 b'.
Proof.
  revert i b. induction k as [|c k IH]; intros i b Hk Hb; simpl.
  - exists b. split; [done|]. assert (length cs <= i)%nat as Hi.
    { apply (f_equal length) in Hk. rewrite length_drop in Hk. simpl in Hk. lia. }
    destruct Hb as [Hl Hf]. split.
    + intros i' j' n Hbf. apply Hl. unfold before in *. lia.
    + destruct b.2 as [[bi bj]|]; [|done]. destruct Hf as (Hb & Hp & Hf). split; [|done].
      pose proof (pair_dist_inv _ _ _ Hp) as (? & ? & Hc%lookup_lt_Some & _). unfold before in *. lia.
  - assert (cs !! i = Some c) as Hc by (rewrite <- (Nat.add_0_r i), <- lookup_drop, Hk; done).
    assert (drop (S i) cs = k) as Hk' by (replace (S i) with (i + 1)%nat by lia; rewrite <- drop_drop, Hk; done).
    destruct (customer_is_ready c) eqn:Hr; simpl.
    + destruct (match_drivers_ok i c ds 0 b Hc Hr eq_refl Hb) as (b' & -> & Hb'). simpl.
      apply IH; [done|]. by apply is_best_row.
    + apply IH; [done|]. apply is_best_rows; [|done]. intros j. unfold pair_dist. rewrite Hc. simpl.
      destruct (ds !! j); simpl; [by rewrite Hr|done].
Qed.

(** The first of the closest pairs; there is none exactly if no pair is ready. *)
Definition closest (i j : nat) : Prop :=
  ∃ n, pair_dist i j = Some n ∧ ∀ i' j' n', pair_dist i' j' = Some n' → n ≤ n' ∧ (before i' j' i j → n < n').

Lemma match_delivery_ok :
  match match_delivery cs ds with
  | Some (l, (i, j)) => ∃ c d, cs !! i = Some c ∧ ds !! j = Some d ∧ l = [Match (c_id c) (d_id d)] ∧ closest i j
  | None => ∀ i j, pair_dist i j = None
  end.
Proof.
  assert (is_best 0 0 (UINT_MAX, None)) as H0 by (split; [unfold before; lia|done]).
  unfold match_delivery. destruct (match_customers_ok 0 cs _ eq_refl H0) as ([n o] & Hm & [Hl Hf]).
  unfold mbind, option_bind at 1. rewrite Hm. simpl.
  assert (∀ i j m, pair_dist i j = Some m → before i j (length cs) 0) as Hb.
  { intros i j m Hp. apply pair_dist_inv in Hp as (c & d & Hc%lookup_lt_Some & _). unfold before. lia. }
  destruct o as [[i j]|]; simpl in *.
  - destruct Hf as (_ & Hp & Hf). pose proof (pair_dist_inv _ _ _ Hp) as (c & d & Hc & Hd & _). rewrite Hc. simpl. rewrite Hd. simpl.
    exists c, d. split; [done|]. split; [done|]. split; [done|]. exists n. split; [done|]. intros i' j' n' Hp'. split; eauto.
  - intros i j. destruct (pair_dist i j) as [m|] eqn:Hp; [|done]. pose proof (Hl i j m (Hb _ _ _ Hp) Hp) as Hle.
    apply pair_dist_inv in Hp as (c & d & Hc & Hd & Hcr & _ & ->).
    pose proof (dist_bound _ _ (Hcs _ _ Hc Hcr) (Hds _ _ Hd)). unfold UINT_MAX in *. lia.
Qed.

Lemma available_pair :
  has_available_delivery cs ds = true ↔ ∃ i j n, pair_dist i j = Some n.
Proof.
  unfold has_available_delivery. rewrite andb_true_iff, !existsb_exists. split.
  - intros [(c & Hc & Hr) (d & Hd & Hr')]. apply list_elem_of_In, list_elem_of_lookup in Hc as [i Hi].
    apply list_elem_of_In, list_elem_of_lookup in Hd as [j Hj]. exists i, j, (dist (c_location c) (d_location d)).
    unfold pair_dist. rewrite Hi. simpl. rewrite Hj. simpl. by rewrite Hr, Hr'.
  - intros (i & j & n & Hp). apply pair_dist_inv in Hp as (c & d & Hc & Hd & Hcr & Hdr & _). split.
    + exists c. split; [apply list_elem_of_In; by eapply list_elem_of_lookup_2|by apply bool_decide_eq_true].
    + exists d. split; [apply list_elem_of_In; by eapply list_elem_of_lookup_2|by apply bool_decide_eq_true].
Qed.
End closest.

(** ** Reading requests *)

Definition newline : ascii := "010"%char.

(** A file of requests, one on a line. *)
Definition print_requests (l : list location_t) : bytes :=
  mjoin ((λ p, decimal decimal_fuel (x p) ++ space :: decimal decimal_fuel (y p) ++ [newline]) <$> l).

Lemma span_digits_app ds s :
  Forall (λ c, is_digit c = true) ds → match s with [] => True | c :: _ => is_digit c = false end → span_digits (ds ++ s) = ds.
Proof. intros Hd Hs. induction Hd as [|c ds Hc _ IH]; simpl; [destruct s; simpl; [done|by rewrite Hs]|by rewrite Hc, IH]. Qed.

Lemma read_unsigned_skip c s : is_space c = true → read_unsigned (c :: s) = read_unsigned s.
Proof. intros Hc. unfold read_unsigned. simpl. by rewrite Hc. Qed.

Lemma read_unsigned_decimal n s :
  is_u32 n → match s with [] => True | c :: _ => is_digit c = false end →
  read_unsigned (decimal decimal_fuel n ++ s) = Some (n, s).
Proof.
  intros Hn Hs. unfold is_u32 in Hn.
  destruct (decimal_spec decimal_fuel n) as (Hne & Hall & Hv & _);
    [apply decimal_fuel_enough; change ULONG_MAX with 18446744073709551615; lia|unfold decimal_fuel; lia|].
  unfold read_unsigned. destruct (decimal decimal_fuel n) as [|c ds] eqn:Hd; [done|]. rewrite <- app_comm_cons. simpl.
  pose proof Hall as [Hc _]%Forall_cons. rewrite (digit_not_space c Hc).
  assert (Ascii.eqb c "-"%char = false) as Hm by (apply Ascii.eqb_neq; by intros ->).
  assert (Ascii.eqb c "+"%char = false) as Hp by (apply Ascii.eqb_neq; by intros ->).
  unfold read_sign. rewrite Hm, Hp. rewrite app_comm_cons, span_digits_app by done. rewrite Hv.
  destruct (Z.ltb_spec UINT_MAX n); [unfold UINT_MAX in *; lia|]. by rewrite drop_app_length.
Qed.

(** What is left after a number is shorter. *)
Lemma read_sign_shorter s : (length (read_sign s).2 <= length s)%nat.
Proof. destruct s as [|c s]; simpl; [done|]. repeat case_match; simpl; lia. Qed.

Lemma skip_space_shorter s : (length (skip_space s) <= length s)%nat.
Proof. induction s as [|c s IH]; simpl; [done|]. case_match; simpl; lia. Qed.

Lemma span_digits_shorter s : (length (span_digits s) <= length s)%nat.
Proof. induction s as [|c s IH]; simpl; [done|]. case_match; simpl; lia. Qed.

Lemma read_unsigned_spec s n s' : read_unsigned s = Some (n, s') → is_u32 n ∧ (length s' < length s)%nat.
Proof.
  unfold read_unsigned. pose proof (skip_space_shorter s) as H1. pose proof (read_sign_shorter (skip_space s)) as H2.
  destruct (read_sign (skip_space s)) as [neg s1]. simpl in H2. pose proof (span_digits_shorter s1) as H3.
  destruct (span_digits s1) as [|c ds] eqn:Hd; [done|].
  destruct (Z.ltb_spec UINT_MAX (digits_value (c :: ds))) as [|Hle]; [done|].
  intros [= <- <-]. simpl in H3. rewrite length_drop. split; [|lia].
  destruct neg; [apply wrap32_u32|]. split; [|unfold UINT_MAX in *; lia].
  assert (∀ l a, 0 ≤ a → Forall (λ c, is_digit c = true) l → 0 ≤ foldl (λ n c, 10 * n + (Z_of_ascii c - 48)) a l) as Hpos.
  { intros l. induction l as [|e l IH]; intros a Ha Hl; simpl; [done|]. apply Forall_cons in Hl as [He Hl]. apply IH; [|done].
    unfold is_digit in He. apply andb_true_iff in He as [He%Z.leb_le _]. lia. }
  apply Hpos; [done|]. rewrite <- Hd. clear. induction s1 as [|e s1 IH]; simpl; [constructor|].
  destruct (is_digit e) eqn:He; by constructor.
Qed.

Lemma read_requests_fuel n m s :
  (length s < n)%nat → (length s < m)%nat → read_requests n s = read_requests m s.
Proof.
  revert m s. induction n as [|n IH]; intros m s Hn Hm; [lia|]. destruct m as [|m]; [lia|]. simpl.
  destruct (read_unsigned s) as [[a s1]|] eqn:H1; [|done]. apply read_unsigned_spec in H1 as [_ H1].
  destruct (read_unsigned s1) as [[b s2]|] eqn:H2; [|done]. apply read_unsigned_spec in H2 as [_ H2].
  f_equal. apply IH; lia.
Qed.

Definition u32_location (l : location_t) : Prop := is_u32 (x l) ∧ is_u32 (y l).

Lemma read_requests_u32 n s : Forall u32_location (read_requests n s).
Proof.
  revert s. induction n as [|n IH]; intros s; simpl; [constructor|].
  destruct (read_unsigned s) as [[a s1]|] eqn:H1; [|constructor]. apply read_unsigned_spec in H1 as [H1 _].
  destruct (read_unsigned s1) as [[b s2]|] eqn:H2; [|constructor]. apply read_unsigned_spec in H2 as [H2 _].
  by constructor.
Qed.

#[local] Opaque decimal.

Lemma read_print_requests l fuel :
  Forall u32_location l → (length l < fuel)%nat → read_requests fuel (print_requests l) = l.
Proof.
  intros Hl. revert fuel. induction Hl as [|[a b] l [Ha Hb] _ IH]; intros fuel Hf; (destruct fuel as [|fuel]; [simpl in *; lia|]).
  { done. }
  unfold print_requests. cbn [fmap list_fmap mjoin list_join x y read_requests].
  rewrite <- !app_assoc, <- app_comm_cons, <- app_assoc.
  rewrite read_unsigned_decimal, read_unsigned_skip, read_unsigned_decimal by done. f_equal.
  destruct fuel as [|fuel]; [simpl in *; lia|]. cbn [app read_requests]. rewrite read_unsigned_skip by done.
  change (read_requests (S fuel) (print_requests l) = l). apply IH. simpl in *. lia.
Qed.

Lemma print_requests_length l : (length l <= length (print_requests l))%nat.
Proof.
  induction l as [|p l IH]; [done|].
  change (print_requests (p :: l)) with
    ((decimal decimal_fuel (x p) ++ space :: decimal decimal_fuel (y p) ++ [newline]) ++ print_requests l).
  rewrite !length_app. cbn [length]. lia.
Qed.
