(* ===== verification/PizzaInv.v ===== *)
(** * The pizza dispatcher: specification and refinement

    What an observer of the calls of the library sees, as an automaton on
    offices: every driver is off, ready, sent to a customer or there, and every
    customer at home with requests left, hungry or expecting a driver.  Every
    step of a thread is steps of the automaton, and leaves the objects of the
    program as the automaton's state says. *)
From stdpp Require Import functions.
From S2P Require Import Prelude Request Pizza PizzaMatch.

(** ** The specification *)

Inductive courier := Off (l : location_t) | Ready (l : location_t) | Sent (c : nat) (l : location_t) | There (c : nat) (l : location_t).

(** The requests that are left do not count the current one. *)
Inductive guest :=
| Home (rest : list location_t)
| Hungry (l : location_t) (rest : list location_t)
| Expecting (d : nat) (l : location_t) (rest : list location_t).

Record office := Office { couriers : nat → courier; guests : nat → guest }.

Definition same {A} (f g : nat → A) : Prop := ∀ k, g k = f k.
Definition becomes {A} (f : nat → A) (i : nat) (v : A) (g : nat → A) : Prop := ∀ k, g k = if decide (k = i) then v else f k.

(** No pair is closer, and none that comes before it is as close. *)
Definition first_closest (a : office) (c : nat) (l : location_t) (d : nat) (l' : location_t) : Prop :=
  ∀ c' m rest d' m', guests a c' = Hungry m rest → couriers a d' = Ready m' →
    (dist l l' <= dist m m')%Z ∧ (before c' d' c d → (dist l l' < dist m m')%Z).

Inductive accepts (a : office) : pizza_call → office → Prop :=
| acc_driver_ready d l a' :
    couriers a d = Off l → becomes (couriers a) d (Ready l) (couriers a') → same (guests a) (guests a') →
    accepts a (DriverReady d l) a'
| acc_customer_ready c l rest a' :
    guests a c = Home (l :: rest) → same (couriers a) (couriers a') → becomes (guests a) c (Hungry l rest) (guests a') →
    accepts a (CustomerReady c l) a'
| acc_match c l rest d l' a' :
    guests a c = Hungry l rest → couriers a d = Ready l' → first_closest a c l d l' →
    becomes (couriers a) d (Sent c l') (couriers a') → becomes (guests a) c (Expecting d l rest) (guests a') →
    accepts a (Match c d) a'
| acc_drive c to rest d from a' :
    couriers a d = Sent c from → guests a c = Expecting d to rest →
    becomes (couriers a) d (There c to) (couriers a') → same (guests a) (guests a') →
    accepts a (Drive d from to) a'
| acc_pay c l rest d a' :
    couriers a d = There c l → guests a c = Expecting d l rest →
    becomes (couriers a) d (Off l) (couriers a') → becomes (guests a) c (Home rest) (guests a') →
    accepts a (Pay c d) a'.

Inductive accepts_all : office → list pizza_call → office → Prop :=
| all_nil a a' : same (couriers a) (couriers a') → same (guests a) (guests a') → accepts_all a [] a'
| all_cons a e a1 l a2 : accepts a e a1 → accepts_all a1 l a2 → accepts_all a (e :: l) a2.

(** Drivers and customers agree on who is with whom. *)
Record paired (a : office) : Prop := {
  pd_sent d c l : couriers a d = Sent c l → ∃ l' rest, guests a c = Expecting d l' rest;
  pd_there d c l : couriers a d = There c l → ∃ rest, guests a c = Expecting d l rest;
  pd_guest c d l rest : guests a c = Expecting d l rest → (∃ l', couriers a d = Sent c l') ∨ couriers a d = There c l;
}.

Lemma same_trans {A} (f g h : nat → A) : same f g → same g h → same f h.
Proof. intros Hf Hg k. by rewrite Hg. Qed.

Lemma same_becomes {A} (f g : nat → A) i v h : same f g → becomes g i v h → becomes f i v h.
Proof. intros Hf Hg k. by rewrite Hg, Hf. Qed.

Lemma accepts_same a a1 e a' :
  same (couriers a) (couriers a1) → same (guests a) (guests a1) → accepts a1 e a' → accepts a e a'.
Proof.
  intros Hc Hg He. assert (∀ k v, couriers a1 k = v → couriers a k = v) as Hk by (intros k v; by rewrite Hc).
  assert (∀ k v, guests a1 k = v → guests a k = v) as Hgk by (intros k v; by rewrite Hg).
  inversion He; subst; [eapply acc_driver_ready|eapply acc_customer_ready|eapply acc_match|eapply acc_drive|eapply acc_pay];
    eauto using same_trans, same_becomes.
  intros c' m rest' d' m' Hgc Hcc. rewrite <- Hg in Hgc. rewrite <- Hc in Hcc. eauto.
Qed.

Lemma all_snoc a l a1 e a2 : accepts_all a l a1 → accepts a1 e a2 → accepts_all a (l ++ [e]) a2.
Proof.
  induction 1 as [a a' Hc Hg|a e' a1 l a' He _ IH]; intros Ha; simpl.
  - eapply all_cons; [by eapply accepts_same|by constructor].
  - eapply all_cons; [done|by apply IH].
Qed.

Lemma all_same_r a l a1 a2 :
  accepts_all a l a1 → same (couriers a1) (couriers a2) → same (guests a1) (guests a2) → accepts_all a l a2.
Proof.
  induction 1 as [a a' Hc Hg|a e' a1 l a' He _ IH]; intros Hc2 Hg2.
  - constructor; intros k; [by rewrite Hc2|by rewrite Hg2].
  - eapply all_cons; [done|by apply IH].
Qed.

Lemma all_app a l a1 l' a2 : accepts_all a l a1 → accepts_all a1 l' a2 → accepts_all a (l ++ l') a2.
Proof.
  intros Hl Hl'. revert l Hl. induction Hl' as [a1 a2 Hc Hg|a1 e b l' a2 He _ IH]; intros l Hl.
  - rewrite app_nil_r. by eapply all_same_r.
  - rewrite (cons_middle e l l'), app_assoc. apply IH. by eapply all_snoc.
Qed.

Lemma paired_same a a' : same (couriers a) (couriers a') → same (guests a) (guests a') → paired a → paired a'.
Proof.
  intros Hc Hg [H1 H2 H3]. split.
  - intros d c l. rewrite Hc, Hg. apply H1.
  - intros d c l. rewrite Hc, Hg. apply H2.
  - intros c d l rest. rewrite Hc, Hg. apply H3.
Qed.

Lemma accepts_paired a e a' : accepts a e a' → paired a → paired a'.
Proof.
  intros He [H1 H2 H3]. inversion He as [d l ? Hd Hc Hg|c l rest ? Hh Hc Hg|c l rest d l' ? Hh Hd _ Hc Hg|c to rest d from ? Hd Hh Hc Hg|c l rest d ? Hd Hh Hc Hg]; subst;
    (split; [intros d0 c0 l0|intros d0 c0 l0|intros c0 d0 l0 rest0]); rewrite ?Hc, ?Hg; repeat case_decide; subst; intros Heq; simplify_eq;
    first [destruct (H1 _ _ _ Heq) as (? & ? & ?)|destruct (H2 _ _ _ Heq) as (? & ?)|destruct (H3 _ _ _ _ Heq) as [[? ?]|?]|idtac];
    simplify_eq; eauto; try congruence; try (right; congruence).
Qed.

(** ** The state of the program as an office *)

(** A driver that has called [drive] is at the customer's location, though the
    object does not yet say so. *)
Definition courier_of (s : dispatch) (d : driver) (p : driver_point) : courier :=
  match p with
  | DriverStart => Off (d_location d)
  | TestMatched | WaitMatched => if d_matched d then Sent (assigned_customer d) (d_location d) else Ready (d_location d)
  | Deliver c => Sent c (d_location d)
  | Arrive c => There c (match customers s !! c with Some r => c_location r | None => d_location d end)
  | TestPaid | WaitPaid => if paid d then Off (d_location d) else There (assigned_customer d) (d_location d)
  end.

Definition guest_of (c : customer) (p : customer_point) : guest :=
  match p with
  | CustomerStart => Home (requests c)
  | CustomerDone => Home []
  | CustomerTest | CustomerWait =>
      match c_status c with
      | Finished => Home []
      | Available => Hungry (c_location c) (requests c)
      | Unavailable => Expecting (assigned_driver c) (c_location c) (requests c)
      end
  end.

Definition abs_courier (s : dispatch) (j : nat) : courier :=
  match drivers s !! j with Some d => courier_of s d (driver_at s j) | None => Off (Location 0 0) end.
Definition abs_guest (s : dispatch) (i : nat) : guest :=
  match customers s !! i with Some c => guest_of c (customer_at s i) | None => Home [] end.
Definition abs (s : dispatch) : office := Office (abs_courier s) (abs_guest s).

(** ** Invariant *)

Definition driver_local (j : nat) (d : driver) (p : driver_point) : Prop :=
  d_id d = j ∧ near (d_location d) ∧
  match p with
  | DriverStart => d_status d = Unavailable
  | WaitMatched => d_status d = Available ∧ d_matched d = false ∧ paid d = false
  | TestMatched => paid d = false ∧ d_status d = if d_matched d then Unavailable else Available
  | Deliver c | Arrive c => d_status d = Unavailable ∧ paid d = false ∧ assigned_customer d = c
  | WaitPaid => d_status d = Unavailable ∧ paid d = false
  | TestPaid => d_status d = Unavailable ∧ paid d = true
  end.

Definition customer_local (i : nat) (c : customer) (p : customer_point) : Prop :=
  c_id c = i ∧ Forall near (requests c) ∧
  match p with
  | CustomerStart => c_status c = Unavailable
  | CustomerDone => c_status c = Finished
  | CustomerTest | CustomerWait =>
      match c_status c with
      | Finished => p = CustomerTest
      | Available => near (c_location c) ∧ has_pizza c = false ∧ c_matched c = false
      | Unavailable => near (c_location c) ∧ c_matched c = true ∧ (has_pizza c = true → p = CustomerTest)
      end
  end.

(** A customer who expects a driver has the pizza exactly when the driver waits
    for the money. *)
Definition pizza_ok (s : dispatch) (i : nat) (c : customer) : Prop :=
  ∀ j l rest, abs_guest s i = Expecting j l rest → has_pizza c = bool_decide (driver_at s j = WaitPaid).

Record dispatch_inv (s : dispatch) : Prop := {
  di_driver j d : drivers s !! j = Some d → driver_local j d (driver_at s j);
  di_customer i c : customers s !! i = Some c → customer_local i c (customer_at s i);
  di_pizza i c : customers s !! i = Some c → pizza_ok s i c;
  di_manager : manager_at s = ManagerWait → has_available_delivery (customers s) (drivers s) = false;
  di_paired : paired (abs s);
}.

(** ** Projections of assignments *)

Lemma alter_lookup {A} (f : A → A) i (l : list A) k :
  alter f i l !! k = if decide (k = i) then f <$> l !! k else l !! k.
Proof. case_decide as Hk; [subst; apply list_lookup_alter_eq|by apply list_lookup_alter_ne]. Qed.

Lemma insert_fn {A} (f : nat → A) i v k : (<[i := v]> f) k = if decide (k = i) then v else f k.
Proof. case_decide as Hk; [subst; apply fn_lookup_insert|by apply fn_lookup_insert_ne]. Qed.

Lemma existsb_fmap {A B} (g : A → B) (p : B → bool) (l : list A) : existsb (λ a, p (g a)) l = existsb p (g <$> l).
Proof. induction l as [|a l IH]; simpl; [done|]. by rewrite IH. Qed.

Lemma fmap_alter_same {A B} (g : A → B) (f : A → A) i (l : list A) :
  (∀ a, l !! i = Some a → g (f a) = g a) → g <$> alter f i l = g <$> l.
Proof.
  intros Hf. apply list_eq. intros k. rewrite !list_lookup_fmap, alter_lookup. case_decide; [|done]. subst.
  destruct (l !! i) as [a|]; [|done]. simpl. by rewrite Hf.
Qed.

(** Whether there is work depends on the statuses only. *)
Lemma available_statuses cs cs' ds ds' :
  c_status <$> cs' = c_status <$> cs → d_status <$> ds' = d_status <$> ds →
  has_available_delivery cs' ds' = has_available_delivery cs ds.
Proof.
  intros Hc Hd. unfold has_available_delivery.
  assert (∀ cs, existsb customer_is_ready cs = existsb (λ x, bool_decide (x = Available)) (c_status <$> cs)) as Hcs
    by (intros l; by rewrite <- existsb_fmap).
  assert (∀ ds, existsb driver_is_ready ds = existsb (λ x, bool_decide (x = Available)) (d_status <$> ds)) as Hds
    by (intros l; by rewrite <- existsb_fmap).
  by rewrite !Hcs, !Hds, Hc, Hd.
Qed.

(** ** Steps *)

(** The invariant holds behind the step, and the specification accepts its calls. *)
Definition step_ok (s s' : dispatch) : Prop :=
  dispatch_inv s' ∧ ∃ l, calls s' = calls s ++ l ∧ accepts_all (abs s) l (abs s').

Lemma accepts_all_paired a l a' : accepts_all a l a' → paired a → paired a'.
Proof. induction 1; intros Hp; [by eapply paired_same|eauto using accepts_paired]. Qed.

(** A step that changes at most the driver [j] and the customer [i]. *)
Lemma step_good s s' l i j :
  dispatch_inv s →
  (∀ k, k ≠ j → drivers s' !! k = drivers s !! k ∧ driver_at s' k = driver_at s k) →
  (∀ k, k ≠ i → customers s' !! k = customers s !! k ∧ customer_at s' k = customer_at s k) →
  (∀ d, drivers s' !! j = Some d → driver_local j d (driver_at s' j)) →
  (∀ c, customers s' !! i = Some c → customer_local i c (customer_at s' i) ∧ pizza_ok s' i c) →
  (∀ k m rest, k ≠ i → abs_guest s k = Expecting j m rest → driver_at s' j = WaitPaid ↔ driver_at s j = WaitPaid) →
  (∀ k m, k ≠ j → abs_courier s k = There i m → c_location <$> customers s' !! i = c_location <$> customers s !! i) →
  (manager_at s' = ManagerWait → has_available_delivery (customers s') (drivers s') = false) →
  calls s' = calls s ++ l →
  accepts_all (abs s) l (Office (<[j := abs_courier s' j]> (abs_courier s)) (<[i := abs_guest s' i]> (abs_guest s))) →
  step_ok s s'.
Proof.
  intros [I1 I2 I3 I4 I5] Hd Hc Hdj Hci Hw Hl Hm Hcalls Hacc.
  assert (∀ k, k ≠ i → abs_guest s' k = abs_guest s k) as Hgk.
  { intros k Hk. destruct (Hc k Hk) as [H1 H2]. unfold abs_guest. by rewrite H1, H2. }
  assert (∀ k, k ≠ j → abs_courier s' k = abs_courier s k) as Hck.
  { intros k Hk. destruct (Hd k Hk) as [H1 H2]. pose proof (Hl k) as Hlk. unfold abs_courier in *. rewrite H1, H2.
    destruct (drivers s !! k) as [d|]; [|done]. destruct (driver_at s k) as [| | | |c| |]; try done. simpl. f_equal.
    destruct (decide (c = i)) as [->|Hci']; [|by destruct (Hc c Hci') as [-> _]].
    specialize (Hlk _ Hk eq_refl). by destruct (customers s' !! i), (customers s !! i); simplify_eq/=. }
  assert (accepts_all (abs s) l (abs s')) as Hacc'.
  { eapply all_same_r; [exact Hacc| |]; intros k; simpl; rewrite insert_fn; case_decide as Hk; subst; auto. }
  split; [|by exists l]. split; [| | |done|by eapply accepts_all_paired].
  - intros k d Hk. destruct (decide (k = j)) as [->|Hne]; [auto|]. destruct (Hd k Hne) as [H1 ->]. apply I1. congruence.
  - intros k c Hk. destruct (decide (k = i)) as [->|Hne]; [by apply Hci|]. destruct (Hc k Hne) as [H1 ->]. apply I2. congruence.
  - intros k c Hk. destruct (decide (k = i)) as [->|Hne]; [by apply Hci|]. destruct (Hc k Hne) as [H1 H2].
    intros j' m rest. rewrite Hgk by done. intros Hg. rewrite (I3 k c) with (1 := eq_trans (eq_sym H1) Hk) (2 := Hg).
    destruct (decide (j' = j)) as [->|Hj]; [|by destruct (Hd j' Hj) as [_ ->]].
    apply bool_decide_ext. symmetry. by eapply Hw.
Qed.

Lemma insert_same {A} (f : nat → A) i v : f i = v → same f (<[i := v]> f).
Proof. intros Hv k. rewrite insert_fn. case_decide; by subst. Qed.

Lemma insert_becomes {A} (f : nat → A) i v : becomes f i v (<[i := v]> f).
Proof. intros k. apply insert_fn. Qed.

Lemma same_refl {A} (f : nat → A) : same f f.
Proof. done. Qed.
#[local] Hint Resolve insert_same insert_becomes same_refl : core.

Lemma no_work s s' :
  dispatch_inv s → c_status <$> customers s' = c_status <$> customers s → d_status <$> drivers s' = d_status <$> drivers s →
  manager_at s' = manager_at s →
  manager_at s' = ManagerWait → has_available_delivery (customers s') (drivers s') = false.
Proof. intros Hi Hc Hd Hm Hw. rewrite (available_statuses _ _ _ _ Hc Hd). apply (di_manager _ Hi). congruence. Qed.

(** Only the driver [j] changes. *)
Lemma driver_step s s' l j d :
  dispatch_inv s → drivers s !! j = Some d →
  customers s' = customers s → customer_at s' = customer_at s →
  (∀ k, k ≠ j → drivers s' !! k = drivers s !! k ∧ driver_at s' k = driver_at s k) →
  (∀ d', drivers s' !! j = Some d' → driver_local j d' (driver_at s' j)) →
  (driver_at s' j = WaitPaid ↔ driver_at s j = WaitPaid) →
  (manager_at s' = ManagerWait → has_available_delivery (customers s') (drivers s') = false) →
  calls s' = calls s ++ l →
  accepts_all (abs s) l (Office (<[j := abs_courier s' j]> (abs_courier s)) (abs_guest s)) →
  step_ok s s'.
Proof.
  intros Hi Hj Hcs Hca Hk Hl Hw Hm Hcalls Hacc.
  assert (customers s !! length (customers s) = None) as Hnone by by apply lookup_ge_None_2.
  apply (step_good s s' l (length (customers s)) j); try done.
  - intros k _. by rewrite Hcs, Hca.
  - intros c. by rewrite Hcs, Hnone.
  - by rewrite Hcs.
  - eapply all_same_r; [exact Hacc|done|]. simpl. apply insert_same. unfold abs_guest. by rewrite Hcs, Hnone.
Qed.

(** Only the customer [i] changes. *)
Lemma customer_step s s' l i c :
  dispatch_inv s → customers s !! i = Some c →
  drivers s' = drivers s → driver_at s' = driver_at s →
  (∀ k, k ≠ i → customers s' !! k = customers s !! k ∧ customer_at s' k = customer_at s k) →
  (∀ c', customers s' !! i = Some c' → customer_local i c' (customer_at s' i) ∧ pizza_ok s' i c') →
  (∀ k m, abs_courier s k = There i m → c_location <$> customers s' !! i = c_location <$> customers s !! i) →
  (manager_at s' = ManagerWait → has_available_delivery (customers s') (drivers s') = false) →
  calls s' = calls s ++ l →
  accepts_all (abs s) l (Office (abs_courier s) (<[i := abs_guest s' i]> (abs_guest s))) →
  step_ok s s'.
Proof.
  intros Hi Hc Hds Hda Hk Hl Hloc Hm Hcalls Hacc.
  assert (drivers s !! length (drivers s) = None) as Hnone by by apply lookup_ge_None_2.
  apply (step_good s s' l i (length (drivers s))); try done.
  - intros k _. by rewrite Hds, Hda.
  - intros d. by rewrite Hds, Hnone.
  - intros k m rest _ _. by rewrite Hda.
  - intros k m _. apply Hloc.
  - eapply all_same_r; [exact Hacc| |done]. simpl. apply insert_same. unfold abs_courier. by rewrite Hds, Hnone.
Qed.

Lemma abs_courier_at s j d p : drivers s !! j = Some d → driver_at s j = p → abs_courier s j = courier_of s d p.
Proof. intros Hd Hp. unfold abs_courier. by rewrite Hd, Hp. Qed.

Lemma abs_guest_at s i c p : customers s !! i = Some c → customer_at s i = p → abs_guest s i = guest_of c p.
Proof. intros Hc Hp. unfold abs_guest. by rewrite Hc, Hp. Qed.

(** What an assignment to an element leaves in it. *)
Ltac at_index := simpl; rewrite ?alter_lookup, ?insert_fn, ?decide_True by done; simpl.

(** *** Drivers *)

(** [ready_up] of a driver that is off, and its signal. *)
Lemma ready_driver_ok s j d :
  dispatch_inv s → drivers s !! j = Some d → abs_courier s j = Off (d_location d) → driver_at s j ≠ WaitPaid →
  step_ok s (move_driver j TestMatched (signal_manager (ready_driver j d s))).
Proof.
  intros Hi Hj Ha Hp. destruct (di_driver _ Hi _ _ Hj) as (Hid & Hn & _).
  apply (driver_step s _ [DriverReady j (d_location d)] j d); try done; simpl.
  - intros k Hk. by rewrite alter_lookup, insert_fn, !decide_False.
  - intros d'. rewrite alter_lookup, insert_fn, !decide_True, Hj by done. intros [= <-]. by split.
  - rewrite insert_fn, decide_True by done. by split.
  - unfold woken_manager. by destruct (manager_at s).
  - by rewrite Hid.
  - eapply all_cons; [|by constructor]. apply acc_driver_ready; [done| |done].
    rewrite (abs_courier_at _ j (driver_ready_up d).2 TestMatched); [apply insert_becomes| |]; at_index; by rewrite ?Hj.
Qed.

(** A driver's place changes, and nothing that the specification sees. *)
Lemma move_driver_ok s j d p :
  dispatch_inv s → drivers s !! j = Some d → driver_local j d p → courier_of s d p = courier_of s d (driver_at s j) →
  (p = WaitPaid ↔ driver_at s j = WaitPaid) → step_ok s (move_driver j p s).
Proof.
  intros Hi Hj Hl Hp Hw. apply (driver_step s _ [] j d); try done; simpl.
  - intros k Hk. by rewrite insert_fn, decide_False.
  - intros d'. rewrite Hj, insert_fn, decide_True by done. by intros [= <-].
  - by rewrite insert_fn, decide_True.
  - apply (di_manager _ Hi).
  - by rewrite app_nil_r.
  - constructor; [|done]. apply insert_same. rewrite (abs_courier_at s j d _ Hj eq_refl), <- Hp.
    symmetry. change (courier_of s d p) with (courier_of (move_driver j p s) d p). apply abs_courier_at; [done|by at_index].
Qed.

Lemma driver_sent s j c l : dispatch_inv s → abs_courier s j = Sent c l → ∃ r, customers s !! c = Some r ∧
  (customer_at s c = CustomerTest ∨ customer_at s c = CustomerWait) ∧ c_status r = Unavailable ∧ assigned_driver r = j.
Proof.
  intros Hi Ha. destruct (pd_sent _ (di_paired _ Hi) j c l Ha) as (l' & rest & Hg). simpl in Hg. unfold abs_guest in Hg.
  destruct (customers s !! c) as [r|] eqn:Hr; [|done]. exists r.
  destruct (customer_at s c); simpl in Hg; try done; destruct (c_status r) eqn:Hst; simplify_eq; auto.
Qed.

(** [deliver_pizza]. *)
Lemma deliver_ok s j d c r :
  dispatch_inv s → drivers s !! j = Some d → driver_at s j = Deliver c → customers s !! c = Some r →
  step_ok s (move_driver j (Arrive c) (emit (deliver_pizza d r) s)).
Proof.
  intros Hi Hj Hp Hr. destruct (di_driver _ Hi _ _ Hj) as (Hid & Hn & Hl). rewrite Hp in Hl.
  pose proof (abs_courier_at s j d _ Hj Hp) as Ha. simpl in Ha.
  destruct (driver_sent s j c _ Hi Ha) as (r' & Hr' & Hat & Hst & Has). simplify_eq.
  assert (abs_guest s c = Expecting (d_id d) (c_location r) (requests r)) as Hg.
  { unfold abs_guest. rewrite Hr. destruct Hat as [-> | ->]; simpl; by rewrite Hst, Has. }
  apply (driver_step s _ [Drive (d_id d) (d_location d) (c_location r)] (d_id d) d); try done; simpl.
  - intros k Hk. by rewrite insert_fn, decide_False.
  - rewrite Hj, insert_fn, decide_True by done. by intros _ [= <-].
  - by rewrite insert_fn, decide_True, Hp.
  - apply (di_manager _ Hi).
  - eapply all_cons; [|by constructor]. eapply acc_drive; [done|done| |done].
    rewrite (abs_courier_at _ (d_id d) d (Arrive c)); [|done|by at_index]. simpl. rewrite Hr. apply insert_becomes.
Qed.

(** The driver is there, gives the customer the pizza and waits for the money. *)
Lemma arrive_ok s j d c r :
  dispatch_inv s → drivers s !! j = Some d → driver_at s j = Arrive c → customers s !! c = Some r →
  step_ok s (move_driver j WaitPaid (signal_customer c (on_customer c receive_pizza (on_driver j (set_location (c_location r)) s)))).
Proof.
  intros Hi Hj Hp Hr. destruct (di_driver _ Hi _ _ Hj) as (Hid & Hn & Hl). rewrite Hp in Hl. destruct Hl as (Hds & Hpd & Has).
  pose proof (abs_courier_at s j d _ Hj Hp) as Ha. simpl in Ha. rewrite Hr in Ha.
  destruct (pd_there _ (di_paired _ Hi) j c _ Ha) as (rest & Hg). simpl in Hg.
  destruct (di_customer _ Hi _ _ Hr) as (Hcid & Hreq & Hcl).
  assert ((customer_at s c = CustomerTest ∨ customer_at s c = CustomerWait) ∧ c_status r = Unavailable ∧
    assigned_driver r = j ∧ rest = requests r) as (Hat & Hst & Hasd & ->).
  { unfold abs_guest in Hg. rewrite Hr in Hg. destruct (customer_at s c); simpl in Hg; try done; destruct (c_status r); simplify_eq; auto. }
  set (s' := move_driver _ _ _).
  assert (woken_customer (customer_at s c) = CustomerTest) as Hwk by by destruct Hat as [-> | ->].
  assert (near (c_location r) ∧ c_matched r = true) as [Hnr Hmr] by (destruct Hat as [Hat|Hat]; rewrite Hat, Hst in Hcl; naive_solver).
  assert (drivers s' !! j = Some (set_location (c_location r) d) ∧ driver_at s' j = WaitPaid) as [Hj' Hp'] by (split; at_index; by rewrite ?Hj).
  assert (customers s' !! c = Some (receive_pizza r) ∧ customer_at s' c = CustomerTest) as [Hr' Hat'] by (split; at_index; by rewrite ?Hr, ?Hwk).
  pose proof (abs_guest_at _ _ _ _ Hr' Hat') as Hg'. simpl in Hg'. rewrite Hst, Hasd in Hg'.
  apply (step_good s s' [] c j Hi).
  - intros k Hk. simpl. by rewrite alter_lookup, insert_fn, !decide_False.
  - intros k Hk. simpl. by rewrite alter_lookup, insert_fn, !decide_False.
  - rewrite Hj', Hp'. intros _ [= <-]. by split.
  - rewrite Hr', Hat'. intros _ [= <-]. split; [split; [done|split; [done|]]; simpl; by rewrite Hst|].
    intros j' m rest. rewrite Hg'. intros [= <- _ _]. by rewrite Hp'.
  - intros k m rest Hk Hgk. destruct (pd_guest _ (di_paired _ Hi) k j m rest Hgk) as [[? Hx]|Hx]; simpl in Hx; congruence.
  - intros k m _ _. by rewrite Hr', Hr.
  - apply (no_work s); [done| | |done]; simpl; apply fmap_alter_same; by intros [].
  - simpl. by rewrite app_nil_r.
  - constructor; apply insert_same.
    + simpl. rewrite Ha. symmetry. rewrite (abs_courier_at _ _ _ _ Hj' Hp'). simpl. by rewrite Hpd, Has.
    + simpl. by rewrite Hg, Hg'.
Qed.

Lemma run_driver_ok s j :
  dispatch_inv s → j < length (drivers s) →
  match run_driver j s with
  | Next s' => step_ok s s'
  | Blocked => driver_at s j = WaitMatched ∨ driver_at s j = WaitPaid
  | Undefined => False
  end.
Proof.
  intros Hi [d Hj]%lookup_lt_is_Some_2. pose proof (di_driver _ Hi _ _ Hj) as Hloc. pose proof Hloc as (Hid & Hn & Hl).
  unfold run_driver. rewrite Hj. destruct (driver_at s j) as [| | |c|c| |] eqn:Hp; auto.
  - apply ready_driver_ok; try done; [by rewrite (abs_courier_at _ _ _ _ Hj Hp)|by rewrite Hp].
  - destruct Hl as [Hpd Hst]. destruct (d_matched d) eqn:Hm; rewrite ?Hm in Hst; simpl.
    + pose proof (abs_courier_at s j d _ Hj Hp) as Ha. simpl in Ha. rewrite Hm in Ha.
      destruct (driver_sent s j _ _ Hi Ha) as (r & Hr & _). rewrite Hr.
      apply (move_driver_ok s j d); [done|done|by (split; [done|by split])| |by rewrite Hp]. rewrite Hp. simpl. by rewrite Hm.
    + apply (move_driver_ok s j d); [done|done|by (split; [done|by split])| |by rewrite Hp]. rewrite Hp. simpl. by rewrite Hm.
  - pose proof (abs_courier_at s j d _ Hj Hp) as Ha. destruct (driver_sent s j _ _ Hi Ha) as (r & Hr & _). rewrite Hr.
    by eapply deliver_ok.
  - pose proof (abs_courier_at s j d _ Hj Hp) as Ha.
    destruct (pd_there _ (di_paired _ Hi) j c _ Ha) as (rest & Hg). simpl in Hg. unfold abs_guest in Hg.
    destruct (customers s !! c) as [r|] eqn:Hr; [|done].
    unfold driver_until_paid. simpl. rewrite alter_lookup, decide_True, Hj by done. simpl. destruct Hl as (_ & -> & _). simpl.
    by eapply arrive_ok.
  - unfold driver_until_paid. rewrite Hj. destruct Hl as [Hst Hpd]. rewrite Hpd. simpl.
    apply ready_driver_ok; try done; [|by rewrite Hp]. rewrite (abs_courier_at _ _ _ _ Hj Hp). simpl. by rewrite Hpd.
Qed.

(** *** Customers *)

Lemma guest_not_expected s i k m : dispatch_inv s → (∀ d l rest, abs_guest s i ≠ Expecting d l rest) → abs_courier s k ≠ There i m.
Proof. intros Hi Hg Ha. destruct (pd_there _ (di_paired _ Hi) k i m Ha) as (rest & Hx). by eapply Hg. Qed.

(** Where a customer is whom [ready_up] has made ready, or finished. *)
Lemma ready_up_local i c p :
  c_id c = i → Forall near (requests c) →
  (if decide (requests c = []) then p = CustomerTest ∨ p = CustomerDone else p = CustomerTest ∨ p = CustomerWait) →
  customer_local i (customer_ready_up c).2 p.
Proof.
  intros Hid Hreq Hp. unfold customer_ready_up. destruct (requests c) as [|front rest] eqn:Hr; simpl in *.
  - split; [done|]. simpl. split; [done|]. destruct Hp as [-> | ->]; done.
  - apply Forall_cons in Hreq as [Hf Hrest]. split; [done|split; [done|]]. destruct Hp as [-> | ->]; done.
Qed.

Lemma ready_up_guest c p :
  (if decide (requests c = []) then p = CustomerTest ∨ p = CustomerDone else p = CustomerTest ∨ p = CustomerWait) →
  guest_of (customer_ready_up c).2 p = match requests c with [] => Home [] | front :: rest => Hungry front rest end.
Proof. unfold customer_ready_up. destruct (requests c) as [|front rest]; simpl; intros [-> | ->]; done. Qed.

(** The calls of [ready_up] are those of a customer at home. *)
Lemma ready_up_accepted a i c v :
  c_id c = i → guests a i = Home (requests c) →
  v = match requests c with [] => Home [] | front :: rest => Hungry front rest end →
  accepts_all a (customer_ready_up c).1 (Office (couriers a) (<[i := v]> (guests a))).
Proof.
  intros Hid Hg ->. unfold customer_ready_up. destruct (requests c) as [|front rest]; simpl.
  - constructor; simpl; auto.
  - eapply all_cons; [|by constructor]. rewrite Hid. by apply (acc_customer_ready a i front rest).
Qed.

Lemma customer_start_ok s i c :
  dispatch_inv s → customers s !! i = Some c → customer_at s i = CustomerStart →
  step_ok s (move_customer i CustomerTest (signal_manager (ready_customer i c s))).
Proof.
  intros Hi Hc Hp. destruct (di_customer _ Hi _ _ Hc) as (Hid & Hreq & _). set (s' := move_customer _ _ _).
  pose proof (abs_guest_at s i c _ Hc Hp) as Hg. simpl in Hg.
  assert (customers s' !! i = Some (customer_ready_up c).2 ∧ customer_at s' i = CustomerTest) as [Hc' Hp'] by (split; at_index; by rewrite ?Hc).
  assert (if decide (requests c = []) then CustomerTest = CustomerTest ∨ CustomerTest = CustomerDone
          else CustomerTest = CustomerTest ∨ CustomerTest = CustomerWait) as Hpt by (case_decide; by left).
  pose proof (abs_guest_at _ _ _ _ Hc' Hp') as Hg'. rewrite ready_up_guest in Hg' by done.
  apply (customer_step s s' (customer_ready_up c).1 i c); try done.
  - intros k Hk. simpl. by rewrite alter_lookup, insert_fn, !decide_False.
  - rewrite Hc', Hp'. intros _ [= <-]. split; [by apply ready_up_local|]. intros j l rest. rewrite Hg'. by destruct (requests c).
  - intros k m Hk. exfalso. revert Hk. apply guest_not_expected; [done|]. intros d l rest. by rewrite Hg.
  - simpl. unfold woken_manager. by destruct (manager_at s).
  - by apply ready_up_accepted.
Qed.

(** A customer's place changes, and nothing that the specification sees. *)
Lemma move_customer_ok s i c p :
  dispatch_inv s → customers s !! i = Some c → customer_local i c p → guest_of c p = guest_of c (customer_at s i) →
  step_ok s (move_customer i p s).
Proof.
  intros Hi Hc Hl Hp. assert (abs_guest (move_customer i p s) i = abs_guest s i) as Hg.
  { rewrite (abs_guest_at s i c _ Hc eq_refl), <- Hp. apply abs_guest_at; [done|by at_index]. }
  apply (customer_step s _ [] i c); try done; simpl.
  - intros k Hk. by rewrite insert_fn, decide_False.
  - rewrite Hc, insert_fn, decide_True by done. intros _ [= <-]. split; [done|]. intros j l rest. rewrite Hg.
    apply (di_pizza _ Hi _ _ Hc).
  - apply (di_manager _ Hi).
  - by rewrite app_nil_r.
  - constructor; [done|]. apply insert_same. by rewrite Hg.
Qed.

(** The driver whom a customer with a pizza pays. *)
Lemma driver_to_pay s i c j l rest :
  dispatch_inv s → customers s !! i = Some c → has_pizza c = true → abs_guest s i = Expecting j l rest →
  ∃ d, drivers s !! j = Some d ∧ driver_at s j = WaitPaid ∧ abs_courier s j = There i l ∧ d_id d = j ∧
    near (d_location d) ∧ d_status d = Unavailable ∧ d_location d = l.
Proof.
  intros Hi Hc Hpz Hg. pose proof (di_pizza _ Hi _ _ Hc _ _ _ Hg) as Hw. rewrite Hpz in Hw. symmetry in Hw. apply bool_decide_eq_true in Hw.
  pose proof (pd_guest _ (di_paired _ Hi) i j l rest Hg) as Hpd. simpl in Hpd. unfold abs_courier in *.
  destruct (drivers s !! j) as [d|] eqn:Hd; [|naive_solver]. exists d. destruct (di_driver _ Hi _ _ Hd) as (Hid & Hn & Hl).
  rewrite Hw in *. destruct Hl as [Hst Hpaid]. simpl in *. rewrite Hpaid in *. destruct Hpd as [[? ?]|Hpd]; [done|].
  by simplify_eq.
Qed.

Definition pay_state (i j : nat) (c : customer) (d : driver) (s : dispatch) : dispatch :=
  signal_manager (ready_customer i c (signal_driver j (on_driver j recieve_payment (emit (pay_driver c d) s)))).

Lemma pay_ok s i c j d rest p :
  dispatch_inv s → customers s !! i = Some c → has_pizza c = true → abs_guest s i = Expecting j (c_location c) rest →
  rest = requests c → drivers s !! j = Some d →
  (if decide (requests c = []) then p = CustomerTest ∨ p = CustomerDone else p = CustomerTest ∨ p = CustomerWait) →
  step_ok s (move_customer i p (pay_state i j c d s)).
Proof.
  intros Hi Hc Hpz Hg -> Hd Hp. destruct (driver_to_pay s i c j _ _ Hi Hc Hpz Hg) as (d' & Hd' & Hw & Ha & Hid & Hn & Hst & Hloc).
  assert (d' = d) as -> by congruence. destruct (di_customer _ Hi _ _ Hc) as (Hcid & Hreq & _). set (s' := move_customer _ _ _).
  assert (customers s' !! i = Some (customer_ready_up c).2 ∧ customer_at s' i = p) as [Hc' Hp'] by (split; at_index; by rewrite ?Hc).
  assert (drivers s' !! j = Some (recieve_payment d) ∧ driver_at s' j = TestPaid) as [Hd'' Hw'] by (split; at_index; by rewrite ?Hd, ?Hw).
  pose proof (abs_guest_at _ _ _ _ Hc' Hp') as Hg'. rewrite ready_up_guest in Hg' by done.
  pose proof (abs_courier_at _ _ _ _ Hd'' Hw') as Ha'. simpl in Ha'.
  apply (step_good s s' ([Pay i j] ++ (customer_ready_up c).1) i j); try done.
  - intros k Hk. simpl. by rewrite alter_lookup, insert_fn, !decide_False.
  - intros k Hk. simpl. by rewrite alter_lookup, insert_fn, !decide_False.
  - rewrite Hd'', Hw'. intros _ [= <-]. by split.
  - rewrite Hc', Hp'. intros _ [= <-]. split; [by apply ready_up_local|]. intros j' l rest. rewrite Hg'. by destruct (requests c).
  - intros k m rest Hk Hgk. destruct (pd_guest _ (di_paired _ Hi) k j m rest Hgk) as [[? Hx]|Hx]; simpl in Hx; congruence.
  - intros k m Hk Hak. destruct (pd_there _ (di_paired _ Hi) k i m Hak) as (rest & Hx). simpl in Hx. congruence.
  - simpl. unfold woken_manager. by destruct (manager_at s).
  - simpl. unfold pay_driver. by rewrite Hcid, Hid, <- !app_assoc.
  - rewrite Ha', Hg', Hloc. eapply all_cons.
    + eapply (acc_pay _ i (c_location c) (requests c) j (Office (<[j := Off (c_location c)]> (abs_courier s)) (<[i := Home (requests c)]> (abs_guest s)))); done || apply insert_becomes.
    + eapply all_same_r; [apply (ready_up_accepted _ i c (match requests c with [] => Home [] | front :: rest => Hungry front rest end) Hcid); [simpl; apply fn_lookup_insert|done]|done|].
      intros k. simpl. rewrite !insert_fn. by repeat case_decide.
Qed.

Lemma run_customer_ok s i :
  dispatch_inv s → i < length (customers s) →
  match run_customer i s with
  | Next s' => step_ok s s'
  | Blocked => customer_at s i = CustomerWait ∨ customer_at s i = CustomerDone
  | Undefined => False
  end.
Proof.
  intros Hi [c Hc]%lookup_lt_is_Some_2. pose proof (di_customer _ Hi _ _ Hc) as (Hid & Hreq & Hl).
  unfold run_customer. rewrite Hc. destruct (customer_at s i) eqn:Hp; auto; [by apply customer_start_ok|].
  pose proof (abs_guest_at s i c _ Hc Hp) as Hg. simpl in Hg.
  cbn [customer_loop]. rewrite Hc. unfold is_done. destruct (c_status c) eqn:Hst; cbn [bool_decide decide_rel]; simpl.
  - destruct Hl as (Hn & Hpz & Hm). rewrite Hpz. simpl. apply (move_customer_ok s i c); try done.
    + split; [done|split; [done|]]. by rewrite Hst.
    + rewrite Hp. simpl. by rewrite Hst.
  - destruct Hl as (Hn & Hm & Hpz). rewrite Hm, orb_false_r. destruct (has_pizza c) eqn:Hhp; simpl.
    + destruct (driver_to_pay s i c _ _ _ Hi Hc Hhp Hg) as (d & Hd & _). rewrite Hd. rewrite alter_lookup, decide_True, Hc by done. simpl.
      fold (pay_state i (assigned_driver c) c d s). unfold customer_ready_up at 1 2 3. destruct (requests c) as [|front rest] eqn:Hr; simpl.
      * eapply pay_ok; try done. rewrite decide_True by done. by right.
      * eapply pay_ok; try done. rewrite decide_False by by rewrite Hr. by right.
    + apply (move_customer_ok s i c); try done.
      * split; [done|split; [done|]]. rewrite Hst. split; [done|]. split; [done|]. by rewrite Hhp.
      * rewrite Hp. simpl. by rewrite Hst.
  - apply (move_customer_ok s i c); try done.
    rewrite Hp. simpl. by rewrite Hst.
Qed.

(** *** The manager *)

Lemma customers_near s i c : dispatch_inv s → customers s !! i = Some c → c_status c = Available → near (c_location c).
Proof.
  intros Hi Hc Hst. destruct (di_customer _ Hi _ _ Hc) as (_ & _ & Hl). rewrite Hst in Hl.
  destruct (customer_at s i); naive_solver.
Qed.

Lemma drivers_near s j d : dispatch_inv s → drivers s !! j = Some d → near (d_location d).
Proof. intros Hi Hd. by destruct (di_driver _ Hi _ _ Hd) as (_ & ? & _). Qed.

(** Ready objects are those of hungry customers and ready drivers. *)
Lemma ready_customer_at s i c :
  dispatch_inv s → customers s !! i = Some c → c_status c = Available →
  abs_guest s i = Hungry (c_location c) (requests c) ∧ (customer_at s i = CustomerTest ∨ customer_at s i = CustomerWait) ∧
  c_matched c = false ∧ has_pizza c = false.
Proof.
  intros Hi Hc Hst. destruct (di_customer _ Hi _ _ Hc) as (_ & _ & Hl). unfold abs_guest. rewrite Hc.
  destruct (customer_at s i); simpl in *; rewrite Hst in *; naive_solver.
Qed.

Lemma ready_driver_at s j d :
  dispatch_inv s → drivers s !! j = Some d → d_status d = Available →
  abs_courier s j = Ready (d_location d) ∧ (driver_at s j = TestMatched ∨ driver_at s j = WaitMatched) ∧ paid d = false.
Proof.
  intros Hi Hd Hst. destruct (di_driver _ Hi _ _ Hd) as (_ & _ & Hl). unfold abs_courier. rewrite Hd.
  destruct (driver_at s j); simpl in *; rewrite Hst in *; destruct (d_matched d); naive_solver.
Qed.

Lemma hungry_ready s i l rest : dispatch_inv s → abs_guest s i = Hungry l rest →
  ∃ c, customers s !! i = Some c ∧ c_status c = Available ∧ l = c_location c.
Proof.
  intros Hi. unfold abs_guest. destruct (customers s !! i) as [c|] eqn:Hc; [|done]. intros Hg. exists c. split; [done|].
  destruct (customer_at s i); simpl in Hg; try done; destruct (c_status c) eqn:Hst; by simplify_eq.
Qed.

Lemma courier_ready s j l : dispatch_inv s → abs_courier s j = Ready l →
  ∃ d, drivers s !! j = Some d ∧ d_status d = Available ∧ l = d_location d.
Proof.
  intros Hi. unfold abs_courier. destruct (drivers s !! j) as [d|] eqn:Hd; [|done]. intros Hg. exists d. split; [done|].
  destruct (di_driver _ Hi _ _ Hd) as (_ & _ & Hl).
  destruct (driver_at s j); simpl in *; try done; try destruct (d_matched d); try destruct (paid d); simplify_eq; naive_solver.
Qed.

Lemma closest_first s i c j d :
  dispatch_inv s → customers s !! i = Some c → drivers s !! j = Some d → closest (customers s) (drivers s) i j →
  first_closest (abs s) i (c_location c) j (d_location d).
Proof.
  intros Hi Hc Hd (n & Hn & Hmin) i' m rest j' m' Hg Hcr. apply pair_dist_inv in Hn as (c1 & d1 & Hc1 & Hd1 & _ & _ & ->). simplify_eq.
  destruct (hungry_ready _ _ _ _ Hi Hg) as (c' & Hc' & Hst & ->). destruct (courier_ready _ _ _ Hi Hcr) as (d' & Hd' & Hst' & ->).
  apply Hmin. unfold pair_dist, customer_is_ready, driver_is_ready. rewrite Hc'. simpl. rewrite Hd'. simpl. by rewrite Hst, Hst'.
Qed.

Definition match_state (i j ci dj : nat) (l : list pizza_call) (s : dispatch) : dispatch :=
  signal_customer ci (signal_driver dj (on_customer i (λ c, set_driver dj (customer_set_unavailable c))
    (on_driver j (λ d, set_customer ci (driver_set_unavailable d)) (emit l s)))).

Lemma match_ok s i j c d :
  dispatch_inv s → manager_at s = ManagerTest → customers s !! i = Some c → drivers s !! j = Some d →
  c_status c = Available → d_status d = Available → closest (customers s) (drivers s) i j →
  step_ok s (match_state i j i j [Match i j] s).
Proof.
  intros Hi Hm Hc Hd Hst Hst' Hcl.
  destruct (ready_customer_at s i c Hi Hc Hst) as (Hg & Hat & Hcm & Hpz).
  destruct (ready_driver_at s j d Hi Hd Hst') as (Ha & Hat' & Hpd). set (s' := match_state _ _ _ _ _ _).
  destruct (di_customer _ Hi _ _ Hc) as (Hcid & Hreq & _). destruct (di_driver _ Hi _ _ Hd) as (Hdid & Hn & _).
  assert (woken_customer (customer_at s i) = CustomerTest) as Hwc by by destruct Hat as [-> | ->].
  assert (woken_driver (driver_at s j) = TestMatched) as Hwd by by destruct Hat' as [-> | ->].
  assert (customers s' !! i = Some (set_driver j (customer_set_unavailable c)) ∧ customer_at s' i = CustomerTest) as [Hc' Hp']
    by (split; at_index; by rewrite ?Hc, ?Hwc).
  assert (drivers s' !! j = Some (set_customer i (driver_set_unavailable d)) ∧ driver_at s' j = TestMatched) as [Hd' Hq']
    by (split; at_index; by rewrite ?Hd, ?Hwd).
  pose proof (abs_guest_at _ _ _ _ Hc' Hp') as Hg'. pose proof (abs_courier_at _ _ _ _ Hd' Hq') as Ha'. simpl in Hg', Ha'.
  assert (driver_at s j ≠ WaitPaid) as Hnw by by destruct Hat' as [-> | ->].
  apply (step_good s s' [Match i j] i j); try done.
  - intros k Hk. simpl. by rewrite alter_lookup, insert_fn, !decide_False.
  - intros k Hk. simpl. by rewrite alter_lookup, insert_fn, !decide_False.
  - rewrite Hd', Hq'. intros _ [= <-]. by split.
  - rewrite Hc', Hp'. intros _ [= <-]. split; [split; [done|split; [done|]]; simpl; split; [by eapply customers_near|done]|].
    intros j' m rest. rewrite Hg'. intros [= <- _ _]. rewrite Hq'. by rewrite bool_decide_eq_false_2.
  - intros k m rest _ _. by rewrite Hq'.
  - intros k m _ Hk. exfalso. revert Hk. apply guest_not_expected; [done|]. intros ???. by rewrite Hg.
  - simpl. by rewrite Hm.
  - eapply all_cons; [|by constructor]. eapply acc_match; [done|done|by apply closest_first| |].
    + simpl. rewrite Ha'. apply insert_becomes.
    + simpl. rewrite Hg'. apply insert_becomes.
Qed.

Lemma move_manager_ok s :
  dispatch_inv s → has_available_delivery (customers s) (drivers s) = false → step_ok s (move_manager ManagerWait s).
Proof.
  intros [I1 I2 I3 I4 I5] Hw. split; [by split|]. exists []. simpl. rewrite app_nil_r. split; [done|]. by constructor.
Qed.

Lemma run_manager_ok s :
  dispatch_inv s →
  match run_manager s with Next s' => step_ok s s' | Blocked => manager_at s = ManagerWait | Undefined => False end.
Proof.
  intros Hi. unfold run_manager. destruct (manager_at s) eqn:Hm; [|done].
  destruct (has_available_delivery (customers s) (drivers s)) eqn:Hw; simpl; [|by apply move_manager_ok].
  apply available_pair in Hw as (i0 & j0 & n0 & Hn0).
  pose proof (match_delivery_ok (customers s) (drivers s) ltac:(intros i c; apply customers_near; done)
    ltac:(intros j d; apply drivers_near; done)) as Hmd.
  destruct (match_delivery _ _) as [[l [i j]]|]; [|by rewrite Hmd in Hn0].
  destruct Hmd as (c & d & Hc & Hd & -> & Hcl). rewrite Hc, Hd.
  destruct (di_customer _ Hi _ _ Hc) as (Hcid & _). destruct (di_driver _ Hi _ _ Hd) as (Hdid & _). rewrite Hcid, Hdid.
  pose proof Hcl as (n & Hn & _). apply pair_dist_inv in Hn as (c1 & d1 & Hc1 & Hd1 & Hst & Hst' & _). simplify_eq.
  by eapply match_ok.
Qed.

(** *** Every step *)

Definition waiting (s : dispatch) (t : pizza_thread) : Prop :=
  match t with
  | TManager => manager_at s = ManagerWait
  | TDriver j => driver_at s j = WaitMatched ∨ driver_at s j = WaitPaid
  | TCustomer i => customer_at s i = CustomerWait ∨ customer_at s i = CustomerDone
  end.

Lemma run_thread_ok s t :
  dispatch_inv s → exists_thread s t →
  match run_thread t s with Next s' => step_ok s s' | Blocked => waiting s t | Undefined => False end.
Proof. destruct t as [|j|i]; simpl; [intros Hi _; by apply run_manager_ok|apply run_driver_ok|apply run_customer_ok]. Qed.

Lemma pizza_steps_ok s ts s' : dispatch_inv s → pizza_steps s ts s' → step_ok s s'.
Proof.
  intros Hi Hs. induction Hs as [s|s t s1 ts s2 Ht Hr _ IH].
  - split; [done|]. exists []. rewrite app_nil_r. split; [done|by constructor].
  - pose proof (run_thread_ok s t Hi Ht) as Hok. rewrite Hr in Hok. destruct Hok as [Hi1 (l & Hl & Ha)].
    destruct (IH Hi1) as [Hi2 (l' & Hl' & Ha')]. split; [done|]. exists (l ++ l'). split; [by rewrite Hl', Hl, app_assoc|].
    by eapply all_app.
Qed.
