(* ===== verification/PizzaCorrect.v ===== *)
(** * The pizza dispatcher: correctness

    The program starts in a state that satisfies the invariant, every run ends,
    and when it has ended every customer has got and paid every pizza. *)
From stdpp Require Import functions.
From S2P Require Import Prelude Request Pizza PizzaMatch PizzaInv.

(** ** The start *)

Lemma load_customers_spec open_file garbage k names cs :
  load_customers open_file garbage k names = Started cs →
  length cs = length names ∧
  ∀ i c, cs !! i = Some c → ∃ name reqs, names !! i = Some name ∧ create_requests open_file name = Started reqs ∧
    c = new_customer (garbage (k + i)) (k + i) reqs.
Proof.
  revert k cs. induction names as [|name names IH]; intros k cs; cbn [load_customers].
  { intros [= <-]. by split. }
  unfold mbind, started_bind. destruct (create_requests open_file name) as [reqs| |] eqn:Hr; try done.
  destruct (load_customers open_file garbage (S k) names) as [cs'| |] eqn:Hl; try done. intros [= <-].
  destruct (IH _ _ Hl) as [Hlen Hcs]. split; [simpl; by rewrite Hlen|]. intros [|i] c; simpl.
  - intros [= <-]. exists name, reqs. by rewrite Nat.add_0_r.
  - intros Hc. destruct (Hcs i c Hc) as (name' & reqs' & Hn & Hr' & ->). exists name', reqs'. by rewrite Nat.add_succ_r.
Qed.

(** The objects as the constructors leave them, before any thread runs. *)
Record started_state (s : dispatch) : Prop := {
  st_driver j d : drivers s !! j = Some d → d_id d = j ∧ d_status d = Unavailable ∧ d_location d = Location 0 0;
  st_customer i c : customers s !! i = Some c → c_id c = i ∧ c_status c = Unavailable ∧ Forall u32_location (requests c);
  st_driver_at j : driver_at s j = DriverStart;
  st_customer_at i : customer_at s i = CustomerStart;
  st_manager : manager_at s = ManagerTest;
  st_calls : calls s = [];
  st_drivers : drivers s ≠ [];
  st_customers : customers s ≠ [];
}.

Lemma start_dispatch_spec open_file garbage garbage_d argv s :
  start_dispatch open_file garbage garbage_d argv = Started s → started_state s.
Proof.
  unfold start_dispatch, mbind, started_bind. destruct (load_input argv) as [[nd nc]| |] eqn:Hin; try done.
  destruct (load_customers open_file garbage 0 (drop 2 argv)) as [cs| |] eqn:Hl; try done. intros [= <-].
  apply load_customers_spec in Hl as [Hlen Hcs].
  assert (0 < nd ∧ 0 < len argv - 2)%Z as [Hnd Hnc].
  { revert Hin. unfold load_input. destruct argv as [|a [|argv1 argv]]; try done. destruct (stoi argv1) as [[n|]|]; try done.
    destruct (Z.leb_spec (len (a :: argv1 :: argv) - 2) 0); [done|]. destruct (Z.leb_spec n 0); [done|]. by intros [= <- _]. }
  split; simpl; try done.
  - intros j d. rewrite list_lookup_fmap. intros (k & Hk & ->)%fmap_Some. apply lookup_seq in Hk as [-> _]. done.
  - intros i c Hc. destruct (Hcs i c Hc) as (name & reqs & _ & Hr & ->). split; [done|]. split; [done|]. simpl.
    unfold create_requests in Hr. destruct (open_file name) as [text|]; [|done].
    assert (read_requests (S (length text)) text = reqs) as <- by congruence. apply read_requests_u32.
  - destruct (Z.to_nat nd) eqn:Hz; [lia|done].
  - intros ->. rewrite length_drop in Hlen. unfold len in Hnc. simpl in Hlen. lia.
Qed.

(** All requests of all customers are near enough. *)
Definition all_near (s : dispatch) : Prop := ∀ i c, customers s !! i = Some c → Forall near (requests c).

Lemma started_inv s : started_state s → all_near s → dispatch_inv s.
Proof.
  intros [H1 H2 H3 H4 H5 H6 H7 H8] Hn.
  assert (∀ i, ∃ l, abs_guest s i = Home l) as Hg.
  { intros i. unfold abs_guest. destruct (customers s !! i); [|by eexists]. rewrite H4. by eexists. }
  assert (∀ j, ∃ l, abs_courier s j = Off l) as Hc.
  { intros j. unfold abs_courier. destruct (drivers s !! j); [|by eexists]. rewrite H3. by eexists. }
  split.
  - intros j d Hd. destruct (H1 j d Hd) as (Hid & Hst & Hl). rewrite H3. split; [done|]. split; [by rewrite Hl|done].
  - intros i c Hcu. destruct (H2 i c Hcu) as (Hid & Hst & _). rewrite H4. split; [done|]. split; [by eapply Hn|done].
  - intros i c _ j l rest. destruct (Hg i) as [m ->]. done.
  - by rewrite H5.
  - split; simpl.
    + intros d c l. destruct (Hc d) as [m ->]. done.
    + intros d c l. destruct (Hc d) as [m ->]. done.
    + intros c d l rest. destruct (Hg c) as [m ->]. done.
Qed.

(** The office at the beginning: all drivers off at the origin, all customers at
    home. *)
Definition opening (s : dispatch) : office :=
  Office (λ _, Off (Location 0 0)) (λ i, Home (match customers s !! i with Some c => requests c | None => [] end)).

Lemma opening_abs s : started_state s → same (couriers (opening s)) (abs_courier s) ∧ same (guests (opening s)) (abs_guest s).
Proof.
  intros [H1 H2 H3 H4 H5 H6 H7 H8]. split; intros k; simpl.
  - unfold abs_courier. destruct (drivers s !! k) as [d|] eqn:Hd; [|done]. rewrite H3. simpl. by destruct (H1 k d Hd) as (_ & _ & ->).
  - unfold abs_guest. destruct (customers s !! k); [|done]. by rewrite H4.
Qed.

Lemma run_accepted s ts s' :
  started_state s → all_near s → pizza_steps s ts s' → dispatch_inv s' ∧ accepts_all (opening s) (calls s') (abs s').
Proof.
  intros Hs Hn Hst. destruct (pizza_steps_ok _ _ _ (started_inv _ Hs Hn) Hst) as [Hi (l & Hl & Ha)]. split; [done|].
  rewrite Hl, (st_calls _ Hs). simpl. destruct (opening_abs _ Hs) as [H1 H2].
  change l with ([] ++ l). eapply all_app; [|exact Ha]. by constructor.
Qed.

(** ** Every run ends

    A measure that every step decreases: what each thread can still do with the
    requests that are left. *)

Fixpoint sum_upto (n : nat) (f : nat → nat) : nat :=
  match n with O => 0 | S n => sum_upto n f + f n end.

Lemma sum_upto_ext n f g : (∀ k, k < n → g k = f k) → sum_upto n g = sum_upto n f.
Proof. induction n as [|n IH]; intros He; simpl; [done|]. rewrite IH, He; auto. Qed.

Lemma sum_upto_change n f g j :
  (∀ k, k ≠ j → g k = f k) → (n <= j → g j = f j) → sum_upto n g + f j = sum_upto n f + g j.
Proof.
  intros He Hj. induction n as [|n IH]; simpl; [rewrite Hj; lia|].
  destruct (decide (j = n)) as [->|Hne]; [|rewrite (He n) by done; enough (sum_upto n g + f j = sum_upto n f + g j) by lia; apply IH; intros; apply Hj; lia].
  rewrite (sum_upto_ext n f g) by (intros; apply He; lia). lia.
Qed.

Definition manager_weight (p : manager_point) : nat := match p with ManagerTest => 1 | ManagerWait => 0 end.

Definition driver_weight (d : driver) (p : driver_point) : nat :=
  match p with
  | DriverStart => 3
  | TestMatched => if d_matched d then 7 else 1
  | WaitMatched => 0
  | Deliver _ => 6
  | Arrive _ => 5
  | TestPaid | WaitPaid => 3
  end.

Definition customer_weight (c : customer) (p : customer_point) : nat :=
  match p with
  | CustomerStart => 3 + 10 * length (requests c)
  | CustomerDone => 0
  | CustomerTest | CustomerWait =>
      (if decide (p = CustomerTest) then 1 else 0) +
      match c_status c with
      | Finished => 0
      | Available => 10 + 10 * length (requests c)
      | Unavailable => 1 + 10 * length (requests c)
      end
  end.

Definition driver_work (s : dispatch) (j : nat) : nat :=
  match drivers s !! j with Some d => driver_weight d (driver_at s j) | None => 0 end.
Definition customer_work (s : dispatch) (i : nat) : nat :=
  match customers s !! i with Some c => customer_weight c (customer_at s i) | None => 0 end.
Definition measure (s : dispatch) : nat :=
  manager_weight (manager_at s) + sum_upto (length (drivers s)) (driver_work s) + sum_upto (length (customers s)) (customer_work s).

(** A step that changes at most the driver [j], the customer [i] and the manager. *)
Lemma measure_change s s' i j :
  length (drivers s') = length (drivers s) → length (customers s') = length (customers s) →
  (∀ k, k ≠ j → drivers s' !! k = drivers s !! k ∧ driver_at s' k = driver_at s k) →
  (∀ k, k ≠ i → customers s' !! k = customers s !! k ∧ customer_at s' k = customer_at s k) →
  manager_weight (manager_at s') + driver_work s' j + customer_work s' i <
    manager_weight (manager_at s) + driver_work s j + customer_work s i →
  measure s' < measure s.
Proof.
  intros Hld Hlc Hd Hc Hw. unfold measure. rewrite Hld, Hlc.
  assert (sum_upto (length (drivers s)) (driver_work s') + driver_work s j =
          sum_upto (length (drivers s)) (driver_work s) + driver_work s' j) as H1.
  { apply sum_upto_change.
    - intros k Hk. unfold driver_work. by destruct (Hd k Hk) as [-> ->].
    - intros Hj. unfold driver_work. rewrite (lookup_ge_None_2 (drivers s)) by done.
      rewrite (lookup_ge_None_2 (drivers s')) by lia. done. }
  assert (sum_upto (length (customers s)) (customer_work s') + customer_work s i =
          sum_upto (length (customers s)) (customer_work s) + customer_work s' i) as H2.
  { apply sum_upto_change.
    - intros k Hk. unfold customer_work. by destruct (Hc k Hk) as [-> ->].
    - intros Hj. unfold customer_work. rewrite (lookup_ge_None_2 (customers s)) by done.
      rewrite (lookup_ge_None_2 (customers s')) by lia. done. }
  lia.
Qed.

Lemma driver_work_at s j d p : drivers s !! j = Some d → driver_at s j = p → driver_work s j = driver_weight d p.
Proof. intros Hd Hp. unfold driver_work. by rewrite Hd, Hp. Qed.

Lemma customer_work_at s i c p : customers s !! i = Some c → customer_at s i = p → customer_work s i = customer_weight c p.
Proof. intros Hc Hp. unfold customer_work. by rewrite Hc, Hp. Qed.

Lemma woken_manager_weight p : manager_weight (woken_manager p) <= 1.
Proof. by destruct p; simpl; lia. Qed.

Lemma woken_customer_weight c p : customer_weight c (woken_customer p) <= customer_weight c p + 1.
Proof. destruct p; simpl; lia. Qed.

(** Closes the side conditions of [measure_change] about what a step leaves alone. *)
Ltac left_alone := first
  [ done | simpl; by rewrite ?length_alter
  | intros k Hk; simpl; by rewrite ?alter_lookup, ?insert_fn, ?decide_False ].

Lemma measure_driver s s' j d d' p' :
  customers s' = customers s → customer_at s' = customer_at s → length (drivers s') = length (drivers s) →
  (∀ k, k ≠ j → drivers s' !! k = drivers s !! k ∧ driver_at s' k = driver_at s k) →
  drivers s !! j = Some d → drivers s' !! j = Some d' → driver_at s' j = p' →
  manager_weight (manager_at s') + driver_weight d' p' < manager_weight (manager_at s) + driver_weight d (driver_at s j) →
  measure s' < measure s.
Proof.
  intros Hc Hca Hlen Hk Hd Hd' Hp' Hw. apply (measure_change s s' (length (customers s)) j); try done.
  - by rewrite Hc.
  - intros k _. by rewrite Hc, Hca.
  - rewrite (driver_work_at s j d _ Hd eq_refl), (driver_work_at s' j d' p' Hd' Hp'). unfold customer_work. rewrite Hc, Hca. lia.
Qed.

Lemma measure_customer s s' i c c' p' :
  drivers s' = drivers s → driver_at s' = driver_at s → length (customers s') = length (customers s) →
  (∀ k, k ≠ i → customers s' !! k = customers s !! k ∧ customer_at s' k = customer_at s k) →
  customers s !! i = Some c → customers s' !! i = Some c' → customer_at s' i = p' →
  manager_weight (manager_at s') + customer_weight c' p' < manager_weight (manager_at s) + customer_weight c (customer_at s i) →
  measure s' < measure s.
Proof.
  intros Hd Hda Hlen Hk Hc Hc' Hp' Hw. apply (measure_change s s' i (length (drivers s))); try done.
  - by rewrite Hd.
  - intros k _. by rewrite Hd, Hda.
  - rewrite (customer_work_at s i c _ Hc eq_refl), (customer_work_at s' i c' p' Hc' Hp'). unfold driver_work. rewrite Hd, Hda. lia.
Qed.

Lemma run_driver_measure s j s' :
  dispatch_inv s → run_driver j s = Next s' → measure s' < measure s.
Proof.
  intros Hi. unfold run_driver. destruct (drivers s !! j) as [d|] eqn:Hd; [|done].
  destruct (di_driver _ Hi _ _ Hd) as (_ & _ & Hl).
  assert (2 < driver_weight d (driver_at s j) →
    measure (move_driver j TestMatched (signal_manager (ready_driver j d s))) < measure s) as Hready.
  { intros Hw. eapply (measure_driver _ _ j d (driver_ready_up d).2 TestMatched); try left_alone; [at_index; by rewrite Hd|by at_index|].
    pose proof (woken_manager_weight (manager_at s)). simpl. lia. }
  assert (∀ p, driver_weight d p < driver_weight d (driver_at s j) → measure (move_driver j p s) < measure s) as Hmove.
  { intros p Hw. eapply (measure_driver _ _ j d d p); try left_alone; [by at_index|simpl; lia]. }
  destruct (driver_at s j) as [| | |c|c| |] eqn:Hp; try done.
  - intros [= <-]. apply Hready; simpl; lia.
  - destruct (d_matched d) eqn:Hm; simpl; [destruct (customers s !! assigned_customer d); [|done]|]; intros [= <-]; apply Hmove; simpl; rewrite Hm; lia.
  - destruct (customers s !! c) as [r|]; [|done]. intros [= <-].
    eapply (measure_driver _ _ j d d (Arrive c)); try left_alone; [by at_index|rewrite Hp; simpl; lia].
  - destruct (customers s !! c) as [r|] eqn:Hr; [|done]. unfold driver_until_paid. simpl. rewrite alter_lookup, decide_True, Hd by done. simpl.
    destruct Hl as (_ & -> & _). simpl. intros [= <-]. set (s' := move_driver _ _ _).
    apply (measure_change s s' c j); try left_alone.
    rewrite (driver_work_at s j d _ Hd Hp), (driver_work_at s' j (set_location (c_location r) d) WaitPaid) by (at_index; by rewrite ?Hd).
    rewrite (customer_work_at s c r _ Hr eq_refl), (customer_work_at s' c (receive_pizza r) (woken_customer (customer_at s c))) by (at_index; by rewrite ?Hr).
    pose proof (woken_customer_weight r (customer_at s c)) as Hwc.
    assert (customer_weight (receive_pizza r) (woken_customer (customer_at s c)) = customer_weight r (woken_customer (customer_at s c))) as -> by done.
    change (manager_at s') with (manager_at s). simpl. lia.
  - unfold driver_until_paid. rewrite Hd. destruct Hl as [_ ->]. simpl. intros [= <-]. apply Hready; simpl; lia.
Qed.

Lemma ready_up_weight c p :
  customer_weight (customer_ready_up c).2 p <=
    match p with CustomerDone => 0 | CustomerStart => 3 + 10 * length (requests c) | CustomerWait => 10 * length (requests c)
               | CustomerTest => 1 + 10 * length (requests c) end.
Proof. unfold customer_ready_up. destruct (requests c) as [|l rest] eqn:Hr; destruct p; simpl; rewrite ?Hr; simpl; lia. Qed.

Lemma run_customer_measure s i s' :
  dispatch_inv s → run_customer i s = Next s' → measure s' < measure s.
Proof.
  intros Hi. unfold run_customer. destruct (customers s !! i) as [c|] eqn:Hc; [|done].
  destruct (di_customer _ Hi _ _ Hc) as (_ & _ & Hl).
  assert (∀ p, customer_weight c p < customer_weight c (customer_at s i) → measure (move_customer i p s) < measure s) as Hmove.
  { intros p Hw. eapply (measure_customer _ _ i c c p); try left_alone; [by at_index|simpl; lia]. }
  destruct (customer_at s i) eqn:Hp; try done.
  - intros [= <-]. eapply (measure_customer _ _ i c (customer_ready_up c).2 CustomerTest); try left_alone; [at_index; by rewrite Hc|by at_index|].
    pose proof (woken_manager_weight (manager_at s)). pose proof (ready_up_weight c CustomerTest). rewrite Hp. simpl in *. lia.
  - pose proof (abs_guest_at s i c _ Hc Hp) as Hg. simpl in Hg. cbn [customer_loop]. rewrite Hc. unfold is_done.
    destruct (c_status c) eqn:Hst; cbn [bool_decide decide_rel]; simpl.
    + destruct Hl as (_ & Hpz & _). rewrite Hpz. simpl. intros [= <-]. apply Hmove. simpl. rewrite Hst. simpl. lia.
    + destruct Hl as (_ & Hm & _). rewrite Hm, orb_false_r. destruct (has_pizza c) eqn:Hhp; simpl;
        [|intros [= <-]; apply Hmove; simpl; rewrite Hst; simpl; lia].
      destruct (driver_to_pay s i c _ _ _ Hi Hc Hhp Hg) as (d & Hd & Hw & _). rewrite Hd. rewrite alter_lookup, decide_True, Hc by done. simpl.
      set (j := assigned_driver c) in *. fold (pay_state i j c d s).
      assert (∀ p, p = CustomerDone ∨ p = CustomerWait → measure (move_customer i p (pay_state i j c d s)) < measure s) as Hpay.
      { intros p Hpp. set (s2 := move_customer _ _ _). apply (measure_change s s2 i j); try left_alone.
        rewrite (driver_work_at s j d _ Hd Hw), (driver_work_at s2 j (recieve_payment d) TestPaid) by (at_index; by rewrite ?Hd, ?Hw).
        rewrite (customer_work_at s i c _ Hc Hp), (customer_work_at s2 i (customer_ready_up c).2 p) by (at_index; by rewrite ?Hc).
        pose proof (woken_manager_weight (manager_at s)). pose proof (ready_up_weight c p).
        change (manager_at s2) with (woken_manager (manager_at s)). simpl. rewrite Hst. simpl. destruct Hpp as [-> | ->]; lia. }
      unfold customer_ready_up at 1 2 3. destruct (requests c); simpl; intros [= <-]; apply Hpay; auto.
    + intros [= <-]. apply Hmove. simpl. rewrite Hst. simpl. lia.
Qed.

Lemma run_manager_measure s s' :
  dispatch_inv s → run_manager s = Next s' → measure s' < measure s.
Proof.
  intros Hi. unfold run_manager. destruct (manager_at s) eqn:Hm; [|done].
  destruct (has_available_delivery (customers s) (drivers s)) eqn:Hw; simpl.
  2: { intros [= <-]. unfold measure, driver_work, customer_work. simpl. rewrite Hm. simpl. lia. }
  pose proof (match_delivery_ok (customers s) (drivers s) ltac:(intros i c; apply customers_near; done)
    ltac:(intros j d; apply drivers_near; done)) as Hmd.
  destruct (match_delivery _ _) as [[l [i j]]|]; [|done].
  destruct Hmd as (c & d & Hc & Hd & -> & n & Hn & _). rewrite Hc, Hd.
  apply pair_dist_inv in Hn as (c1 & d1 & Hc1 & Hd1 & Hst & Hst' & _). simplify_eq.
  destruct (di_customer _ Hi _ _ Hc) as (Hcid & _). destruct (di_driver _ Hi _ _ Hd) as (Hdid & _). rewrite Hcid, Hdid.
  intros [= <-]. fold (match_state i j i j [Match i j] s). set (s' := match_state _ _ _ _ _ _).
  destruct (ready_customer_at s i c Hi Hc Hst) as (_ & Hat & _). destruct (ready_driver_at s j d Hi Hd Hst') as (_ & Hat' & _).
  apply (measure_change s s' i j); try left_alone.
  rewrite (driver_work_at s j d _ Hd eq_refl), (driver_work_at s' j (set_customer i (driver_set_unavailable d)) TestMatched)
    by (at_index; rewrite ?Hd; done || by destruct Hat' as [-> | ->]).
  rewrite (customer_work_at s i c _ Hc eq_refl), (customer_work_at s' i (set_driver j (customer_set_unavailable c)) CustomerTest)
    by (at_index; rewrite ?Hc; done || by destruct Hat as [-> | ->]).
  change (manager_at s') with (manager_at s). simpl. destruct Hat as [-> | ->]; simpl; rewrite Hst; simpl; lia.
Qed.

Lemma run_thread_measure s t s' : dispatch_inv s → run_thread t s = Next s' → measure s' < measure s.
Proof. destruct t; simpl; [apply run_manager_measure|apply run_driver_measure|apply run_customer_measure]. Qed.

Lemma steps_measure s ts s' : dispatch_inv s → pizza_steps s ts s' → length ts + measure s' <= measure s.
Proof.
  intros Hi Hs. induction Hs as [s|s t s1 ts s2 Ht Hr Hs IH]; simpl; [lia|].
  pose proof (run_thread_measure s t s1 Hi Hr) as Hm. pose proof (run_thread_ok s t Hi Ht) as Hok. rewrite Hr in Hok.
  destruct Hok as [Hi1 _]. specialize (IH Hi1). lia.
Qed.

(** ** When it has ended *)

(** [existsb], read backwards. *)
Lemma existsb_false_lookup {A} (p : A → bool) l k a : existsb p l = false → l !! k = Some a → p a = false.
Proof.
  intros He Hk. destruct (p a) eqn:Hp; [|done]. rewrite <- He. symmetry. apply existsb_exists. exists a.
  split; [apply list_elem_of_In; by eapply list_elem_of_lookup_2|done].
Qed.

Lemma stuck_drivers s j d :
  dispatch_inv s → (∀ t, exists_thread s t → waiting s t) → drivers s !! j = Some d → driver_at s j = WaitMatched.
Proof.
  intros Hi Hw Hd. destruct (Hw (TDriver j)) as [|Hp]; [by eapply lookup_lt_Some|done|]. exfalso.
  destruct (di_driver _ Hi _ _ Hd) as (_ & _ & Hl). rewrite Hp in Hl. destruct Hl as [_ Hpd].
  pose proof (abs_courier_at s j d _ Hd Hp) as Ha. simpl in Ha. rewrite Hpd in Ha.
  destruct (pd_there _ (di_paired _ Hi) j _ _ Ha) as (rest & Hg). simpl in Hg. set (i := assigned_customer d) in *.
  destruct (customers s !! i) as [c|] eqn:Hc; [|unfold abs_guest in Hg; by rewrite Hc in Hg].
  pose proof (di_pizza _ Hi _ _ Hc _ _ _ Hg) as Hpz. rewrite Hp, bool_decide_eq_true_2 in Hpz by done.
  destruct (di_customer _ Hi _ _ Hc) as (_ & _ & Hl). rewrite (abs_guest_at s i c _ Hc eq_refl) in Hg.
  destruct (Hw (TCustomer i)) as [Hwt|Hwt]; [by eapply lookup_lt_Some|rewrite Hwt in *..]; simpl in Hg; [|done].
  destruct (c_status c); try done. destruct Hl as (_ & _ & Hl). by specialize (Hl Hpz).
Qed.

Lemma stuck_customers s i c :
  dispatch_inv s → (∀ t, exists_thread s t → waiting s t) → drivers s ≠ [] → customers s !! i = Some c →
  customer_at s i = CustomerDone.
Proof.
  intros Hi Hw Hne Hc. destruct (Hw (TCustomer i)) as [Hp|]; [by eapply lookup_lt_Some| |done]. exfalso.
  assert (∃ d, drivers s !! 0 = Some d) as [d Hd] by (destruct (drivers s) as [|d ds]; [done|by exists d]).
  pose proof (stuck_drivers s 0 d Hi Hw Hd) as Hd0. destruct (di_driver _ Hi _ _ Hd) as (_ & _ & Hl0). rewrite Hd0 in Hl0.
  pose proof (di_manager _ Hi (Hw TManager I)) as Hm. unfold has_available_delivery in Hm.
  destruct (di_customer _ Hi _ _ Hc) as (_ & _ & Hl). rewrite Hp in Hl.
  pose proof (abs_guest_at s i c _ Hc Hp) as Hg. simpl in Hg. destruct (c_status c) eqn:Hst; [| |done].
  - apply andb_false_iff in Hm as [Hm|Hm].
    + pose proof (existsb_false_lookup _ _ _ _ Hm Hc) as Hr. unfold customer_is_ready in Hr. by rewrite Hst in Hr.
    + pose proof (existsb_false_lookup _ _ _ _ Hm Hd) as Hr. unfold driver_is_ready in Hr. destruct Hl0 as [Hs0 _]. by rewrite Hs0 in Hr.
  - set (j := assigned_driver c) in *. pose proof (pd_guest _ (di_paired _ Hi) i j _ _ Hg) as Hpd. simpl in Hpd.
    unfold abs_courier in Hpd. destruct (drivers s !! j) as [dj|] eqn:Hdj; [|naive_solver].
    rewrite (stuck_drivers s j dj Hi Hw Hdj) in Hpd. destruct (di_driver _ Hi _ _ Hdj) as (_ & _ & Hlj).
    rewrite (stuck_drivers s j dj Hi Hw Hdj) in Hlj. destruct Hlj as (_ & Hmj & _). simpl in Hpd. rewrite Hmj in Hpd. naive_solver.
Qed.

(** *** What a customer has ordered and paid *)

Definition orders (c : nat) (l : list pizza_call) : list location_t :=
  omap (λ e, match e with CustomerReady c' p => if decide (c' = c) then Some p else None | _ => None end) l.
Definition payments (c : nat) (l : list pizza_call) : nat :=
  length (List.filter (λ e, match e with Pay c' _ => bool_decide (c' = c) | _ => false end) l).

Definition to_order (g : guest) : list location_t := match g with Home rest | Hungry _ rest | Expecting _ _ rest => rest end.
Definition owed (g : guest) : nat := match g with Home _ => 0 | _ => 1 end.

Lemma orders_cons c e l : orders c (e :: l) =
  match e with CustomerReady c' p => if decide (c' = c) then p :: orders c l else orders c l | _ => orders c l end.
Proof. unfold orders. simpl. destruct e; try done. by case_decide. Qed.

Lemma payments_cons c e l : payments c (e :: l) =
  match e with Pay c' _ => if decide (c' = c) then S (payments c l) else payments c l | _ => payments c l end.
Proof.
  unfold payments. simpl. destruct e; try done. case_decide; [by rewrite bool_decide_eq_true_2|by rewrite bool_decide_eq_false_2].
Qed.

(** Orders are the requests, in their order; every pizza is paid once. *)
Lemma accepted_accounts a l a' c :
  accepts_all a l a' →
  orders c l ++ to_order (guests a' c) = to_order (guests a c) ∧
  payments c l + owed (guests a' c) = owed (guests a c) + length (orders c l).
Proof.
  induction 1 as [a a' _ Hg|a e a1 l a2 He _ [IH1 IH2]]; [simpl; rewrite Hg; unfold orders, payments; simpl; split; [done|lia]|].
  rewrite orders_cons, payments_cons.
  inversion He as [d p ? _ _ Hg|c' p rest ? Hh _ Hg|c' p rest d p' ? Hh _ _ _ Hg|c' to rest d from ? _ Hh _ Hg|c' p rest d ? _ Hh _ Hg]; subst;
    rewrite (Hg c) in IH1, IH2; repeat case_decide; subst; try done; simpl in *; rewrite ?Hh; simpl; rewrite ?IH1; split; try done; lia.
Qed.

(** *** Sizes *)

Lemma customer_loop_lengths fuel i s s' :
  customer_loop fuel i s = Next s' → length (drivers s') = length (drivers s) ∧ length (customers s') = length (customers s).
Proof.
  revert s. induction fuel as [|fuel IH]; intros s; cbn [customer_loop]; [done|].
  destruct (customers s !! i) as [c|]; [|done]. destruct (is_done c); [by intros [= <-]|].
  destruct (negb (has_pizza c) || negb (c_matched c)); [by intros [= <-]|].
  destruct (drivers s !! assigned_driver c) as [d|]; [|done]. intros Hl. destruct (IH _ Hl) as [-> ->]. simpl. by rewrite !length_alter.
Qed.

Lemma driver_until_paid_lengths i s s' :
  driver_until_paid i s = Next s' → length (drivers s') = length (drivers s) ∧ length (customers s') = length (customers s).
Proof.
  unfold driver_until_paid. destruct (drivers s !! i) as [d|]; [|done].
  destruct (paid d); simpl; intros [= <-]; simpl; by rewrite ?length_alter.
Qed.

Lemma run_thread_lengths t s s' :
  run_thread t s = Next s' → length (drivers s') = length (drivers s) ∧ length (customers s') = length (customers s).
Proof.
  destruct t as [|j|i]; simpl.
  - unfold run_manager. destruct (manager_at s); [|done]. destruct (has_available_delivery _ _); simpl; [|by intros [= <-]].
    destruct (match_delivery _ _) as [[l [i j]]|]; [|done]. destruct (customers s !! i); [|done]. destruct (drivers s !! j); [|done].
    intros [= <-]. simpl. by rewrite !length_alter.
  - unfold run_driver. destruct (drivers s !! j) as [d|]; [|done]. destruct (driver_at s j) as [| | |c|c| |]; try done.
    + intros [= <-]. simpl. by rewrite length_alter.
    + destruct (d_matched d); simpl; [destruct (customers s !! _); [|done]|]; by intros [= <-].
    + destruct (customers s !! c); [|done]. by intros [= <-].
    + destruct (customers s !! c); [|done]. intros [-> ->]%driver_until_paid_lengths. simpl. by rewrite !length_alter.
    + apply driver_until_paid_lengths.
  - unfold run_customer. destruct (customers s !! i) as [c|]; [|done]. destruct (customer_at s i); try done.
    + intros [= <-]. simpl. by rewrite length_alter.
    + apply customer_loop_lengths.
Qed.

(** *** The threads of the program *)

Definition all_threads (s : dispatch) : list pizza_thread :=
  TManager :: (TDriver <$> seq 0 (length (drivers s))) ++ (TCustomer <$> seq 0 (length (customers s))).

Lemma exists_thread_elem s t : exists_thread s t ↔ t ∈ all_threads s.
Proof.
  unfold all_threads. rewrite elem_of_cons, elem_of_app, !list_elem_of_fmap. setoid_rewrite elem_of_seq.
  destruct t as [|j|i]; simpl; split; try naive_solver lia.
Qed.

(** A state is stuck or a thread goes on. *)
Lemma stuck_or_next s :
  dispatch_inv s → stuck s ∨ ∃ t s', exists_thread s t ∧ run_thread t s = Next s'.
Proof.
  intros Hi.
  assert (∀ l : list pizza_thread, (∀ t, t ∈ l → exists_thread s t) → (∀ t, t ∈ l → run_thread t s = Blocked) ∨ ∃ t s', t ∈ l ∧ run_thread t s = Next s') as Hl.
  { induction l as [|t l IH]; intros Hall; [left; by intros t ?%elem_of_nil|].
    destruct IH as [Hb|(t' & s' & Ht' & Hr)]; [intros t' Ht'; apply Hall; by right| |right; exists t', s'; split; [by right|done]].
    pose proof (run_thread_ok s t Hi (Hall t (list_elem_of_here _ _))) as Hok.
    destruct (run_thread t s) as [s'| |] eqn:Hr; [right; exists t, s'; split; [by left|done]| |done].
    left. intros t' [->|Ht']%elem_of_cons; auto. }
  destruct (Hl (all_threads s)) as [Hb|(t & s' & Ht & Hr)].
  - intros t. by rewrite exists_thread_elem.
  - left. intros t Ht. apply Hb. by apply exists_thread_elem.
  - right. exists t, s'. split; [by apply exists_thread_elem|done].
Qed.

Lemma reaches_stuck s : dispatch_inv s → ∃ ts s', pizza_steps s ts s' ∧ stuck s'.
Proof.
  remember (measure s) as m eqn:Hm. revert s Hm. induction m as [m IH] using lt_wf_ind. intros s -> Hi.
  destruct (stuck_or_next s Hi) as [Hs|(t & s1 & Ht & Hr)]; [exists [], s; split; [constructor|done]|].
  pose proof (run_thread_ok s t Hi Ht) as Hok. rewrite Hr in Hok. destruct Hok as [Hi1 _].
  destruct (IH _ (run_thread_measure s t s1 Hi Hr) s1 eq_refl Hi1) as (ts & s' & Hts & Hs').
  exists (t :: ts), s'. split; [by econstructor|done].
Qed.

Lemma steps_lengths s ts s' :
  pizza_steps s ts s' → length (drivers s') = length (drivers s) ∧ length (customers s') = length (customers s).
Proof.
  induction 1 as [s|s t s1 ts s2 Ht Hr _ [IH1 IH2]]; [done|]. rewrite IH1, IH2. by apply run_thread_lengths in Hr.
Qed.

(** The work that there is at the start. *)
Definition initial_work (s : dispatch) : nat :=
  1 + 3 * length (drivers s) + sum_list_with (λ c, 3 + 10 * length (requests c)) (customers s).

Lemma sum_upto_list {A} (l : list A) (f : A → nat) g :
  (∀ k a, l !! k = Some a → g k = f a) → sum_upto (length l) g = sum_list_with f l.
Proof.
  induction l as [|a l IH] using rev_ind; intros Hg; [done|].
  rewrite length_app, Nat.add_1_r, sum_list_with_app. simpl. rewrite IH, (Hg (length l) a), Nat.add_0_r; [done| |].
  - by rewrite list_lookup_middle.
  - intros k b Hk. apply Hg. by apply lookup_app_l_Some.
Qed.

Lemma initial_measure s : started_state s → measure s = initial_work s.
Proof.
  intros [H1 H2 H3 H4 H5 H6 H7 H8]. unfold measure, initial_work. rewrite H5.
  rewrite (sum_upto_list (drivers s) (λ _, 3)), (sum_upto_list (customers s) (λ c, 3 + 10 * length (requests c))).
  - f_equal. simpl. f_equal. generalize (drivers s). intros l. induction l as [|d l IH]; simpl; lia.
  - intros i c Hc. unfold customer_work. by rewrite Hc, H4.
  - intros j d Hd. unfold driver_work. by rewrite Hd, H3.
Qed.

(** ** The theorems *)

(** (C37) Whatever order the threads run in, from what [main] starts: no step is
    undefined (no null pointer, no index out of range, no overflow in [calc_dist]), and the calls
    of the library are those of an office in which only the first of the closest pairs of a
    hungry customer and a ready driver is matched, a driver drives from where it is to the
    customer it was matched with, who pays that driver when it is there, and only then are both
    ready for more.  Coordinates below 2^30 are assumed. *)
Theorem pizza_refines_office open_file garbage garbage_d argv s ts s' :
  start_dispatch open_file garbage garbage_d argv = Started s → all_near s → pizza_steps s ts s' →
  accepts_all (opening s) (calls s') (abs s') ∧ ∀ t, exists_thread s' t → run_thread t s' ≠ Undefined.
Proof.
  intros Hst%start_dispatch_spec Hn Hs. destruct (run_accepted s ts s' Hst Hn Hs) as [Hi Ha]. split; [done|].
  intros t Ht Hr. pose proof (run_thread_ok s' t Hi Ht) as Hok. by rewrite Hr in Hok.
Qed.

(** (C38) Every run ends, whatever order the threads run in: it has at most
    [initial_work] steps, and until all threads wait some thread can go on.  When they all
    wait, every customer's thread has returned, and every customer has ordered its requests in
    order and paid each of them once: no wake-up is lost and nobody is forgotten. *)
Theorem pizza_serves_everyone open_file garbage garbage_d argv s ts s' :
  start_dispatch open_file garbage garbage_d argv = Started s → all_near s → pizza_steps s ts s' →
  length ts <= initial_work s ∧ (∃ ts' s'', pizza_steps s' ts' s'' ∧ stuck s'') ∧
  (stuck s' → ∀ i c, customers s !! i = Some c →
    customer_at s' i = CustomerDone ∧ orders i (calls s') = requests c ∧ payments i (calls s') = length (requests c)).
Proof.
  intros Hst%start_dispatch_spec Hn Hs. destruct (run_accepted s ts s' Hst Hn Hs) as [Hi Ha].
  pose proof (steps_measure s ts s' (started_inv _ Hst Hn) Hs) as Hm. rewrite (initial_measure s Hst) in Hm.
  split; [lia|]. split; [by apply reaches_stuck|]. intros Hstuck i c Hc.
  assert (∀ t, exists_thread s' t → waiting s' t) as Hw.
  { intros t Ht. pose proof (run_thread_ok s' t Hi Ht) as Hok. by rewrite (Hstuck t Ht) in Hok. }
  destruct (steps_lengths s ts s' Hs) as [Hld Hlc].
  destruct (lookup_lt_is_Some_2 (customers s') i) as [c' Hc']; [rewrite Hlc; by eapply lookup_lt_Some|].
  assert (drivers s' ≠ []) as Hne.
  { intros Hd. rewrite Hd in Hld. pose proof (st_drivers _ Hst) as Hds. by destruct (drivers s). }
  pose proof (stuck_customers s' i c' Hi Hw Hne Hc') as Hdone. split; [done|].
  destruct (accepted_accounts _ _ _ i Ha) as [H1 H2]. revert H1 H2. simpl. rewrite (abs_guest_at s' i c' _ Hc' Hdone), Hc. simpl.
  rewrite app_nil_r. intros -> H2. split; [done|]. lia.
Qed.

(** (C39) [match_delivery] returns the first of the closest pairs of a ready
    customer and a ready driver, in the order of the vectors, customers first, and calls
    [match] for it; it fails (a null pointer) only if [has_available_delivery] is false.
    Coordinates below 2^30 are assumed: then no distance overflows. *)
Theorem match_delivery_correct cs ds :
  (∀ i c, cs !! i = Some c → c_status c = Available → near (c_location c)) →
  (∀ j d, ds !! j = Some d → near (d_location d)) →
  match match_delivery cs ds with
  | Some (l, (i, j)) => ∃ c d, cs !! i = Some c ∧ ds !! j = Some d ∧ l = [Match (c_id c) (d_id d)] ∧ closest cs ds i j
  | None => has_available_delivery cs ds = false
  end.
Proof.
  intros Hcs Hds. pose proof (match_delivery_ok cs ds Hcs Hds) as Hm.
  destruct (match_delivery cs ds) as [[l [i j]]|]; [done|]. apply not_true_iff_false. intros (i & j & n & Hn)%available_pair.
  by rewrite Hm in Hn.
Qed.

(** (C40) A file of requests is read back to exactly its requests; whatever a file
    contains, the loop has ended after one round per character, with coordinates of 32 bits. *)
Theorem requests_round_trip l name :
  Forall u32_location l →
  create_requests (λ _, Some (print_requests l)) name = Started l ∧
  ∀ text fuel, length text < fuel →
    read_requests fuel text = read_requests (S (length text)) text ∧ Forall u32_location (read_requests fuel text).
Proof.
  intros Hl. split.
  - unfold create_requests. rewrite read_print_requests; [done|done|]. pose proof (print_requests_length l). lia.
  - intros text fuel Hf. split; [apply read_requests_fuel; lia|apply read_requests_u32].
Qed.

(** An overflow of [int]: the squares are too far from each other. *)
Lemma far_distance_overflows : calc_dist (Location 0 0) (Location (2 ^ 30) (2 ^ 30)) = None.
Proof. reflexivity. Qed.

(** Negative differences of large coordinates: the farther pair looks closer. *)
Lemma far_distance_wraps :
  calc_dist (Location 0 0) (Location (2 ^ 32 - 1) 1) = Some 0%Z ∧ calc_dist (Location 0 0) (Location 1 1) = Some 2%Z.
Proof. split; reflexivity. Qed.

(** A pair at distance -1 is never matched: the manager dereferences null. *)
Lemma distance_minus_one_is_null :
  let c := Customer 0 Available (Location (2 ^ 32 - 1) 0) [] 0 false false in
  has_available_delivery [c] [Driver 0 Available (Location 0 0) 0 false false] = true ∧
  match_delivery [c] [Driver 0 Available (Location 0 0) 0 false false] = None.
Proof. split; reflexivity. Qed.

(** [std::out_of_range] is not caught. *)
Lemma too_many_drivers_uncaught : load_input [chars "pizza"; chars "2147483648"; chars "customer.in0"] = Uncaught.
Proof. reflexivity. Qed.

(** ** Concrete runs *)

Module PizzaWitness.

(** Two customers with files of requests and two drivers. *)
Definition open_file (name : bytes) : option bytes :=
  if decide (name = chars "customer.in0") then Some (print_requests [Location 2 2; Location 0 3])
  else if decide (name = chars "customer.in1") then Some (chars " 7 1") else None.
Definition argv : list bytes := [chars "pizza"; chars "2"; chars "customer.in0"; chars "customer.in1"].
Definition garbage (i : nat) : location_t * nat * bool := (Location 99 99, 5, true).

Definition start : dispatch :=
  match start_dispatch open_file garbage (λ _, 7) argv with
  | Started s => s
  | _ => Dispatch [] [] (λ _, CustomerStart) (λ _, DriverStart) ManagerTest []
  end.

Lemma start_started : start_dispatch open_file garbage (λ _, 7) argv = Started start.
Proof. vm_compute. reflexivity. Qed.

Lemma start_near : all_near start.
Proof.
  intros i c Hc. assert (∃ cs, customers start = cs ∧ Forall (λ c, Forall near (requests c)) cs) as (cs & Hcs & Hall).
  { eexists. split; [vm_compute; reflexivity|]. repeat constructor; simpl; lia. }
  rewrite Hcs in Hc. by eapply Forall_lookup_1 in Hall.
Qed.

Definition exists_threadb (s : dispatch) (t : pizza_thread) : bool :=
  match t with TManager => true | TDriver i => (i <? length (drivers s))%nat | TCustomer i => (i <? length (customers s))%nat end.

Fixpoint run_schedule (ts : list pizza_thread) (s : dispatch) : option dispatch :=
  match ts with
  | [] => Some s
  | t :: ts =>
      if exists_threadb s t then match run_thread t s with Next s' => run_schedule ts s' | _ => None end else None
  end.

Lemma run_schedule_steps ts s s' : run_schedule ts s = Some s' → pizza_steps s ts s'.
Proof.
  revert s. induction ts as [|t ts IH]; intros s; cbn [run_schedule].
  - intros [= <-]. constructor.
  - destruct (exists_threadb s t) eqn:He; [|done]. destruct (run_thread t s) as [s1| |] eqn:Hr; [|done..]. intros Hs.
    apply (steps_cons s t s1); [|done|by apply IH]. destruct t; simpl in *; [done|by apply Nat.ltb_lt..].
Qed.

(** The first thread that can go on, again and again. *)
Fixpoint schedule (fuel : nat) (s : dispatch) : list pizza_thread :=
  match fuel with
  | O => []
  | S fuel =>
      let next t := match run_thread t s with Next _ => true | _ => false end in
      match List.filter next (all_threads s) with
      | [] => []
      | t :: _ => match run_thread t s with Next s' => t :: schedule fuel s' | _ => [] end
      end
  end.

Definition final : dispatch := default start (run_schedule (schedule 100 start) start).

Lemma final_steps : pizza_steps start (schedule 100 start) final.
Proof. apply run_schedule_steps. vm_compute. reflexivity. Qed.

(** All threads wait or have returned, and the pizzas are paid. *)
Example final_result :
  forallb (λ t, match run_thread t final with Blocked => true | _ => false end) (all_threads final) = true ∧
  orders 0 (calls final) = [Location 2 2; Location 0 3] ∧ payments 0 (calls final) = 2 ∧ payments 1 (calls final) = 1 ∧
  length (schedule 100 start) = 38.
Proof. vm_compute. repeat split. Qed.

Lemma pizza_refines_office_witness :
  accepts_all (opening start) (calls final) (abs final) ∧ ∀ t, exists_thread final t → run_thread t final ≠ Undefined.
Proof. exact (pizza_refines_office open_file garbage (λ _, 7) argv start _ final start_started start_near final_steps). Defined.

Lemma pizza_serves_everyone_witness :
  length (schedule 100 start) <= initial_work start ∧ (∃ ts' s'', pizza_steps final ts' s'' ∧ stuck s'') ∧
  (stuck final → ∀ i c, customers start !! i = Some c →
    customer_at final i = CustomerDone ∧ orders i (calls final) = requests c ∧ payments i (calls final) = length (requests c)).
Proof. exact (pizza_serves_everyone open_file garbage (λ _, 7) argv start _ final start_started start_near final_steps). Defined.

Definition cs : list customer :=
  [Customer 0 Unavailable (Location 0 0) [] 0 false true; Customer 1 Available (Location 3 4) [] 0 false false;
   Customer 2 Available (Location 1 1) [] 0 false false].
Definition ds : list driver := [Driver 0 Available (Location 0 0) 0 false false; Driver 1 Available (Location 2 0) 0 false false].

Lemma match_delivery_correct_witness :
  match match_delivery cs ds with
  | Some (l, (i, j)) => ∃ c d, cs !! i = Some c ∧ ds !! j = Some d ∧ l = [Match (c_id c) (d_id d)] ∧ closest cs ds i j
  | None => has_available_delivery cs ds = false
  end.
Proof.
  apply (match_delivery_correct cs ds).
  - intros [|[|[|i]]] c; [intros [= <-] [=]|intros [= <-] _; split; simpl; lia|intros [= <-] _; split; simpl; lia|done].
  - intros [|[|j]] d; [intros [= <-]; split; simpl; lia|intros [= <-]; split; simpl; lia|done].
Defined.

Example match_delivery_result : match_delivery cs ds = Some ([Match 2 0], (2, 0)).
Proof. reflexivity. Qed.

Lemma requests_round_trip_witness :
  create_requests (λ _, Some (print_requests [Location 2 2; Location 4294967295 0])) (chars "f") =
    Started [Location 2 2; Location 4294967295 0] ∧
  ∀ text fuel, length text < fuel →
    read_requests fuel text = read_requests (S (length text)) text ∧ Forall u32_location (read_requests fuel text).
Proof. apply (requests_round_trip [Location 2 2; Location 4294967295 0]). repeat constructor; simpl; lia. Defined.

End PizzaWitness.
